(* ===== verification/_CoqProject ===== *)
-Q . S2P
Prelude.v
Rust.v
Types.v
Errors.v
Json.v
Models.v
Pagination.v
PolicyChecks.v
PolicyMerge.v
Backends.v
Db.v
World.v
Float64.v
RateLimit.v
Concurrency.v
Recovery.v
Repositories.v
Metering.v
DbInvariant.v
MeteringProps.v
PricingProps.v
Listing.v
Signing.v
AppState.v
KeyStore.v
Auth.v
PolicyEngine.v
Ages.v
Staleness.v
PolicyMiddleware.v
Router.v
Retry.v
AdminValidation.v
AdminAuth.v
CacheRaces.v
Nonces.v
Admin.v
AdminProps.v
AdminCoherence.v
AdminAudit.v
Server.v
Pipeline.v
PipelineProps.v
Gateway.v
Config.v
Http.v
HttpProps.v
GatewayRuns.v
GatewayProps.v
Startup.v
Conformance.v
TestCrypto.v
ConfPolicy.v
ConfRouting.v
ConfAuth.v
ConfCore.v
ConfAdmin.v
ConfStorage.v
