(* ===== verification/Prelude.v ===== *)
(** * LLMSmartGate: a verification of the gateway

    LLMSmartGate is a gateway in front of LLM providers, written in Rust
    (src/gateway/crates/gateway/src). A data plane request is authenticated by an Ed25519
    signature, checked against the policies of its service account, counted by the rate
    and concurrency limiters, resolved to provider routes and executed with retries and
    fallback; an admin API, protected by bcrypt-hashed keys, manages tenants, service
    accounts, keys, policies and routes in PostgreSQL; Redis holds counters, nonces and a
    key cache, and moka caches hold keys, merged policies, routes and admin keys in the
    process. This library models those parts and proves what makes them correct.

    ** Files

    - [Prelude]: this header; results ([result E A] for [Result<A, E>]), computations
      ([IO W E A], state passing with errors: an error keeps the state reached), their
      lemmas, the hint database [gate] and the tactic [inv_res].
    - [Rust]: what the code uses of the language and its library: integer ranges, wrapping
      and saturating operations, ASCII and UTF-8 classification, string searches, integer
      parsing.
    - [Types] (types.rs), [Errors] (error.rs, storage/mod.rs), [Json] (serde_json values),
      [Models] (models.rs: rows, inputs, cursors, pages), [Pagination] (the shape of every
      keyset query and the walk along its cursors).
    - [PolicyChecks] (policy/model_access.rs, features.rs, quotas.rs) and [PolicyMerge]
      (the pure part of policy/engine.rs): deciding a request under a merged policy, and
      merging.
    - [Backends]: the classes [RedisServer] and [MokaCache] (operations) with [RedisLaws]
      and [MokaLaws] (their documented behaviour), each with a reference implementation
      that satisfies the laws. [Db]: the tables of src/gateway/migrations, constraint
      checks, referential actions, and the well-formedness [db_wf]. [World]: the clock,
      Redis, the database and the caches a handler shares with the rest of the system,
      and the round trips to them.
    - [Float64]: bounds on the IEEE double operations the limiter uses (Standard Library
      [SpecFloat]). [RateLimit] (policy/rate_limit.rs, headers.rs) and [Concurrency]
      (policy/concurrency.rs); [Recovery]: both give way again.
    - [Repositories] (storage/repositories): one module per repository; [Metering]
      (usage.rs and the pricing part of audit.rs): usage events and prices;
      [DbInvariant]: every statement preserves [db_wf]; [MeteringProps], [PricingProps]:
      accounting and price lookup; [Listing]: the listings along their cursors.
    - [Signing] (auth/canonical.rs, verifier.rs), [AppState] (server.rs), [KeyStore]
      (auth/key_store.rs), [Auth] (auth/middleware.rs, nonce.rs, context.rs).
    - [PolicyEngine] (the stateful part of policy/engine.rs), [PolicyMiddleware]
      (policy/middleware.rs), [Server] (the data plane of server.rs: routes and layers).
      [Pipeline] takes the middleware apart at its clock readings and round trips, for any
      number of requests in it at once, each with the policy it was evaluated to;
      [PipelineProps] shows that the steps are the code's and that the limits hold for all
      of them together.
    - [Router] (routing/router.rs, resolver.rs), [Retry] (routing/retry.rs, fallback.rs).
    - [Ages]: caches whose entries were read from the database some time ago. [Staleness]
      (the policy cache) and [CacheRaces] (both key caches, the route cache and the admin
      key cache): what they serve when fills, invalidations and changes overlap. [Nonces]:
      the nonce checks of any number of requests at once.
    - [Gateway] puts the components' systems together over one world: a step of the whole
      is one operation of one component ([gstep]), and every component sees the others'
      steps as things that leave it alone. [GatewayRuns], a small program logic, shows that
      serving a request is a run of the whole; [GatewayProps] states what follows.
    - [AdminValidation] (api/admin/mod.rs), [AdminAuth] (api/admin/auth.rs), [Admin] (the
      handlers of api/admin and their routing table in server.rs), [AdminProps],
      [AdminCoherence] and [AdminAudit] (their properties).
    - [Config] (config.rs): loading the configuration. [Http] (build_router of server.rs,
      api/health.rs): the whole service from the connection to the handlers, with
      [HttpProps]; [Startup] (main.rs, storage/postgres.rs, storage/redis.rs): the process
      up to its server, and the storage clients.
    - [Conformance], [TestCrypto] (SHA-256 and base64 in full, a keyed digest in the place
      of Ed25519) and [ConfPolicy], [ConfRouting], [ConfAuth], [ConfCore], [ConfAdmin],
      [ConfStorage]: 334 of the 362 tests in the sources' own test modules, a Module per
      source file, restated over the model and run in the kernel.

    ** How the code is modelled

    Integers are [Z] with the casts, wrap-arounds and saturations of the code written out;
    time is in milliseconds. Strings are byte strings. A struct is a record, an enum an
    inductive type, a [HashMap] or table a [gmap], a [HashSet] a [gset] whose iteration
    order is a parameter. An [async fn] that talks to a backend is a computation on the
    [World]; each round trip consumes one step of the world's script, which says how long
    it takes and whether it fails before or after its effect, so that a theorem about all
    worlds is about all delays and failures. Concurrency between requests is expressed
    by step relations ([cstep], [store_step], [gateway_step], [pstep], [key_step],
    [race_step], [fill_step], [nonce_step], and [gstep] of the whole), whose steps are the
    operations themselves; a Lua script or a statement is one step. Where a relation takes
    an operation apart, a theorem or lemma says that the operation is a run of it
    ([lookup_races], [resolve_fills], [load_admin_keys_fills], and for the whole service
    [served_requests_run]). A task that is spawned
    and forgotten runs at its place of creation and its outcome is dropped. [None] for a
    [Response] stands for a panic.

    Code outside the repository is a class: the operations, and a second class with the
    laws the proofs use ([UuidLib], [CursorCodec], [KeyCodec], [Crypto], [Bcrypt],
    [JoinOrder], [HashOrder], [Rng], [RedisServer], [MokaCache], [Web], [HttpStack],
    [PoolLib], [PgNumeric], [TextCollation]). The concrete runs and witnesses instantiate
    them with executable functions that satisfy the laws. A [Decimal] is a number of units
    of 10^-28, the finest step of the type; a NUMERIC column rounds and overflows as
    PostgreSQL's does.

    ** What the theorems show

    - The whole service: nothing but the health endpoints is reached without
      authentication ([complete_mediation]), every path leads to the one route that
      describes it ([route_table_exact]), every request is answered
      ([every_request_answered]), and a process that starts has all its backends
      ([started_gateway_complete]).
    - Everything at once: data plane and admin requests, cache fills, other processes'
      statements, in any order. Serving any request is a run of the composed system
      ([served_requests_run]); a run of the composed system is a run of each component's
      own system, so what is proved of the components holds of the whole
      ([gateway_projects]); and the limits that policies set in the tables bound what the
      gateway admits, while no nonce is accepted twice within the skew
      ([gateway_enforces_policies]), and bound the handlers running for an account at any
      time ([gateway_slots_bounded]).
    - Authentication: an accepted request is genuine ([auth_success_sound]); of two accepted
      requests with one nonce the second came a skew later (lemma [nonce_replay_refused];
      under every interleaving, above); the signed text determines the
      request ([canonical_string_injective]); a revoked key is refused from then on
      ([revoked_key_always_denied]), and under every race once the times to live of both
      caches have passed ([revoked_key_expires]).
    - Limits: at most [limit] requests per window under any schedule
      ([rate_limit_window_bound], on the double arithmetic of the code), at most [limit]
      permits at any time (lemma [concurrency_never_exceeds]); an idle caller gets its quota
      back ([rate_limit_recovers]) and leaked slots are reclaimed
      ([leaked_slots_reclaimed]); the middleware around the handler
      ([middleware_gates_handler]). For any number of requests in the middleware at once,
      every interleaving, and every change of policies meanwhile, keeps the global limit,
      the accounts' limits up to late rollbacks ([pipeline_within_limits]) and the slots
      (lemma [pipeline_slots_bounded]). Lemmas of the same files say
      what a check reports, what a rejection costs and whom, and what a rejected client is
      told ([rate_limited_client_told_when]).
    - Policies: merging and checking against a specification ([merge_policies_correct],
      [apply_policy_checks_exact]), the evaluation against the bindings in the database
      ([evaluation_enforces_bindings]), and the cache, which under every race agrees with
      the database once its time to live has passed
      ([policy_cache_eventually_consistent]).
    - Routing: retries and fallback ([retry_with_backoff_correct],
      [execute_with_fallback_correct]); the route cache under every race
      ([route_changes_settle]); plans (lemma [build_plan_correct]).
    - Storage: constraints hold in every reachable database ([reachable_db_wf]); walking a
      listing returns every row once ([listings_complete]).
    - Metering: a summary reports exactly what was recorded ([usage_accounting_exact]), a
      batch is recorded whole or not at all ([batch_insert_all_or_nothing]), rows keep
      their column types ([usage_rows_typed]); the price in effect is the latest
      ([price_lookup_latest]).
    - Admin API: authentication ([admin_auth_sound], [deactivated_admin_locked_out]; roles:
      lemma [viewer_changes_nothing]),
      invariants over all request sequences ([admin_requests_keep_invariants]), caches
      that follow the database ([admin_policy_changes_take_effect],
      [admin_route_changes_take_effect]), and an audit trail that records every change
      with its actor ([admin_changes_are_audited]).
    - Configuration: what loads and what each failure says ([config_load_exact]).
    - Defects: [future_timestamp_replay_accepted], [usage_recording_expires],
      [retries_keep_leaked_slots]; and, as lemmas, [merge_disjoint_allowlists_allow_all],
      [revocation_race_serves_revoked_key], [rollback_after_rollover_blocks],
      [late_release_overadmits], [negative_route_breaks_alias], [request_recorded_twice],
      [readiness_ignores_backends], [policy_fill_race_serves_stale].

    ** Bounds and fuel

    The loops of the code are over lists or counted ranges and are structural here
    ([retry_loop] counts down the calls left, which its theorem shows to be all of them).
    Only the walk along a listing's cursors needs fuel: [walk_pages] and [walk_listing]
    fail when it runs out, and [listings_complete] proves that one page more than there
    are rows is enough. The limiter's theorems ask for windows and limits below [2^32] and
    fewer than [2^52] checks or steps, where a double still counts exactly, and for round
    trips that end within a window of the clock reading they use ([pipeline_within_limits];
    without it the window of a grant is not the window of its count). The races ask for a
    bound [D] on the time a request holds what it read; [served_requests_run] asks that
    serving the request takes no longer than [D]. [usage_accounting_exact]
    holds up to [ROWS_MAX] = 10^8 rows: then a sum of costs has at most 28 significant
    digits, which a [Decimal] holds, and a sum of 32-bit counts fits 64 bits. A batch holds
    at most 65535 / 16 events, the bind limit of the protocol. Usage is recorded while a
    partition exists, up to July 2026.

    ** Not modelled

    The migrations runner (which nothing calls), the accept loop and the shutdown signal,
    logging and tracing (I/O and configuration of libraries), the derived serialisation of
    requests and replies (the classes [Web] and [HttpStack]), what axum and tower-http do
    inside (extractors, CORS and the body limit are given by their laws), the budgets table
    and the structs of budgets and usage events in models.rs (which no code uses), the tests of what [serde_json], [Debug] and PostgreSQL do by
    themselves, and the modules that are still empty (providers, streaming, usage
    metering, budgets, observability).

    ** Order of work

    The request path came first (authentication, policies, limits, routing), then storage
    and the admin API, the data plane pipeline and the configuration, then metering, the
    audit trail, the whole service and its start, then requests in flight together, the
    remaining caches under races and the repository's own tests, and last the composition
    of the components into the whole gateway. What is left is code of libraries and the
    parts listed above. *)

From Stdlib Require Import Ascii.
From Stdlib Require Export Lia ZifyBool ZifyN ZifyNat.
From stdpp Require Export base gmap strings list list_numbers pretty sorting.
From stdpp Require Import options.

#[export] Unset Printing Records.
Open Scope Z_scope.

Declare Scope gate_scope.
Delimit Scope gate_scope with gate.

(** ** Results: Rust's [Result<A, E>] *)

Inductive result (E A : Type) : Type :=
  | Ok (a : A)
  | Err (e : E).
Arguments Ok {E A} a.
Arguments Err {E A} e.

#[global] Instance result_ret {E} : MRet (result E) := λ A a, Ok a.
#[global] Instance result_bind {E} : MBind (result E) := λ A B f m,
  match m with Ok a => f a | Err e => Err e end.
#[global] Instance result_fmap {E} : FMap (result E) := λ A B f m,
  match m with Ok a => Ok (f a) | Err e => Err e end.
#[global] Instance result_eq_dec {E A} `{!EqDecision E, !EqDecision A} :
  EqDecision (result E A).
Proof. solve_decision. Defined.

(** [Result::map_err] *)
Definition map_err {E F A} (f : E → F) (m : result E A) : result F A :=
  match m with Ok a => Ok a | Err e => Err (f e) end.

(** [Option::ok_or_else] *)
Definition ok_or {E A} (e : E) (o : option A) : result E A :=
  match o with Some a => Ok a | None => Err e end.

(** [Result::is_ok] *)
Definition is_ok {E A} (m : result E A) : bool :=
  match m with Ok _ => true | Err _ => false end.

(** An early [return Err(e)] guarded by a condition. *)
Definition throw_if {E} (b : bool) (e : E) : result E unit :=
  if b then Err e else Ok tt.

(** A [for] loop whose body may return early with an error. *)
Fixpoint for_each {E A S} (body : S → A → result E S) (s : S) (xs : list A) : result E S :=
  match xs with
  | [] => Ok s
  | x :: xs => body s x ≫= λ s', for_each body s' xs
  end.

(** ** Computations with a world: [IO W E A]

    A handler reads and changes a world [W] and answers a [result]. *)

Definition IO (W E A : Type) : Type := W → result E A * W.

#[global] Instance io_ret {W E} : MRet (IO W E) := λ A a w, (Ok a, w).
#[global] Instance io_bind {W E} : MBind (IO W E) := λ A B f m w,
  match m w with
  | (Ok a, w') => f a w'
  | (Err e, w') => (Err e, w')
  end.

(** The [?] operator on a pure result. *)
Definition lift {W E A} (r : result E A) : IO W E A := λ w, (r, w).
Definition io_map_err {W E F A} (f : E → F) (m : IO W E A) : IO W F A := λ w,
  let '(r, w') := m w in (map_err f r, w').
(** Run [m] for its effect and hand its result over as a value. *)
Definition io_try {W E F A} (m : IO W E A) : IO W F (result E A) := λ w,
  let '(r, w') := m w in (Ok r, w').
Definition io_get {W E} : IO W E W := λ w, (Ok w, w).
Definition io_modify {W E} (f : W → W) : IO W E unit := λ w, (Ok tt, f w).
Definition io_reads {W E A} (f : W → A) : IO W E A := λ w, (Ok (f w), w).

(** ** Generic lemmas on results and computations *)

Section results.
Context {W E A B : Type}.
Implicit Types (m : result E A) (c : IO W E A).

Lemma result_bind_ok m (f : A → result E B) b :
  m ≫= f = Ok b ↔ ∃ a, m = Ok a ∧ f a = Ok b.
Proof. destruct m; cbn; naive_solver. Qed.

Lemma result_bind_err m (f : A → result E B) e :
  m ≫= f = Err e ↔ m = Err e ∨ ∃ a, m = Ok a ∧ f a = Err e.
Proof. destruct m; cbn; naive_solver. Qed.

Lemma io_bind_ok c (f : A → IO W E B) w b w' :
  (c ≫= f) w = (Ok b, w') ↔ ∃ a w1, c w = (Ok a, w1) ∧ f a w1 = (Ok b, w').
Proof. unfold mbind, io_bind. destruct (c w) as [[]]; naive_solver. Qed.

Lemma io_bind_err c (f : A → IO W E B) w e w' :
  (c ≫= f) w = (Err e, w') ↔
  c w = (Err e, w') ∨ ∃ a w1, c w = (Ok a, w1) ∧ f a w1 = (Err e, w').
Proof. unfold mbind, io_bind. destruct (c w) as [[]]; naive_solver. Qed.

Lemma map_err_ok {F} (f : E → F) m a : map_err f m = Ok a ↔ m = Ok a.
Proof. destruct m; cbn; naive_solver. Qed.

Lemma map_err_err {F} (f : E → F) m e' :
  map_err f m = Err e' ↔ ∃ e, m = Err e ∧ e' = f e.
Proof. destruct m; cbn; naive_solver. Qed.

Lemma ok_or_ok (e : E) (o : option A) a : ok_or e o = Ok a ↔ o = Some a.
Proof. destruct o; cbn; naive_solver. Qed.

Lemma io_map_err_ok {F} (f : E → F) c w a w' :
  io_map_err f c w = (Ok a, w') ↔ c w = (Ok a, w').
Proof. unfold io_map_err. destruct (c w) as [[]]; cbn; naive_solver. Qed.

Lemma io_map_err_err {F} (f : E → F) c w e' w' :
  io_map_err f c w = (Err e', w') ↔ ∃ e, c w = (Err e, w') ∧ e' = f e.
Proof. unfold io_map_err. destruct (c w) as [[]]; cbn; naive_solver. Qed.

Lemma lift_eq (r r' : result E A) (w w' : W) :
  lift r w = (r', w') ↔ r = r' ∧ w = w'.
Proof. unfold lift. naive_solver. Qed.
End results.

(** A run of a computation from its answer alone. *)
Lemma run_answer {W E A} (p : result E A * W) r : p.1 = r → p = (r, p.2).
Proof. by destruct p; intros <-. Qed.

Lemma throw_if_ok {E} b (e : E) u : throw_if b e = Ok u ↔ b = false.
Proof. destruct b, u; cbn; naive_solver. Qed.

Lemma throw_if_err {E} b (e e' : E) : throw_if b e = Err e' ↔ b = true ∧ e' = e.
Proof. destruct b; cbn; naive_solver. Qed.

(** Invariant rule for [for_each]: an assertion the body preserves holds of the
    final accumulator. *)
Lemma for_each_inv {E A S} (P : S → Prop) (body : S → A → result E S) s xs s' :
  P s → (∀ t x t', x ∈ xs → P t → body t x = Ok t' → P t') →
  for_each body s xs = Ok s' → P s'.
Proof.
  revert s. induction xs as [|x xs IH]; intros s Hs Hstep; cbn; [naive_solver|].
  intros (t & Ht & Hrest)%result_bind_ok.
  apply (IH t); [eapply Hstep; eauto; set_solver| |done].
  intros; eapply Hstep; eauto. set_solver.
Qed.

(** ** Generic lemmas on lists *)

Lemma list_filter_all {A} (P : A → Prop) `{!∀ x, Decision (P x)} (l : list A) :
  (∀ x, x ∈ l → P x) → filter P l = l.
Proof.
  induction l as [|x l IH]; intros Hl; [done|].
  rewrite filter_cons_True, IH; set_solver.
Qed.

Lemma list_filter_none {A} (P : A → Prop) `{!∀ x, Decision (P x)} (l : list A) :
  (∀ x, x ∈ l → ¬ P x) → filter P l = [].
Proof.
  induction l as [|x l IH]; intros Hl; [done|].
  rewrite filter_cons_False, IH; set_solver.
Qed.

Lemma StronglySorted_filter {A} (R : relation A) (P : A → Prop) `{!∀ x, Decision (P x)} l :
  StronglySorted R l → StronglySorted R (filter P l).
Proof.
  induction 1 as [|x l _ IH Hx]; [constructor|].
  destruct (decide (P x)); [rewrite filter_cons_True by done|by rewrite filter_cons_False].
  constructor; [done|]. rewrite Forall_forall in Hx |- *.
  intros y [_ Hy]%list_elem_of_filter. by apply Hx.
Qed.

(** ** Minimum of optional bounds ([None]: no bound) *)

Definition omin (a b : option Z) : option Z :=
  match a, b with
  | Some x, Some y => Some (Z.min x y)
  | Some x, None => Some x
  | None, o => o
  end.

#[global] Instance omin_assoc : Assoc (=) omin.
Proof. intros [a|] [b|] [c|]; cbn; try done. by rewrite Z.min_assoc. Qed.
#[global] Instance omin_comm : Comm (=) omin.
Proof. intros [a|] [b|]; cbn; try done. by rewrite Z.min_comm. Qed.
Lemma omin_none_r a : omin a None = a.
Proof. by destruct a. Qed.

(** ** Automation

    [inv_res] decomposes hypotheses saying that a composed result or computation
    answered [Ok] or [Err]; [solve_res] closes goals left trivial by it. *)

Create HintDb gate.
Create Rewrite HintDb gate.

Ltac inv_res_step :=
  match goal with
  | H : Ok _ = Ok _ |- _ => injection H as H
  | H : Err _ = Err _ |- _ => injection H as H
  | H : Ok _ = Err _ |- _ => discriminate H
  | H : Err _ = Ok _ |- _ => discriminate H
  | H : (_, _) = (_, _) |- _ => injection H as H
  | H : mret _ = Ok _ |- _ => injection H as H
  | H : mret _ _ = (_, _) |- _ => injection H as H
  | H : mret _ = Err _ |- _ => discriminate H
  | H : (_ ≫= _) = Ok _ |- _ => apply result_bind_ok in H; destruct H as (? & ? & ?)
  | H : (_ ≫= _) _ = (Ok _, _) |- _ =>
      apply io_bind_ok in H; destruct H as (? & ? & ? & ?)
  | H : map_err _ _ = Ok _ |- _ => apply map_err_ok in H
  | H : map_err _ _ = Err _ |- _ => apply map_err_err in H; destruct H as (? & ? & ?)
  | H : ok_or _ _ = Ok _ |- _ => apply ok_or_ok in H
  | H : io_map_err _ _ _ = (Ok _, _) |- _ => apply io_map_err_ok in H
  | H : io_map_err _ _ _ = (Err _, _) |- _ =>
      apply io_map_err_err in H; destruct H as (? & ? & ?)
  | H : lift _ _ = (_, _) |- _ => apply lift_eq in H; destruct H as [? ?]
  | H : throw_if _ _ = Ok _ |- _ => apply throw_if_ok in H
  | H : throw_if _ _ = Err _ |- _ => apply throw_if_err in H; destruct H as [? ?]
  end.
Ltac inv_res := repeat (inv_res_step; simplify_eq).
