(* ===== verification/Rust.v ===== *)
(** * The part of Rust and of its standard library the gateway uses

    Machine integers are [Z] with their bounds, casts and saturating operations
    written out; [str] is the byte string [string] (UTF-8, as in Rust), with the
    [str] and [char] methods the sources call; [FromStr] for integers follows the
    standard library's digit loop, error kinds included. *)

From Stdlib Require Import Ascii.
From stdpp Require Import options.
From S2P Require Import Prelude.

(** ** Machine integers *)

Definition U16_MAX : Z := 65535.
Definition U32_MAX : Z := 4294967295.
Definition U64_MAX : Z := 18446744073709551615.
Definition I32_MIN : Z := -2147483648.
Definition I32_MAX : Z := 2147483647.
Definition I64_MIN : Z := -9223372036854775808.
Definition I64_MAX : Z := 9223372036854775807.

Definition in_u32 (z : Z) : Prop := 0 ≤ z ≤ U32_MAX.
Definition in_u64 (z : Z) : Prop := 0 ≤ z ≤ U64_MAX.
Definition in_i32 (z : Z) : Prop := I32_MIN ≤ z ≤ I32_MAX.
Definition in_i64 (z : Z) : Prop := I64_MIN ≤ z ≤ I64_MAX.

(** [as u32], [as u64] and the two's complement wrap of an [i64] operation. *)
Definition as_u32 (z : Z) : Z := z mod 4294967296.
Definition as_u64 (z : Z) : Z := z mod 18446744073709551616.
Definition wrap_i64 (z : Z) : Z :=
  (z + 9223372036854775808) mod 18446744073709551616 - 9223372036854775808.
Lemma wrap_i64_id z : in_i64 z → wrap_i64 z = z.
Proof. unfold wrap_i64, in_i64, I64_MIN, I64_MAX. intros Hz. lia. Qed.

(** [saturating_sub] on unsigned operands, [saturating_mul] on [u64]. *)
Definition saturating_sub (a b : Z) : Z := Z.max 0 (a - b).
Definition saturating_mul_u64 (a b : Z) : Z := Z.min (a * b) U64_MAX.

(** ** Characters and strings *)

Definition byte_of (c : ascii) : Z := Z.of_N (N_of_ascii c).
Definition str_len (s : string) : Z := Z.of_nat (String.length s).

Fixpoint str_all (p : ascii → bool) (s : string) : bool :=
  match s with EmptyString => true | String c s => p c && str_all p s end.

Definition is_ascii_lowercase (c : ascii) : bool :=
  (97 <=? byte_of c) && (byte_of c <=? 122).
Definition is_ascii_uppercase (c : ascii) : bool :=
  (65 <=? byte_of c) && (byte_of c <=? 90).
Definition is_ascii_digit (c : ascii) : bool :=
  (48 <=? byte_of c) && (byte_of c <=? 57).
Definition is_ascii_alphanumeric (c : ascii) : bool :=
  is_ascii_lowercase c || is_ascii_uppercase c || is_ascii_digit c.

(** [str::chars]: the Unicode scalar values of a (valid) UTF-8 byte string. *)
Fixpoint utf8_decode (bs : list Z) : list Z :=
  match bs with
  | [] => []
  | b0 :: r0 =>
    if b0 <? 128 then b0 :: utf8_decode r0 else
    match r0 with
    | [] => []
    | b1 :: r1 =>
      if b0 <? 224
      then Z.lor (Z.shiftl (Z.land b0 31) 6) (Z.land b1 63) :: utf8_decode r1 else
      match r1 with
      | [] => []
      | b2 :: r2 =>
        if b0 <? 240
        then Z.lor (Z.lor (Z.shiftl (Z.land b0 15) 12) (Z.shiftl (Z.land b1 63) 6))
               (Z.land b2 63) :: utf8_decode r2 else
        match r2 with
        | [] => []
        | b3 :: r3 =>
          Z.lor (Z.lor (Z.shiftl (Z.land b0 7) 18) (Z.shiftl (Z.land b1 63) 12))
            (Z.lor (Z.shiftl (Z.land b2 63) 6) (Z.land b3 63)) :: utf8_decode r3
        end
      end
    end
  end.
Definition as_bytes (s : string) : list Z := byte_of <$> Stdlib.Strings.String.list_ascii_of_string s.
Definition chars (s : string) : list Z := utf8_decode (as_bytes s).
(** [char::is_control]: the general category Cc. *)
Definition is_control (c : Z) : bool := (c <? 32) || ((127 <=? c) && (c <=? 159)).

(** [str::strip_prefix], [str::starts_with] with a [&str] pattern. *)
Fixpoint strip_prefix (p s : string) : option string :=
  match p, s with
  | EmptyString, _ => Some s
  | String c p, String d s => if Ascii.eqb c d then strip_prefix p s else None
  | _, EmptyString => None
  end.
Definition starts_with (s p : string) : bool :=
  match strip_prefix p s with Some _ => true | None => false end.

(** [str::strip_suffix] and [str::ends_with] with an (ASCII) [char] pattern. *)
Fixpoint strip_suffix_char (x : ascii) (s : string) : option string :=
  match s with
  | EmptyString => None
  | String c EmptyString => if Ascii.eqb c x then Some EmptyString else None
  | String c s' => String c <$> strip_suffix_char x s'
  end.
Definition ends_with_char (x : ascii) (s : string) : bool :=
  match strip_suffix_char x s with Some _ => true | None => false end.

(** [str::contains] with a [&str] pattern. *)
Fixpoint str_contains (p s : string) : bool :=
  starts_with s p ||
  match s with EmptyString => false | String _ s' => str_contains p s' end.

(** [str::lines]: split at line feeds; a carriage return before the feed belongs to
    the terminator; a final line without a feed is kept unless it is empty. *)
Definition LF : ascii := "010"%char.
Definition CR : ascii := "013"%char.
Fixpoint lines_go (cur s : string) : list string :=
  match s with
  | EmptyString => if decide (cur = EmptyString) then [] else [cur]
  | String c s' =>
    if Ascii.eqb c LF
    then default cur (strip_suffix_char CR cur) :: lines_go EmptyString s'
    else lines_go (cur +:+ String c EmptyString) s'
  end.
Definition str_lines (s : string) : list string := lines_go EmptyString s.

(** ** Integer parsing: [str::parse::<iN>] and [str::parse::<uN>] *)

Inductive IntErrorKind : Type := Empty | InvalidDigit | PosOverflow | NegOverflow.

Definition digit_of (c : ascii) : option Z :=
  if is_ascii_digit c then Some (byte_of c - 48) else None.

Section parse.
Variables (lo hi : Z).

Fixpoint parse_go (neg : bool) (acc : Z) (s : string) : result IntErrorKind Z :=
  match s with
  | EmptyString => Ok acc
  | String c s' =>
    match digit_of c with
    | None => Err InvalidDigit
    | Some d =>
      let mul := acc * 10 in
      let res := if neg then mul - d else mul + d in
      let overflow := if neg then NegOverflow else PosOverflow in
      if (mul <? lo) || (hi <? mul) || (res <? lo) || (hi <? res)
      then Err overflow else parse_go neg res s'
    end
  end.

Definition from_str (s : string) : result IntErrorKind Z :=
  match s with
  | EmptyString => Err Empty
  | String c EmptyString =>
    if Ascii.eqb c "+" || Ascii.eqb c "-" then Err InvalidDigit else parse_go false 0 s
  | String c s' =>
    if Ascii.eqb c "+" then parse_go false 0 s'
    else if Ascii.eqb c "-" && (lo <? 0) then parse_go true 0 s'
    else parse_go false 0 s
  end.
End parse.

Definition parse_i64 : string → result IntErrorKind Z := from_str I64_MIN I64_MAX.
Definition parse_u16 : string → result IntErrorKind Z := from_str 0 U16_MAX.
Definition parse_u32 : string → result IntErrorKind Z := from_str 0 U32_MAX.
Definition parse_u64 : string → result IntErrorKind Z := from_str 0 U64_MAX.

(** [Display] for [ParseIntError]. *)
Definition int_error_display (k : IntErrorKind) : string :=
  match k with
  | Empty => "cannot parse integer from empty string"
  | InvalidDigit => "invalid digit found in string"
  | PosOverflow => "number too large to fit in target type"
  | NegOverflow => "number too small to fit in target type"
  end.

(** ** Lemmas on strings *)

Lemma str_app_cons c s1 s2 : String c s1 +:+ s2 = String c (s1 +:+ s2).
Proof. done. Qed.

Lemma str_app_nil_r s : s +:+ "" = s.
Proof. induction s as [|c s IH]; [done|]. by rewrite str_app_cons, IH. Qed.

Lemma str_app_assoc s1 s2 s3 : s1 +:+ (s2 +:+ s3) = (s1 +:+ s2) +:+ s3.
Proof. induction s1 as [|c s1 IH]; [done|]. by rewrite !str_app_cons, IH. Qed.

Lemma str_length_app s1 s2 :
  String.length (s1 +:+ s2) = (String.length s1 + String.length s2)%nat.
Proof. induction s1 as [|c s1 IH]; [done|]. rewrite str_app_cons. cbn. by rewrite IH. Qed.

Lemma str_app_inj_l a b d : a +:+ b = a +:+ d → b = d.
Proof. intros. by apply (inj (String.app a)). Qed.

(** A split at a separator neither side's first part contains is unique. *)
Definition str_free (x : ascii) (s : string) : bool := str_all (λ c, negb (Ascii.eqb c x)) s.

Lemma str_sep_inj x a b c d :
  str_free x a = true → str_free x c = true →
  a +:+ String x b = c +:+ String x d → a = c ∧ b = d.
Proof.
  revert c. induction a as [|y a IH]; intros [|z c]; cbn; unfold str_free; cbn.
  - naive_solver.
  - rewrite str_app_cons. intros _ [Hz _]%andb_prop [= -> _].
    by rewrite Ascii.eqb_refl in Hz.
  - rewrite str_app_cons. intros [Hy _]%andb_prop _ [= -> _].
    by rewrite Ascii.eqb_refl in Hy.
  - rewrite !str_app_cons. intros [_ Ha]%andb_prop [_ Hc]%andb_prop [= -> Heq].
    destruct (IH c Ha Hc Heq) as [-> ->]. done.
Qed.

Lemma strip_prefix_spec p s r : strip_prefix p s = Some r ↔ s = p +:+ r.
Proof.
  revert s. induction p as [|c p IH]; intros s; [cbn; naive_solver|].
  destruct s as [|d s]; [done|]. cbn [strip_prefix]. rewrite str_app_cons.
  destruct (Ascii.eqb_spec c d) as [->|Hne].
  - rewrite IH. naive_solver.
  - naive_solver.
Qed.

Lemma starts_with_spec s p : starts_with s p = true ↔ ∃ r, s = p +:+ r.
Proof.
  unfold starts_with. destruct (strip_prefix p s) as [r|] eqn:Hs.
  - apply strip_prefix_spec in Hs. naive_solver.
  - split; [done|]. intros [r Hr%strip_prefix_spec]. congruence.
Qed.

Lemma strip_suffix_char_spec x s r :
  strip_suffix_char x s = Some r ↔ s = r +:+ String x "".
Proof.
  revert r. induction s as [|c s IH]; intros r; [by destruct r|].
  destruct s as [|d s].
  - cbn [strip_suffix_char]. destruct (Ascii.eqb_spec c x) as [->|Hne].
    + split; [by intros [= <-]|]. by destruct r as [|? [|? ?]].
    + split; [done|]. destruct r as [|? [|? ?]]; by intros [=].
  - change (strip_suffix_char x (String c (String d s)))
      with (String c <$> strip_suffix_char x (String d s)).
    rewrite fmap_Some. setoid_rewrite IH. split.
    + intros (r' & -> & ->). done.
    + destruct r as [|e r]; [done|]. rewrite str_app_cons. intros [= -> Heq]. eauto.
Qed.

Lemma str_all_impl (p q : ascii → bool) s :
  (∀ c, p c = true → q c = true) → str_all p s = true → str_all q s = true.
Proof.
  intros Hpq. induction s as [|c s IH]; [done|]. cbn.
  intros [Hc Hs]%andb_prop. by rewrite (Hpq _ Hc), (IH Hs).
Qed.

(** ** Parsing what was printed *)

Lemma digit_of_pretty_char d :
  (d < 10)%N → digit_of (pretty_N_char d) = Some (Z.of_N d).
Proof.
  intros Hd.
  assert (d = 0 ∨ d = 1 ∨ d = 2 ∨ d = 3 ∨ d = 4 ∨ d = 5 ∨ d = 6 ∨ d = 7 ∨ d = 8 ∨ d = 9)%N
    as Hcases by lia.
  by destruct_or! Hcases; subst.
Qed.

Lemma parse_go_pretty lo hi n s :
  lo ≤ 0 → Z.of_N n ≤ hi →
  parse_go lo hi false 0 (pretty_N_go n s) = parse_go lo hi false (Z.of_N n) s.
Proof.
  intros Hlo. revert s. induction (N.lt_wf_0 n) as [n _ IH]; intros s Hhi.
  assert (n = 0 ∨ 0 < n)%N as [->|Hn] by lia; [by rewrite pretty_N_go_0|].
  rewrite pretty_N_go_step by done.
  pose proof (N.div_lt n 10 Hn eq_refl).
  rewrite IH by lia. cbn.
  rewrite digit_of_pretty_char by (by apply N.mod_lt).
  pose proof (N.div_mod n 10 ltac:(done)).
  pose proof (N.mod_lt n 10 ltac:(done)).
  replace (Z.of_N (n `div` 10) * 10 + Z.of_N (n `mod` 10)) with (Z.of_N n) by lia.
  destruct (_ || _) eqn:Hovf; [lia|done].
Qed.

Lemma pretty_N_go_digit n s : (0 < n)%N →
  ∃ c r, pretty_N_go n s = String c r ∧ is_ascii_digit c = true.
Proof.
  revert s. induction (N.lt_wf_0 n) as [n _ IH]; intros s Hn.
  rewrite pretty_N_go_step by done.
  destruct (decide (n `div` 10 = 0)%N) as [->|].
  - rewrite pretty_N_go_0. eexists _, _. split; [done|].
    pose proof (digit_of_pretty_char (n `mod` 10) (N.mod_lt n 10 ltac:(done))) as Hd.
    unfold digit_of in Hd. by destruct (is_ascii_digit _).
  - apply IH; [by apply N.div_lt|lia].
Qed.

Lemma is_ascii_digit_not_sign c :
  is_ascii_digit c = true → Ascii.eqb c "+" = false ∧ Ascii.eqb c "-" = false.
Proof.
  intros Hc. split; apply Ascii.eqb_neq; intros ->; discriminate Hc.
Qed.

(** An unsigned (or non-negative) number parses back from its decimal form. *)
Lemma from_str_pretty lo hi z :
  lo ≤ 0 → 0 ≤ z ≤ hi → from_str lo hi (pretty z) = Ok z.
Proof.
  intros Hlo [Hz Hhi]. destruct z as [|p|p]; [|clear Hz|lia].
  { change (from_str lo hi (pretty 0)) with
      (if (0 <? lo) || (hi <? 0) || (0 <? lo) || (hi <? 0)
       then Err PosOverflow else Ok 0 : result IntErrorKind Z).
    destruct (_ || _) eqn:Hovf; [lia|done]. }
  change (pretty (Z.pos p)) with (pretty_N_go (N.pos p) "").
  destruct (pretty_N_go_digit (N.pos p) "" ltac:(done)) as (c & r & Hpr & Hc).
  destruct (is_ascii_digit_not_sign c Hc) as [Hplus Hminus].
  assert (from_str lo hi (String c r) = parse_go lo hi false 0 (String c r)) as Hfs.
  { unfold from_str. rewrite Hplus, Hminus. by destruct r. }
  rewrite Hpr, Hfs, <-Hpr, parse_go_pretty by lia. done.
Qed.

(** The same for a negative number of a signed type. *)
Lemma parse_go_pretty_neg lo hi n s :
  0 ≤ hi → lo ≤ - Z.of_N n →
  parse_go lo hi true 0 (pretty_N_go n s) = parse_go lo hi true (- Z.of_N n) s.
Proof.
  intros Hhi. revert s. induction (N.lt_wf_0 n) as [n _ IH]; intros s Hlo.
  assert (n = 0 ∨ 0 < n)%N as [->|Hn] by lia; [by rewrite pretty_N_go_0|].
  rewrite pretty_N_go_step by done.
  pose proof (N.div_lt n 10 Hn eq_refl).
  rewrite IH by lia. cbn.
  rewrite digit_of_pretty_char by (by apply N.mod_lt).
  pose proof (N.div_mod n 10 ltac:(done)).
  pose proof (N.mod_lt n 10 ltac:(done)).
  replace (- Z.of_N (n `div` 10) * 10 - Z.of_N (n `mod` 10)) with (- Z.of_N n) by lia.
  destruct (_ || _) eqn:Hovf; [lia|done].
Qed.

Lemma from_str_pretty_neg lo hi p :
  0 ≤ hi → lo ≤ Z.neg p → from_str lo hi (pretty (Z.neg p)) = Ok (Z.neg p).
Proof.
  intros Hhi Hlo. change (pretty (Z.neg p)) with (String "-" (pretty_N_go (N.pos p) "")).
  destruct (pretty_N_go_digit (N.pos p) "" ltac:(done)) as (c & r & Hpr & Hc).
  assert (from_str lo hi (String "-" (String c r)) = parse_go lo hi true 0 (String c r)) as Hfs.
  { unfold from_str. cbn. destruct (Z.ltb_spec lo 0); [done|lia]. }
  rewrite Hpr, Hfs, <-Hpr, parse_go_pretty_neg by lia. done.
Qed.

(** Whatever parses lies within the bounds of the target type. *)
Lemma parse_go_bounds lo hi neg acc s z :
  lo ≤ acc ≤ hi → parse_go lo hi neg acc s = Ok z → lo ≤ z ≤ hi.
Proof.
  revert acc. induction s as [|c s IH]; intros acc Hacc; cbn; [naive_solver|].
  destruct (digit_of c) as [d|]; [|done].
  destruct (_ || _) eqn:Hovf; [done|]. apply IH. lia.
Qed.

Lemma from_str_bounds lo hi s z :
  lo ≤ 0 ≤ hi → from_str lo hi s = Ok z → lo ≤ z ≤ hi.
Proof.
  intros Hb. unfold from_str. destruct s as [|c [|c' s]]; [done|..].
  - destruct (_ || _); [done|]. by apply parse_go_bounds.
  - destruct (Ascii.eqb c "+"); [by apply parse_go_bounds|].
    destruct (_ && _); by apply parse_go_bounds.
Qed.

#[export] Hint Rewrite str_app_nil_r str_length_app : gate.
