(* ===== verification/Types.v ===== *)
(** * Domain types (src/gateway/crates/gateway/src/types.rs)

    The identifier newtypes the [define_id!] macro generates, the status and provider
    enums, their [Display] implementations and their serde names. *)

From Stdlib Require Import Ascii.
From stdpp Require Import options.
From S2P Require Import Prelude Rust.

(** ** Identifiers

    A [uuid::Uuid] is its 128-bit value; PostgreSQL compares UUIDs as these numbers.
    Its textual form belongs to the [uuid] crate and is the class [UuidLib]: the
    operation, and [UuidLaws], what the gateway relies on: the hyphenated form is made
    of lower-case hexadecimal digits and hyphens, and identifies the UUID. *)

Definition Uuid : Type := Z.
#[global] Instance Uuid_eq_dec : EqDecision Uuid := _.
#[global] Instance Uuid_countable : Countable Uuid := _.

Definition is_uuid_char (c : ascii) : bool :=
  is_ascii_digit c || ((97 <=? byte_of c) && (byte_of c <=? 102)) || Ascii.eqb c "-".

Class UuidLib : Type := { uuid_to_string : Uuid → string }.
Class UuidLaws `{!UuidLib} : Prop := {
  uuid_to_string_inj :: Inj (=) (=) uuid_to_string;
  uuid_to_string_chars u : str_all is_uuid_char (uuid_to_string u) = true
}.

(** A reference text form, for concrete runs: the decimal number. *)
Definition decimal_uuid : UuidLib := {| uuid_to_string := pretty |}.

(** One constructor per invocation of [define_id!]. *)
Inductive IdKind : Type :=
  | KTenant | KServiceAccount | KKey | KPolicy | KRoute | KBudget
  | KUsageEvent | KAuditEvent | KPricingRule.

(** The newtype [pub struct $name(pub Uuid)]. *)
Record Id (k : IdKind) : Type := from_uuid { uuid_of : Uuid }.
Arguments from_uuid {k} uuid_of.
Arguments uuid_of {k} i : rename.

#[global] Instance Id_eq_dec k : EqDecision (Id k).
Proof. solve_decision. Defined.
#[global] Program Instance Id_countable k : Countable (Id k) :=
  inj_countable' uuid_of from_uuid _.
Next Obligation. by intros k []. Qed.

Abbreviation TenantId := (Id KTenant).
Abbreviation ServiceAccountId := (Id KServiceAccount).
Abbreviation KeyId := (Id KKey).
Abbreviation PolicyId := (Id KPolicy).
Abbreviation RouteId := (Id KRoute).
Abbreviation BudgetId := (Id KBudget).
Abbreviation UsageEventId := (Id KUsageEvent).
Abbreviation AuditEventId := (Id KAuditEvent).
Abbreviation PricingRuleId := (Id KPricingRule).

(** [impl fmt::Display for $name] *)
Definition id_display `{!UuidLib} {k} (i : Id k) : string := uuid_to_string (uuid_of i).

#[global] Instance id_display_inj `{!UuidLib, !UuidLaws} {k} : Inj (=) (=) (@id_display _ k).
Proof. intros [a] [b] Hab. by apply (inj uuid_to_string) in Hab as [= ->]. Qed.

(** The text of an identifier contains no separator the gateway uses. *)
Lemma id_display_free `{!UuidLib, !UuidLaws} {k} (i : Id k) x :
  is_uuid_char x = false → str_free x (id_display i) = true.
Proof.
  intros Hx. eapply str_all_impl; [|apply uuid_to_string_chars].
  intros c Hc. destruct (Ascii.eqb_spec c x); [congruence|done].
Qed.

(** ** Enums *)

Inductive Environment : Type := Dev | Staging | Prod.
Inductive ServiceAccountStatus : Type := SaActive | SaSuspended | SaDeleted.
Inductive KeyStatus : Type := KeyActive | KeyRotating | KeyRevoked | KeyExpired.
Inductive TenantStatus : Type := TenantActive | TenantSuspended | TenantDeleted.
Inductive Provider : Type := Openai | Anthropic | Gemini | AzureOpenai | Vllm.
Inductive BudgetPeriodType : Type := Daily | Monthly | Custom.
Inductive BudgetStatus : Type := BudgetActive | BudgetExhausted | BudgetExpired | BudgetDisabled.

#[global] Instance Environment_eq_dec : EqDecision Environment.
Proof. solve_decision. Defined.
#[global] Instance ServiceAccountStatus_eq_dec : EqDecision ServiceAccountStatus.
Proof. solve_decision. Defined.
#[global] Instance KeyStatus_eq_dec : EqDecision KeyStatus.
Proof. solve_decision. Defined.
#[global] Instance TenantStatus_eq_dec : EqDecision TenantStatus.
Proof. solve_decision. Defined.
#[global] Instance Provider_eq_dec : EqDecision Provider.
Proof. solve_decision. Defined.

Definition ServiceAccountStatus_display (s : ServiceAccountStatus) : string :=
  match s with
  | SaActive => "active"
  | SaSuspended => "suspended"
  | SaDeleted => "deleted"
  end.

Definition KeyStatus_display (s : KeyStatus) : string :=
  match s with
  | KeyActive => "active"
  | KeyRotating => "rotating"
  | KeyRevoked => "revoked"
  | KeyExpired => "expired"
  end.

(** ** Serde names of unit enums

    [#[serde(rename_all = "lowercase")]] and the explicit renames: the class gives the
    name each variant is serialised under and the list of variants; [enum_parse] is the
    derived [Deserialize] of a unit enum from a JSON string, which accepts exactly the
    variant names. *)
Class SerdeEnum (T : Type) : Type := {
  enum_name : T → string;
  enum_all : list T
}.
Class SerdeEnumLaws (T : Type) `{!SerdeEnum T} : Prop := {
  enum_name_inj :: Inj (=) (=) (enum_name (T:=T));
  enum_all_complete (t : T) : t ∈ enum_all
}.

Definition enum_parse {T} `{!SerdeEnum T} (s : string) : option T :=
  snd <$> list_find (λ t, enum_name t = s) enum_all.

#[global] Instance Environment_serde : SerdeEnum Environment := {|
  enum_name e := match e with Dev => "dev" | Staging => "staging" | Prod => "prod" end;
  enum_all := [Dev; Staging; Prod]
|}.
#[global] Instance ServiceAccountStatus_serde : SerdeEnum ServiceAccountStatus := {|
  enum_name := ServiceAccountStatus_display;
  enum_all := [SaActive; SaSuspended; SaDeleted]
|}.
#[global] Instance TenantStatus_serde : SerdeEnum TenantStatus := {|
  enum_name s := match s with
    TenantActive => "active" | TenantSuspended => "suspended" | TenantDeleted => "deleted" end;
  enum_all := [TenantActive; TenantSuspended; TenantDeleted]
|}.
#[global] Instance Provider_serde : SerdeEnum Provider := {|
  enum_name p := match p with
    Openai => "openai" | Anthropic => "anthropic" | Gemini => "gemini"
    | AzureOpenai => "azure_openai" | Vllm => "vllm" end;
  enum_all := [Openai; Anthropic; Gemini; AzureOpenai; Vllm]
|}.
#[global] Instance KeyStatus_serde : SerdeEnum KeyStatus := {|
  enum_name := KeyStatus_display;
  enum_all := [KeyActive; KeyRotating; KeyRevoked; KeyExpired]
|}.

Ltac solve_serde_enum :=
  split; [intros [] []; done | intros []; cbn; set_solver].

#[global] Instance Environment_serde_laws : SerdeEnumLaws Environment.
Proof. solve_serde_enum. Qed.
#[global] Instance ServiceAccountStatus_serde_laws : SerdeEnumLaws ServiceAccountStatus.
Proof. solve_serde_enum. Qed.
#[global] Instance TenantStatus_serde_laws : SerdeEnumLaws TenantStatus.
Proof. solve_serde_enum. Qed.
#[global] Instance Provider_serde_laws : SerdeEnumLaws Provider.
Proof. solve_serde_enum. Qed.
#[global] Instance KeyStatus_serde_laws : SerdeEnumLaws KeyStatus.
Proof. solve_serde_enum. Qed.

(** Deserialising accepts exactly the serialised names, each as its own variant. *)
Lemma enum_parse_spec {T} `{SerdeEnumLaws T} (s : string) (t : T) :
  enum_parse s = Some t ↔ enum_name t = s.
Proof.
  unfold enum_parse. split.
  - intros ([i t'] & Hfind & ->)%fmap_Some. by apply list_find_Some in Hfind as (_ & ? & _).
  - intros <-.
    destruct (list_find_elem_of (λ t', enum_name t' = enum_name t) enum_all t)
      as [[i t'] Hfind]; [apply enum_all_complete|done|].
    rewrite Hfind. cbn. apply list_find_Some in Hfind as (_ & Heq & _).
    by apply (inj enum_name) in Heq as ->.
Qed.
