(* ===== verification/Errors.v ===== *)
(** * Errors (src/gateway/crates/gateway/src/error.rs, storage/mod.rs)

    [GatewayError] with its status mapping, error type, JSON envelope and HTTP response;
    [StorageError] with the classification of database errors by SQLSTATE. *)

From Stdlib Require Import Ascii.
From stdpp Require Import options.
From S2P Require Import Prelude Rust Types.

(** ** The unified error enum *)

Definition StatusCode : Type := Z.

Inductive GatewayError : Type :=
  | EAuth (code message : string)
  | EPolicy (code message : string)
  | ERateLimit (code message : string) (retry_after : option Z)
  | EBudget (code message : string)
  | EProvider (code message : string) (status : StatusCode)
  | ERouting (code message : string)
  | EStorage (code message : string)
  | EConfig (code message : string)
  | EValidation (code message : string)
  | ENotFound (code message : string)
  | EConflict (code message : string).

#[global] Instance GatewayError_eq_dec : EqDecision GatewayError.
Proof. solve_decision. Defined.

(** The convenience constructors, [GatewayError::auth] and the others. *)
Module Failure.
Definition auth (code message : string) : GatewayError := EAuth code message.
Definition policy (code message : string) : GatewayError := EPolicy code message.
Definition rate_limit (code message : string) (retry_after : option Z) : GatewayError :=
  ERateLimit code message retry_after.
Definition budget (code message : string) : GatewayError := EBudget code message.
Definition provider (code message : string) (status : StatusCode) : GatewayError :=
  EProvider code message status.
Definition routing (code message : string) : GatewayError := ERouting code message.
Definition storage (code message : string) : GatewayError := EStorage code message.
Definition config (code message : string) : GatewayError := EConfig code message.
Definition validation (code message : string) : GatewayError := EValidation code message.
Definition not_found (code message : string) : GatewayError := ENotFound code message.
Definition conflict (code message : string) : GatewayError := EConflict code message.
End Failure.

Definition status_code (e : GatewayError) : StatusCode :=
  match e with
  | EAuth _ _ => 401
  | EPolicy _ _ | EBudget _ _ => 403
  | ERateLimit _ _ _ => 429
  | EProvider _ _ status => status
  | ERouting _ _ => 502
  | EStorage _ _ | EConfig _ _ => 500
  | EValidation _ _ => 422
  | ENotFound _ _ => 404
  | EConflict _ _ => 409
  end.

Definition error_type (e : GatewayError) : string :=
  match e with
  | EAuth _ _ => "authentication_error"
  | EPolicy _ _ => "policy_error"
  | ERateLimit _ _ _ => "rate_limit_error"
  | EBudget _ _ => "budget_error"
  | EProvider _ _ _ => "provider_error"
  | ERouting _ _ => "routing_error"
  | EStorage _ _ => "storage_error"
  | EConfig _ _ => "configuration_error"
  | EValidation _ _ => "validation_error"
  | ENotFound _ _ => "not_found_error"
  | EConflict _ _ => "conflict_error"
  end.

Definition code_message (e : GatewayError) : string * string :=
  match e with
  | EAuth code message | EPolicy code message | EBudget code message
  | ERouting code message | EStorage code message | EConfig code message
  | EValidation code message | ENotFound code message | EConflict code message
  | ERateLimit code message _ | EProvider code message _ => (code, message)
  end.
Definition err_code (e : GatewayError) : string := (code_message e).1.
Definition err_message (e : GatewayError) : string := (code_message e).2.

(** [thiserror]'s [#[error("...")]] texts. *)
Definition error_display (e : GatewayError) : string :=
  match e with
  | EAuth _ message => "authentication failed: " +:+ message
  | EPolicy _ message => "policy denied: " +:+ message
  | ERateLimit _ message _ => "rate limit exceeded: " +:+ message
  | EBudget _ message => "budget exhausted: " +:+ message
  | EProvider _ message _ => "provider error: " +:+ message
  | ERouting _ message => "routing error: " +:+ message
  | EStorage _ message => "storage error: " +:+ message
  | EConfig _ message => "configuration error: " +:+ message
  | EValidation _ message => "validation error: " +:+ message
  | ENotFound _ message => message
  | EConflict _ message => message
  end.

(** ** The OpenAI-compatible response *)

Record ErrorDetail : Type := mkErrorDetail {
  ed_code : string;
  ed_message : string;
  ed_error_type : string;
  ed_request_id : option string
}.
Record ErrorResponse : Type := mkErrorResponse { er_error : ErrorDetail }.

Definition to_error_response (e : GatewayError) : ErrorResponse :=
  let '(code, message) := code_message e in
  mkErrorResponse {|
    ed_code := code;
    ed_message := message;
    ed_error_type := error_type e;
    ed_request_id := None
  |}.

(** An HTTP response: status, header map (lower-case names), body bytes. *)
Record Response : Type := mkResponse {
  resp_status : StatusCode;
  resp_headers : gmap string string;
  resp_body : string
}.
Definition insert_header (name value : string) (r : Response) : Response :=
  mkResponse (resp_status r) (<[name := value]> (resp_headers r)) (resp_body r).

(** [HeaderValue::from_str] accepts visible ASCII (32-126), tab and opaque bytes >= 128. *)
Definition header_value_ok (v : string) : bool :=
  str_all (λ c, let b := byte_of c in (32 <=? b) && negb (b =? 127) || (b =? 9)) v.

(** [to_vec] stands for [serde_json::to_vec] on the envelope. *)
Definition into_response (to_vec : ErrorResponse → result string string)
    (e : GatewayError) : Response :=
  let status := status_code e in
  let retry_after := match e with ERateLimit _ _ r => r | _ => None end in
  let body := to_error_response e in
  match to_vec body with
  | Ok bytes =>
    let response := mkResponse status {["content-type" := "application/json"]} bytes in
    match retry_after with
    | Some secs =>
      if header_value_ok (pretty secs)
      then insert_header "retry-after" (pretty secs) response else response
    | None => response
    end
  | Err _ =>
    mkResponse 500 {["content-type" := "text/plain; charset=utf-8"]}
      "internal error: failed to serialize error response"
  end.

(** ** Storage errors

    What the code inspects of a [sqlx::Error]: whether it is a database error, its
    SQLSTATE, table and message, whether it is [RowNotFound]; the rest is its text. *)
Inductive SqlxError : Type :=
  | SqlxDatabase (code table : option string) (message display : string)
  | SqlxRowNotFound (display : string)
  | SqlxOther (display : string).

Definition sqlx_display (e : SqlxError) : string :=
  match e with
  | SqlxDatabase _ _ _ display | SqlxRowNotFound display | SqlxOther display => display
  end.

Inductive StorageError : Type :=
  | SNotFound (entity field value : string)
  | SConflict (entity detail : string)
  | SReferenceError (detail : string)
  | SInvalidCursor (detail : string)
  | SDatabase (err : SqlxError)
  | SRedis (msg : string)
  | SInternal (msg : string).

#[global] Instance SqlxError_eq_dec : EqDecision SqlxError.
Proof. solve_decision. Defined.
#[global] Instance StorageError_eq_dec : EqDecision StorageError.
Proof. solve_decision. Defined.

Definition storage_display (e : StorageError) : string :=
  match e with
  | SNotFound entity field value =>
      entity +:+ " not found by " +:+ field +:+ " = " +:+ value
  | SConflict entity detail => "duplicate " +:+ entity +:+ ": " +:+ detail
  | SReferenceError detail => "referenced entity does not exist: " +:+ detail
  | SInvalidCursor d => "invalid cursor: " +:+ d
  | SDatabase err => "database error: " +:+ sqlx_display err
  | SRedis m => "redis error: " +:+ m
  | SInternal m => "internal error: " +:+ m
  end.

(** [impl From<sqlx::Error> for StorageError] *)
Definition storage_from_sqlx (err : SqlxError) : StorageError :=
  match err with
  | SqlxDatabase (Some code) table message _ =>
    if decide (code = "23505") then SConflict (default "unknown" table) message
    else if decide (code = "23503") then SReferenceError message
    else SDatabase err
  | _ => SDatabase err
  end.

(** ** Lemmas *)

Lemma digit_header_ok c : is_ascii_digit c = true →
  (let b := byte_of c in (32 <=? b) && negb (b =? 127) || (b =? 9)) = true.
Proof. unfold is_ascii_digit. cbn. lia. Qed.

Lemma pretty_N_char_digit d : is_ascii_digit (pretty_N_char d) = true.
Proof. unfold pretty_N_char. by repeat case_match. Qed.

Lemma pretty_N_go_digits n s :
  str_all is_ascii_digit s = true → str_all is_ascii_digit (pretty_N_go n s) = true.
Proof.
  revert s. induction (N.lt_wf_0 n) as [n _ IH]; intros s Hs.
  assert (n = 0 ∨ 0 < n)%N as [->|Hn] by lia; [by rewrite pretty_N_go_0|].
  rewrite pretty_N_go_step by done. apply IH; [by apply N.div_lt|].
  cbn. by rewrite pretty_N_char_digit.
Qed.

(** Decimal digits of a non-negative number: always a valid header value. *)
Lemma pretty_digits z : 0 ≤ z → str_all is_ascii_digit (pretty z) = true.
Proof.
  intros Hz. destruct z as [|p|p]; [done| |lia].
  change (pretty (Z.pos p)) with (pretty_N_go (N.pos p) "").
  by apply pretty_N_go_digits.
Qed.

Lemma pretty_header_ok (z : Z) : header_value_ok (pretty z) = true.
Proof.
  destruct z as [|p|p]; [done| |].
  - eapply str_all_impl; [|by apply pretty_digits]. intros c. apply digit_header_ok.
  - change (pretty (Z.neg p)) with (String "-" (pretty_N_go (N.pos p) "")). unfold header_value_ok.
    cbn [str_all]. eapply str_all_impl; [|by apply pretty_N_go_digits].
    intros c. apply digit_header_ok.
Qed.

Lemma digits_uuid s : str_all is_ascii_digit s = true → str_all is_uuid_char s = true.
Proof. apply str_all_impl. intros c Hc. unfold is_uuid_char. by rewrite Hc. Qed.

Lemma decimal_uuid_laws : @UuidLaws decimal_uuid.
Proof.
  split; [apply _|]. intros u. cbn. destruct u as [|p|p]; [done| |].
  - by apply digits_uuid, pretty_digits.
  - change (pretty (Z.neg p)) with (String "-" (pretty_N_go (N.pos p) "")).
    cbn [str_all]. by apply digits_uuid, pretty_N_go_digits.
Qed.
