(* ===== verification/Json.v ===== *)
(** * JSON values ([serde_json::Value]) as the gateway inspects them

    The gateway only looks at the shape of a value: arrays, strings, object members.
    Numbers are kept as their text. An object is the list of its members (keys are
    unique in [serde_json]'s map); [get] reads a member. *)

From stdpp Require Import options.
From S2P Require Import Prelude.

Inductive Value : Type :=
  | JNull
  | JBool (b : bool)
  | JNumber (repr : string)
  | JString (s : string)
  | JArray (items : list Value)
  | JObject (members : list (string * Value)).

(** [Value::as_array], [Value::as_str], [Value::get] with a string index. *)
Definition as_array (v : Value) : option (list Value) :=
  match v with JArray items => Some items | _ => None end.
Definition as_str (v : Value) : option string :=
  match v with JString s => Some s | _ => None end.
Definition json_get (k : string) (v : Value) : option Value :=
  match v with
  | JObject members => (λ im, im.2.2) <$> list_find (λ m, m.1 = k) members
  | _ => None
  end.

(** [serde_json::from_value::<Vec<String>>]: an array all of whose items are strings.
    Callers only use whether it failed. *)
Definition vec_string_from_value (v : Value) : option (list string) :=
  items ← as_array v; mapM as_str items.

Lemma vec_string_from_value_spec v ss :
  vec_string_from_value v = Some ss ↔ v = JArray (JString <$> ss).
Proof.
  unfold vec_string_from_value. destruct v as [| | | |items|]; cbn; try by split.
  rewrite mapM_Some. split.
  - intros Hall. f_equal. induction Hall as [|item s items ss Hi _ ->]; [done|].
    destruct item; cbn in *; naive_solver.
  - intros [= ->]. induction ss; constructor; done.
Qed.
