(* ===== verification/Models.v ===== *)
(** * Row structs, inputs and pagination types (src/gateway/crates/gateway/src/models.rs)

    One record per struct, fields in the source's order. Timestamps ([DateTime<Utc>])
    are microseconds since the epoch, PostgreSQL's resolution; a [Decimal] is its value in
    units of 10^-28, the finest scale [rust_decimal] has. *)

From stdpp Require Import options.
From S2P Require Import Prelude Rust Types Errors Json.

Definition DateTime : Type := Z.
Definition Decimal : Type := Z.

(** ** Cursor pagination

    The codecs of the cursor belong to [base64], [serde_json] and [chrono]: the class
    [CursorCodec], whose laws are the round trips those crates document. *)

Record Cursor : Type := mkCursor { cursor_token : string }.
Record CursorPayload : Type := mkCursorPayload { cp_ts : string; cp_id : Uuid }.

Class CursorCodec : Type := {
  to_rfc3339 : DateTime → string;
  parse_from_rfc3339 : string → result string DateTime;
  payload_to_vec : CursorPayload → string;
  payload_from_slice : string → result string CursorPayload;
  b64url_encode : string → string;
  b64url_decode : string → result string string
}.
Class CursorCodecLaws `{!CursorCodec} : Prop := {
  parse_to_rfc3339 t : parse_from_rfc3339 (to_rfc3339 t) = Ok t;
  payload_from_to_vec p : payload_from_slice (payload_to_vec p) = Ok p;
  b64url_decode_encode s : b64url_decode (b64url_encode s) = Ok s
}.

Definition cursor_encode `{!CursorCodec} (created_at : DateTime) (id : Uuid) : Cursor :=
  let payload := mkCursorPayload (to_rfc3339 created_at) id in
  mkCursor (b64url_encode (payload_to_vec payload)).

Definition cursor_decode `{!CursorCodec} (c : Cursor) : result string (DateTime * Uuid) :=
  bytes ← map_err (λ e, "base64 decode: " +:+ e) (b64url_decode (cursor_token c));
  payload ← map_err (λ e, "json decode: " +:+ e) (payload_from_slice bytes);
  ts ← map_err (λ e, "timestamp parse: " +:+ e) (parse_from_rfc3339 (cp_ts payload));
  mret (ts, cp_id payload).

Record Page (T : Type) : Type := mkPage {
  items : list T;
  next_cursor : option Cursor;
  has_more : bool
}.
Arguments mkPage {T} items next_cursor has_more.
Arguments items {T} p : rename.
Arguments next_cursor {T} p : rename.
Arguments has_more {T} p : rename.

(** [Page::from_rows]: rows were fetched with [limit + 1]. *)
Definition from_rows `{!CursorCodec} {T} (rows : list T) (limit : nat)
    (cursor_fn : T → DateTime * Uuid) : Page T :=
  let has_more := Nat.ltb limit (length rows) in
  let items := take limit rows in
  let next_cursor :=
    if has_more
    then (λ item, let '(ts, id) := cursor_fn item in cursor_encode ts id) <$> last items
    else None in
  mkPage items next_cursor has_more.

(** [clamp_limit]: the page size as [usize] and the number of rows to fetch. *)
Definition clamp_limit (limit : Z) : nat * Z :=
  let clamped := Z.min 200 (Z.max 1 limit) in
  (Z.to_nat clamped, clamped + 1).

(** ** Tenants *)

Record Tenant : Type := mkTenant {
  tenant_id : TenantId;
  tenant_name : string;
  tenant_slug : string;
  tenant_status : TenantStatus;
  tenant_metadata : Value;
  tenant_created_at : DateTime;
  tenant_updated_at : DateTime
}.
Record CreateTenant : Type := mkCreateTenant {
  ct_id : TenantId;
  ct_name : string;
  ct_slug : string;
  ct_status : TenantStatus;
  ct_metadata : Value
}.
Record UpdateTenant : Type := mkUpdateTenant {
  ut_name : option string;
  ut_slug : option string;
  ut_status : option TenantStatus;
  ut_metadata : option Value
}.

(** ** Service accounts *)

Record ServiceAccount : Type := mkServiceAccount {
  sa_id : ServiceAccountId;
  sa_tenant_id : TenantId;
  sa_name : string;
  sa_slug : string;
  sa_environment : Environment;
  sa_description : option string;
  sa_status : ServiceAccountStatus;
  sa_default_policy_id : option PolicyId;
  sa_created_at : DateTime;
  sa_updated_at : DateTime
}.
Record CreateServiceAccount : Type := mkCreateServiceAccount {
  csa_id : ServiceAccountId;
  csa_tenant_id : TenantId;
  csa_name : string;
  csa_slug : string;
  csa_environment : Environment;
  csa_description : option string;
  csa_status : ServiceAccountStatus;
  csa_default_policy_id : option PolicyId
}.
Record UpdateServiceAccount : Type := mkUpdateServiceAccount {
  usa_name : option string;
  usa_slug : option string;
  usa_environment : option Environment;
  usa_description : option string;
  usa_status : option ServiceAccountStatus;
  usa_default_policy_id : option PolicyId
}.

(** ** Service account keys *)

Record ServiceAccountKey : Type := mkServiceAccountKey {
  key_uuid : KeyId;
  key_service_account_id : ServiceAccountId;
  key_key_id : string;
  key_algorithm : string;
  key_public_key_pem : string;
  key_fingerprint : string;
  key_status : KeyStatus;
  key_expires_at : option DateTime;
  key_created_at : DateTime;
  key_revoked_at : option DateTime;
  key_last_used_at : option DateTime
}.
Record RegisterKey : Type := mkRegisterKey {
  rk_service_account_id : ServiceAccountId;
  rk_key_id : string;
  rk_algorithm : string;
  rk_public_key_pem : string;
  rk_fingerprint : string;
  rk_expires_at : option DateTime
}.

(** ** Policies *)

Record Policy : Type := mkPolicy {
  policy_id : PolicyId;
  policy_tenant_id : TenantId;
  policy_name : string;
  policy_description : option string;
  allowed_models_json : Value;
  denied_models_json : Value;
  policy_max_input_tokens : option Z;
  policy_max_output_tokens : option Z;
  policy_allow_streaming : bool;
  policy_allow_tools : bool;
  policy_allow_files : bool;
  policy_rpm_limit : option Z;
  policy_concurrency_limit : option Z;
  policy_created_at : DateTime;
  policy_updated_at : DateTime
}.
Record CreatePolicy : Type := mkCreatePolicy {
  cp_policy_id : PolicyId;
  cp_tenant_id : TenantId;
  cp_name : string;
  cp_description : option string;
  cp_allowed_models_json : Value;
  cp_denied_models_json : Value;
  cp_max_input_tokens : option Z;
  cp_max_output_tokens : option Z;
  cp_allow_streaming : bool;
  cp_allow_tools : bool;
  cp_allow_files : bool;
  cp_rpm_limit : option Z;
  cp_concurrency_limit : option Z
}.
Record UpdatePolicy : Type := mkUpdatePolicy {
  up_name : option string;
  up_description : option string;
  up_allowed_models_json : option Value;
  up_denied_models_json : option Value;
  up_max_input_tokens : option Z;
  up_max_output_tokens : option Z;
  up_allow_streaming : option bool;
  up_allow_tools : option bool;
  up_allow_files : option bool;
  up_rpm_limit : option Z;
  up_concurrency_limit : option Z
}.
Record ServiceAccountPolicyBinding : Type := mkBinding {
  binding_id : Uuid;
  binding_service_account_id : ServiceAccountId;
  binding_policy_id : PolicyId;
  binding_created_at : DateTime
}.

(** ** Provider routes *)

Record ProviderRoute : Type := mkProviderRoute {
  route_id : RouteId;
  route_tenant_id : option TenantId;
  route_model_alias : string;
  route_provider : Provider;
  route_provider_model_name : string;
  route_priority : Z;
  route_enabled : bool;
  route_timeout_ms : Z;
  route_max_retries : Z;
  route_retry_backoff_ms : Z;
  route_config : Value;
  route_created_at : DateTime;
  route_updated_at : DateTime
}.
Record CreateRoute : Type := mkCreateRoute {
  cr_tenant_id : option TenantId;
  cr_model_alias : string;
  cr_provider : string;
  cr_provider_model_name : string;
  cr_priority : option Z;
  cr_enabled : option bool;
  cr_timeout_ms : option Z;
  cr_max_retries : option Z;
  cr_retry_backoff_ms : option Z;
  cr_config : option Value
}.
Record UpdateRoute : Type := mkUpdateRoute {
  ur_model_alias : option string;
  ur_provider : option string;
  ur_provider_model_name : option string;
  ur_priority : option Z;
  ur_enabled : option bool;
  ur_timeout_ms : option Z;
  ur_max_retries : option Z;
  ur_retry_backoff_ms : option Z;
  ur_config : option Value
}.

(** ** Admin API keys *)

Record AdminApiKey : Type := mkAdminApiKey {
  ak_id : Uuid;
  ak_name : string;
  ak_key_hash : string;
  ak_role : string;
  ak_is_active : bool;
  ak_created_at : DateTime;
  ak_last_used_at : option DateTime
}.

(** ** Lemmas *)

(** A cursor decodes to the row position it was made from. *)
Lemma cursor_roundtrip `{!CursorCodec, !CursorCodecLaws} ts id :
  cursor_decode (cursor_encode ts id) = Ok (ts, id).
Proof.
  unfold cursor_decode, cursor_encode. cbn.
  rewrite b64url_decode_encode. cbn. rewrite payload_from_to_vec. cbn.
  by rewrite parse_to_rfc3339.
Qed.

(** The clamped page size lies in 1..=200, and one more row than that is fetched. *)
Lemma clamp_limit_spec l :
  let '(limit, fetch) := clamp_limit l in
  (1 ≤ limit ≤ 200)%nat ∧ fetch = Z.of_nat limit + 1.
Proof. unfold clamp_limit. lia. Qed.
