(* ===== verification/Pagination.v ===== *)
(** * Keyset pagination

    The shape every listing query of the repositories has
    ([WHERE p AND (created_at, id) < ($ts, $id) ORDER BY created_at DESC, id DESC LIMIT $n],
    then [Page::from_rows]), and the proof that walking the cursors of such a listing
    yields every selected row once, newest first. *)

From stdpp Require Import options.
From S2P Require Import Prelude Rust Types Errors Json Models.

(** ** Row comparison [(created_at, id) < ($1, $2)] *)

Definition key_lt (a b : DateTime * Uuid) : Prop :=
  a.1 < b.1 ∨ (a.1 = b.1 ∧ a.2 < b.2).
#[global] Instance key_lt_dec : RelDecision key_lt.
Proof. intros a b. unfold key_lt. apply _. Defined.

(** [ORDER BY created_at DESC, id DESC]: [x] comes no later than [y]. *)
Definition key_desc {T} (key : T → DateTime * Uuid) (x y : T) : Prop :=
  ¬ key_lt (key x) (key y).
#[global] Instance key_desc_dec {T} (key : T → DateTime * Uuid) : RelDecision (key_desc key).
Proof. intros x y. unfold key_desc. apply _. Defined.
#[global] Instance key_desc_total {T} (key : T → DateTime * Uuid) : Total (key_desc key).
Proof. intros x y. unfold key_desc, key_lt. lia. Qed.
#[global] Instance key_desc_trans {T} (key : T → DateTime * Uuid) : Transitive (key_desc key).
Proof. intros x y z. unfold key_desc, key_lt. lia. Qed.

Definition order_desc {T} (key : T → DateTime * Uuid) (rows : list T) : list T :=
  merge_sort (key_desc key) rows.

(** [WHERE p [AND key < cursor] ORDER BY key DESC LIMIT fetch] *)
Definition before_cursor {T} (key : T → DateTime * Uuid)
    (cursor : option (DateTime * Uuid)) (r : T) : bool :=
  match cursor with
  | None => true
  | Some c => bool_decide (key_lt (key r) c)
  end.
Definition select_page {T} (key : T → DateTime * Uuid) (p : T → bool)
    (cursor : option (DateTime * Uuid)) (fetch_limit : Z) (rows : list T) : list T :=
  take (Z.to_nat fetch_limit)
    (order_desc key (filter (λ r, p r && before_cursor key cursor r = true) rows)).

(** The listing function of a repository: decode the cursor, query, build the page. *)
Definition list_page `{!CursorCodec} {T} (key : T → DateTime * Uuid) (p : T → bool)
    (rows : list T) (cursor : option Cursor) (limit : Z) : result StorageError (Page T) :=
  let '(limit, fetch_limit) := clamp_limit limit in
  position ← match cursor with
             | Some c => map_err SInvalidCursor (Some <$> cursor_decode c)
             | None => mret None
             end;
  mret (from_rows (select_page key p position fetch_limit rows) limit key).

(** A client following [next_cursor], at most [fuel] pages. *)
Fixpoint walk_pages `{!CursorCodec} {T} (key : T → DateTime * Uuid) (p : T → bool)
    (rows : list T) (limit : Z) (fuel : nat) (cursor : option Cursor)
    : result StorageError (list T) :=
  match fuel with
  | O => Err (SInternal "out of fuel")
  | S fuel =>
    page ← list_page key p rows cursor limit;
    match next_cursor page with
    | None => mret (items page)
    | Some c =>
      rest ← walk_pages key p rows limit fuel (Some c);
      mret (items page ++ rest)
    end
  end.

(** ** Correctness *)

Section keyset.
Context {T : Type} (key : T → DateTime * Uuid).
Implicit Types (rows : list T).

Lemma order_desc_perm rows : order_desc key rows ≡ₚ rows.
Proof. apply merge_sort_Permutation. Qed.

Lemma order_desc_sorted rows : StronglySorted (key_desc key) (order_desc key rows).
Proof. apply StronglySorted_merge_sort; apply _. Qed.

(** Two descending lists with the same rows and distinct keys are the same list. *)
Lemma desc_sorted_unique (l k : list T) :
  NoDup (key <$> l) → StronglySorted (key_desc key) l → StronglySorted (key_desc key) k →
  l ≡ₚ k → l = k.
Proof.
  intros Hnd Hl Hk Hperm. apply StronglySorted_unique_strong with (key_desc key); [|done..].
  intros x y Hx Hy Hxy Hyx.
  assert (key x = key y) as Heq.
  { unfold key_desc, key_lt in *. destruct (key x), (key y). cbn in *. f_equal; lia. }
  rewrite <-Hperm in Hy.
  apply list_elem_of_lookup in Hx as [i Hi]. apply list_elem_of_lookup in Hy as [j Hj].
  assert (i = j) as ->; [|congruence].
  eapply NoDup_lookup; [done| |]; rewrite list_lookup_fmap; [by rewrite Hi|].
  by rewrite Hj, Heq.
Qed.

(** Sorting commutes with a row filter. *)
Lemma order_desc_filter (P : T → Prop) `{!∀ x, Decision (P x)} rows :
  NoDup (key <$> rows) →
  order_desc key (filter P rows) = filter P (order_desc key rows).
Proof.
  intros Hnd. apply desc_sorted_unique.
  - rewrite order_desc_perm. eapply sublist_NoDup; [exact Hnd|].
    apply fmap_sublist, sublist_filter.
  - apply order_desc_sorted.
  - apply StronglySorted_filter, order_desc_sorted.
  - by rewrite !order_desc_perm.
Qed.

(** In a descending list without repeated keys, the rows before a row's key are
    exactly the rows after it. *)
Lemma filter_before_split (l1 l2 : list T) (x : T) :
  NoDup (key <$> l1 ++ x :: l2) → StronglySorted (key_desc key) (l1 ++ x :: l2) →
  filter (λ r, before_cursor key (Some (key x)) r = true) (l1 ++ x :: l2) = l2.
Proof.
  intros Hnd Hs. rewrite fmap_app, fmap_cons in Hnd.
  apply NoDup_app in Hnd as (_ & _ & [Hx _]%NoDup_cons).
  apply StronglySorted_app in Hs as (Hcross & _ & [Hx2 _]%StronglySorted_cons).
  rewrite filter_app, filter_cons_False.
  2:{ cbn. rewrite bool_decide_eq_true. unfold key_lt. lia. }
  rewrite (list_filter_all _ l2), (list_filter_none _ l1); [done| |].
  - intros y Hy. cbn. rewrite bool_decide_eq_true. apply Hcross; set_solver.
  - intros y Hy. cbn. apply bool_decide_eq_true.
    rewrite Forall_forall in Hx2. specialize (Hx2 y Hy).
    unfold key_desc, key_lt in *. destruct (decide (key x = key y)) as [Heq|Hne].
    + exfalso. apply Hx. rewrite Heq. by apply list_elem_of_fmap_2.
    + destruct (key x) as [t i], (key y) as [t' i']. cbn in *.
      destruct (decide (t = t')) as [->|]; [|lia].
      assert (i ≠ i') by congruence. lia.
Qed.

(** What the query selects, for a cursor that is the last row already seen. *)
Lemma select_page_split p rows fetch l1 x l2 :
  NoDup (key <$> rows) →
  order_desc key (filter (λ r, p r = true) rows) = l1 ++ x :: l2 →
  select_page key p (Some (key x)) fetch rows = take (Z.to_nat fetch) l2.
Proof.
  intros Hnd Heq. unfold select_page. f_equal.
  assert (NoDup (key <$> filter (λ r, p r = true) rows)) as Hnd'.
  { eapply sublist_NoDup; [exact Hnd|]. apply fmap_sublist, sublist_filter. }
  rewrite <-(filter_before_split l1 l2 x).
  - rewrite <-Heq, <-order_desc_filter by done. f_equal.
    rewrite list_filter_filter. apply list_filter_iff. intros r.
    rewrite andb_true_iff. tauto.
  - rewrite <-Heq, order_desc_perm. done.
  - rewrite <-Heq. apply order_desc_sorted.
Qed.

Lemma select_page_first p rows fetch :
  select_page key p None fetch rows =
  take (Z.to_nat fetch) (order_desc key (filter (λ r, p r = true) rows)).
Proof.
  unfold select_page. do 2 f_equal. apply list_filter_iff. intros r. cbn.
  by rewrite andb_true_r.
Qed.

(** A walk that has seen [done] and holds the cursor of its last row yields the rest. *)
Context `{!CursorCodec, !CursorCodecLaws}.
Lemma walk_pages_spec p rows limit fuel done rest :
  NoDup (key <$> rows) →
  order_desc key (filter (λ r, p r = true) rows) = done ++ rest →
  (length rest < fuel)%nat →
  walk_pages key p rows limit fuel
    ((λ r, cursor_encode (key r).1 (key r).2) <$> last done) = Ok rest.
Proof using Type*.
  intros Hnd. revert done rest. induction fuel as [|fuel IH]; intros don rest Heq Hf; [lia|].
  cbn [walk_pages].
  pose proof (clamp_limit_spec limit) as Hcl. unfold list_page.
  destruct (clamp_limit limit) as [lim fetch]. destruct Hcl as [Hlim ->].
  assert (∀ Q, (position ← match (λ r, cursor_encode (key r).1 (key r).2) <$> last don with
             | Some c => map_err SInvalidCursor (Some <$> cursor_decode c)
             | None => mret None
             end; Q (select_page key p position (Z.of_nat lim + 1) rows))
          = Q (take (lim + 1) rest) :> result StorageError (Page T)) as Hsel.
  { intros Q. destruct (last don) as [x|] eqn:Hl; cbn.
    - apply last_Some in Hl as [l1 ->]. rewrite cursor_roundtrip. cbn.
      rewrite <-surjective_pairing, (select_page_split _ _ _ l1 x rest); [|done|].
      + do 2 f_equal. lia.
      + by rewrite Heq, <-app_assoc.
    - apply last_None in Hl as ->. rewrite select_page_first, Heq. cbn. do 2 f_equal. lia. }
  rewrite (Hsel (λ l, mret (from_rows l lim key))). clear Hsel.
  unfold from_rows. rewrite length_take, take_take, (Nat.min_l lim) by lia.
  destruct (Nat.ltb lim ((lim + 1) `min` length rest)%nat) eqn:Hlt.
  - apply Nat.ltb_lt in Hlt.
    destruct (last (take lim rest)) as [y|] eqn:Hy.
    2:{ apply last_None in Hy. destruct lim, rest; cbn in *; try lia; congruence. }
    pose proof (IH (don ++ take lim rest) (drop lim rest)) as IH'.
    rewrite last_app, Hy in IH'. cbn in IH' |- *. destruct (key y) as [ts id]. cbn in *.
    rewrite IH'; cbn.
    + by rewrite take_drop.
    + by rewrite <-app_assoc, take_drop.
    + rewrite length_drop. lia.
  - apply Nat.ltb_ge in Hlt. cbn. rewrite take_ge by lia. done.
Qed.
End keyset.
