(* ===== verification/PolicyChecks.v ===== *)
(** * Request checks of a merged policy
      (src/gateway/crates/gateway/src/policy/{model_access,features,quotas}.rs)

    [ModelAccess]: allow and deny lists of glob patterns. [Features]: streaming, tools
    and files flags. [Quotas]: token limits and the input token estimate. Each module
    holds the data, the check and the characterisation of its outcomes. *)

From Stdlib Require Import Ascii.
From stdpp Require Import options.
From S2P Require Import Prelude Rust Errors Json.

Module ModelAccess.
Record ModelAccessRules : Type := mkModelAccessRules {
  allowed_models : list string;
  denied_models : list string
}.
Definition ModelAccessRules_default : ModelAccessRules := mkModelAccessRules [] [].

Definition matches_glob (pattern value : string) : bool :=
  match strip_suffix_char "*" pattern with
  | Some prefix => starts_with value prefix
  | None => String.eqb pattern value
  end.

(** The [for] loop over the deny list returns at the first match; its error does not
    depend on which pattern matched. *)
Definition check_model_access (rules : ModelAccessRules) (model : string)
    : result GatewayError unit :=
  _ ← for_each (λ _ pattern,
        throw_if (matches_glob pattern model)
          (EPolicy "model_not_allowed" ("model '" +:+ model +:+ "' is denied by policy")))
        tt (denied_models rules);
  if negb (bool_decide (allowed_models rules = []))
  then
    let allowed := existsb (λ p, matches_glob p model) (allowed_models rules) in
    throw_if (negb allowed)
      (EPolicy "model_not_allowed" ("model '" +:+ model +:+ "' is not allowed by policy"))
  else mret tt.

(** What the module promises: a pattern ending in a star stands for its extensions,
    any other pattern for itself; deny wins over allow; an empty allow list allows. *)
Definition glob_spec (pattern value : string) : Prop :=
  (∃ pre rest, pattern = pre +:+ "*" ∧ value = pre +:+ rest) ∨
  ((¬ ∃ pre, pattern = pre +:+ "*") ∧ pattern = value).
Definition permitted (rules : ModelAccessRules) (model : string) : Prop :=
  Forall (λ p, ¬ glob_spec p model) (denied_models rules) ∧
  (allowed_models rules = [] ∨ ∃ p, p ∈ allowed_models rules ∧ glob_spec p model).

(** Rules are equivalent when their lists hold the same patterns. *)
#[global] Instance rules_equiv : Equiv ModelAccessRules := λ r1 r2,
  (∀ p, p ∈ allowed_models r1 ↔ p ∈ allowed_models r2) ∧
  (∀ p, p ∈ denied_models r1 ↔ p ∈ denied_models r2).
#[global] Instance rules_equivalence : Equivalence (≡@{ModelAccessRules}).
Proof. unfold equiv, rules_equiv. split; red; intros; naive_solver. Qed.

Lemma matches_glob_spec pattern value :
  matches_glob pattern value = true ↔ glob_spec pattern value.
Proof.
  unfold matches_glob, glob_spec.
  destruct (strip_suffix_char "*" pattern) as [pre|] eqn:Hs.
  - apply strip_suffix_char_spec in Hs as ->. rewrite starts_with_spec. split.
    + intros [r ->]. left. eauto.
    + intros [(pre' & r & Heq & ->)|[Hno _]]; [|naive_solver].
      apply (strip_suffix_char_spec "*") in Heq.
      assert (strip_suffix_char "*" (pre +:+ "*") = Some pre) as Hpre
        by by apply strip_suffix_char_spec.
      rewrite Hpre in Heq. injection Heq as ->. eauto.
  - rewrite String.eqb_eq. split.
    + intros ->. right. split; [|done]. intros [pre Hp%strip_suffix_char_spec]. congruence.
    + intros [(pre & r & Heq%strip_suffix_char_spec & _)|[_ Heq]]; congruence.
Qed.

Lemma deny_loop_ok model ps e u :
  for_each (λ _ pattern, throw_if (matches_glob pattern model) e) tt ps
    = (Ok u : result GatewayError unit) ↔ Forall (λ p, ¬ glob_spec p model) ps.
Proof.
  destruct u. induction ps as [|p ps IH]; cbn; [done|].
  rewrite result_bind_ok, Forall_cons, <-IH, <-matches_glob_spec.
  destruct (matches_glob p model); cbn; split; try naive_solver.
Qed.

Lemma deny_loop_err model ps e e' :
  for_each (λ _ pattern, throw_if (matches_glob pattern model) e) tt ps
    = (Err e' : result GatewayError unit) → e' = e.
Proof.
  induction ps as [|p ps IH]; cbn; [done|].
  intros [[_ ?]%throw_if_err|([] & _ & ?)]%result_bind_err; auto.
Qed.

Lemma check_model_access_ok rules model u :
  check_model_access rules model = Ok u ↔ permitted rules model.
Proof.
  destruct u. unfold check_model_access, permitted. rewrite result_bind_ok.
  assert (existsb (λ p, matches_glob p model) (allowed_models rules) = true ↔
    ∃ p, p ∈ allowed_models rules ∧ glob_spec p model) as Hex.
  { rewrite existsb_exists. apply exist_proper. intros p.
    by rewrite <-list_elem_of_In, matches_glob_spec. }
  destruct (bool_decide_reflect (allowed_models rules = [])) as [Hemp|Hne]; cbn.
  - split.
    + intros ([] & Hd%deny_loop_ok & _). auto.
    + intros (Hd & _). exists tt. split; [by apply deny_loop_ok|done].
  - split.
    + intros ([] & Hd%deny_loop_ok & Ha%throw_if_ok%negb_false_iff%Hex). auto.
    + intros (Hd & [?|Ha%Hex]); [done|]. exists tt. split; [by apply deny_loop_ok|].
      by rewrite Ha.
Qed.

Lemma check_model_access_err rules model e :
  check_model_access rules model = Err e →
  ∃ msg, e = EPolicy "model_not_allowed" msg.
Proof.
  unfold check_model_access. intros [Hd|([] & _ & Ha)]%result_bind_err.
  - apply deny_loop_err in Hd. eauto.
  - destruct (negb _); [|done]. apply throw_if_err in Ha. naive_solver.
Qed.

#[global] Instance permitted_proper : Proper ((≡) ==> eq ==> iff) permitted.
Proof.
  intros r1 r2 [Ha Hd] m ? <-. unfold permitted.
  assert (allowed_models r1 = [] ↔ allowed_models r2 = []) as ->.
  { destruct (allowed_models r1), (allowed_models r2); set_solver. }
  rewrite !Forall_forall. by setoid_rewrite Ha; setoid_rewrite Hd.
Qed.

(** The verdict does not depend on the order or the repetition of the patterns. *)
Lemma check_model_access_proper r1 r2 model :
  r1 ≡ r2 → is_ok (check_model_access r1 model) = is_ok (check_model_access r2 model).
Proof.
  intros Heq.
  destruct (check_model_access r1 model) as [[]|] eqn:H1,
    (check_model_access r2 model) as [[]|] eqn:H2; try done; exfalso.
  - rewrite check_model_access_ok, Heq, <-(check_model_access_ok _ _ tt) in H1. congruence.
  - rewrite check_model_access_ok, <-Heq, <-(check_model_access_ok _ _ tt) in H2. congruence.
Qed.
End ModelAccess.

Module Features.
Record FeatureFlags : Type := mkFeatureFlags {
  allow_streaming : bool;
  allow_tools : bool;
  allow_files : bool
}.
Definition FeatureFlags_default : FeatureFlags := mkFeatureFlags true true true.

Record RequestFeatures : Type := mkRequestFeatures {
  stream : bool;
  has_tools : bool;
  has_files : bool
}.

Definition check_features (flags : FeatureFlags) (request : RequestFeatures)
    : result GatewayError unit :=
  _ ← throw_if (negb (allow_streaming flags) && stream request)
        (EPolicy "streaming_not_allowed" "streaming is not allowed by policy");
  _ ← throw_if (negb (allow_tools flags) && has_tools request)
        (EPolicy "tools_not_allowed" "tool use is not allowed by policy");
  throw_if (negb (allow_files flags) && has_files request)
    (EPolicy "files_not_allowed" "file input is not allowed by policy").

Lemma check_features_ok flags request u :
  check_features flags request = Ok u ↔
  (stream request = true → allow_streaming flags = true) ∧
  (has_tools request = true → allow_tools flags = true) ∧
  (has_files request = true → allow_files flags = true).
Proof. destruct flags as [[] [] []], request as [[] [] []], u; cbn; naive_solver. Qed.
End Features.

Module Quotas.
Record TokenLimits : Type := mkTokenLimits {
  max_input_tokens : option Z;
  max_output_tokens : option Z
}.
Definition TokenLimits_default : TokenLimits := mkTokenLimits None None.

Record TokenCheckResult : Type := mkTokenCheckResult {
  effective_max_output_tokens : option Z;
  output_tokens_clamped : bool
}.

Definition check_token_limits (limits : TokenLimits)
    (estimated_input_tokens requested_max_output_tokens : option Z)
    : result GatewayError TokenCheckResult :=
  _ ← match estimated_input_tokens, max_input_tokens limits with
      | Some estimate, Some limit =>
        throw_if (limit <? estimate)
          (EPolicy "input_tokens_exceeded"
            ("estimated input tokens (" +:+ pretty estimate +:+
             ") exceeds policy limit (" +:+ pretty limit +:+ ")"))
      | _, _ => mret tt
      end;
  let '(effective, clamped) :=
    match requested_max_output_tokens, max_output_tokens limits with
    | Some requested, Some limit =>
      if limit <? requested then (Some limit, true) else (Some requested, false)
    | None, Some limit => (Some limit, false)
    | requested, None => (requested, false)
    end in
  mret (mkTokenCheckResult effective clamped).

(** [usize] sums: the texts are in memory, so the sum of their lengths does not wrap. *)
Definition sum_usize (ns : list Z) : Z := foldr Z.add 0 ns.

Definition part_len (part : Value) : option Z :=
  text ← json_get "text" part; str_len <$> as_str text.
Definition message_len (msg : Value) : option Z :=
  content ← json_get "content" msg;
  match as_str content with
  | Some s => Some (str_len s)
  | None => (λ parts, sum_usize (omap part_len parts)) <$> as_array content
  end.

Definition estimate_input_tokens (messages_json : Value) : option Z :=
  arr ← as_array messages_json;
  if bool_decide (arr = []) then None else
  let total_chars := sum_usize (omap message_len arr) in
  Some (as_u32 (Z.max (total_chars / 4) 1)).

(** [o] is within the bound [b]; an absent bound is no bound. *)
Definition within (b : option Z) (o : option Z) : Prop :=
  match b with
  | Some limit => ∃ v, o = Some v ∧ v ≤ limit
  | None => True
  end.

(** The two halves of the check: admission on input, clamping on output. *)
Definition input_ok (limits : TokenLimits) (est : option Z) : Prop :=
  ∀ e l, est = Some e → max_input_tokens limits = Some l → e ≤ l.
Definition clamp_of (limits : TokenLimits) (req : option Z) : TokenCheckResult :=
  mkTokenCheckResult
    (omin req (max_output_tokens limits))
    (match req, max_output_tokens limits with Some q, Some l => l <? q | _, _ => false end).

(** A request is accepted exactly when its estimate is within the input limit, and the
    effective output limit is then the minimum of the requested one and the policy's. *)
Lemma check_token_limits_ok limits est req r :
  check_token_limits limits est req = Ok r ↔ input_ok limits est ∧ r = clamp_of limits req.
Proof.
  assert (∀ P : Prop, ((∃ u : unit,
      match est, max_input_tokens limits with
      | Some estimate, Some limit =>
        throw_if (limit <? estimate) (EPolicy "input_tokens_exceeded"
            ("estimated input tokens (" +:+ pretty estimate +:+
             ") exceeds policy limit (" +:+ pretty limit +:+ ")"))
      | _, _ => mret tt
      end = Ok u ∧ P) ↔ input_ok limits est ∧ P)) as Hin.
  { intros P. unfold input_ok. destruct est as [e|], (max_input_tokens limits) as [l|].
    2-4: split; [intros (? & _ & ?); split; [by intros|done]|intros [_ ?]; by exists tt].
    split.
    - intros (_ & Hle%throw_if_ok%Z.ltb_ge & HP). split; [|done].
      by intros ?? [= <-] [= <-].
    - intros [Hle HP]. exists tt. split; [|done]. by apply throw_if_ok, Z.ltb_ge, Hle. }
  unfold check_token_limits. rewrite result_bind_ok, Hin. apply and_iff_compat_l.
  unfold clamp_of. destruct req as [q|], (max_output_tokens limits) as [l|]; cbn;
    try destruct (Z.ltb_spec l q) as [Hlt|Hge];
    try rewrite Z.min_r by lia; try rewrite Z.min_l by lia;
    (split; [by intros [= <-]|by intros ->]).
Qed.

Lemma check_token_limits_err limits est req e :
  check_token_limits limits est req = Err e →
  ∃ v l msg, est = Some v ∧ max_input_tokens limits = Some l ∧ l < v ∧
    e = EPolicy "input_tokens_exceeded" msg.
Proof.
  unfold check_token_limits. intros [Hin|([] & _ & Hout)]%result_bind_err.
  - destruct est as [v|], (max_input_tokens limits) as [l|]; try done.
    apply throw_if_err in Hin as [Hlt ->]. exists v, l. eexists. repeat split. lia.
  - repeat case_match; done.
Qed.

Lemma sum_usize_nonneg ns : Forall (λ n, 0 ≤ n) ns → 0 ≤ sum_usize ns.
Proof. unfold sum_usize. induction 1; cbn; lia. Qed.

Lemma message_len_nonneg msg n : message_len msg = Some n → 0 ≤ n.
Proof.
  unfold message_len. intros (c & _ & Hc)%bind_Some.
  destruct (as_str c) as [s|]; [injection Hc as <-; unfold str_len; lia|].
  apply fmap_Some in Hc as (ps & _ & ->). apply sum_usize_nonneg, Forall_forall.
  intros x (p & _ & Hp)%list_elem_of_omap. unfold part_len in Hp.
  apply bind_Some in Hp as (t & _ & (s & _ & ->)%fmap_Some). unfold str_len; lia.
Qed.
End Quotas.
