(* ===== verification/PolicyMerge.v ===== *)
(** * Merging policies (src/gateway/crates/gateway/src/policy/engine.rs, the pure part)

    [merge_policies] folds the policies of a service account into one
    [EvaluatedPolicy]; [apply_policy_checks] runs the checks of [PolicyChecks] on it.
    The specification is [merge_spec]: minimum of the limits, conjunction of the flags,
    union of the deny lists, intersection of the non-empty allow lists. *)

From stdpp Require Import options.
From S2P Require Import Prelude Rust Types Errors Json Models PolicyChecks.
Import ModelAccess Features Quotas.

(** A [HashSet] is iterated in an unspecified order: a permutation of its elements. *)
Class HashOrder : Type := {
  hash_iter : gset string → list string;
  hash_iter_perm s : hash_iter s ≡ₚ elements s
}.
Definition sorted_hash_order : HashOrder := {| hash_iter := elements; hash_iter_perm s := reflexivity _ |}.

Record EvaluatedPolicy : Type := mkEvaluatedPolicy {
  model_access : ModelAccessRules;
  token_limits : TokenLimits;
  feature_flags : FeatureFlags;
  rpm_limit : option Z;
  concurrency_limit : option Z
}.
Definition EvaluatedPolicy_default : EvaluatedPolicy := {|
  model_access := ModelAccessRules_default;
  token_limits := TokenLimits_default;
  feature_flags := mkFeatureFlags true false false;
  rpm_limit := None;
  concurrency_limit := None
|}.

Record PolicyDecision : Type := mkPolicyDecision {
  token_check : TokenCheckResult;
  evaluated : EvaluatedPolicy
}.

Definition merge_positive_limit (current value : option Z) (field_name : string)
    : result GatewayError (option Z) :=
  match value with
  | Some limit =>
    if limit <=? 0
    then Err (EPolicy "policy_config_invalid"
                ("policy has invalid " +:+ field_name +:+ " configuration"))
    else
      let limit := as_u32 limit in
      mret (Some (match current with Some cur => Z.min cur limit | None => limit end))
  | None => mret current
  end.

(** The mutable locals of [merge_policies]. *)
Record MergeState : Type := mkMergeState {
  ms_allowed : list string;
  ms_denied : gset string;
  ms_max_input : option Z;
  ms_max_output : option Z;
  ms_streaming : bool;
  ms_tools : bool;
  ms_files : bool;
  ms_rpm : option Z;
  ms_concurrency : option Z;
  ms_first_allowlist : bool
}.
Definition merge_init : MergeState := {|
  ms_allowed := []; ms_denied := ∅; ms_max_input := None; ms_max_output := None;
  ms_streaming := true; ms_tools := true; ms_files := true;
  ms_rpm := None; ms_concurrency := None; ms_first_allowlist := true
|}.

(** The allow-list step: adopt the first non-empty list, then keep common patterns. *)
Definition merge_allowed (allowed : list string) (first : bool) (policy_allowed : list string)
    : list string * bool :=
  if negb (bool_decide (policy_allowed = []))
  then
    if first then (policy_allowed, false)
    else (filter (λ m, m ∈ (list_to_set policy_allowed : gset string)) allowed, first)
  else (allowed, first).

(** One iteration of the loop of [merge_policies]. *)
Definition merge_step (ms : MergeState) (policy : Policy) : result GatewayError MergeState :=
  policy_allowed ← ok_or (EPolicy "policy_config_invalid"
      "policy has invalid allowed_models configuration")
    (vec_string_from_value (allowed_models_json policy));
  let '(allowed, first) := merge_allowed (ms_allowed ms) (ms_first_allowlist ms) policy_allowed in
  policy_denied ← ok_or (EPolicy "policy_config_invalid"
      "policy has invalid denied_models configuration")
    (vec_string_from_value (denied_models_json policy));
  let denied := ms_denied ms ∪ list_to_set policy_denied in
  max_input ← merge_positive_limit (ms_max_input ms) (policy_max_input_tokens policy)
    "max_input_tokens";
  max_output ← merge_positive_limit (ms_max_output ms) (policy_max_output_tokens policy)
    "max_output_tokens";
  let streaming := ms_streaming ms && policy_allow_streaming policy in
  let tools := ms_tools ms && policy_allow_tools policy in
  let files := ms_files ms && policy_allow_files policy in
  rpm ← merge_positive_limit (ms_rpm ms) (policy_rpm_limit policy) "rpm_limit";
  concurrency ← merge_positive_limit (ms_concurrency ms) (policy_concurrency_limit policy)
    "concurrency_limit";
  mret {|
    ms_allowed := allowed; ms_denied := denied;
    ms_max_input := max_input; ms_max_output := max_output;
    ms_streaming := streaming; ms_tools := tools; ms_files := files;
    ms_rpm := rpm; ms_concurrency := concurrency; ms_first_allowlist := first
  |}.

Definition merge_policies `{!HashOrder} (policies : list Policy)
    : result GatewayError EvaluatedPolicy :=
  if bool_decide (policies = []) then mret EvaluatedPolicy_default else
  ms ← for_each merge_step merge_init policies;
  mret {|
    model_access := mkModelAccessRules (ms_allowed ms) (hash_iter (ms_denied ms));
    token_limits := mkTokenLimits (ms_max_input ms) (ms_max_output ms);
    feature_flags := mkFeatureFlags (ms_streaming ms) (ms_tools ms) (ms_files ms);
    rpm_limit := ms_rpm ms;
    concurrency_limit := ms_concurrency ms
  |}.

Definition apply_policy_checks (evaluated : EvaluatedPolicy) (model : string)
    (request_features : RequestFeatures)
    (estimated_input_tokens requested_max_output_tokens : option Z)
    : result GatewayError TokenCheckResult :=
  _ ← check_model_access (model_access evaluated) model;
  _ ← check_features (feature_flags evaluated) request_features;
  check_token_limits (token_limits evaluated) estimated_input_tokens
    requested_max_output_tokens.

(** ** Specification *)

(** A policy row the merge accepts. *)
Definition limit_valid (l : option Z) : bool :=
  match l with Some v => 0 <? v | None => true end.
Definition policy_valid (p : Policy) : bool :=
  bool_decide (is_Some (vec_string_from_value (allowed_models_json p))) &&
  bool_decide (is_Some (vec_string_from_value (denied_models_json p))) &&
  limit_valid (policy_max_input_tokens p) && limit_valid (policy_max_output_tokens p) &&
  limit_valid (policy_rpm_limit p) && limit_valid (policy_concurrency_limit p).
(** The column types of the row: 32-bit limits. *)
Definition policy_i32 (p : Policy) : Prop :=
  ∀ l, l ∈ [policy_max_input_tokens p; policy_max_output_tokens p;
            policy_rpm_limit p; policy_concurrency_limit p] → ∀ v, l = Some v → in_i32 v.

Definition allow_list (p : Policy) : list string :=
  default [] (vec_string_from_value (allowed_models_json p)).
Definition deny_list (p : Policy) : list string :=
  default [] (vec_string_from_value (denied_models_json p)).

(** Minimum of the limits that are set. *)
Definition min_limit (f : Policy → option Z) (ps : list Policy) : option Z :=
  foldr (λ p acc, omin (f p) acc) None ps.

Record merge_spec (ps : list Policy) (ev : EvaluatedPolicy) : Prop := mkMergeSpec {
  spec_allowed : ∀ m, m ∈ allowed_models (model_access ev) ↔
    (∃ p, p ∈ ps ∧ allow_list p ≠ []) ∧
    ∀ p, p ∈ ps → allow_list p ≠ [] → m ∈ allow_list p;
  spec_denied : ∀ m, m ∈ denied_models (model_access ev) ↔ ∃ p, p ∈ ps ∧ m ∈ deny_list p;
  spec_input : max_input_tokens (token_limits ev) = min_limit policy_max_input_tokens ps;
  spec_output : max_output_tokens (token_limits ev) = min_limit policy_max_output_tokens ps;
  spec_streaming : allow_streaming (feature_flags ev) = forallb policy_allow_streaming ps;
  spec_tools : allow_tools (feature_flags ev) = forallb policy_allow_tools ps;
  spec_files : allow_files (feature_flags ev) = forallb policy_allow_files ps;
  spec_rpm : rpm_limit ev = min_limit policy_rpm_limit ps;
  spec_concurrency : concurrency_limit ev = min_limit policy_concurrency_limit ps
}.

(** Merged policies are equivalent up to the order of their pattern lists. *)
#[global] Instance evaluated_equiv : Equiv EvaluatedPolicy := λ e1 e2,
  model_access e1 ≡ model_access e2 ∧ token_limits e1 = token_limits e2 ∧
  feature_flags e1 = feature_flags e2 ∧ rpm_limit e1 = rpm_limit e2 ∧
  concurrency_limit e1 = concurrency_limit e2.
#[global] Instance evaluated_equivalence : Equivalence (≡@{EvaluatedPolicy}).
Proof.
  split.
  - intros e. by split_and!.
  - intros e1 e2 (?&?&?&?&?). split_and!; by symmetry.
  - intros e1 e2 e3 (?&?&?&?&?) (?&?&?&?&?). split_and!; by etrans.
Qed.

(** ** The loop *)

Lemma merge_positive_limit_ok current value field r :
  (∀ v, value = Some v → in_i32 v) →
  merge_positive_limit current value field = Ok r ↔
  limit_valid value = true ∧ r = omin value current.
Proof.
  unfold merge_positive_limit. intros Hb. destruct value as [v|]; cbn.
  - specialize (Hb v eq_refl). unfold in_i32, I32_MAX in Hb.
    destruct (Z.leb_spec v 0) as [Hle|Hgt]; cbn.
    + split; [done|]. intros [?%Z.ltb_lt _]. lia.
    + unfold as_u32. rewrite Z.mod_small by lia.
      rewrite (proj2 (Z.ltb_lt 0 v)) by done.
      destruct current as [c|]; cbn; [rewrite (Z.min_comm c v)|]; split;
        [by intros [= <-]|by intros [_ ->]|by intros [= <-]|by intros [_ ->]].
  - destruct current; split; [by intros [= <-]|by intros [_ ->]|by intros [= <-]|by intros [_ ->]].
Qed.

Lemma merge_positive_limit_valid current value field :
  (∀ v, value = Some v → in_i32 v) → limit_valid value = true →
  merge_positive_limit current value field =
    Ok (omin value current).
Proof. intros. by apply merge_positive_limit_ok. Qed.

Lemma merge_positive_limit_err current value field e :
  merge_positive_limit current value field = Err e →
  limit_valid value = false ∧ ∃ msg, e = EPolicy "policy_config_invalid" msg.
Proof.
  unfold merge_positive_limit. destruct value as [v|]; [|done]. cbn.
  destruct (Z.leb_spec v 0); [|done]. intros [= <-]. split; [by apply Z.ltb_ge|eauto].
Qed.

(** The effect of one iteration on an accepted policy. *)
Definition step_effect (ms : MergeState) (p : Policy) : MergeState :=
  let '(allowed, first) := merge_allowed (ms_allowed ms) (ms_first_allowlist ms) (allow_list p) in
  {| ms_allowed := allowed; ms_denied := ms_denied ms ∪ list_to_set (deny_list p);
     ms_max_input := omin (policy_max_input_tokens p) (ms_max_input ms);
     ms_max_output := omin (policy_max_output_tokens p) (ms_max_output ms);
     ms_streaming := ms_streaming ms && policy_allow_streaming p;
     ms_tools := ms_tools ms && policy_allow_tools p;
     ms_files := ms_files ms && policy_allow_files p;
     ms_rpm := omin (policy_rpm_limit p) (ms_rpm ms);
     ms_concurrency := omin (policy_concurrency_limit p) (ms_concurrency ms);
     ms_first_allowlist := first |}.

Lemma policy_i32_limits p : policy_i32 p →
  (∀ v, policy_max_input_tokens p = Some v → in_i32 v) ∧
  (∀ v, policy_max_output_tokens p = Some v → in_i32 v) ∧
  (∀ v, policy_rpm_limit p = Some v → in_i32 v) ∧
  (∀ v, policy_concurrency_limit p = Some v → in_i32 v).
Proof. intros Hp. split_and!; intros; eapply Hp; eauto; set_solver. Qed.

Lemma policy_valid_alt p : policy_valid p = true ↔
  is_Some (vec_string_from_value (allowed_models_json p)) ∧
  is_Some (vec_string_from_value (denied_models_json p)) ∧
  limit_valid (policy_max_input_tokens p) = true ∧
  limit_valid (policy_max_output_tokens p) = true ∧
  limit_valid (policy_rpm_limit p) = true ∧
  limit_valid (policy_concurrency_limit p) = true.
Proof. unfold policy_valid. rewrite !andb_true_iff, !bool_decide_eq_true. tauto. Qed.

Lemma merge_step_ok ms p ms' : policy_i32 p →
  merge_step ms p = Ok ms' ↔ policy_valid p = true ∧ ms' = step_effect ms p.
Proof.
  intros (Hi & Ho & Hr & Hc)%policy_i32_limits. rewrite policy_valid_alt.
  unfold merge_step, step_effect, allow_list, deny_list. rewrite result_bind_ok. split.
  - intros (al & Hal%ok_or_ok & Hk). rewrite Hal. cbn in *.
    destruct (merge_allowed _ _ al) as [al' first]. inv_res.
    repeat match goal with
    | H : merge_positive_limit _ _ _ = Ok _ |- _ =>
        apply merge_positive_limit_ok in H as [? ->]; [|done]
    | H : vec_string_from_value _ = Some _ |- _ => rewrite H
    end. eauto 10.
  - intros [([al Hal] & [dl Hdl] & Vi & Vo & Vr & Vc) ->]. rewrite Hal, Hdl.
    exists al. split; [done|]. cbn. destruct (merge_allowed _ _ al) as [al' first].
    by do 4 (rewrite merge_positive_limit_valid by done; cbn).
Qed.

Lemma merge_step_err ms p e : policy_i32 p → merge_step ms p = Err e →
  policy_valid p = false ∧ ∃ msg, e = EPolicy "policy_config_invalid" msg.
Proof.
  intros Hp Herr. split.
  - destruct (policy_valid p) eqn:Hv; [|done].
    assert (merge_step ms p = Ok (step_effect ms p)) by by apply merge_step_ok.
    congruence.
  - unfold merge_step in Herr.
    repeat match goal with
    | H : (ok_or _ _ ≫= _) = Err _ |- _ => apply result_bind_err in H as [H|(? & _ & H)]
    | H : ok_or _ ?o = Err _ |- _ => destruct o; [done|]; injection H as <-; eauto
    | H : (merge_positive_limit _ _ _ ≫= _) = Err _ |- _ =>
        apply result_bind_err in H as [[_ ?]%merge_positive_limit_err|(? & _ & H)]; [done|]
    | H : context [merge_allowed ?a ?b ?c] |- _ => destruct (merge_allowed a b c)
    | H : mret _ = Err _ |- _ => discriminate H
    end.
Qed.

Lemma merge_loop_ok ms ps ms' : Forall policy_i32 ps →
  for_each merge_step ms ps = Ok ms' ↔
  Forall (λ p, policy_valid p = true) ps ∧ ms' = foldl step_effect ms ps.
Proof.
  intros Hps. revert ms. induction Hps as [|p ps Hp _ IH]; intros ms; cbn.
  - split; [by intros [= <-]|by intros [_ ->]].
  - rewrite result_bind_ok, Forall_cons. split.
    + intros (ms1 & [Hv ->]%merge_step_ok & [??]%IH); auto.
    + intros [[Hv Hvs] ->]. exists (step_effect ms p).
      by rewrite merge_step_ok, IH.
Qed.

Lemma merge_loop_err ms ps e : Forall policy_i32 ps →
  for_each merge_step ms ps = Err e →
  Exists (λ p, policy_valid p = false) ps ∧ ∃ msg, e = EPolicy "policy_config_invalid" msg.
Proof.
  intros Hps. revert ms. induction Hps as [|p ps Hp _ IH]; intros ms; cbn; [done|].
  intros [[??]%merge_step_err|(ms1 & _ & [??]%IH)]%result_bind_err; auto.
Qed.

(** ** What the fold computes *)

Section fold.
Implicit Types (ms : MergeState) (ps : list Policy).

Lemma fold_flag (proj : MergeState → bool) (flag : Policy → bool) ms ps :
  (∀ ms p, proj (step_effect ms p) = proj ms && flag p) →
  proj (foldl step_effect ms ps) = proj ms && forallb flag ps.
Proof.
  intros Hstep. revert ms. induction ps as [|p ps IH]; intros ms; cbn.
  - by rewrite andb_true_r.
  - by rewrite IH, Hstep, andb_assoc.
Qed.

Lemma fold_limit (proj : MergeState → option Z) (limit : Policy → option Z) ms ps :
  (∀ ms p, proj (step_effect ms p) =
     omin (limit p) (proj ms)) →
  proj (foldl step_effect ms ps) =
    omin (min_limit limit ps) (proj ms).
Proof.
  intros Hstep. revert ms. induction ps as [|p ps IH]; intros ms; cbn.
  - done.
  - by rewrite IH, Hstep, (assoc omin), (comm omin (limit p)).
Qed.

Lemma fold_denied ms ps m :
  m ∈ ms_denied (foldl step_effect ms ps) ↔
  m ∈ ms_denied ms ∨ ∃ p, p ∈ ps ∧ m ∈ deny_list p.
Proof.
  revert ms. induction ps as [|p ps IH]; intros ms; cbn; [set_solver|].
  rewrite IH. assert (ms_denied (step_effect ms p) = ms_denied ms ∪ list_to_set (deny_list p))
    as -> by (unfold step_effect; by destruct (merge_allowed _ _ _)).
  set_solver.
Qed.

Lemma fold_allowed_later ms ps m : ms_first_allowlist ms = false →
  m ∈ ms_allowed (foldl step_effect ms ps) ↔
  m ∈ ms_allowed ms ∧ ∀ p, p ∈ ps → allow_list p ≠ [] → m ∈ allow_list p.
Proof.
  revert ms. induction ps as [|p ps IH]; intros ms Hf; cbn; [set_solver|].
  unfold step_effect at 2. unfold merge_allowed. rewrite Hf.
  destruct (bool_decide_reflect (allow_list p = [])) as [He|Hne]; cbn.
  - rewrite IH by done. cbn. setoid_rewrite elem_of_cons. naive_solver.
  - rewrite IH by done. cbn. rewrite list_elem_of_filter, elem_of_list_to_set.
    setoid_rewrite elem_of_cons. naive_solver.
Qed.

Lemma fold_allowed_first ms ps m : ms_first_allowlist ms = true → ms_allowed ms = [] →
  m ∈ ms_allowed (foldl step_effect ms ps) ↔
  (∃ p, p ∈ ps ∧ allow_list p ≠ []) ∧
  ∀ p, p ∈ ps → allow_list p ≠ [] → m ∈ allow_list p.
Proof.
  revert ms. induction ps as [|p ps IH]; intros ms Hf Ha; cbn; 
    [rewrite Ha; setoid_rewrite elem_of_nil; naive_solver|].
  unfold step_effect at 2. unfold merge_allowed. rewrite Hf.
  destruct (bool_decide_reflect (allow_list p = [])) as [He|Hne]; cbn.
  - rewrite IH by done. setoid_rewrite elem_of_cons. naive_solver.
  - rewrite fold_allowed_later by done. cbn. setoid_rewrite elem_of_cons. naive_solver.
Qed.
End fold.

(** ** Correctness of the merge *)

Section merge.
Context `{!HashOrder}.
Implicit Types (ps : list Policy) (ev : EvaluatedPolicy).

Ltac step_field := intros; unfold step_effect; by destruct (merge_allowed _ _ _).

(** The loop's final state, seen through the record [merge_policies] returns. *)
Lemma merge_policies_meets ps ev :
  Forall policy_i32 ps → ps ≠ [] → merge_policies ps = Ok ev → merge_spec ps ev.
Proof.
  unfold merge_policies. intros Hi32 Hne Hok. rewrite bool_decide_eq_false_2 in Hok by done.
  apply result_bind_ok in Hok as (ms & [_ ->]%merge_loop_ok & [= <-]); [|done].
  split; cbn [model_access allowed_models denied_models token_limits max_input_tokens
    max_output_tokens feature_flags allow_streaming allow_tools allow_files rpm_limit
    concurrency_limit].
  - intros m. by apply fold_allowed_first.
  - intros m. rewrite hash_iter_perm, elem_of_elements, fold_denied. set_solver.
  - rewrite (fold_limit ms_max_input policy_max_input_tokens); [|step_field].
    apply omin_none_r.
  - rewrite (fold_limit ms_max_output policy_max_output_tokens); [|step_field].
    apply omin_none_r.
  - by rewrite (fold_flag ms_streaming policy_allow_streaming); [|step_field].
  - by rewrite (fold_flag ms_tools policy_allow_tools); [|step_field].
  - by rewrite (fold_flag ms_files policy_allow_files); [|step_field].
  - rewrite (fold_limit ms_rpm policy_rpm_limit); [|step_field].
    apply omin_none_r.
  - rewrite (fold_limit ms_concurrency policy_concurrency_limit); [|step_field].
    apply omin_none_r.
Qed.

Lemma merge_policies_valid ps : Forall policy_i32 ps →
  (∃ ev, merge_policies ps = Ok ev) ↔ Forall (λ p, policy_valid p = true) ps.
Proof.
  intros Hi32. unfold merge_policies. destruct (bool_decide_reflect (ps = [])) as [->|Hne].
  - split; [done|]. by eexists.
  - split.
    + intros [ev (ms & [? _]%merge_loop_ok & _)%result_bind_ok]; done.
    + intros Hv. eexists. apply result_bind_ok. eexists. split; [|done].
      by apply merge_loop_ok.
Qed.

Lemma merge_policies_error ps e : Forall policy_i32 ps → merge_policies ps = Err e →
  Exists (λ p, policy_valid p = false) ps ∧ ∃ msg, e = EPolicy "policy_config_invalid" msg.
Proof.
  intros Hi32. unfold merge_policies. destruct (bool_decide_reflect (ps = [])); [done|].
  intros [Herr|(ms & _ & ?)]%result_bind_err; [|done]. by eapply merge_loop_err.
Qed.

(** The specification determines the merged policy up to pattern order. *)
Lemma merge_spec_unique ps ev1 ev2 : merge_spec ps ev1 → merge_spec ps ev2 → ev1 ≡ ev2.
Proof.
  intros [] []. destruct ev1 as [? [] [] ? ?], ev2 as [? [] [] ? ?]. cbn in *. subst.
  split_and!; try done. split; intros m.
  - by rewrite spec_allowed0, spec_allowed1.
  - by rewrite spec_denied0, spec_denied1.
Qed.

Lemma min_limit_perm f ps qs : ps ≡ₚ qs → min_limit f ps = min_limit f qs.
Proof.
  unfold min_limit. intros Hp. apply (foldr_permutation (=) _ None _ _); [|done].
  intros _ p1 _ p2 acc _ _ _. by rewrite !(assoc omin), (comm omin (f p1)).
Qed.

Lemma forallb_perm (f : Policy → bool) ps qs : ps ≡ₚ qs → forallb f ps = forallb f qs.
Proof.
  induction 1 as [|p ps qs _ IH|p q ps|]; cbn; [done|by rewrite IH| |congruence].
  by rewrite !andb_assoc, (andb_comm (f p)).
Qed.

Lemma merge_spec_perm ps qs ev : ps ≡ₚ qs → merge_spec ps ev → merge_spec qs ev.
Proof.
  intros Hp []. split.
  1,2: by setoid_rewrite <-Hp.
  all: try (rewrite <-(min_limit_perm _ _ _ Hp); done).
  all: rewrite <-(forallb_perm _ _ _ Hp); done.
Qed.
End merge.

(** ** Checking a request against merged policies *)

Lemma deny_loop_proper model ds1 ds2 e :
  (∀ p, p ∈ ds1 ↔ p ∈ ds2) →
  for_each (λ _ pattern, throw_if (matches_glob pattern model) e) tt ds1 =
  (for_each (λ _ pattern, throw_if (matches_glob pattern model) e) tt ds2
     : result GatewayError unit).
Proof.
  intros Hds.
  assert (Forall (λ p, ¬ glob_spec p model) ds1 ↔ Forall (λ p, ¬ glob_spec p model) ds2)
    as Hiff by (rewrite !Forall_forall; by setoid_rewrite Hds).
  destruct (for_each _ tt ds1) as [[]|e1] eqn:H1, (for_each _ tt ds2) as [[]|e2] eqn:H2.
  - done.
  - apply deny_loop_ok, Hiff, (deny_loop_ok _ _ e tt) in H1. congruence.
  - apply deny_loop_ok, Hiff, (deny_loop_ok _ _ e tt) in H2. congruence.
  - by apply deny_loop_err in H1 as ->; apply deny_loop_err in H2 as ->.
Qed.

(** Equivalent merged policies give every request the very same answer. *)
#[global] Instance apply_policy_checks_proper :
  Proper ((≡) ==> eq ==> eq ==> eq ==> eq ==> eq) apply_policy_checks.
Proof.
  intros e1 e2 ([Ha Hd] & Ht & Hf & _ & _) m ? <- rf ? <- est ? <- req ? <-.
  unfold apply_policy_checks. rewrite Ht, Hf. f_equal.
  unfold check_model_access. rewrite (deny_loop_proper _ _ _ _ Hd).
  assert (allowed_models (model_access e1) = [] ↔ allowed_models (model_access e2) = []) as He.
  { destruct (allowed_models (model_access e1)), (allowed_models (model_access e2)); set_solver. }
  rewrite (bool_decide_ext _ _ He).
  assert (existsb (λ p, matches_glob p m) (allowed_models (model_access e1)) =
    existsb (λ p, matches_glob p m) (allowed_models (model_access e2))) as ->; [|done].
  apply eq_true_iff_eq. rewrite !existsb_exists. apply exist_proper. intros p.
  by rewrite <-!list_elem_of_In, Ha.
Qed.

Lemma apply_policy_checks_ok ev model rf est req r :
  apply_policy_checks ev model rf est req = Ok r ↔
  permitted (model_access ev) model ∧
  check_features (feature_flags ev) rf = Ok tt ∧
  input_ok (token_limits ev) est ∧ r = clamp_of (token_limits ev) req.
Proof.
  unfold apply_policy_checks. rewrite <-(check_model_access_ok _ _ tt), <-check_token_limits_ok.
  rewrite result_bind_ok. split.
  - intros ([] & ? & ([] & ? & ?)%result_bind_ok). auto.
  - intros (-> & -> & ->). by exists tt.
Qed.

Lemma min_limit_lower f ps p v : p ∈ ps → f p = Some v →
  ∃ m, min_limit f ps = Some m ∧ m ≤ v.
Proof.
  intros Hp Hv. induction Hp as [p ps|p q ps _ IH]; cbn.
  - rewrite Hv. fold (min_limit f ps). destruct (min_limit f ps); cbn; eexists; split; eauto; lia.
  - destruct (IH Hv) as (m & Hm & Hle). fold (min_limit f ps). rewrite Hm.
    destruct (f q); cbn; eexists; split; eauto; lia.
Qed.

Lemma forallb_elem (f : Policy → bool) ps p : p ∈ ps → forallb f ps = true → f p = true.
Proof. rewrite list_elem_of_In, forallb_forall. auto. Qed.

(** The merge of one policy is that policy. *)
Lemma merge_spec_singleton p ev m : merge_spec [p] ev →
  (m ∈ allowed_models (model_access ev) ↔ m ∈ allow_list p) ∧
  (m ∈ denied_models (model_access ev) ↔ m ∈ deny_list p).
Proof.
  intros []. rewrite spec_allowed0, spec_denied0. setoid_rewrite list_elem_of_singleton.
  split; [|naive_solver]. split; [naive_solver|]. intros Hm.
  assert (allow_list p ≠ []) by (intros He; rewrite He in Hm; set_solver). naive_solver.
Qed.

Lemma permitted_by_member ps p ev ev1 model :
  p ∈ ps → merge_spec ps ev → merge_spec [p] ev1 →
  (allowed_models (model_access ev) = [] → allow_list p = []) →
  permitted (model_access ev) model → permitted (model_access ev1) model.
Proof.
  intros Hp Hev Hev1 Hal [Hden Hall].
  pose proof (λ m, merge_spec_singleton p ev1 m Hev1) as H1. destruct Hev. split.
  - rewrite Forall_forall in Hden |- *. intros m Hm%(proj2 (H1 m)).
    apply Hden, spec_denied0. eauto.
  - destruct (decide (allow_list p = [])) as [He|Hne].
    + left. apply elem_of_nil_inv. intros m Hm%(proj1 (H1 m)). rewrite He in Hm. set_solver.
    + right. destruct Hall as [Hall|(m & Hm & Hg)]; [tauto|].
      exists m. split; [|done]. apply H1. apply spec_allowed0 in Hm as [_ Hm]. auto.
Qed.

(** [r1] grants at most the output [r2] grants. *)
Definition output_le (r1 r2 : TokenCheckResult) : Prop :=
  ∀ v2, effective_max_output_tokens r2 = Some v2 →
  ∃ v1, effective_max_output_tokens r1 = Some v1 ∧ v1 ≤ v2.

Lemma merge_restrictive_member ps p ev ev1 model rf est req r :
  p ∈ ps → merge_spec ps ev → merge_spec [p] ev1 →
  (allowed_models (model_access ev) = [] → allow_list p = []) →
  apply_policy_checks ev model rf est req = Ok r →
  ∃ r1, apply_policy_checks ev1 model rf est req = Ok r1 ∧ output_le r r1.
Proof.
  intros Hp Hev Hev1 Hal (Hperm & Hfeat & Hin & ->)%apply_policy_checks_ok.
  exists (clamp_of (token_limits ev1) req). rewrite apply_policy_checks_ok.
  pose proof (permitted_by_member _ _ _ _ _ Hp Hev Hev1 Hal Hperm) as Hperm1.
  apply check_features_ok in Hfeat as (Hs & Ht & Hf).
  destruct Hev, Hev1. cbn in spec_input1, spec_output1. rewrite omin_none_r in *.
  split_and!.
  - done.
  - apply check_features_ok. rewrite spec_streaming0, spec_tools0, spec_files0 in *.
    rewrite spec_streaming1, spec_tools1, spec_files1. cbn. rewrite !andb_true_r.
    split_and!; eauto using forallb_elem.
  - intros e l He Hl. rewrite spec_input1 in Hl.
    destruct (min_limit_lower _ _ _ _ Hp Hl) as (m & Hm & Hle). rewrite <-spec_input0 in Hm.
    specialize (Hin e m He Hm). by etrans.
  - done.
  - intros v2 Hv2. unfold clamp_of in *. cbn in *. rewrite spec_output1 in Hv2.
    destruct (policy_max_output_tokens p) as [l|] eqn:Hl.
    + destruct (min_limit_lower _ _ _ _ Hp Hl) as (m & Hm & Hle). rewrite spec_output0, Hm.
      destruct req; cbn in *; injection Hv2 as <-; eexists; (split; [done|]).
      * by apply Z.min_le_compat_l.
      * done.
    + rewrite omin_none_r in Hv2. subst req. rewrite spec_output0.
      destruct (min_limit policy_max_output_tokens ps); cbn; eexists; (split; [reflexivity|]); [apply Z.le_min_l|reflexivity].
Qed.

(** ** Properties *)

(** C34: what a merged policy accepts. A request passes exactly
    when no deny pattern covers the model, the allow list is empty or covers it (a
    trailing star stands for any ending, deny wins), every feature it uses is allowed and
    its input estimate is within the limit; the output limit granted is then the minimum
    of the requested one and the policy's, flagged when it was lowered. Everything else is
    refused with 403. *)
Theorem apply_policy_checks_exact ev model rf est req :
  let passes :=
    permitted (model_access ev) model ∧
    (stream rf = true → allow_streaming (feature_flags ev) = true) ∧
    (has_tools rf = true → allow_tools (feature_flags ev) = true) ∧
    (has_files rf = true → allow_files (feature_flags ev) = true) ∧
    (∀ e l, est = Some e → max_input_tokens (token_limits ev) = Some l → e ≤ l) in
  match apply_policy_checks ev model rf est req with
  | Ok r => passes ∧
      effective_max_output_tokens r = omin req (max_output_tokens (token_limits ev)) ∧
      (output_tokens_clamped r = true ↔
         ∃ q l, req = Some q ∧ max_output_tokens (token_limits ev) = Some l ∧ l < q)
  | Err e => ¬ passes ∧ status_code e = 403
  end.
Proof.
  intros passes. destruct (apply_policy_checks ev model rf est req) as [r|e] eqn:Hr.
  - apply apply_policy_checks_ok in Hr as (Hp & Hf%check_features_ok & Hi & ->).
    split; [unfold passes, input_ok in *; tauto|]. split; [done|]. unfold clamp_of. cbn.
    destruct req as [q|], (max_output_tokens (token_limits ev)) as [l|]; try (split; [done|naive_solver]).
    rewrite Z.ltb_lt. naive_solver.
  - split.
    + intros (Hp & Hs & Ht & Hf & Hi).
      assert (apply_policy_checks ev model rf est req = Ok (clamp_of (token_limits ev) req)) as Hok.
      { apply apply_policy_checks_ok. split_and!; try done. by apply check_features_ok. }
      congruence.
    + unfold apply_policy_checks in Hr.
      apply result_bind_err in Hr as [Hm|([] & _ & Hr)].
      { by apply check_model_access_err in Hm as [msg ->]. }
      apply result_bind_err in Hr as [Hf|([] & _ & Hr)].
      { destruct (feature_flags ev) as [[] [] []], rf as [[] [] []]; cbn in Hf; by simplify_eq. }
      by apply check_token_limits_err in Hr as (? & ? & ? & _ & _ & _ & ->).
Qed.

(** C7: for any non-empty list of policy rows, [merge_policies] either
    accepts, all rows being well-formed with positive limits, and returns a policy
    meeting [merge_spec] (minimum of limits, conjunction of flags, union of deny lists,
    intersection of non-empty allow lists), or some row is invalid and the error is
    [policy_config_invalid]. *)
Theorem merge_policies_correct `{!HashOrder} ps :
  Forall policy_i32 ps → ps ≠ [] →
  match merge_policies ps with
  | Ok ev => Forall (λ p, policy_valid p = true) ps ∧ merge_spec ps ev
  | Err e => Exists (λ p, policy_valid p = false) ps ∧
             ∃ msg, e = EPolicy "policy_config_invalid" msg
  end.
Proof.
  intros Hi32 Hne. destruct (merge_policies ps) as [ev|e] eqn:Hm.
  - split; [|by apply merge_policies_meets]. apply merge_policies_valid; eauto.
  - by apply merge_policies_error.
Qed.

(** The order in which the database returns the policies, and the iteration
    order of the hash set, never change the answer to a request: permuted policies merge
    to policies that give every request the same result or the same error. *)
Lemma merge_order_irrelevant (H1 H2 : HashOrder) ps qs ev :
  Forall policy_i32 ps → ps ≡ₚ qs → @merge_policies H1 ps = Ok ev →
  ∃ ev', @merge_policies H2 qs = Ok ev' ∧
    rpm_limit ev = rpm_limit ev' ∧ concurrency_limit ev = concurrency_limit ev' ∧
    ∀ model rf est req,
      apply_policy_checks ev model rf est req = apply_policy_checks ev' model rf est req.
Proof.
  intros Hi32 Hperm Hok.
  assert (Forall policy_i32 qs) as Hi32' by by rewrite <-Hperm.
  destruct (decide (ps = [])) as [->|Hne].
  { apply Permutation_nil_l in Hperm as <-. injection Hok as <-. by eexists. }
  assert (qs ≠ []) by (intros ->; by apply Hne, Permutation_nil_r).
  assert (Forall (λ p, policy_valid p = true) ps) as Hv
    by (eapply (@merge_policies_valid H1); eauto).
  rewrite Hperm in Hv. apply (@merge_policies_valid H2) in Hv as [ev' Hok']; [|done].
  exists ev'. split; [done|].
  assert (ev ≡ ev') as Heq.
  { apply (merge_spec_unique qs).
    - eapply merge_spec_perm; [done|]. by eapply (@merge_policies_meets H1).
    - by eapply (@merge_policies_meets H2). }
  split; [by apply Heq|]. split; [by apply Heq|].
  intros. by rewrite Heq.
Qed.

(** "most restrictive wins". A request accepted under the merged policy is accepted
    under every single policy that was merged, with at most as much output, and the
    merged rate and concurrency limits are at most that policy's; for the allow lists
    this needs the intersection of the allow lists not to be empty when the policy has one. *)
Lemma merge_most_restrictive `{!HashOrder} ps p ev ev1 :
  Forall policy_i32 ps → p ∈ ps → merge_policies ps = Ok ev → merge_policies [p] = Ok ev1 →
  (allowed_models (model_access ev) = [] → allow_list p = []) →
  (∀ v, policy_rpm_limit p = Some v → ∃ m, rpm_limit ev = Some m ∧ m ≤ v) ∧
  (∀ v, policy_concurrency_limit p = Some v → ∃ m, concurrency_limit ev = Some m ∧ m ≤ v) ∧
  ∀ model rf est req r, apply_policy_checks ev model rf est req = Ok r →
    ∃ r1, apply_policy_checks ev1 model rf est req = Ok r1 ∧ output_le r r1.
Proof.
  intros Hi32 Hp Hok Hok1 Hal.
  assert (policy_i32 p) as Hpi by (rewrite Forall_forall in Hi32; auto).
  assert (merge_spec ps ev) as Hev by (apply merge_policies_meets; [done|by intros ->; apply elem_of_nil in Hp|done]).
  assert (merge_spec [p] ev1) as Hev1 by (apply merge_policies_meets; auto).
  split_and!.
  - intros v Hv. rewrite (spec_rpm _ _ Hev). by eapply min_limit_lower.
  - intros v Hv. rewrite (spec_concurrency _ _ Hev). by eapply min_limit_lower.
  - intros. by eapply merge_restrictive_member.
Qed.

(** A policy row with the given lists and limits, as the examples use it. *)
Definition sample_policy (allow deny : list string) (out rpm : option Z) : Policy := {|
  policy_id := from_uuid 1; policy_tenant_id := from_uuid 2; policy_name := "p";
  policy_description := None;
  allowed_models_json := JArray (JString <$> allow);
  denied_models_json := JArray (JString <$> deny);
  policy_max_input_tokens := Some 4000; policy_max_output_tokens := out;
  policy_allow_streaming := true; policy_allow_tools := true; policy_allow_files := false;
  policy_rpm_limit := rpm; policy_concurrency_limit := None;
  policy_created_at := 0; policy_updated_at := 0
|}.

Lemma sample_policy_i32 allow deny out rpm :
  limit_valid out = true → (∀ v, out = Some v → v ≤ I32_MAX) →
  limit_valid rpm = true → (∀ v, rpm = Some v → v ≤ I32_MAX) →
  policy_i32 (sample_policy allow deny out rpm).
Proof.
  intros Vo Bo Vr Br l Hl v ->. unfold in_i32, I32_MIN, I32_MAX in *. cbn in Hl.
  rewrite !elem_of_cons in Hl. unfold limit_valid in *.
  destruct Hl as [[= ->]|[<-|[<-|[?|?]]]]; try set_solver; [lia| |].
  - specialize (Bo _ eq_refl). lia.
  - specialize (Br _ eq_refl). lia.
Qed.

Definition sample_policies : list Policy :=
  [sample_policy ["gpt-4*"; "claude-3"] ["gpt-4-32k"] (Some 100) None;
   sample_policy ["gpt-4*"] [] (Some 50) (Some 60); sample_policy [] ["o1"] None (Some 30)].

Lemma sample_policies_i32 : Forall policy_i32 sample_policies.
Proof.
  unfold sample_policies. rewrite !Forall_cons, Forall_nil.
  split_and!; [apply sample_policy_i32; by intros; simplify_eq..|done].
Qed.

Lemma merge_policies_correct_witness :
  let H := sorted_hash_order in
  match merge_policies sample_policies with
  | Ok ev => Forall (λ p, policy_valid p = true) sample_policies ∧ merge_spec sample_policies ev
  | Err e => Exists (λ p, policy_valid p = false) sample_policies ∧
             ∃ msg, e = EPolicy "policy_config_invalid" msg
  end ∧ is_ok (merge_policies sample_policies) = true.
Proof.
  intros H. split; [|by vm_compute].
  apply (merge_policies_correct sample_policies); [apply sample_policies_i32|done].
Defined.

(** The exception to "most restrictive wins". Two policies with disjoint
    allow lists merge to an empty allow list, which the check reads as "no restriction":
    a model neither policy allows is accepted. *)
Lemma merge_disjoint_allowlists_allow_all `{!HashOrder} :
  let p1 := sample_policy ["gpt-4*"] [] None None in
  let p2 := sample_policy ["claude-3*"] [] None None in
  ∃ ev e1 e2, merge_policies [p1; p2] = Ok ev ∧
    merge_policies [p1] = Ok e1 ∧ merge_policies [p2] = Ok e2 ∧
    is_ok (apply_policy_checks e1 "gemini-pro" (mkRequestFeatures false false false) None None)
      = false ∧
    is_ok (apply_policy_checks e2 "gemini-pro" (mkRequestFeatures false false false) None None)
      = false ∧
    is_ok (apply_policy_checks ev "gemini-pro" (mkRequestFeatures false false false) None None)
      = true.
Proof.
  intros p1 p2. assert (hash_iter ∅ = []) as Hempty.
  { apply Permutation_nil_r. rewrite hash_iter_perm. by rewrite elements_empty. }
  assert ((∅ : gset string) ∪ ∅ = ∅) as Hu by set_solver.
  eexists _, _, _. unfold p1, p2, merge_policies. cbn -[hash_iter].
  repeat (split; [reflexivity|]). rewrite !Hu, !Hempty. by split_and!.
Qed.
