(* ===== verification/Backends.v ===== *)
(** * Interfaces to the services and crates the gateway only calls

    [RedisServer]: the commands the gateway sends to Redis/Valkey, with [RedisLaws], the
    documented effect of each on what is stored under each key ([peek]).
    [MokaCache]: an in-process cache with a time to live, with [MokaLaws]: a hit is the
    last value inserted under the key, not invalidated and not older than the time to
    live; an entry may be evicted at any time. Each interface has a reference instance,
    with which concrete runs are evaluated. Times are milliseconds since the epoch. *)

From stdpp Require Import options.
From S2P Require Import Prelude Rust.

(** ** Redis *)

(** What is stored under a key: the value and the instant it expires, if any. *)
Definition Entry : Type := string * option Z.

Class RedisServer : Type := {
  Redis : Type;
  peek : Z → Redis → string → option Entry;
  cmd_get : Z → string → Redis → option string;
  cmd_set : Z → string → string → Redis → Redis;
  cmd_set_ex : Z → string → string → Z → Redis → Redis;
  cmd_set_nx_ex : Z → string → string → Z → Redis → bool * Redis;
  cmd_incrby : Z → string → Z → Redis → option Z * Redis;
  cmd_expire : Z → string → Z → Redis → Redis;
  cmd_exists : Z → string → Redis → bool;
  cmd_del : Z → string → Redis → Redis;
  lua_tonumber : string → option Z
}.

(** An entry seen at a later time. *)
Definition live (t : Z) (e : Entry) : option Entry :=
  match e.2 with
  | Some deadline => if t <? deadline then Some e else None
  | None => Some e
  end.

(** [INCRBY]: absent counts as zero; a value that is not a 64-bit integer, or a result
    that is not, is an error and changes nothing; the expiry is kept. *)
Definition incr_entry (d : Z) (e : option Entry) : option (Z * Entry) :=
  match e with
  | None => Some (d, (pretty d, None))
  | Some (v, deadline) =>
    match parse_i64 v with
    | Ok n =>
      if (I64_MIN <=? n + d) && (n + d <=? I64_MAX)
      then Some (n + d, (pretty (n + d), deadline)) else None
    | Err _ => None
    end
  end.

Class RedisLaws `{!RedisServer} : Prop := {
  peek_later t t' st k : t ≤ t' → peek t' st k = peek t st k ≫= live t';
  get_peek t k st : cmd_get t k st = fst <$> peek t st k;
  exists_peek t k st : cmd_exists t k st = bool_decide (is_Some (peek t st k));
  peek_set t k v st k' :
    peek t (cmd_set t k v st) k' = if decide (k' = k) then Some (v, None) else peek t st k';
  peek_set_ex t k v s st k' : 0 < s →
    peek t (cmd_set_ex t k v s st) k' =
      if decide (k' = k) then Some (v, Some (t + s * 1000)) else peek t st k';
  set_nx_ex_result t k v s st : 0 < s →
    (cmd_set_nx_ex t k v s st).1 = bool_decide (peek t st k = None);
  peek_set_nx_ex t k v s st k' : 0 < s →
    peek t (cmd_set_nx_ex t k v s st).2 k' =
      if decide (k' = k ∧ peek t st k = None) then Some (v, Some (t + s * 1000))
      else peek t st k';
  incrby_result t k d st : (cmd_incrby t k d st).1 = fst <$> incr_entry d (peek t st k);
  peek_incrby t k d st k' :
    peek t (cmd_incrby t k d st).2 k' =
      if decide (k' = k) then
        match incr_entry d (peek t st k) with Some (_, e) => Some e | None => peek t st k end
      else peek t st k';
  peek_expire t k s st k' : 0 < s →
    peek t (cmd_expire t k s st) k' =
      if decide (k' = k) then (λ e, (e.1, Some (t + s * 1000))) <$> peek t st k
      else peek t st k';
  peek_del t k st k' :
    peek t (cmd_del t k st) k' = if decide (k' = k) then None else peek t st k';
  tonumber_pretty n : - 2 ^ 53 ≤ n ≤ 2 ^ 53 → lua_tonumber (pretty n) = Some n
}.

(** The reference server: a finite map of entries. *)
Section mem_redis.
Implicit Types (st : gmap string Entry) (t : Z) (k v : string).

Definition mem_peek t st k : option Entry := st !! k ≫= live t.
Definition mem_set_nx_ex t k v (s : Z) st : bool * gmap string Entry :=
  match mem_peek t st k with
  | Some _ => (false, st)
  | None => (true, <[k := (v, Some (t + s * 1000))]> st)
  end.
Definition mem_incrby t k (d : Z) st : option Z * gmap string Entry :=
  match incr_entry d (mem_peek t st k) with
  | Some (n, e) => (Some n, <[k := e]> st)
  | None => (None, st)
  end.
Definition mem_expire t k (s : Z) st : gmap string Entry :=
  match mem_peek t st k with
  | Some e => <[k := (e.1, Some (t + s * 1000))]> st
  | None => st
  end.
End mem_redis.

(** Decimal integers with an optional minus sign; other texts are not numbers here. *)
Definition decimal_tonumber (s : string) : option Z :=
  match parse_i64 s with Ok n => Some n | Err _ => None end.

Definition mem_redis : RedisServer := {|
  Redis := gmap string Entry;
  peek := mem_peek;
  cmd_get t k st := fst <$> mem_peek t st k;
  cmd_set t k v st := <[k := (v, None)]> st;
  cmd_set_ex t k v s st := <[k := (v, Some (t + s * 1000))]> st;
  cmd_set_nx_ex := mem_set_nx_ex;
  cmd_incrby := mem_incrby;
  cmd_expire := mem_expire;
  cmd_exists t k st := bool_decide (is_Some (mem_peek t st k));
  cmd_del t k st := delete k st;
  lua_tonumber := decimal_tonumber
|}.

Lemma live_idem t t' e : t ≤ t' → live t' e = live t e ≫= live t'.
Proof.
  intros Hle. unfold live. destruct e as [v [d|]]; cbn; [|done].
  destruct (Z.ltb_spec t d); cbn; [done|]. destruct (Z.ltb_spec t' d); [lia|done].
Qed.

Lemma incr_entry_live t d e n e' :
  incr_entry d (e ≫= live t) = Some (n, e') → live t e' = Some e'.
Proof.
  destruct e as [[v [dl|]]|]; cbn.
  - destruct (Z.ltb_spec t dl); cbn.
    + destruct (parse_i64 v); [|done]. destruct (_ && _); [|done].
      intros [= <- <-]. unfold live. cbn. destruct (Z.ltb_spec t dl); [done|lia].
    + by intros [= <- <-].
  - destruct (parse_i64 v); [|done]. destruct (_ && _); [|done]. by intros [= <- <-].
  - by intros [= <- <-].
Qed.

Lemma parse_i64_pretty n : in_i64 n → parse_i64 (pretty n) = Ok n.
Proof.
  intros [Hlo Hhi]. destruct (decide (0 ≤ n)) as [Hn|Hn].
  - by apply from_str_pretty.
  - destruct n as [|p|p]; [lia..|]. by apply from_str_pretty_neg.
Qed.

(** Writing a live entry is seen at once; expired entries are never seen. *)
Lemma mem_peek_insert t k e (st : gmap string Entry) k' : live t e = Some e →
  mem_peek t (<[k := e]> st) k' = if decide (k' = k) then Some e else mem_peek t st k'.
Proof.
  intros He. unfold mem_peek. rewrite lookup_insert.
  destruct (decide (k = k')) as [->|Hne]; [by rewrite decide_True|].
  by rewrite decide_False by congruence.
Qed.

Lemma live_future t v s : 0 < s → live t (v, Some (t + s * 1000)) = Some (v, Some (t + s * 1000)).
Proof. intros Hs. unfold live. cbn. destruct (Z.ltb_spec t (t + s * 1000)); [done|lia]. Qed.

Lemma mem_redis_laws : @RedisLaws mem_redis.
Proof.
  split; cbn; try done.
  - intros t t' st k Hle. unfold mem_peek. destruct (st !! k); cbn; [by apply live_idem|done].
  - intros. by apply mem_peek_insert.
  - intros. apply mem_peek_insert. by apply live_future.
  - intros t k v s st Hs. unfold mem_set_nx_ex. by destruct (mem_peek t st k).
  - intros t k v s st k' Hs. unfold mem_set_nx_ex.
    destruct (mem_peek t st k) as [e|] eqn:Hk; cbn.
    + rewrite decide_False; [done|]. by intros [_ ?].
    + rewrite mem_peek_insert by by apply live_future.
      repeat case_decide; tauto.
  - intros t k d st. unfold mem_incrby. by destruct (incr_entry _ _) as [[]|].
  - intros t k d st k'. unfold mem_incrby.
    destruct (incr_entry d (mem_peek t st k)) as [[n e]|] eqn:Hi; cbn.
    + apply mem_peek_insert. by eapply incr_entry_live.
    + by case_decide; subst.
  - intros t k s st k' Hs. unfold mem_expire. destruct (mem_peek t st k) as [e|] eqn:Hk; cbn.
    + apply mem_peek_insert. by apply live_future.
    + by case_decide; subst.
  - intros t k st k'. unfold mem_peek. rewrite lookup_delete.
    destruct (decide (k = k')) as [->|]; [by rewrite decide_True|].
    by rewrite decide_False by congruence.
  - intros n Hn. unfold decimal_tonumber. rewrite parse_i64_pretty; [done|].
    unfold in_i64, I64_MIN, I64_MAX. lia.
Qed.

(** ** The in-process cache *)

Class MokaCache (K V : Type) : Type := {
  Moka : Type;
  moka_new : Z → Moka;
  moka_get : Z → K → Moka → option V * Moka;
  moka_insert : Z → K → V → Moka → Moka;
  moka_invalidate : K → Moka → Moka;
  moka_invalidate_all : Moka → Moka;
  (** the last insertion under a key that was not invalidated: value and instant *)
  latest : Moka → K → option (V * Z);
  time_to_live : Moka → Z
}.
Arguments Moka K V {_}.

Class MokaLaws (K V : Type) `{!EqDecision K, !MokaCache K V} : Prop := {
  get_latest t k c v : (moka_get t k c).1 = Some v →
    ∃ t0, latest c k = Some (v, t0) ∧ t < t0 + time_to_live c * 1000;
  latest_get t k c k' : latest (moka_get t k c).2 k' = latest c k';
  latest_new ttl k : latest (moka_new ttl) k = None;
  latest_insert t k v c k' :
    latest (moka_insert t k v c) k' = if decide (k' = k) then Some (v, t) else latest c k';
  latest_invalidate k c k' :
    latest (moka_invalidate k c) k' = if decide (k' = k) then None else latest c k';
  latest_invalidate_all c k : latest (moka_invalidate_all c) k = None;
  ttl_new ttl : time_to_live (moka_new ttl) = ttl;
  ttl_get t k c : time_to_live (moka_get t k c).2 = time_to_live c;
  ttl_insert t k v c : time_to_live (moka_insert t k v c) = time_to_live c;
  ttl_invalidate k c : time_to_live (moka_invalidate k c) = time_to_live c;
  ttl_invalidate_all c : time_to_live (moka_invalidate_all c) = time_to_live c
}.

(** The reference cache: a finite map that evicts only what is too old. *)
Section mem_cache.
Context (K V : Type) `{!EqDecision K, !Countable K}.

Record MemCache : Type := mkMemCache { mc_ttl : Z; mc_map : gmap K (V * Z) }.
Definition mem_cache : MokaCache K V := {|
  Moka := MemCache;
  moka_new ttl := mkMemCache ttl ∅;
  moka_get t k c :=
    (match mc_map c !! k with
     | Some (v, t0) => if t <? t0 + mc_ttl c * 1000 then Some v else None
     | None => None
     end, c);
  moka_insert t k v c := mkMemCache (mc_ttl c) (<[k := (v, t)]> (mc_map c));
  moka_invalidate k c := mkMemCache (mc_ttl c) (delete k (mc_map c));
  moka_invalidate_all c := mkMemCache (mc_ttl c) ∅;
  latest c k := mc_map c !! k;
  time_to_live := mc_ttl
|}.

Lemma mem_cache_laws : MokaLaws K V (MokaCache0:=mem_cache).
Proof.
  split; cbn; try done.
  - intros t k c v. destruct (mc_map c !! k) as [[v' t0]|]; [|done].
    destruct (Z.ltb_spec t (t0 + mc_ttl c * 1000)); [|done]. intros [= ->]. eauto.
  - intros t k v c k'. rewrite lookup_insert.
    destruct (decide (k = k')) as [->|]; [by rewrite decide_True|].
    by rewrite decide_False by congruence.
  - intros k c k'. rewrite lookup_delete.
    destruct (decide (k = k')) as [->|]; [by rewrite decide_True|].
    by rewrite decide_False by congruence.
Qed.
End mem_cache.
