(* ===== verification/Db.v ===== *)
(** * The database (src/gateway/migrations/*.sql)

    One table per [CREATE TABLE] the gateway's repositories read or write, as a finite
    map from primary keys to rows; the constraint checks and referential actions of the
    migrations; the well-formedness they enforce. A statement is a function from the
    transaction time and the database to its result and the new database. *)

From stdpp Require Import options.
From S2P Require Import Prelude Rust Types Errors Json Models.

(** ** Rows that are not structs of models.rs *)

(** [audit_events] (storage/repositories/audit.rs) *)
Record AuditEvent : Type := mkAuditEvent {
  ae_id : AuditEventId;
  ae_tenant_id : option TenantId;
  ae_actor_type : string;
  ae_actor_id : string;
  ae_action : string;
  ae_target_type : string;
  ae_target_id : string;
  ae_metadata_json : Value;
  ae_created_at : DateTime
}.

(** [provider_routes] keeps the provider as text; the struct has the enum. *)
Record RouteRow : Type := mkRouteRow {
  rr_id : RouteId;
  rr_tenant_id : option TenantId;
  rr_model_alias : string;
  rr_provider : string;
  rr_provider_model_name : string;
  rr_priority : Z;
  rr_enabled : bool;
  rr_timeout_ms : Z;
  rr_max_retries : Z;
  rr_retry_backoff_ms : Z;
  rr_config : Value;
  rr_created_at : DateTime;
  rr_updated_at : DateTime
}.

(** [usage_events] (storage/repositories/usage.rs) *)
Record UsageEvent : Type := mkUsageEvent {
  ue_id : UsageEventId;
  ue_request_id : string;
  ue_tenant_id : TenantId;
  ue_service_account_id : ServiceAccountId;
  ue_provider_route_id : option Uuid;
  ue_provider : string;
  ue_model_alias : string;
  ue_provider_model_name : string;
  ue_prompt_tokens : Z;
  ue_completion_tokens : Z;
  ue_total_tokens : Z;
  ue_estimated_cost : Decimal;
  ue_currency : string;
  ue_latency_ms : Z;
  ue_retry_count : Z;
  ue_final_status : string;
  ue_is_streaming : bool;
  ue_created_at : DateTime
}.
(** [PRIMARY KEY (id, created_at)] and the unique index on [(request_id, created_at)]. *)
Definition ue_key (e : UsageEvent) : UsageEventId * DateTime := (ue_id e, ue_created_at e).
Definition ue_request (e : UsageEvent) : string * DateTime := (ue_request_id e, ue_created_at e).

(** [pricing_rules] (storage/repositories/audit.rs) *)
Record PricingRule : Type := mkPricingRule {
  pr_id : PricingRuleId;
  pr_provider : string;
  pr_model_name : string;
  pr_input_price_per_1k : Decimal;
  pr_output_price_per_1k : Decimal;
  pr_effective_from : DateTime;
  pr_created_at : DateTime;
  pr_updated_at : DateTime
}.
Definition pr_version (r : PricingRule) : string * string * DateTime :=
  (pr_provider r, pr_model_name r, pr_effective_from r).

(** ** The tables *)

Record Db : Type := mkDb {
  tenants : gmap TenantId Tenant;
  service_accounts : gmap ServiceAccountId ServiceAccount;
  service_account_keys : gmap KeyId ServiceAccountKey;
  policies : gmap PolicyId Policy;
  bindings : gmap Uuid ServiceAccountPolicyBinding;
  provider_routes : gmap RouteId RouteRow;
  admin_api_keys : gmap Uuid AdminApiKey;
  audit_events : gmap AuditEventId AuditEvent;
  usage_events : gmap (UsageEventId * DateTime) UsageEvent;
  pricing_rules : gmap PricingRuleId PricingRule
}.
Definition empty_db : Db := mkDb ∅ ∅ ∅ ∅ ∅ ∅ ∅ ∅ ∅ ∅.

Definition set_tenants (f : gmap TenantId Tenant → gmap TenantId Tenant) (d : Db) : Db :=
  mkDb (f (tenants d)) (service_accounts d) (service_account_keys d) (policies d) (bindings d)
    (provider_routes d) (admin_api_keys d) (audit_events d)
    (usage_events d) (pricing_rules d).
Definition set_service_accounts
    (f : gmap ServiceAccountId ServiceAccount → gmap ServiceAccountId ServiceAccount)
    (d : Db) : Db :=
  mkDb (tenants d) (f (service_accounts d)) (service_account_keys d) (policies d) (bindings d)
    (provider_routes d) (admin_api_keys d) (audit_events d)
    (usage_events d) (pricing_rules d).
Definition set_keys (f : gmap KeyId ServiceAccountKey → gmap KeyId ServiceAccountKey)
    (d : Db) : Db :=
  mkDb (tenants d) (service_accounts d) (f (service_account_keys d)) (policies d) (bindings d)
    (provider_routes d) (admin_api_keys d) (audit_events d)
    (usage_events d) (pricing_rules d).
Definition set_policies (f : gmap PolicyId Policy → gmap PolicyId Policy) (d : Db) : Db :=
  mkDb (tenants d) (service_accounts d) (service_account_keys d) (f (policies d)) (bindings d)
    (provider_routes d) (admin_api_keys d) (audit_events d)
    (usage_events d) (pricing_rules d).
Definition set_bindings
    (f : gmap Uuid ServiceAccountPolicyBinding → gmap Uuid ServiceAccountPolicyBinding)
    (d : Db) : Db :=
  mkDb (tenants d) (service_accounts d) (service_account_keys d) (policies d) (f (bindings d))
    (provider_routes d) (admin_api_keys d) (audit_events d)
    (usage_events d) (pricing_rules d).
Definition set_routes (f : gmap RouteId RouteRow → gmap RouteId RouteRow) (d : Db) : Db :=
  mkDb (tenants d) (service_accounts d) (service_account_keys d) (policies d) (bindings d)
    (f (provider_routes d)) (admin_api_keys d) (audit_events d)
    (usage_events d) (pricing_rules d).
Definition set_admin_keys (f : gmap Uuid AdminApiKey → gmap Uuid AdminApiKey) (d : Db) : Db :=
  mkDb (tenants d) (service_accounts d) (service_account_keys d) (policies d) (bindings d)
    (provider_routes d) (f (admin_api_keys d)) (audit_events d)
    (usage_events d) (pricing_rules d).
Definition set_audit (f : gmap AuditEventId AuditEvent → gmap AuditEventId AuditEvent)
    (d : Db) : Db :=
  mkDb (tenants d) (service_accounts d) (service_account_keys d) (policies d) (bindings d)
    (provider_routes d) (admin_api_keys d) (f (audit_events d))
    (usage_events d) (pricing_rules d).
Definition set_usage
    (f : gmap (UsageEventId * DateTime) UsageEvent → gmap (UsageEventId * DateTime) UsageEvent)
    (d : Db) : Db :=
  mkDb (tenants d) (service_accounts d) (service_account_keys d) (policies d) (bindings d)
    (provider_routes d) (admin_api_keys d) (audit_events d)
    (f (usage_events d)) (pricing_rules d).
Definition set_pricing (f : gmap PricingRuleId PricingRule → gmap PricingRuleId PricingRule)
    (d : Db) : Db :=
  mkDb (tenants d) (service_accounts d) (service_account_keys d) (policies d) (bindings d)
    (provider_routes d) (admin_api_keys d) (audit_events d)
    (usage_events d) (f (pricing_rules d)).

(** ** Statements *)

Definition Stmt (A : Type) : Type := Z → Db → result SqlxError A * Db.

(** [NOW()]: microseconds, the server's clock read in milliseconds. *)
Definition sql_now (t : Z) : DateTime := t * 1000.

(** The rows of a table that satisfy a condition, in the order of a scan. *)
Definition rows {K R} `{Countable K} (m : gmap K R) : list R := snd <$> map_to_list m.
Definition exists_row {K R} `{Countable K} (p : R → bool) (m : gmap K R) : bool :=
  existsb p (rows m).
(** [fetch_optional] of a query that selects at most one row. *)
Definition find_row {K R} `{Countable K} (p : R → bool) (m : gmap K R) : option R :=
  head (filter (λ r, p r = true) (rows m)).

Definition unique_violation (table constraint : string) : SqlxError :=
  let m := "duplicate key value violates unique constraint " +:+ constraint in
  SqlxDatabase (Some "23505") (Some table) m ("error returned from database: " +:+ m).
Definition fk_violation (table constraint : string) : SqlxError :=
  let m := "insert or update on table " +:+ table +:+
           " violates foreign key constraint " +:+ constraint in
  SqlxDatabase (Some "23503") (Some table) m ("error returned from database: " +:+ m).
Definition row_not_found : SqlxError :=
  SqlxRowNotFound "no rows returned by a query that expected to return at least one row".

(** [INSERT]: the primary key and unique constraints are checked when the row is
    inserted, the foreign keys at the end of the statement. *)
Definition insert_row {K R} `{Countable K} (table : string) (k : K) (row : R)
    (uniques : list (bool * string)) (fks : list (bool * string)) (m : gmap K R)
    : result SqlxError (gmap K R) :=
  _ ← throw_if (bool_decide (is_Some (m !! k))) (unique_violation table (table +:+ "_pkey"));
  _ ← for_each (λ _ c, throw_if c.1 (unique_violation table c.2)) tt uniques;
  _ ← for_each (λ _ c, throw_if (negb c.1) (fk_violation table c.2)) tt fks;
  mret (<[k := row]> m).

(** A reference to a row that may be absent ([NULL] references nothing). *)
Definition ref_ok {K R} `{Countable K} (o : option K) (m : gmap K R) : bool :=
  match o with Some k => bool_decide (is_Some (m !! k)) | None => true end.

(** Apply an update to the database when the statement succeeds. *)
Definition run_insert {A T} (row : A) (r : result SqlxError T) (set : (T → T) → Db → Db)
    (d : Db) : result SqlxError A * Db :=
  match r with
  | Ok m => (Ok row, set (λ _, m) d)
  | Err e => (Err e, d)
  end.

(** [UPDATE ... WHERE id = $k AND p RETURNING *], at most one row. *)
Definition update_row {K R} `{Countable K} (k : K) (p : R → bool) (f : R → R) (m : gmap K R)
    : option R * gmap K R :=
  match m !! k with
  | Some r => if p r then (Some (f r), <[k := f r]> m) else (None, m)
  | None => (None, m)
  end.

(** ** What the constraints enforce *)

Definition keyed {K R} `{Countable K} (id : R → K) (m : gmap K R) : Prop :=
  ∀ k r, m !! k = Some r → id r = k.
Definition unique_by {K R U} `{Countable K} (f : R → U) (m : gmap K R) : Prop :=
  ∀ k1 k2 r1 r2, m !! k1 = Some r1 → m !! k2 = Some r2 → f r1 = f r2 → k1 = k2.
Definition references {K R K' R'} `{Countable K, Countable K'} (f : R → option K')
    (m : gmap K R) (m' : gmap K' R') : Prop :=
  ∀ k r k', m !! k = Some r → f r = Some k' → is_Some (m' !! k').

Record db_wf (d : Db) : Prop := mkDbWf {
  wf_tenants : keyed tenant_id (tenants d);
  wf_tenant_slug : unique_by tenant_slug (tenants d);
  wf_sas : keyed sa_id (service_accounts d);
  wf_sa_slug : unique_by (λ s, (sa_tenant_id s, sa_slug s)) (service_accounts d);
  wf_sa_tenant : references (λ s, Some (sa_tenant_id s)) (service_accounts d) (tenants d);
  wf_sa_policy : references sa_default_policy_id (service_accounts d) (policies d);
  wf_keys : keyed key_uuid (service_account_keys d);
  wf_key_id : unique_by key_key_id (service_account_keys d);
  wf_key_sa :
    references (λ k, Some (key_service_account_id k)) (service_account_keys d)
      (service_accounts d);
  wf_policies : keyed policy_id (policies d);
  wf_policy_tenant : references (λ p, Some (policy_tenant_id p)) (policies d) (tenants d);
  wf_bindings : keyed binding_id (bindings d);
  wf_binding_unique :
    unique_by (λ b, (binding_service_account_id b, binding_policy_id b)) (bindings d);
  wf_binding_sa :
    references (λ b, Some (binding_service_account_id b)) (bindings d) (service_accounts d);
  wf_binding_policy : references (λ b, Some (binding_policy_id b)) (bindings d) (policies d);
  wf_routes : keyed rr_id (provider_routes d);
  wf_route_tenant : references rr_tenant_id (provider_routes d) (tenants d);
  wf_audit : keyed ae_id (audit_events d);
  wf_audit_tenant : references ae_tenant_id (audit_events d) (tenants d);
  wf_usage : keyed ue_key (usage_events d);
  wf_usage_request : unique_by ue_request (usage_events d);
  wf_pricing : keyed pr_id (pricing_rules d);
  wf_pricing_version : unique_by pr_version (pricing_rules d)
}.

(** ** Lemmas on tables *)

Section tables.
Context {K R : Type} `{Countable K}.
Implicit Types (m : gmap K R) (p : R → bool).

Lemma elem_of_rows m r : r ∈ rows m ↔ ∃ k, m !! k = Some r.
Proof.
  unfold rows. rewrite list_elem_of_fmap. split.
  - intros ([k r'] & -> & Hk%elem_of_map_to_list). eauto.
  - intros [k Hk]. exists (k, r). split; [done|]. by apply elem_of_map_to_list.
Qed.

Lemma exists_row_true p m :
  exists_row p m = true ↔ ∃ k r, m !! k = Some r ∧ p r = true.
Proof.
  unfold exists_row. rewrite existsb_exists. setoid_rewrite <-list_elem_of_In.
  setoid_rewrite elem_of_rows. naive_solver.
Qed.

Lemma find_row_some p m r :
  find_row p m = Some r → (∃ k, m !! k = Some r) ∧ p r = true.
Proof.
  unfold find_row. intros Hh. assert (r ∈ filter (λ r, p r = true) (rows m)) as Hin.
  { destruct (filter _ _); [done|]. injection Hh as <-. apply list_elem_of_here. }
  apply list_elem_of_filter in Hin as [Hp Hin%elem_of_rows]. eauto.
Qed.

Lemma find_row_none p m k r : find_row p m = None → m !! k = Some r → p r = false.
Proof.
  unfold find_row. intros Hh Hk. destruct (p r) eqn:Hp; [|done]. exfalso.
  assert (r ∈ filter (λ r, p r = true) (rows m)) as Hin.
  { apply list_elem_of_filter. rewrite elem_of_rows. eauto. }
  destruct (filter _ _); [by apply elem_of_nil in Hin|done].
Qed.

Lemma insert_row_ok table k (row : R) us fs m m' :
  insert_row table k row us fs m = Ok m' ↔
  m !! k = None ∧ Forall (λ c, c.1 = false) us ∧ Forall (λ c, c.1 = true) fs ∧
  m' = <[k := row]> m.
Proof.
  assert (∀ (l : list (bool * string)) (neg : bool → bool) (g : string → SqlxError),
    for_each (λ _ c, throw_if (neg c.1) (g c.2)) tt l = Ok tt ↔
    Forall (λ c, neg c.1 = false) l) as Hloop.
  { intros l neg g. induction l as [|c l IH]; cbn; [done|].
    rewrite result_bind_ok, Forall_cons, <-IH. split.
    - intros ([] & ?%throw_if_ok & ?). auto.
    - intros [? ?]. exists tt. split; [by apply throw_if_ok|done]. }
  unfold insert_row. rewrite <-(Hloop us (λ b, b) (unique_violation table)).
  assert (Forall (λ c : bool * string, c.1 = true) fs ↔
          Forall (λ c : bool * string, negb c.1 = false) fs) as ->
    by (apply Forall_iff; intros [[] ?]; done).
  rewrite <-(Hloop fs negb (fk_violation table)), eq_None_not_Some.
  split.
  - intros ([] & Hk%throw_if_ok%bool_decide_eq_false & ([] & Hus & ([] & Hfs & [= <-])
      %result_bind_ok)%result_bind_ok)%result_bind_ok. auto.
  - intros (Hk & Hus & Hfs & ->). rewrite bool_decide_eq_false_2 by done. cbn in *.
    by rewrite Hus; cbn; rewrite Hfs.
Qed.

Lemma update_row_some k p f m r m' :
  update_row k p f m = (Some r, m') ↔
  ∃ r0, m !! k = Some r0 ∧ p r0 = true ∧ r = f r0 ∧ m' = <[k := f r0]> m.
Proof.
  unfold update_row. split.
  - destruct (m !! k) as [r0|]; [|done]. destruct (p r0) eqn:Hp; [|done].
    intros [= <- <-]. by exists r0.
  - intros (r0 & -> & Hp & -> & ->). by rewrite Hp.
Qed.

Lemma update_row_none k p f m m' :
  update_row k p f m = (None, m') →
  m' = m ∧ ∀ r0, m !! k = Some r0 → p r0 = false.
Proof.
  unfold update_row. destruct (m !! k) as [r0|] eqn:Hk; [destruct (p r0) eqn:Hp|];
    intros [= <-]; split; try done. by intros ? [= <-].
Qed.
End tables.
