(* ===== verification/World.v ===== *)
(** * The world a handler runs in

    The state a request handler shares with the rest of the system: the clock, the Redis
    server, the database and the in-process caches. Calls to Redis and to the database go
    over a network: each consumes one [Step] of the world's script, which says how much
    time passes before the call executes and whether it fails, before or after it took
    effect. A theorem that quantifies over the world quantifies over all such schedules;
    when the script is used up, calls succeed at once. *)

From stdpp Require Import options.
From S2P Require Import Prelude Rust Types Errors Json Models PolicyMerge Backends Db.

Class Backends : Type := {
  be_redis :: RedisServer;
  be_keys :: MokaCache string ServiceAccountKey;
  be_policies :: MokaCache ServiceAccountId EvaluatedPolicy;
  be_routes :: MokaCache string (list ProviderRoute);
  be_admins :: MokaCache unit (list AdminApiKey)
}.
Class BackendsLaws `{!Backends} : Prop := {
  be_redis_laws :: RedisLaws;
  be_keys_laws :: MokaLaws string ServiceAccountKey;
  be_policies_laws :: MokaLaws ServiceAccountId EvaluatedPolicy;
  be_routes_laws :: MokaLaws string (list ProviderRoute);
  be_admins_laws :: MokaLaws unit (list AdminApiKey)
}.

Definition mem_backends : Backends := {|
  be_redis := mem_redis;
  be_keys := mem_cache string ServiceAccountKey;
  be_policies := mem_cache ServiceAccountId EvaluatedPolicy;
  be_routes := mem_cache string (list ProviderRoute);
  be_admins := mem_cache unit (list AdminApiKey)
|}.
Lemma mem_backends_laws : @BackendsLaws mem_backends.
Proof.
  split; [apply mem_redis_laws|apply (mem_cache_laws string ServiceAccountKey)
    |apply (mem_cache_laws ServiceAccountId EvaluatedPolicy)
    |apply (mem_cache_laws string (list ProviderRoute))
    |apply (mem_cache_laws unit (list AdminApiKey))].
Qed.

Inductive Fault : Type := FailBefore (msg : string) | FailAfter (msg : string).
Record Step : Type := mkStep { elapsed_ms : N; fault : option Fault }.

Record World `{!Backends} : Type := mkWorld {
  clock : Z;
  script : list Step;
  uuids : list Uuid;
  redis : Redis;
  db : Db;
  key_l1 : Moka string ServiceAccountKey;
  policy_l1 : Moka ServiceAccountId EvaluatedPolicy;
  route_l1 : Moka string (list ProviderRoute);
  admin_l1 : Moka unit (list AdminApiKey)
}.

Section world.
Context `{!Backends}.
Implicit Types (w : World).

Definition set_redis (r : Redis) w : World :=
  mkWorld _ (clock w) (script w) (uuids w) r (db w) (key_l1 w) (policy_l1 w) (route_l1 w)
    (admin_l1 w).
Definition set_db (d : Db) w : World :=
  mkWorld _ (clock w) (script w) (uuids w) (redis w) d (key_l1 w) (policy_l1 w) (route_l1 w)
    (admin_l1 w).
Definition set_key_l1 (c : Moka string ServiceAccountKey) w : World :=
  mkWorld _ (clock w) (script w) (uuids w) (redis w) (db w) c (policy_l1 w) (route_l1 w)
    (admin_l1 w).
Definition set_policy_l1 (c : Moka ServiceAccountId EvaluatedPolicy) w : World :=
  mkWorld _ (clock w) (script w) (uuids w) (redis w) (db w) (key_l1 w) c (route_l1 w)
    (admin_l1 w).
Definition set_route_l1 (c : Moka string (list ProviderRoute)) w : World :=
  mkWorld _ (clock w) (script w) (uuids w) (redis w) (db w) (key_l1 w) (policy_l1 w) c
    (admin_l1 w).
Definition set_admin_l1 (c : Moka unit (list AdminApiKey)) w : World :=
  mkWorld _ (clock w) (script w) (uuids w) (redis w) (db w) (key_l1 w) (policy_l1 w)
    (route_l1 w) c.

(** Consume one step of the script. *)
Definition tick w : option Fault * World :=
  match script w with
  | [] => (None, w)
  | s :: rest =>
    (fault s, mkWorld _ (clock w + Z.of_N (elapsed_ms s)) rest (uuids w) (redis w) (db w)
                (key_l1 w) (policy_l1 w) (route_l1 w) (admin_l1 w))
  end.

(** [Uuid::new_v4()] and [gen_random_uuid()]: the next of the world's supply. *)
Definition new_uuid {E} : IO World E Uuid := λ w,
  (Ok (default 0 (head (uuids w))),
   mkWorld _ (clock w) (script w) (tail (uuids w)) (redis w) (db w)
     (key_l1 w) (policy_l1 w) (route_l1 w) (admin_l1 w)).

(** [Utc::now()] in seconds. *)
Definition now_secs {E} : IO World E Z := io_reads (λ w, clock w / 1000).

(** One round trip to Redis. *)
Definition redis_call {A} (f : Z → Redis → A * Redis) : IO World StorageError A := λ w,
  let '(flt, w) := tick w in
  let '(a, r) := f (clock w) (redis w) in
  match flt with
  | None => (Ok a, set_redis r w)
  | Some (FailBefore msg) => (Err (SRedis msg), w)
  | Some (FailAfter msg) => (Err (SRedis msg), set_redis r w)
  end.

(** One round trip to PostgreSQL, outside an explicit transaction. *)
Definition db_call {A} (stmt : Stmt A) : IO World SqlxError A := λ w,
  let '(flt, w) := tick w in
  let '(r, d) := stmt (clock w) (db w) in
  match flt with
  | None => (r, set_db d w)
  | Some (FailBefore msg) => (Err (SqlxOther msg), w)
  | Some (FailAfter msg) => (Err (SqlxOther msg), set_db d w)
  end.

(** [pool.begin()], the statements, [tx.commit()]: an error before the commit took
    effect leaves the database as it was at the beginning. *)
Definition transaction {E A} (from : SqlxError → E) (body : IO World E A) : IO World E A := λ w,
  match io_map_err from (db_call (λ _ d, (Ok tt, d))) w with
  | (Err e, w') => (Err e, w')
  | (Ok _, w') =>
    let before := db w' in
    match body w' with
    | (Err e, w'') => (Err e, set_db before w'')
    | (Ok a, w'') =>
      let '(flt, w3) := tick w'' in
      match flt with
      | None => (Ok a, w3)
      | Some (FailBefore msg) => (Err (from (SqlxOther msg)), set_db before w3)
      | Some (FailAfter msg) => (Err (from (SqlxOther msg)), w3)
      end
    end
  end.

(** ** What a computation leaves alone *)

(** [m] changes neither the database nor [Redis] (nor anything [f] observes). *)
Definition preserves {E A B} (f : World → B) (m : IO World E A) : Prop :=
  ∀ w, f (m w).2 = f w.

Lemma preserves_bind {E A B C} (f : World → C) (m : IO World E A) (k : A → IO World E B) :
  preserves f m → (∀ a, preserves f (k a)) → preserves f (m ≫= k).
Proof.
  intros Hm Hk w. unfold mbind, io_bind. specialize (Hm w).
  destruct (m w) as [[a|e] w']; cbn in *; [|done]. by rewrite Hk.
Qed.

Lemma preserves_ret {E A B} (f : World → B) (a : A) : preserves f (mret a : IO World E A).
Proof. done. Qed.
Lemma preserves_lift {E A B} (f : World → B) (r : result E A) : preserves f (lift r).
Proof. done. Qed.
Lemma preserves_reads {E A B} (f : World → B) (g : World → A) :
  preserves f (io_reads g : IO World E A).
Proof. done. Qed.
Lemma preserves_get {E B} (f : World → B) : preserves f (io_get : IO World E World).
Proof. done. Qed.
Lemma preserves_now {E B} (f : World → B) : preserves f (now_secs : IO World E Z).
Proof. done. Qed.

Lemma preserves_map_err {E F A B} (f : World → B) (g : E → F) (m : IO World E A) :
  preserves f m → preserves f (io_map_err g m).
Proof.
  intros Hm w. specialize (Hm w). unfold io_map_err. by destruct (m w) as [[]].
Qed.
Lemma preserves_try {E F A B} (f : World → B) (m : IO World E A) :
  preserves f m → preserves f (io_try m : IO World F _).
Proof. intros Hm w. specialize (Hm w). unfold io_try. by destruct (m w). Qed.

Lemma tick_frame {B} (f : World → B) w :
  (∀ c s, f (mkWorld _ c s (uuids w) (redis w) (db w) (key_l1 w) (policy_l1 w) (route_l1 w)
     (admin_l1 w)) = f w) →
  f (tick w).2 = f w.
Proof. intros Hf. unfold tick. destruct (script w); cbn; [done|apply Hf]. Qed.

Lemma redis_call_db {A} (f : Z → Redis → A * Redis) : preserves db (redis_call f).
Proof.
  intros w. unfold redis_call. pose proof (tick_frame db w ltac:(done)) as Ht.
  destruct (tick w) as [flt w']. cbn in Ht.
  destruct (f (clock w') (redis w')) as [a r]. by destruct flt as [[]|].
Qed.
Lemma db_call_redis {A} (stmt : Stmt A) : preserves redis (db_call stmt).
Proof.
  intros w. unfold db_call. pose proof (tick_frame redis w ltac:(done)) as Ht.
  destruct (tick w) as [flt w']. cbn in Ht.
  destruct (stmt (clock w') (db w')) as [a r]. by destruct flt as [[]|].
Qed.
Lemma db_call_select {A} (q : Z → Db → result SqlxError A) :
  preserves db (db_call (λ t d, (q t d, d))).
Proof.
  intros w. unfold db_call. pose proof (tick_frame db w ltac:(done)) as Ht.
  destruct (tick w) as [flt w']. cbn in Ht. by destruct flt as [[]|].
Qed.

Lemma tick_idle w : script w = [] → tick w = (None, w).
Proof. unfold tick. by intros ->. Qed.
Lemma tick_clock w : clock w ≤ clock (tick w).2.
Proof. unfold tick. destruct (script w); cbn; lia. Qed.

(** Time never goes back. *)
Definition advances {E A} (m : IO World E A) : Prop := ∀ w, clock w ≤ clock (m w).2.

Lemma advances_bind {E A B} (m : IO World E A) (k : A → IO World E B) :
  advances m → (∀ a, advances (k a)) → advances (m ≫= k).
Proof.
  intros Hm Hk w. unfold mbind, io_bind. specialize (Hm w).
  destruct (m w) as [[a|e] w']; cbn in *; [|done]. specialize (Hk a w'). lia.
Qed.
Lemma advances_preserves {E A} (m : IO World E A) : preserves clock m → advances m.
Proof. intros Hm w. rewrite Hm. done. Qed.
Lemma advances_ret {E A} (a : A) : advances (mret a : IO World E A).
Proof. intros w. cbn. done. Qed.
Lemma advances_lift {E A} (r : result E A) : advances (lift r).
Proof. intros w. cbn. done. Qed.
Lemma advances_reads {E A} (f : World → A) : advances (io_reads f : IO World E A).
Proof. intros w. cbn. done. Qed.
Lemma advances_now {E} : advances (now_secs : IO World E Z).
Proof. intros w. cbn. done. Qed.
Lemma advances_map_err {E F A} (g : E → F) (m : IO World E A) :
  advances m → advances (io_map_err g m).
Proof. intros Hm w. specialize (Hm w). unfold io_map_err. by destruct (m w). Qed.
Lemma advances_try {E F A} (m : IO World E A) : advances m → advances (io_try m : IO World F _).
Proof. intros Hm w. specialize (Hm w). unfold io_try. by destruct (m w). Qed.
Lemma redis_call_advances {A} (f : Z → Redis → A * Redis) : advances (redis_call f).
Proof.
  intros w. unfold redis_call. pose proof (tick_clock w) as Ht. destruct (tick w) as [flt w'].
  destruct (f (clock w') (redis w')) as [a r]. by destruct flt as [[]|].
Qed.
Lemma db_call_advances {A} (stmt : Stmt A) : advances (db_call stmt).
Proof.
  intros w. unfold db_call. pose proof (tick_clock w) as Ht. destruct (tick w) as [flt w'].
  destruct (stmt (clock w') (db w')) as [a r]. by destruct flt as [[]|].
Qed.

(** A successful round trip executed the command at some instant not before now. *)
Lemma redis_call_ok {A} (f : Z → Redis → A * Redis) w a w' :
  redis_call f w = (Ok a, w') →
  clock w ≤ clock w' ∧ a = (f (clock w') (redis w)).1 ∧
  redis w' = (f (clock w') (redis w)).2 ∧ db w' = db w ∧
  key_l1 w' = key_l1 w ∧ policy_l1 w' = policy_l1 w ∧ route_l1 w' = route_l1 w.
Proof.
  unfold redis_call. pose proof (tick_clock w) as Hc.
  pose proof (tick_frame redis w ltac:(done)) as Hr.
  pose proof (tick_frame db w ltac:(done)) as Hd.
  pose proof (tick_frame key_l1 w ltac:(done)) as Hk.
  pose proof (tick_frame policy_l1 w ltac:(done)) as Hp.
  pose proof (tick_frame route_l1 w ltac:(done)) as Ht.
  destruct (tick w) as [flt w1]. cbn in *. rewrite <-Hr.
  destruct (f (clock w1) (redis w1)) as [b r] eqn:Hf.
  destruct flt as [[]|]; [done..|]. intros [= <- <-]. cbn. rewrite Hf. auto 10.
Qed.

Lemma db_call_ok {A} (stmt : Stmt A) w a w' :
  db_call stmt w = (Ok a, w') →
  clock w ≤ clock w' ∧ stmt (clock w') (db w) = (Ok a, db w') ∧ redis w' = redis w ∧
  key_l1 w' = key_l1 w ∧ policy_l1 w' = policy_l1 w ∧ route_l1 w' = route_l1 w.
Proof.
  unfold db_call. pose proof (tick_clock w) as Hc.
  pose proof (tick_frame redis w ltac:(done)) as Hr.
  pose proof (tick_frame db w ltac:(done)) as Hd.
  pose proof (tick_frame key_l1 w ltac:(done)) as Hk.
  pose proof (tick_frame policy_l1 w ltac:(done)) as Hp.
  pose proof (tick_frame route_l1 w ltac:(done)) as Ht.
  destruct (tick w) as [flt w1]. cbn in *. rewrite <-Hd.
  destruct (stmt (clock w1) (db w1)) as [r d] eqn:Hf.
  destruct flt as [[]|]; [done..|]. intros [= -> <-]. cbn. rewrite Hf. auto 10.
Qed.

(** Every outcome of a round trip: the statement's own, or a network error, before or
    after the statement took effect. *)
Lemma db_call_any {A} (stmt : Stmt A) w r w' :
  db_call stmt w = (r, w') →
  ∃ t, clock w ≤ t ≤ clock w' ∧
    ((r, db w') = stmt t (db w) ∨
     ∃ msg, r = Err (SqlxOther msg) ∧ (db w' = db w ∨ db w' = (stmt t (db w)).2)).
Proof.
  unfold db_call. pose proof (tick_clock w) as Hc.
  pose proof (tick_frame db w ltac:(done)) as Hd.
  destruct (tick w) as [flt w1]. cbn in *. rewrite <-Hd.
  destruct (stmt (clock w1) (db w1)) as [r1 d] eqn:Hf. intros Hout. exists (clock w1).
  rewrite Hf. destruct flt as [[msg|msg]|]; injection Hout as <- <-; cbn; (split; [lia|]);
    [right; eauto..|by left].
Qed.

(** Whatever its outcome, a statement leaves a database that satisfies every
    assertion the statement preserves. *)
Lemma db_call_inv {A} (P : Db → Prop) (stmt : Stmt A) w :
  (∀ t d, P d → P (stmt t d).2) → P (db w) → P (db (db_call stmt w).2).
Proof.
  intros HP Hw. unfold db_call. pose proof (tick_frame db w ltac:(done)) as Hd.
  destruct (tick w) as [flt w1]. cbn in *. specialize (HP (clock w1) (db w1)).
  destruct (stmt (clock w1) (db w1)) as [r d]. rewrite Hd in HP.
  destruct flt as [[]|]; cbn in *; auto. by rewrite Hd.
Qed.

(** ** What leaves Redis and the caches alone

    Statements, transactions, fresh identifiers, time: whatever [w] and [w'] differ in, it
    is the clock, the database and the supplies. *)
Record elsewhere w w' : Prop := mkElsewhere {
  el_clock : clock w ≤ clock w';
  el_redis : redis w' = redis w;
  el_keys : key_l1 w' = key_l1 w;
  el_policies : policy_l1 w' = policy_l1 w;
  el_routes : route_l1 w' = route_l1 w;
  el_admins : admin_l1 w' = admin_l1 w
}.
#[global] Instance elsewhere_preorder : PreOrder elsewhere.
Proof.
  split; [by intros w; split|].
  intros w1 w2 w3 [] []. split; [lia|congruence..].
Qed.
Lemma tick_elsewhere w : elsewhere w (tick w).2.
Proof. split; [apply tick_clock|by apply tick_frame..]. Qed.
Lemma set_db_elsewhere d w : elsewhere w (set_db d w).
Proof. by split. Qed.

Definition calls_db {E A} (m : IO World E A) : Prop := ∀ w, elsewhere w (m w).2.

Lemma calls_db_bind {E A B} (m : IO World E A) (k : A → IO World E B) :
  calls_db m → (∀ a, calls_db (k a)) → calls_db (m ≫= k).
Proof.
  intros Hm Hk w. unfold mbind, io_bind. specialize (Hm w).
  destruct (m w) as [[a|e] w']; cbn in *; [|done]. etrans; [exact Hm|apply Hk].
Qed.
Lemma calls_db_ret {E A} (a : A) : calls_db (mret a : IO World E A).
Proof. by intros w. Qed.
Lemma calls_db_lift {E A} (r : result E A) : calls_db (lift r).
Proof. by intros w. Qed.
Lemma calls_db_reads {E A} (f : World → A) : calls_db (io_reads f : IO World E A).
Proof. by intros w. Qed.
Lemma calls_db_uuid {E} : calls_db (new_uuid : IO World E Uuid).
Proof. by intros w. Qed.
Lemma calls_db_map_err {E F A} (g : E → F) (m : IO World E A) :
  calls_db m → calls_db (io_map_err g m).
Proof. intros Hm w. specialize (Hm w). unfold io_map_err. by destruct (m w). Qed.
Lemma calls_db_try {E F A} (m : IO World E A) : calls_db m → calls_db (io_try m : IO World F _).
Proof. intros Hm w. specialize (Hm w). unfold io_try. by destruct (m w). Qed.
Lemma calls_db_call {A} (stmt : Stmt A) : calls_db (db_call stmt).
Proof.
  intros w. unfold db_call. pose proof (tick_elsewhere w) as Ht. destruct (tick w) as [flt w1].
  destruct (stmt (clock w1) (db w1)) as [r d]. cbn [snd] in *.
  destruct flt as [[]|]; cbn [snd]; [done| |]; (etrans; [exact Ht|]); apply set_db_elsewhere.
Qed.
Lemma calls_db_transaction {E A} (from : SqlxError → E) (body : IO World E A) :
  calls_db body → calls_db (transaction from body).
Proof.
  intros Hb w. unfold transaction.
  pose proof (calls_db_map_err from _ (calls_db_call (λ _ d, (Ok tt, d))) w) as H1.
  destruct (io_map_err from _ w) as [[u|e] w1]; cbn [snd] in *; [|done].
  specialize (Hb w1). destruct (body w1) as [[a|e] w2]; cbn [snd] in *.
  2:{ do 2 (etrans; [eassumption|]). apply set_db_elsewhere. }
  pose proof (tick_elsewhere w2) as Ht. destruct (tick w2) as [flt w3]. cbn [snd] in *.
  destruct flt as [[]|]; cbn [snd]; do 2 (etrans; [eassumption|]); try done.
  etrans; [exact Ht|]. apply set_db_elsewhere.
Qed.
End world.

#[export] Hint Resolve calls_db_ret calls_db_lift calls_db_reads calls_db_uuid calls_db_call : gate.
Ltac solve_calls_db :=
  repeat match goal with
  | |- calls_db (_ ≫= _) => apply calls_db_bind; [|intros]
  | |- calls_db (io_map_err _ _) => apply calls_db_map_err
  | |- calls_db (io_try _) => apply calls_db_try
  | |- calls_db (transaction _ _) => apply calls_db_transaction
  | |- calls_db (match ?x with _ => _ end) => destruct x
  | |- calls_db _ => solve [eauto with gate]
  end.

#[export] Hint Resolve preserves_bind preserves_ret preserves_lift preserves_reads
  preserves_get preserves_now preserves_map_err preserves_try redis_call_db db_call_redis
  db_call_select advances_bind advances_ret advances_lift advances_reads advances_now
  advances_map_err advances_try redis_call_advances db_call_advances : gate.
