(* ===== verification/Float64.v ===== *)
(** * The [f64] arithmetic of the rate limiter

    [f64] is IEEE 754 binary64 as the Standard Library's [SpecFloat] defines it. The
    casts [u64 as f64] and [f64::ceil() as u32] follow the Rust reference; the lemmas
    give the two facts of rounding the limiter depends on: an operation on non-negative
    operands stays non-negative, and rounding never falls below an integer that a double
    represents. *)

From Stdlib Require Import SpecFloat.
From stdpp Require Import options.
From S2P Require Import Prelude Rust.

Abbreviation f64 := spec_float.
Abbreviation prec64 := 53 (only parsing).
Abbreviation emax64 := 1024 (only parsing).

(** [n as f64]: round to nearest even. *)
Definition f64_of_u64 (n : Z) : f64 := binary_normalize prec64 emax64 n 0 false.
Definition f64_sub : f64 → f64 → f64 := SFsub prec64 emax64.
Definition f64_add : f64 → f64 → f64 := SFadd prec64 emax64.
Definition f64_mul : f64 → f64 → f64 := SFmul prec64 emax64.
Definition f64_div : f64 → f64 → f64 := SFdiv prec64 emax64.

(** [x.ceil() as u32]: saturating, NaN to zero. *)
Definition f64_ceil_as_u32 (x : f64) : Z :=
  match x with
  | S754_zero _ | S754_nan | S754_infinity true | S754_finite true _ _ => 0
  | S754_infinity false => U32_MAX
  | S754_finite false m e =>
    Z.min U32_MAX
      (if 0 <=? e then Z.pos m * 2 ^ e else - ((- Z.pos m) / 2 ^ (- e)))
  end.

(** ** Rounding *)

(** The number [m * 2^e] is at least the integer [n]. *)
Definition scaled_ge (m e n : Z) : Prop := n * 2 ^ Z.max 0 (- e) ≤ m * 2 ^ Z.max 0 e.

(** A float that is non-negative and at least [n]. *)
Definition f64_ge (x : f64) (n : Z) : Prop :=
  match x with
  | S754_zero _ => n ≤ 0
  | S754_infinity false => True
  | S754_finite false m e => scaled_ge (Z.pos m) e n
  | _ => False
  end.
Definition f64_nonneg (x : f64) : Prop :=
  match x with
  | S754_zero _ | S754_infinity false | S754_finite false _ _ => True
  | _ => False
  end.

Lemma digits2_log2 p : Z.pos (digits2_pos p) = Z.log2 (Z.pos p) + 1.
Proof.
  induction p as [p IH|p IH|]; [| |done]; cbn [digits2_pos]; rewrite Pos2Z.inj_succ, IH.
  - rewrite (Pos2Z.inj_xI p), Z.log2_succ_double by lia. lia.
  - rewrite (Pos2Z.inj_xO p), Z.log2_double by lia. lia.
Qed.

Lemma iter_pos_nat {A} (f : A → A) p x : SpecFloat.iter_pos f p x = Nat.iter (Pos.to_nat p) f x.
Proof.
  revert x. induction p as [p IH|p IH|]; intros x; cbn [SpecFloat.iter_pos].
  - rewrite !IH, <-Nat.iter_add, <-Nat.iter_succ_r. f_equal. lia.
  - rewrite !IH, <-Nat.iter_add. f_equal. lia.
  - done.
Qed.

Lemma shr_1_m r : 0 ≤ shr_m r → shr_m (shr_1 r) = shr_m r / 2.
Proof.
  destruct r as [m r s]. cbn. intros Hm. destruct m as [|[p|p|]|p]; cbn; try done.
  - rewrite (Pos2Z.inj_xI p), Z.mul_comm, Z.div_add_l by done. cbn. lia.
  - rewrite (Pos2Z.inj_xO p), Z.mul_comm, Z.div_mul by done. done.
Qed.

Lemma shr_iter_m n r : 0 ≤ shr_m r → shr_m (Nat.iter n shr_1 r) = shr_m r / 2 ^ Z.of_nat n.
Proof.
  intros Hr. induction n as [|n IH]; [by cbn; rewrite Z.div_1_r|]. rewrite Nat.iter_succ.
  rewrite shr_1_m, IH.
  - rewrite Z.div_div by lia. f_equal. rewrite Nat2Z.inj_succ, Z.pow_succ_r by lia. lia.
  - rewrite IH. apply Z.div_pos; lia.
Qed.

(** Shifting right by [k] bits: the quotient and the new exponent. *)
Lemma shr_fexp_spec m e l : 0 ≤ m →
  let k := Z.max 0 (fexp 53 1024 (Zdigits2 m + e) - e) in
  shr_m (shr_fexp 53 1024 m e l).1 = m / 2 ^ k ∧ (shr_fexp 53 1024 m e l).2 = e + k.
Proof.
  intros Hm. unfold shr_fexp.
  assert (shr_m (shr_record_of_loc m l) = m) as Hl by by destruct l as [|[]].
  destruct (_ - e) as [|p|p] eqn:Hk; cbn -[Z.max Z.pow].
  - rewrite Hl, Z.div_1_r. lia.
  - rewrite iter_pos_nat, shr_iter_m, Hl by lia. rewrite positive_nat_Z, Z.max_r by lia. done.
  - rewrite Hl, Z.max_l, Z.div_1_r by lia. lia.
Qed.

(** Dropping low bits keeps the number above every integer a double represents. *)
Lemma shift_scaled_ge m e k n :
  0 < m → 0 ≤ n ≤ 2 ^ 53 → k = Z.max 0 (fexp 53 1024 (Zdigits2 m + e) - e) →
  scaled_ge m e n → scaled_ge (m / 2 ^ k) (e + k) n.
Proof.
  intros Hm Hn Hk Hge. destruct (decide (k = 0)) as [->|Hk0].
  { by rewrite Z.div_1_r, Z.add_0_r. }
  assert (Zdigits2 m = Z.log2 m + 1) as Hd by (destruct m; [lia|apply digits2_log2|lia]).
  unfold fexp, emin in Hk. rewrite Hd in Hk.
  assert (0 < k) as Hkpos by lia. pose proof (Z.pow_pos_nonneg 2 k ltac:(lia) ltac:(lia)) as H2k.
  unfold scaled_ge in *. destruct (decide (e + k ≤ 0)) as [Hle|Hgt].
  - rewrite (Z.max_r 0 (- (e + k))), (Z.max_l 0 (e + k)), Z.pow_0_r, Z.mul_1_r by lia.
    rewrite (Z.max_r 0 (- e)), (Z.max_l 0 e), Z.pow_0_r, Z.mul_1_r in Hge by lia.
    apply Z.div_le_lower_bound; [done|].
    replace (- e) with (k + - (e + k)) in Hge by lia. rewrite Z.pow_add_r in Hge by lia. lia.
  - rewrite (Z.max_l 0 (- (e + k))), (Z.max_r 0 (e + k)), Z.pow_0_r, Z.mul_1_r by lia.
    assert (k = Z.log2 m - 52) as Hkl by lia.
    destruct (Z.log2_spec m Hm) as [Hlog _].
    assert (2 ^ 52 ≤ m / 2 ^ k) as Hq.
    { apply Z.div_le_lower_bound; [done|]. rewrite <-Z.pow_add_r by lia.
      by replace (k + 52) with (Z.log2 m) by lia. }
    assert (2 ^ 1 ≤ 2 ^ (e + k)) as He by (apply Z.pow_le_mono_r; lia).
    change (2 ^ 53) with (2 ^ 52 * 2 ^ 1) in Hn. nia.
Qed.

Lemma round_nearest_even_ge m l : m ≤ round_nearest_even m l ≤ m + 1.
Proof. unfold round_nearest_even. destruct l as [|[]]; try lia. destruct (Z.even m); lia. Qed.

Lemma scaled_ge_mono m m' e n : m ≤ m' → scaled_ge m e n → scaled_ge m' e n.
Proof.
  unfold scaled_ge. intros Hm Hge.
  pose proof (Z.pow_pos_nonneg 2 (Z.max 0 e) ltac:(lia) ltac:(lia)). nia.
Qed.

Lemma scaled_ge_pos m e n : 0 < n → scaled_ge m e n → 0 < m.
Proof.
  unfold scaled_ge. intros Hn Hge.
  pose proof (Z.pow_pos_nonneg 2 (Z.max 0 e) ltac:(lia) ltac:(lia)).
  pose proof (Z.pow_pos_nonneg 2 (Z.max 0 (- e)) ltac:(lia) ltac:(lia)). nia.
Qed.

Lemma round_aux_ge m e l n :
  0 < n ≤ 2 ^ 53 → scaled_ge m e n → f64_ge (binary_round_aux 53 1024 false m e l) n.
Proof.
  intros Hn Hge. assert (0 < m) as Hm by (eapply scaled_ge_pos; eauto; lia).
  unfold binary_round_aux.
  destruct (shr_fexp_spec m e l ltac:(lia)) as [Hm1 He1].
  destruct (shr_fexp 53 1024 m e l) as [mrs1 e1]. cbn [fst snd] in Hm1, He1.
  assert (scaled_ge (shr_m mrs1) e1 n) as Hge1.
  { rewrite Hm1, He1. apply (shift_scaled_ge m e); auto; lia. }
  set (m2 := round_nearest_even _ _).
  assert (scaled_ge m2 e1 n) as Hge2.
  { eapply scaled_ge_mono; [|done]. apply round_nearest_even_ge. }
  assert (0 < m2) as Hm2 by (eapply scaled_ge_pos; [|done]; lia).
  destruct (shr_fexp_spec m2 e1 loc_Exact ltac:(lia)) as [Hm3 He3].
  destruct (shr_fexp 53 1024 m2 e1 loc_Exact) as [mrs3 e3]. cbn [fst snd] in Hm3, He3.
  assert (scaled_ge (shr_m mrs3) e3 n) as Hge3.
  { rewrite Hm3, He3. apply (shift_scaled_ge m2 e1); auto; lia. }
  assert (0 < shr_m mrs3) as Hpos by (eapply scaled_ge_pos; [|done]; lia).
  destruct (shr_m mrs3) as [|p|p]; [lia| |lia].
  by destruct (e3 <=? 1024 - 53).
Qed.

Lemma round_aux_nonneg m e l : 0 ≤ m → f64_nonneg (binary_round_aux 53 1024 false m e l).
Proof.
  intros Hm. unfold binary_round_aux.
  destruct (shr_fexp_spec m e l Hm) as [Hm1 _].
  destruct (shr_fexp 53 1024 m e l) as [mrs1 e1]. cbn [fst snd] in Hm1.
  assert (0 ≤ shr_m mrs1) as Hp1.
  { rewrite Hm1. apply Z.div_pos; [done|]. apply Z.pow_pos_nonneg; lia. }
  pose proof (round_nearest_even_ge (shr_m mrs1) (loc_of_shr_record mrs1)) as Hr.
  destruct (shr_fexp_spec (round_nearest_even (shr_m mrs1) (loc_of_shr_record mrs1)) e1
    loc_Exact ltac:(lia)) as [Hm3 _].
  destruct (shr_fexp 53 1024 (round_nearest_even _ _) e1 loc_Exact) as [mrs3 e3].
  cbn [fst snd] in Hm3.
  assert (0 ≤ shr_m mrs3) as Hp3.
  { rewrite Hm3. apply Z.div_pos; [lia|]. apply Z.pow_pos_nonneg; lia. }
  destruct (shr_m mrs3) as [|p|p]; [done| |lia]. by destruct (e3 <=? 1024 - 53).
Qed.

(** ** Alignment, and the operations on integers *)

Lemma iter_xO_val p d : Z.pos (Pos.iter xO p d) = Z.pos p * 2 ^ Z.pos d.
Proof.
  induction d as [|d IH] using Pos.peano_ind.
  { change (Pos.iter xO p 1) with (p~0)%positive. by rewrite Pos2Z.inj_xO, Z.pow_1_r, Z.mul_comm. }
  rewrite Pos.iter_succ, (Pos2Z.inj_xO (Pos.iter xO p d)), IH.
  rewrite Pos2Z.inj_succ, Z.pow_succ_r; lia.
Qed.

(** Aligning to a smaller exponent keeps the number. *)
Lemma shl_align_val m e e' : 
  Z.pos (shl_align m e e').1 = Z.pos m * 2 ^ Z.max 0 (e - e') ∧
  (shl_align m e e').2 = Z.min e e'.
Proof.
  unfold shl_align. destruct (e' - e) as [|d|d] eqn:Hd; cbn -[Z.max Z.pow Z.min].
  - rewrite Z.max_l by lia. lia.
  - rewrite Z.max_l by lia. lia.
  - rewrite iter_xO_val. replace (e - e') with (Z.pos d) by lia. rewrite Z.max_r by lia. lia.
Qed.

Lemma scaled_ge_align m e e' n : 
  scaled_ge m e n → scaled_ge (m * 2 ^ Z.max 0 (e - e')) (Z.min e e') n.
Proof.
  unfold scaled_ge. destruct (decide (e ≤ e')) as [Hle|Hgt].
  - rewrite (Z.max_l 0 (e - e')), Z.min_l by lia. by rewrite Z.pow_0_r, Z.mul_1_r.
  - rewrite (Z.max_r 0 (e - e')), Z.min_r by lia. intros Hge.
    pose proof (Z.pow_pos_nonneg 2 (Z.max 0 e) ltac:(lia) ltac:(lia)).
    pose proof (Z.pow_pos_nonneg 2 (Z.max 0 (- e)) ltac:(lia) ltac:(lia)).
    destruct (decide (0 ≤ e')), (decide (0 ≤ e)); try lia.
    + rewrite (Z.max_l 0 (- e')), (Z.max_r 0 e') by lia.
      rewrite (Z.max_l 0 (- e)), (Z.max_r 0 e) in Hge by lia.
      rewrite <-Z.mul_assoc, <-Z.pow_add_r by lia.
      by replace (e - e' + e') with e by lia.
    + rewrite (Z.max_r 0 (- e')), (Z.max_l 0 e') by lia.
      rewrite (Z.max_l 0 (- e)), (Z.max_r 0 e), Z.pow_0_r, Z.mul_1_r in Hge by lia.
      replace (e - e') with (e + - e') by lia. rewrite Z.pow_add_r, Z.pow_0_r by lia.
      pose proof (Z.pow_pos_nonneg 2 (- e') ltac:(lia) ltac:(lia)). nia.
    + rewrite (Z.max_r 0 (- e')), (Z.max_l 0 e') by lia.
      rewrite (Z.max_r 0 (- e)), (Z.max_l 0 e), Z.pow_0_r, Z.mul_1_r in Hge by lia.
      replace (- e') with (- e + (e - e')) by lia. rewrite Z.pow_add_r, Z.pow_0_r by lia.
      pose proof (Z.pow_pos_nonneg 2 (e - e') ltac:(lia) ltac:(lia)). nia.
Qed.

Lemma normalize_ge m e n : 0 < n ≤ 2 ^ 53 → scaled_ge m e n →
  f64_ge (binary_normalize 53 1024 m e false) n.
Proof.
  intros Hn Hge. assert (0 < m) as Hm by (eapply scaled_ge_pos; eauto; lia).
  destruct m as [|p|p]; [lia| |lia]. cbn -[shl_align binary_round_aux]. unfold binary_round.
  destruct (shl_align_val p e (fexp 53 1024 (Z.pos (digits2_pos p) + e))) as [Hv He].
  destruct (shl_align _ _ _) as [mz ez]. cbn [fst snd] in *. subst ez.
  apply round_aux_ge; [done|]. rewrite Hv. by apply scaled_ge_align.
Qed.

Lemma normalize_nonneg m e s : 0 ≤ m → f64_nonneg (binary_normalize 53 1024 m e s).
Proof.
  intros Hm. destruct m as [|p|p]; [done| |lia]. cbn -[shl_align binary_round_aux].
  unfold binary_round. destruct (shl_align _ _ _). by apply round_aux_nonneg.
Qed.

(** An integer below 2^53 is represented exactly, its mantissa on 53 bits. *)
Lemma f64_of_u64_exact n : 0 < n < 2 ^ 53 →
  ∃ m, f64_of_u64 n = S754_finite false m (Z.log2 n - 52) ∧
    Z.pos m = n * 2 ^ (52 - Z.log2 n).
Proof.
  intros Hn. destruct n as [|p|p]; [lia| |lia].
  assert (0 ≤ Z.log2 (Z.pos p) ≤ 52) as Hlog.
  { split; [apply Z.log2_nonneg|]. apply Z.lt_succ_r, Z.log2_lt_pow2; lia. }
  unfold f64_of_u64. cbn [binary_normalize]. unfold binary_round.
  assert (fexp 53 1024 (Z.pos (digits2_pos p) + 0) = Z.log2 (Z.pos p) - 52) as ->.
  { rewrite digits2_log2. unfold fexp, emin. lia. }
  destruct (shl_align_val p 0 (Z.log2 (Z.pos p) - 52)) as [Hv He].
  destruct (shl_align _ _ _) as [mz ez]. cbn [fst snd] in *.
  rewrite Z.max_r in Hv by lia. rewrite Z.min_r in He by lia. subst ez.
  replace (0 - (Z.log2 (Z.pos p) - 52)) with (52 - Z.log2 (Z.pos p)) in Hv by lia.
  exists mz. split; [|done].
  assert (Zdigits2 (Z.pos mz) = 53) as Hdig.
  { cbn [Zdigits2]. rewrite digits2_log2, Hv, Z.log2_mul_pow2 by lia. lia. }
  assert (shr_fexp 53 1024 (Z.pos mz) (Z.log2 (Z.pos p) - 52) loc_Exact =
    (Build_shr_record (Z.pos mz) false false, Z.log2 (Z.pos p) - 52)) as Hshr.
  { unfold shr_fexp. rewrite Hdig. unfold fexp, emin.
    replace (Z.max _ _ - _) with 0 by lia. done. }
  unfold binary_round_aux. rewrite Hshr. cbn [shr_m loc_of_shr_record round_nearest_even].
  rewrite Hshr. cbn [shr_m]. destruct (Z.leb_spec (Z.log2 (Z.pos p) - 52) (1024 - 53)); [done|lia].
Qed.

Lemma f64_mul_nonneg x y :
  f64_nonneg x → f64_nonneg y → (∀ s, x ≠ S754_infinity s) → (∀ s, y ≠ S754_infinity s) →
  f64_nonneg (f64_mul x y).
Proof.
  destruct x as [|[]| |[] mx ex], y as [|[]| |[] my ey]; cbn -[binary_round_aux];
    intros ?? Hx Hy; try done; try (by exfalso; eapply Hx); try (by exfalso; eapply Hy).
  by apply round_aux_nonneg.
Qed.

(** Adding a non-negative number to an integer a double represents does not lose it. *)
Lemma f64_add_ge x n : f64_nonneg x → 0 ≤ n < 2 ^ 53 → f64_ge (f64_add x (f64_of_u64 n)) n.
Proof.
  intros Hx Hn. destruct (decide (n = 0)) as [->|Hn0].
  { destruct x as [| | |[] m e]; cbn; try done.
    - by destruct s.
    - unfold scaled_ge. cbn -[Z.max Z.pow].
      pose proof (Z.pow_pos_nonneg 2 (Z.max 0 e) ltac:(lia) ltac:(lia)). lia. }
  destruct (f64_of_u64_exact n ltac:(lia)) as (m & Hof & Hm). rewrite Hof.
  pose proof (Z.log2_nonneg n).
  assert (Z.log2 n < 53) by (apply Z.log2_lt_pow2; lia).
  assert (scaled_ge (Z.pos m) (Z.log2 n - 52) n) as Hge.
  { unfold scaled_ge. rewrite Hm. rewrite Z.max_r, Z.max_l by lia.
    replace (- (Z.log2 n - 52)) with (52 - Z.log2 n) by lia. lia. }
  destruct x as [|[]| |[] mx ex]; try done.
  unfold f64_add, SFadd. cbn [cond_Zopp].
  set (ez := Z.min ex (Z.log2 n - 52)).
  destruct (shl_align_val mx ex ez) as [Hvx _], (shl_align_val m (Z.log2 n - 52) ez) as [Hvm _].
  apply normalize_ge; [lia|].
  apply (scaled_ge_mono (Z.pos (shl_align m (Z.log2 n - 52) ez).1)); [lia|].
  rewrite Hvm. pose proof (scaled_ge_align (Z.pos m) (Z.log2 n - 52) ez n Hge) as Hal.
  by replace (Z.min (Z.log2 n - 52) ez) with ez in Hal by lia.
Qed.

(** The ceiling cast of a number that is at least [n]. *)
Lemma f64_ceil_ge x n : 0 ≤ n → f64_ge x n → Z.min U32_MAX n ≤ f64_ceil_as_u32 x.
Proof.
  intros Hn Hge. destruct x as [|[]| |[] m e]; cbn in Hge |- *; try done; try lia.
  apply Z.min_le_compat_l. unfold scaled_ge in Hge.
  destruct (Z.leb_spec 0 e).
  - rewrite Z.max_l, Z.max_r in Hge by lia. lia.
  - rewrite Z.max_r, Z.max_l in Hge by lia.
    pose proof (Z.pow_pos_nonneg 2 (- e) ltac:(lia) ltac:(lia)) as Hp.
    enough (- Z.pos m / 2 ^ (- e) ≤ - n) by lia.
    apply Z.div_le_upper_bound; lia.
Qed.

Lemma f64_ceil_bounds x : 0 ≤ f64_ceil_as_u32 x ≤ U32_MAX.
Proof.
  unfold f64_ceil_as_u32, U32_MAX. destruct x as [|[]| |[] m e]; try lia.
  destruct (Z.leb_spec 0 e).
  - pose proof (Z.pow_pos_nonneg 2 e ltac:(lia) ltac:(lia)). lia.
  - pose proof (Z.pow_pos_nonneg 2 (- e) ltac:(lia) ltac:(lia)) as Hp.
    enough (- Z.pos m / 2 ^ (- e) ≤ 0) by lia.
    apply Z.div_le_upper_bound; lia.
Qed.

(** ** Numbers between zero and one *)

(** Zero, or a finite number with a non-positive exponent, at most one if [le1] holds. *)
Definition f64_small (le1 : Prop) (x : f64) : Prop :=
  match x with
  | S754_zero _ => True
  | S754_finite false m e => e ≤ 0 ∧ (le1 → Z.pos m ≤ 2 ^ (- e))
  | _ => False
  end.

Lemma log2_lt_bound m b : 0 ≤ b → 0 < m → m ≤ 2 ^ b → Z.log2 m ≤ b.
Proof. intros Hb Hm Hle. rewrite <-(Z.log2_pow2 b) by done. by apply Z.log2_le_mono. Qed.

(** One shift of a number that is at most about one. *)
Lemma shift_small m e k : 0 ≤ m → e ≤ 0 → m ≤ 2 ^ (- e) + 1 →
  k = Z.max 0 (fexp 53 1024 (Zdigits2 m + e) - e) →
  e + k ≤ 0 ∧ 0 ≤ m / 2 ^ k ∧ (m ≤ 2 ^ (- e) → m / 2 ^ k ≤ 2 ^ (- (e + k))) ∧
  (m < 2 ^ (- e) → m / 2 ^ k < 2 ^ (- (e + k))).
Proof.
  intros Hm He Hle Hk. pose proof (Z.pow_pos_nonneg 2 (- e) ltac:(lia) ltac:(lia)) as Hpe.
  assert (Zdigits2 m ≤ - e + 2) as Hd.
  { destruct m as [|p|p]; [cbn; lia| |lia]. cbn [Zdigits2]. rewrite digits2_log2.
    enough (Z.log2 (Z.pos p) ≤ - e + 1) by lia. apply log2_lt_bound; [lia..|].
    replace (- e + 1) with (Z.succ (- e)) by lia. rewrite Z.pow_succ_r by lia. lia. }
  unfold fexp, emin in Hk. assert (0 ≤ k) by lia. assert (e + k ≤ 0) as Hek by lia.
  pose proof (Z.pow_pos_nonneg 2 k ltac:(lia) ltac:(lia)) as Hpk.
  assert (2 ^ (- e) = 2 ^ k * 2 ^ (- (e + k))) as Hsplit.
  { rewrite <-Z.pow_add_r by lia. f_equal. lia. }
  split_and!; [done|by apply Z.div_pos| |]; intros Hm'.
  - apply Z.div_le_upper_bound; lia.
  - apply Z.div_lt_upper_bound; lia.
Qed.

Lemma round_aux_small m e l : 0 ≤ m → e ≤ 0 → m ≤ 2 ^ (- e) →
  f64_small (m < 2 ^ (- e)) (binary_round_aux 53 1024 false m e l).
Proof.
  intros Hm He Hle. unfold binary_round_aux.
  destruct (shr_fexp_spec m e l Hm) as [Hm1 He1].
  destruct (shr_fexp 53 1024 m e l) as [mrs1 e1]. cbn [fst snd] in Hm1, He1.
  destruct (shift_small m e _ Hm He ltac:(lia) eq_refl) as (Hk & Hp1 & Hb1 & Hs1).
  rewrite <-Hm1, <-He1 in *. specialize (Hb1 Hle).
  pose proof (round_nearest_even_ge (shr_m mrs1) (loc_of_shr_record mrs1)) as Hr.
  set (m2 := round_nearest_even _ _) in *.
  destruct (shr_fexp_spec m2 e1 loc_Exact ltac:(lia)) as [Hm3 He3].
  destruct (shr_fexp 53 1024 m2 e1 loc_Exact) as [mrs3 e3]. cbn [fst snd] in Hm3, He3.
  destruct (shift_small m2 e1 _ ltac:(lia) Hk ltac:(lia) eq_refl) as (Hk3 & Hp3 & Hb3 & _).
  rewrite <-Hm3, <-He3 in *.
  destruct (shr_m mrs3) as [|p|p]; [done| |lia].
  destruct (Z.leb_spec e3 (1024 - 53)); [|lia]. cbn. split; [done|]. lia.
Qed.

(** The quotient of two integers, the first smaller, lies between zero and one. *)
Lemma f64_div_small a b : 0 ≤ a < b → b < 2 ^ 53 →
  f64_small True (f64_div (f64_of_u64 a) (f64_of_u64 b)).
Proof.
  intros Hab Hb. destruct (f64_of_u64_exact b ltac:(lia)) as (mb & Hofb & Hmb).
  destruct (decide (a = 0)) as [->|Ha0]; [by rewrite Hofb|].
  destruct (f64_of_u64_exact a ltac:(lia)) as (ma & Hofa & Hma). rewrite Hofa, Hofb.
  unfold f64_div, SFdiv. cbn [xorb].
  assert (Z.log2 a ≤ Z.log2 b) as Hlog by (apply Z.log2_le_mono; lia).
  pose proof (Z.log2_nonneg a). assert (Z.log2 b < 53) by (apply Z.log2_lt_pow2; lia).
  set (ea := Z.log2 a - 52) in *. set (eb := Z.log2 b - 52) in *.
  assert (Zdigits2 (Z.pos ma) = 53 ∧ Zdigits2 (Z.pos mb) = 53) as [Hda Hdb].
  { cbn [Zdigits2]. rewrite !digits2_log2, Hma, Hmb, !Z.log2_mul_pow2 by lia. lia. }
  unfold SFdiv_core_binary. rewrite Hda, Hdb.
  set (e' := Z.min _ (ea - eb)). set (s := ea - eb - e').
  assert (e' ≤ 0 ∧ 0 ≤ s) as [He' Hs] by (unfold e', s, fexp, emin; lia).
  assert (match s with Z0 => Z.pos ma | Z.pos _ => Z.shiftl (Z.pos ma) s | Z.neg _ => 0 end
    = Z.pos ma * 2 ^ s) as ->.
  { destruct s; [lia|by rewrite Z.shiftl_mul_pow2|lia]. }
  pose proof (Z_div_mod (Z.pos ma * 2 ^ s) (Z.pos mb) ltac:(lia)) as Hdm.
  destruct (Z.div_eucl _ _) as [q r]. destruct Hdm as [Hdm Hr].
  pose proof (Z.pow_pos_nonneg 2 s ltac:(lia) ltac:(lia)).
  pose proof (Z.pow_pos_nonneg 2 (- e') ltac:(lia) ltac:(lia)).
  assert (0 ≤ q) as Hq by nia.
  assert (q < 2 ^ (- e')) as Hlt.
  { enough (Z.pos ma * 2 ^ s < Z.pos mb * 2 ^ (- e')) by nia.
    rewrite Hma, Hmb, <-!Z.mul_assoc, <-!Z.pow_add_r by lia.
    replace (52 - Z.log2 a + s) with (52 - Z.log2 b + - e') by lia.
    apply Z.mul_lt_mono_pos_r; [apply Z.pow_pos_nonneg; lia|lia]. }
  pose proof (round_aux_small q e' (new_location (Z.pos mb) r) Hq He' ltac:(lia)) as Hsm.
  destruct (binary_round_aux _ _ _ _ _ _) as [| | |[] m3 e3]; cbn in *; try done.
  split; [tauto|]. intros _. by apply Hsm.
Qed.

Lemma f64_one : f64_of_u64 1 = S754_finite false 4503599627370496 (-52).
Proof. by vm_compute. Qed.

(** One minus a number between zero and one is a finite non-negative number. *)
Lemma f64_one_minus x : f64_small True x →
  f64_nonneg (f64_sub (f64_of_u64 1) x) ∧ ∀ s, f64_sub (f64_of_u64 1) x ≠ S754_infinity s.
Proof.
  rewrite f64_one. destruct x as [| | |[] m e]; try done. intros [He Hm]. specialize (Hm I).
  unfold f64_sub, SFsub. cbn [cond_Zopp]. set (ez := Z.min (-52) e).
  destruct (shl_align_val 4503599627370496 (-52) ez) as [-> _].
  destruct (shl_align_val m e ez) as [-> _].
  rewrite (Z.max_r 0 (-52 - ez)), (Z.max_r 0 (e - ez)) by lia. change 4503599627370496 with (2 ^ 52).
  rewrite <-Z.pow_add_r by lia. replace (52 + (-52 - ez)) with (- ez) by lia.
  pose proof (Z.pow_pos_nonneg 2 (e - ez) ltac:(lia) ltac:(lia)).
  assert (2 ^ (- ez) = 2 ^ (- e) * 2 ^ (e - ez)) as Hz.
  { rewrite <-Z.pow_add_r by lia. f_equal. lia. }
  set (d := 2 ^ (- ez) - Z.pos m * 2 ^ (e - ez)). assert (0 ≤ d ≤ 2 ^ (- ez)) as Hd by (unfold d; rewrite Hz; nia).
  split; [apply normalize_nonneg; lia|]. intros s. clearbody d.
  destruct d as [|p|p]; [done| |lia]. cbn -[shl_align binary_round_aux]. unfold binary_round.
  destruct (shl_align_val p ez (fexp 53 1024 (Z.pos (digits2_pos p) + ez))) as [Hv Hev].
  destruct (shl_align _ _ _) as [mz e2]. cbn [fst snd] in *.
  assert (e2 ≤ 0) by lia.
  assert (Z.pos mz ≤ 2 ^ (- e2)) as Hle.
  { rewrite Hv, Hev. set (f := fexp _ _ _). destruct (decide (ez ≤ f)).
    - rewrite Z.max_l, Z.min_l by lia. lia.
    - rewrite Z.max_r, Z.min_r by lia. replace (- f) with (- ez + (ez - f)) by lia.
      rewrite Z.pow_add_r by lia. apply Z.mul_le_mono_nonneg_r; [|lia].
      apply Z.pow_nonneg. lia. }
  pose proof (round_aux_small (Z.pos mz) e2 loc_Exact ltac:(lia) ltac:(lia) Hle) as Hsm.
  by destruct (binary_round_aux _ _ _ _ _ _) as [| | |[] ? ?].
Qed.

Lemma f64_of_u64_nonneg n : 0 ≤ n → f64_nonneg (f64_of_u64 n).
Proof. apply normalize_nonneg. Qed.

Lemma f64_of_u64_finite n : 0 ≤ n < 2 ^ 64 → ∀ s, f64_of_u64 n ≠ S754_infinity s.
Proof.
  intros Hn s. destruct n as [|p|p]; [done| |lia]. unfold f64_of_u64.
  cbn -[shl_align binary_round_aux]. unfold binary_round.
  assert (0 ≤ Z.log2 (Z.pos p) ≤ 63) as Hlog.
  { split; [apply Z.log2_nonneg|]. apply Z.lt_succ_r, Z.log2_lt_pow2; lia. }
  rewrite digits2_log2. set (f := fexp 53 1024 _).
  assert (f ≤ 11 ∧ f = Z.log2 (Z.pos p) - 52) as [Hf Hfe] by (unfold f, fexp, emin; lia).
  destruct (shl_align_val p 0 f) as [Hv He]. destruct (shl_align p 0 f) as [mz ez].
  cbn [fst snd] in *.
  assert (Z.pos mz ≤ 2 ^ 64) as Hmz.
  { rewrite Hv. destruct (decide (0 ≤ f)); [rewrite Z.max_l by lia; lia|].
    rewrite Z.max_r by lia. destruct (Z.log2_spec (Z.pos p) ltac:(lia)) as [_ Hlt].
    apply Z.le_trans with (2 ^ Z.succ (Z.log2 (Z.pos p)) * 2 ^ (0 - f)).
    - apply Z.mul_le_mono_nonneg_r; [apply Z.pow_nonneg; lia|lia].
    - rewrite <-Z.pow_add_r by lia. apply Z.pow_le_mono_r; lia. }
  unfold binary_round_aux.
  destruct (shr_fexp_spec (Z.pos mz) ez loc_Exact ltac:(lia)) as [Hm1 He1].
  destruct (shr_fexp 53 1024 (Z.pos mz) ez loc_Exact) as [mrs1 e1]. cbn [fst snd] in Hm1, He1.
  assert (∀ m, 0 ≤ m ≤ 2 ^ 64 + 1 → Zdigits2 m ≤ 66) as Hdig.
  { intros [|q|q] Hq; cbn [Zdigits2]; [lia| |lia]. rewrite digits2_log2.
    enough (Z.log2 (Z.pos q) ≤ 65) by lia. apply log2_lt_bound; lia. }
  pose proof (Hdig (Z.pos mz) ltac:(lia)) as Hd1. unfold fexp, emin in He1.
  assert (0 ≤ shr_m mrs1 ≤ Z.pos mz) as Hb1.
  { rewrite Hm1. set (k := Z.max 0 _).
    pose proof (Z.pow_pos_nonneg 2 k ltac:(lia) ltac:(lia)).
    split; [by apply Z.div_pos|]. apply Z.div_le_upper_bound; [done|]. nia. }
  pose proof (round_nearest_even_ge (shr_m mrs1) (loc_of_shr_record mrs1)) as Hr.
  set (m2 := round_nearest_even _ _) in *.
  pose proof (Hdig m2 ltac:(lia)) as Hd2.
  destruct (shr_fexp_spec m2 e1 loc_Exact ltac:(lia)) as [_ He3].
  destruct (shr_fexp 53 1024 m2 e1 loc_Exact) as [mrs3 e3]. cbn [fst snd] in He3.
  unfold fexp, emin in He3. destruct (shr_m mrs3); [done| |done].
  destruct (Z.leb_spec e3 (1024 - 53)); [done|]. lia.
Qed.
