(* ===== verification/RateLimit.v ===== *)
(** * Sliding-window rate limiting
      (src/gateway/crates/gateway/src/policy/rate_limit.rs, headers.rs)

    The pure window arithmetic, the Lua script as one atomic Redis step, the two-level
    evaluation with its rollback, and the response headers. *)

From Stdlib Require Import SpecFloat.
From stdpp Require Import options.
From S2P Require Import Prelude Rust Types Errors Json Models PolicyChecks PolicyMerge Backends.
From S2P Require Import Db World Float64.
#[local] Set Default Proof Using "Type*".

Record WindowCheckResult : Type := mkWindowCheckResult {
  wc_allowed : bool;
  wc_limit : Z;
  wc_remaining : Z;
  wc_reset_at : Z
}.
Record RateLimitOutcome : Type := mkRateLimitOutcome {
  ro_limit : Z;
  ro_remaining : Z;
  ro_reset_at : Z
}.

(** ** Pure calculation *)

Definition weighted_count (current_count previous_count elapsed_secs window_secs : Z) : f64 :=
  if window_secs =? 0 then f64_of_u64 current_count else
  let overlap := f64_sub (f64_of_u64 1)
                   (f64_div (f64_of_u64 elapsed_secs) (f64_of_u64 window_secs)) in
  f64_add (f64_mul (f64_of_u64 previous_count) overlap) (f64_of_u64 current_count).

Definition build_check_result (current_count previous_count now_secs window_secs limit : Z)
    : WindowCheckResult :=
  let elapsed := now_secs mod window_secs in
  let count :=
    f64_ceil_as_u32 (weighted_count current_count previous_count elapsed window_secs) in
  let remaining := saturating_sub limit count in
  let current_window := now_secs / window_secs in
  let reset_at := as_u64 ((current_window + 1) * window_secs) in
  mkWindowCheckResult (count <=? limit) limit remaining reset_at.

(** Pick the most restrictive outcome for response headers. *)
Definition most_restrictive (current : RateLimitOutcome) (check : WindowCheckResult)
    : RateLimitOutcome :=
  if wc_remaining check <? ro_remaining current
  then mkRateLimitOutcome (wc_limit check) (wc_remaining check) (wc_reset_at check)
  else current.

(** [RateLimitConfig] as far as the evaluator keeps it. *)
Record RateLimitEvaluator : Type := mkRateLimitEvaluator {
  window_secs : Z;
  global_rpm : Z
}.

Section limiter.
Context `{!Backends, !UuidLib}.

(** [LUA_SLIDING_WINDOW]: one atomic step of the server. [INCR] fails on a value that is
    not an integer; the reply holds what the script returns, [None] for a previous
    counter that is not a number. *)
Definition lua_sliding_window (current_key prev_key : string) (ttl : Z) (t : Z) (st : Redis)
    : option (Z * option Z) * Redis :=
  match cmd_incrby t current_key 1 st with
  | (None, st1) => (None, st1)
  | (Some current, st1) =>
    let st2 := cmd_expire t current_key ttl st1 in
    let previous := lua_tonumber (default "0" (cmd_get t prev_key st2)) in
    (Some (current, previous), st2)
  end.

(** Conversion of the reply to [(u64, u64)]. *)
Definition u64_pair (reply : option (Z * option Z)) : result StorageError (Z * Z) :=
  match reply with
  | None => Err (SRedis "value is not an integer or out of range")
  | Some (current, Some previous) =>
    if (0 <=? current) && (current <=? U64_MAX) && (0 <=? previous) && (previous <=? U64_MAX)
    then Ok (current, previous)
    else Err (SRedis "response was of incompatible type")
  | Some (_, None) => Err (SRedis "response was of incompatible type")
  end.

Definition now_unix_secs : IO World StorageError Z := λ w,
  if 0 <=? clock w then (Ok (clock w / 1000), w)
  else (Err (SInternal "system clock before UNIX epoch"), w).

Definition window_key (key_prefix : string) (window : Z) : string :=
  key_prefix +:+ ":" +:+ pretty window.

Definition check_and_increment (window_secs : Z) (key_prefix : string) (limit : Z)
    : IO World StorageError WindowCheckResult :=
  now_secs ← now_unix_secs;
  let current_window := now_secs / window_secs in
  let prev_window := saturating_sub current_window 1 in
  let current_key := window_key key_prefix current_window in
  let prev_key := window_key key_prefix prev_window in
  let ttl := as_u64 (window_secs * 2) in
  reply ← redis_call (lua_sliding_window current_key prev_key ttl);
  counts ← lift (u64_pair reply);
  mret (build_check_result counts.1 counts.2 now_secs window_secs limit).

(** The part of a check after it read the clock: between the two, others run. *)
Definition window_script (window_secs : Z) (key_prefix : string) (limit now_secs : Z)
    : IO World StorageError WindowCheckResult :=
  let current_window := now_secs / window_secs in
  reply ← redis_call (lua_sliding_window (window_key key_prefix current_window)
            (window_key key_prefix (saturating_sub current_window 1)) (as_u64 (window_secs * 2)));
  counts ← lift (u64_pair reply);
  mret (build_check_result counts.1 counts.2 now_secs window_secs limit).

Definition sa_prefix (sa_id : ServiceAccountId) : string := "rl:sa:" +:+ id_display sa_id.

(** Best-effort [DECR]: failures are swallowed. *)
Definition rollback_sa_counter (ev : RateLimitEvaluator) (sa_id : ServiceAccountId)
    : IO World GatewayError unit :=
  now ← io_try now_unix_secs;
  match now with
  | Err _ => mret tt
  | Ok now_secs =>
    let sa_key := window_key (sa_prefix sa_id) (now_secs / window_secs ev) in
    _ ← io_try (redis_call (λ t, cmd_incrby t sa_key (-1)));
    mret tt
  end.

Definition limiter_unavailable (_ : StorageError) : GatewayError :=
  EConfig "rate_limiter_unavailable" "rate limiter temporarily unavailable".

(** The 429 of an exceeded level: the time to the reset, from a second clock reading. *)
Definition reject {A} (message : string) (result : WindowCheckResult)
    : IO World GatewayError A :=
  now ← io_try now_unix_secs;
  let now := match now with Ok n => n | Err _ => wc_reset_at result end in
  let retry_after := saturating_sub (wc_reset_at result) now in
  lift (Err (ERateLimit "rate_limit_exceeded" message (Some retry_after))).

Definition evaluate_limits (ev : RateLimitEvaluator) (sa_id : ServiceAccountId)
    (evaluated : EvaluatedPolicy) : IO World GatewayError RateLimitOutcome :=
  sa_result ← match rpm_limit evaluated with
    | Some sa_rpm =>
      result ← io_map_err limiter_unavailable
        (check_and_increment (window_secs ev) (sa_prefix sa_id) sa_rpm);
      if negb (wc_allowed result)
      then reject "service account rate limit exceeded" result
      else mret (Some result)
    | None => mret None
    end;
  global ← io_map_err limiter_unavailable
    (check_and_increment (window_secs ev) "rl:global" (global_rpm ev));
  if negb (wc_allowed global)
  then
    _ ← (if bool_decide (is_Some (rpm_limit evaluated))
         then rollback_sa_counter ev sa_id else mret tt);
    reject "global rate limit exceeded" global
  else
    let outcome :=
      mkRateLimitOutcome (wc_limit global) (wc_remaining global) (wc_reset_at global) in
    mret (match sa_result with Some sa => most_restrictive outcome sa | None => outcome end).
End limiter.

(** ** Response headers *)

(** [HeaderValue::from_str(..).expect(..)]: [None] is the panic. *)
Definition header_from_u64 (n : Z) : option string :=
  if header_value_ok (pretty n) then Some (pretty n) else None.

Definition inject_rate_limit_headers (response : Response) (outcome : RateLimitOutcome)
    : option Response :=
  limit ← header_from_u64 (ro_limit outcome);
  let response := insert_header "x-ratelimit-limit" limit response in
  remaining ← header_from_u64 (ro_remaining outcome);
  let response := insert_header "x-ratelimit-remaining" remaining response in
  reset ← header_from_u64 (ro_reset_at outcome);
  Some (insert_header "x-ratelimit-reset" reset response).

(** ** The window arithmetic *)

(** The weighted count never falls below the count of the current window. *)
Lemma weighted_count_ge current previous elapsed window :
  0 ≤ current < 2 ^ 53 → in_u64 previous → 0 ≤ elapsed < window → window < 2 ^ 53 →
  f64_ge (weighted_count current previous elapsed window) current.
Proof.
  unfold in_u64. intros Hc Hp He Hw. unfold weighted_count.
  destruct (Z.eqb_spec window 0) as [->|_]; [lia|].
  destruct (f64_one_minus (f64_div (f64_of_u64 elapsed) (f64_of_u64 window))) as [Hnn Hfin].
  { by apply f64_div_small. }
  apply f64_add_ge; [|done]. apply f64_mul_nonneg; [apply f64_of_u64_nonneg; lia|done| |done].
  apply f64_of_u64_finite. unfold U64_MAX in Hp. lia.
Qed.

Lemma build_check_result_allowed current previous now window limit :
  0 ≤ current < 2 ^ 53 → in_u64 previous → 0 < window < 2 ^ 53 → limit < U32_MAX →
  wc_allowed (build_check_result current previous now window limit) = true →
  current ≤ limit.
Proof.
  intros Hc Hp Hw Hl. cbn. intros Hle%Z.leb_le.
  pose proof (Z.mod_pos_bound now window ltac:(lia)) as Hmod.
  pose proof (weighted_count_ge current previous (now mod window) window Hc Hp Hmod ltac:(lia))
    as Hge.
  apply f64_ceil_ge in Hge; [|lia]. lia.
Qed.

(** ** The script's effect on the stored counters *)

Section effect.
Context `{!Backends, !BackendsLaws}.
Implicit Types (w : World) (st : Redis).

Lemma lua_sliding_window_frame ck pk ttl t st k :
  0 < ttl → k ≠ ck → peek t (lua_sliding_window ck pk ttl t st).2 k = peek t st k.
Proof.
  intros Httl Hk. unfold lua_sliding_window.
  pose proof (peek_incrby t ck 1 st k) as Hi. rewrite decide_False in Hi by done.
  destruct (cmd_incrby t ck 1 st) as [[c|] st1]; cbn in *; [|done].
  by rewrite peek_expire, decide_False by done.
Qed.

Lemma lua_sliding_window_current ck pk ttl t st :
  0 < ttl →
  match incr_entry 1 (peek t st ck) with
  | Some (n, _) =>
    peek t (lua_sliding_window ck pk ttl t st).2 ck = Some (pretty n, Some (t + ttl * 1000)) ∧
    ∃ prev, (lua_sliding_window ck pk ttl t st).1 = Some (n, prev)
  | None =>
    peek t (lua_sliding_window ck pk ttl t st).2 ck = peek t st ck ∧
    (lua_sliding_window ck pk ttl t st).1 = None
  end.
Proof.
  intros Httl. unfold lua_sliding_window.
  pose proof (peek_incrby t ck 1 st ck) as Hi. rewrite decide_True in Hi by done.
  pose proof (incrby_result t ck 1 st) as Hr.
  destruct (cmd_incrby t ck 1 st) as [r st1]. cbn in *. subst r.
  destruct (incr_entry 1 (peek t st ck)) as [[n e]|] eqn:He; cbn; [|done].
  rewrite peek_expire, decide_True, Hi by done. cbn.
  assert (e.1 = pretty n) as ->; [|eauto].
  unfold incr_entry in He. destruct (peek t st ck) as [[v d]|].
  - destruct (parse_i64 v); [|done]. destruct (_ && _); [|done]. by injection He as <- <-.
  - by injection He as <- <-.
Qed.
End effect.

(** ** At most [limit] admissions per window *)

(** A caller that checks [k] times in a row; each result with the window it was for. *)
Fixpoint run_checks `{!Backends} (window_secs : Z) (key_prefix : string) (limit : Z) (k : nat)
    (w : World) : list (Z * result StorageError WindowCheckResult) * World :=
  match k with
  | O => ([], w)
  | S k =>
    let window := clock w / 1000 / window_secs in
    let '(r, w1) := check_and_increment window_secs key_prefix limit w in
    let '(rs, w2) := run_checks window_secs key_prefix limit k w1 in
    ((window, r) :: rs, w2)
  end.

(** Requests allowed in window [W]. *)
Definition allowed_in (W : Z) (p : Z * result StorageError WindowCheckResult) : Z :=
  match p.2 with
  | Ok r => if (p.1 =? W) && wc_allowed r then 1 else 0
  | Err _ => 0
  end.
Fixpoint granted (W : Z) (rs : list (Z * result StorageError WindowCheckResult)) : Z :=
  match rs with
  | [] => 0
  | p :: rs => allowed_in W p + granted W rs
  end.

Section bound.
Context `{!Backends, !BackendsLaws}.
Context (win : Z) (prefix : string) (W : Z) (Hwin : 0 < win < 2 ^ 53).
Implicit Types (w : World).

Abbreviation key := (window_key prefix W).
Abbreviation limit_end := ((W + 2) * win * 1000).

Lemma window_key_inj V : window_key prefix V = key → V = W.
Proof.
  unfold window_key. intros H1%str_app_inj_l. apply str_app_inj_l in H1.
  by apply (inj pretty).
Qed.

Lemma not_over t : t / 1000 / win ≤ W → t < (W + 1) * win * 1000.
Proof.
  intros Ht. pose proof (Z.mod_pos_bound (t / 1000) win ltac:(lia)).
  pose proof (Z.div_mod (t / 1000) win ltac:(lia)).
  pose proof (Z.mod_pos_bound t 1000 ltac:(lia)). pose proof (Z.div_mod t 1000 ltac:(lia)).
  nia.
Qed.

Lemma window_start t : t / 1000 / win = W → W * win * 1000 ≤ t.
Proof.
  intros Ht. pose proof (Z.mod_pos_bound (t / 1000) win ltac:(lia)).
  pose proof (Z.div_mod (t / 1000) win ltac:(lia)).
  pose proof (Z.mod_pos_bound t 1000 ltac:(lia)). pose proof (Z.div_mod t 1000 ltac:(lia)).
  nia.
Qed.

(** The counter seen at time [t], before the window's entries expire: at least [a], which
    is below zero when more was taken back than granted. *)
Definition counter_at (a fuel t : Z) (st : Redis) : Prop :=
  (a ≤ 0 ∧ peek t st key = None) ∨
  ∃ n d, peek t st key = Some (pretty n, d) ∧
    a ≤ n ∧ Z.abs n + fuel < 2 ^ 53 ∧
    (a ≤ 0 ∨ match d with Some d => limit_end ≤ d | None => False end).

Lemma counter_at_later a fuel t t' st :
  t ≤ t' < limit_end → counter_at a fuel t st → counter_at a fuel t' st.
Proof.
  intros Ht [[Ha Hp]|(n & d & Hp & Hn)]; unfold counter_at; rewrite (peek_later t t') by lia;
    rewrite Hp; cbn; [by left|].
  destruct d as [d|]; unfold live; cbn; [|by right; eauto].
  destruct (Z.ltb_spec t' d); [by right; eauto 10|]. left. split; [|done].
  destruct Hn as (_ & _ & [?|?]); lia.
Qed.

(** What one call of the script does to the counter of window [W]. *)
Lemma counter_at_script a fuel t st V pk ttl :
  ttl = win * 2 → W * win * 1000 ≤ t → 0 ≤ fuel < 2 ^ 52 →
  counter_at a (fuel + 1) t st →
  let '(reply, st') := lua_sliding_window (window_key prefix V) pk ttl t st in
  if V =? W then
    ∃ n prev, reply = Some (n, prev) ∧ a + 1 ≤ n ∧
      peek t st' key = Some (pretty n, Some (t + ttl * 1000)) ∧ Z.abs n + fuel < 2 ^ 53
  else counter_at a (fuel + 1) t st'.
Proof.
  intros -> Ht Hfuel Hc. destruct (Z.eqb_spec V W) as [->|Hne].
  - pose proof (lua_sliding_window_current key pk (win * 2) t st ltac:(lia)) as Hs.
    destruct (lua_sliding_window key pk (win * 2) t st) as [reply st']. cbn [fst snd] in Hs.
    destruct Hc as [[Ha Hp]|(n & d & Hp & Han & Hb & _)]; rewrite Hp in Hs; cbn in Hs.
    + destruct Hs as [Hs [prev ->]]. exists 1, prev. split_and!; try done; lia.
    + rewrite parse_i64_pretty in Hs by (unfold in_i64, I64_MIN, I64_MAX; lia).
      destruct ((I64_MIN <=? n + 1) && (n + 1 <=? I64_MAX)) eqn:Hr;
        [|unfold I64_MIN, I64_MAX in Hr; lia].
      destruct Hs as [Hs [prev ->]]. exists (n + 1), prev. split_and!; try done; lia.
  - pose proof (lua_sliding_window_frame (window_key prefix V) pk (win * 2) t st key
      ltac:(lia)) as Hf.
    destruct (lua_sliding_window _ _ _ _ _) as [reply st']. cbn [snd] in Hf.
    unfold counter_at in *. rewrite Hf; [done|].
    intros Heq. by apply Hne, window_key_inj.
Qed.

#[local] Set Default Proof Using "All".

(** Round trips take at most one window. *)
Definition prompt w : Prop :=
  Forall (λ s, Z.of_N (elapsed_ms s) ≤ win * 1000) (script w).

Lemma prompt_tick w : prompt w →
  prompt (tick w).2 ∧ clock w ≤ clock (tick w).2 ≤ clock w + win * 1000 ∧
  redis (tick w).2 = redis w.
Proof.
  unfold prompt, tick. destruct (script w) as [|s rest] eqn:Hs; cbn.
  - rewrite Hs. intros _. split; [done|]. split; [lia|done].
  - intros [Hs1 Hr]%Forall_cons. split; [done|]. split; [lia|done].
Qed.

(** A whole check is a clock reading and, in time, the script. *)
Lemma check_split limit w r w' :
  prompt w → 0 ≤ clock w → check_and_increment win prefix limit w = (r, w') →
  window_script win prefix limit (clock w / 1000) w = (r, w') ∧
  prompt w' ∧ clock w ≤ clock w' ≤ clock w + win * 1000.
Proof.
  intros Hp Hclk Hrun.
  assert (window_script win prefix limit (clock w / 1000) w = (r, w')) as Hscr.
  { revert Hrun. unfold check_and_increment, now_unix_secs, mbind at 1, io_bind at 1.
    by destruct (Z.leb_spec 0 (clock w)); [|lia]. }
  split; [done|]. destruct (prompt_tick w Hp) as (Hp1 & Hc1 & _).
  revert Hscr. unfold window_script, mbind, io_bind, redis_call, lift.
  destruct (tick w) as [flt w1]. destruct (lua_sliding_window _ _ _ _ _) as [reply st'].
  destruct flt as [[]|]; [by intros [= _ <-]..|]. destruct (u64_pair reply); by intros [= _ <-].
Qed.

Context (limit : Z) (Hlimit : 0 ≤ limit < U32_MAX).

(** [a] requests allowed so far: until its entries expire, the stored counter of window
    [W] is at least [a]. *)
Definition counter_inv (a fuel : Z) w : Prop :=
  0 ≤ clock w ∧ a ≤ limit ∧
  (clock w < limit_end → counter_at a fuel (clock w) (redis w)).

Lemma counter_at_weaken a fuel t st : counter_at a (fuel + 1) t st → counter_at a fuel t st.
Proof.
  intros [?|(n & d & ? & ? & ? & ?)]; [by left|]. right. exists n, d.
  split_and!; try done. lia.
Qed.

(** Time passes and other keys change. *)
Lemma counter_inv_frame a fuel w w' :
  counter_inv a fuel w → clock w ≤ clock w' →
  peek (clock w') (redis w') key = peek (clock w') (redis w) key → counter_inv a fuel w'.
Proof.
  intros (Hc & Ha & Hw) Ht Hp. split_and!; [lia|done|]. intros Hle.
  assert (counter_at a fuel (clock w') (redis w)) as Hat.
  { apply (counter_at_later _ _ (clock w)); [lia|]. apply Hw. lia. }
  unfold counter_at in *. by rewrite Hp.
Qed.
Lemma counter_inv_weaken a fuel w : counter_inv a (fuel + 1) w → counter_inv a fuel w.
Proof. intros (? & ? & Hat). split_and!; try done. intros Hle. by apply counter_at_weaken, Hat. Qed.

(** The invariant after the script of a check that read the clock at [t0] ran at [t]. *)
Lemma counter_inv_script a fuel w t0 t V pk :
  0 ≤ fuel < 2 ^ 52 → V = t0 / 1000 / win → t0 ≤ clock w ≤ t → t ≤ t0 + win * 1000 →
  counter_inv a (fuel + 1) w →
  let '(reply, st') := lua_sliding_window (window_key prefix V) pk (win * 2) t (redis w) in
  if V =? W then
    ∃ n prev, reply = Some (n, prev) ∧ a + 1 ≤ n < 2 ^ 53 ∧
      ∀ b, b ≤ n → counter_at b fuel t st'
  else (t < limit_end → counter_at a fuel t st').
Proof.
  intros Hfuel HV Ht Ht0 (_ & _ & Hat). destruct (Z.eqb_spec V W) as [HVW|Hne].
  - assert (t0 / 1000 / win = W) as HclkW by congruence.
    pose proof (window_start _ HclkW). pose proof (not_over t0 ltac:(lia)).
    assert (counter_at a (fuel + 1) t (redis w)) as Hat'.
    { apply (counter_at_later _ _ (clock w)); [nia|]. apply Hat. nia. }
    pose proof (counter_at_script a fuel t (redis w) V pk (win * 2) eq_refl ltac:(lia) Hfuel
      Hat') as Hs.
    destruct (lua_sliding_window _ _ _ _ _) as [reply st'].
    rewrite (proj2 (Z.eqb_eq V W) HVW) in Hs.
    destruct Hs as (n & prev & -> & Hn & Hp & Hf).
    exists n, prev. split_and!; try done; [lia..|]. intros b Hbn. right.
    exists n, (Some (t + win * 2 * 1000)). split_and!; try done; [lia..|]. right. nia.
  - pose proof (lua_sliding_window_frame (window_key prefix V) pk (win * 2) t (redis w) key
      ltac:(lia)) as Hfr.
    destruct (lua_sliding_window _ _ _ _ _) as [reply st']. cbn [snd] in Hfr. intros Hle.
    assert (counter_at a (fuel + 1) t (redis w)) as Hat'.
    { apply (counter_at_later _ _ (clock w)); [lia|]. apply Hat. lia. }
    apply counter_at_weaken. unfold counter_at in *.
    rewrite Hfr; [done|]. intros Heq. by apply Hne, window_key_inj.
Qed.

Lemma u64_pair_ok n prev c p : u64_pair (Some (n, prev)) = Ok (c, p) →
  c = n ∧ 0 ≤ n ∧ in_u64 p.
Proof.
  unfold u64_pair, in_u64. destruct prev as [q|]; [|done].
  destruct (_ && _) eqn:Hb; [|done]. intros [= <- <-]. split_and!; [done|lia..].
Qed.

(** The script of a check, with a limit no larger, preserves the invariant, counting the
    request if it is allowed. *)
Lemma script_step l a fuel w t0 r w' :
  l ≤ limit → 0 ≤ fuel < 2 ^ 52 → win ≤ U32_MAX → t0 ≤ clock w → counter_inv a (fuel + 1) w →
  window_script win prefix l (t0 / 1000) w = (r, w') → clock w' ≤ t0 + win * 1000 →
  clock w ≤ clock w' ∧
  counter_inv (a + allowed_in W (t0 / 1000 / win, r)) fuel w'.
Proof.
  intros Hl Hfuel Hw32 Ht0 Hinv. pose proof Hinv as (Hclk & Ha & _).
  unfold window_script, mbind, io_bind, redis_call.
  pose proof (tick_clock w) as Hc1. pose proof (tick_frame redis w ltac:(done)) as Hr1.
  destruct (tick w) as [flt w1]. cbn [fst snd] in *. rewrite Hr1.
  set (V := t0 / 1000 / win) in *.
  assert (as_u64 (win * 2) = win * 2) as ->
    by (unfold as_u64, U32_MAX in *; apply Z.mod_small; lia).
  pose proof (counter_inv_script a fuel w t0 (clock w1) V
    (window_key prefix (saturating_sub V 1)) Hfuel eq_refl (conj Ht0 Hc1)) as Hs.
  destruct (lua_sliding_window _ _ _ _ _) as [reply st'].
  destruct flt as [[msg|msg]|].
  - intros [= <- <-] _. split_and!; [done..|]. cbn [allowed_in snd]. rewrite Z.add_0_r.
    apply counter_inv_weaken. apply (counter_inv_frame _ _ w); [done|done|by rewrite Hr1].
  - intros [= <- <-] Hle. specialize (Hs Hle Hinv). split_and!; [done..|].
    cbn [allowed_in snd]. rewrite Z.add_0_r.
    split_and!; [cbn; lia|done|]. cbn [set_redis clock redis]. destruct (V =? W); [|done].
    destruct Hs as (n & prev & _ & Hn & Hat). intros _. apply Hat. lia.
  - assert (∀ r0 w0, (match u64_pair reply with
       | Ok c => (Ok (build_check_result c.1 c.2 (t0 / 1000) win l), set_redis st' w1)
       | Err e => (Err e, set_redis st' w1) end) = (r0, w0) → clock w0 ≤ t0 + win * 1000 →
       clock w ≤ clock w0 ∧
       counter_inv (a + allowed_in W (V, r0)) fuel w0) as Hgoal.
    { intros r0 w0 Hr0.
      assert (w0 = set_redis st' w1) as -> by (destruct (u64_pair reply); congruence).
      cbn [set_redis clock script]. intros Hle. specialize (Hs Hle Hinv).
      split_and!; [done..|]. unfold counter_inv. cbn [set_redis clock redis].
      split; [lia|]. unfold allowed_in. cbn [fst snd].
      destruct (Z.eqb_spec V W) as [HVW|Hne].
      - destruct Hs as (n & prev & -> & Hn & Hat).
        destruct r0 as [res|e]; cbn [andb]; [destruct (wc_allowed res) eqn:Hal|].
        + destruct (u64_pair (Some (n, prev))) as [[c p]|] eqn:Hpair; [|done].
          injection Hr0 as <-. apply u64_pair_ok in Hpair as (-> & Hn0 & Hpu). cbn [fst snd] in *.
          apply build_check_result_allowed in Hal; [|lia|done..|lia].
          split; [lia|]. intros _. apply Hat. lia.
        + rewrite Z.add_0_r. split; [done|]. intros _. apply Hat. lia.
        + rewrite Z.add_0_r. split; [done|]. intros _. apply Hat. lia.
      - destruct r0; cbn [andb]; rewrite Z.add_0_r; by split. }
    intros Heq. apply Hgoal. rewrite <-Heq. unfold lift. by destruct (u64_pair reply).
Qed.

(** The invariant over a whole check whose round trip is prompt. *)
Lemma check_step a fuel w r w' :
  0 ≤ fuel < 2 ^ 52 → win ≤ U32_MAX → prompt w → counter_inv a (fuel + 1) w →
  check_and_increment win prefix limit w = (r, w') →
  prompt w' ∧ counter_inv (a + allowed_in W (clock w / 1000 / win, r)) fuel w'.
Proof.
  intros Hfuel Hw32 Hp Hinv Hrun. pose proof Hinv as (Hclk & _ & _).
  destruct (check_split limit w r w' Hp Hclk Hrun) as (Hscr & Hp' & Hc & Hc').
  split; [done|]. by destruct (script_step limit a fuel w (clock w) r w') as (_ & Hinv'); [..|done].
Qed.

Lemma run_checks_inv k a w rs w' :
  Z.of_nat k < 2 ^ 52 → win ≤ U32_MAX → prompt w → counter_inv a (Z.of_nat k) w →
  run_checks win prefix limit k w = (rs, w') → a + granted W rs ≤ limit.
Proof.
  intros Hk Hw32. revert Hk a w rs.
  induction k as [|k IH]; intros Hk a w rs Hp Hinv; cbn [run_checks].
  - intros [= <- <-]. cbn. destruct Hinv as (_ & ? & _). lia.
  - destruct (check_and_increment win prefix limit w) as [r w1] eqn:Hc.
    destruct (run_checks win prefix limit k w1) as [rs1 w2] eqn:Hrun.
    intros [= <- ->]. cbn [granted].
    rewrite Nat2Z.inj_succ in Hinv. unfold Z.succ in Hinv.
    destruct (check_step a (Z.of_nat k) w r w1 ltac:(lia) Hw32 Hp Hinv Hc) as [Hp1 Hinv1].
    specialize (IH ltac:(lia) _ _ _ Hp1 Hinv1 Hrun). lia.
Qed.
End bound.

(** ** Exactness without a previous window *)

Lemma weighted_count_fresh current elapsed window :
  0 ≤ current < 2 ^ 53 → 0 ≤ elapsed < window → window < 2 ^ 53 →
  f64_ceil_as_u32 (weighted_count current 0 elapsed window) = Z.min U32_MAX current.
Proof.
  intros Hc He Hw. unfold weighted_count. destruct (Z.eqb_spec window 0) as [->|_]; [lia|].
  destruct (f64_one_minus (f64_div (f64_of_u64 elapsed) (f64_of_u64 window))) as [Hnn Hfin].
  { by apply f64_div_small. }
  set (ov := f64_sub _ _) in *.
  assert (f64_mul (f64_of_u64 0) ov = S754_zero false ∨ f64_mul (f64_of_u64 0) ov = S754_zero true)
    as Hmul.
  { destruct ov as [[]|s| |[] m e]; try done; auto. by specialize (Hfin s). }
  destruct (decide (current = 0)) as [->|Hc0].
  { destruct Hmul as [-> | ->]; done. }
  destruct (f64_of_u64_exact current ltac:(lia)) as (m & Hof & Hm). rewrite Hof.
  assert (f64_add (f64_mul (f64_of_u64 0) ov) (S754_finite false m (Z.log2 current - 52))
    = S754_finite false m (Z.log2 current - 52)) as -> by (destruct Hmul as [-> | ->]; done).
  cbn -[Z.log2 U32_MAX]. f_equal.
  pose proof (Z.log2_nonneg current). assert (Z.log2 current < 53) by (apply Z.log2_lt_pow2; lia).
  rewrite Hm. destruct (Z.leb_spec 0 (Z.log2 current - 52)).
  - replace (Z.log2 current) with 52 by lia. cbn. lia.
  - replace (- (Z.log2 current - 52)) with (52 - Z.log2 current) by lia.
    rewrite <-Z.mul_opp_l, Z.div_mul; [lia|].
    pose proof (Z.pow_pos_nonneg 2 (52 - Z.log2 current)). lia.
Qed.

(** ** Two levels *)

(** The number a counter entry stands for. *)
Definition counter_value (e : option Entry) : option Z :=
  match e with
  | None => Some 0
  | Some (v, _) => match parse_i64 v with Ok n => Some n | Err _ => None end
  end.

Lemma counter_value_incr d e n e' : in_i64 n →
  incr_entry d e = Some (n, e') → counter_value e = Some (n - d) ∧ e'.1 = pretty n.
Proof.
  intros Hn. unfold incr_entry, counter_value. destruct e as [[v dl]|].
  - destruct (parse_i64 v) as [m|]; [|done]. destruct (_ && _); [|done].
    intros [= <- <-]. split; [f_equal; lia|done].
  - intros [= <- <-]. split; [f_equal; lia|done].
Qed.

Lemma global_sa_keys_differ `{!UuidLib} sa V V' :
  window_key (sa_prefix sa) V ≠ window_key "rl:global" V'.
Proof.
  unfold window_key, sa_prefix. intros Heq. rewrite <-str_app_assoc in Heq.
  by injection Heq.
Qed.

Section levels.
Context `{!Backends, !BackendsLaws, !UuidLib}.
Implicit Types (w : World) (ev : RateLimitEvaluator).

(** A check touches the counter of its own window only. *)
Lemma check_frame win prefix limit w r w' k :
  0 < win ≤ U32_MAX → check_and_increment win prefix limit w = (r, w') →
  k ≠ window_key prefix (clock w / 1000 / win) →
  clock w ≤ clock w' ∧ peek (clock w') (redis w') k = peek (clock w') (redis w) k.
Proof.
  intros Hwin. unfold check_and_increment, now_unix_secs, mbind, io_bind.
  destruct (Z.leb_spec 0 (clock w)); [|intros [= <- <-]; split; [lia|done]].
  unfold redis_call. pose proof (tick_clock w) as Hc.
  pose proof (tick_frame redis w ltac:(done)) as Hr.
  destruct (tick w) as [flt w1]. cbn [fst snd] in *. rewrite Hr.
  assert (as_u64 (win * 2) = win * 2) as ->
    by (unfold as_u64, U32_MAX in *; apply Z.mod_small; lia).
  set (ck := window_key prefix _). set (pk := window_key prefix _). intros Hrun Hk.
  pose proof (lua_sliding_window_frame ck pk (win * 2) (clock w1) (redis w) k ltac:(lia) Hk)
    as Hf.
  destruct (lua_sliding_window _ _ _ _ _) as [reply st']. cbn [snd] in Hf.
  destruct flt as [[]|]; [| |unfold lift in Hrun; destruct (u64_pair reply)];
    injection Hrun as <- <-; cbn; rewrite ?Hr; by split.
Qed.

Lemma check_ok win prefix limit w r w' :
  check_and_increment win prefix limit w = (Ok r, w') →
  0 ≤ clock w ≤ clock w' ∧ ∃ current previous,
    in_u64 current ∧ in_u64 previous ∧
    r = build_check_result current previous (clock w / 1000) win limit.
Proof.
  unfold check_and_increment, now_unix_secs. intros Hrun.
  apply io_bind_ok in Hrun as (now & w1 & Hnow & Hrun).
  destruct (Z.leb_spec 0 (clock w)); [|done]. injection Hnow as <- <-.
  apply io_bind_ok in Hrun as (reply & w2 & Hcall & Hrun).
  apply redis_call_ok in Hcall as (Hc & _).
  apply io_bind_ok in Hrun as ([c p] & w3 & [Hp ->]%lift_eq & Hrun).
  injection Hrun as <- <-. split; [done|]. cbn [fst snd]. exists c, p.
  unfold u64_pair in Hp. destruct reply as [[c' [p'|]]|]; try done.
  destruct (_ && _) eqn:Hb; [|done]. injection Hp as <- <-. unfold in_u64. split_and!; try done; lia.
Qed.

Lemma most_restrictive_remaining o c :
  ro_remaining (most_restrictive o c) = Z.min (ro_remaining o) (wc_remaining c).
Proof. unfold most_restrictive. destruct (Z.ltb_spec (wc_remaining c) (ro_remaining o)); cbn; lia. Qed.

Lemma rollback_ok ev sa w : ∃ w', rollback_sa_counter ev sa w = (Ok tt, w').
Proof.
  unfold rollback_sa_counter, io_try, mbind, io_bind.
  destruct (now_unix_secs w) as [[n|e] w1]; [|by eexists].
  destruct (redis_call _ w1) as [r w2]. by eexists.
Qed.

Lemma rollback_no_err ev sa (b : bool) w e w' :
  (if b then rollback_sa_counter ev sa else mret tt) w = (Err e, w') → False.
Proof. destruct b; [|done]. destruct (rollback_ok ev sa w) as [w1 ->]. done. Qed.

Lemma reject_err {A} msg res w (x : result GatewayError A) w' :
  reject msg res w = (x, w') →
  w' = w ∧ ∃ retry, x = Err (ERateLimit "rate_limit_exceeded" msg (Some retry)) ∧
    0 ≤ retry ∧ (0 ≤ clock w → retry = Z.max 0 (wc_reset_at res - clock w / 1000)).
Proof.
  unfold reject, now_unix_secs, io_try, mbind, io_bind, lift, saturating_sub.
  destruct (Z.leb_spec 0 (clock w)); intros [= <- <-];
    (split; [done|]); eexists; (split; [done|]); split; lia.
Qed.
End levels.

(** ** Properties *)

(** C4: the limiter's promise. However a caller's checks are
    scheduled, with lost and failed calls, as long as a round trip takes no longer than
    the window, at most [limit] of the requests made in one window are allowed. *)
Theorem rate_limit_window_bound `{!Backends, !BackendsLaws} win prefix limit W k w rs w' :
  0 < win ≤ U32_MAX → 0 ≤ limit < U32_MAX → Z.of_nat k < 2 ^ 52 →
  prompt win w → 0 ≤ clock w → peek (clock w) (redis w) (window_key prefix W) = None →
  run_checks win prefix limit k w = (rs, w') → granted W rs ≤ limit.
Proof.
  intros Hwin Hlim Hk Hp Hc Hnone Hrun.
  assert (0 < win < 2 ^ 53) as Hwin' by (unfold U32_MAX in *; lia).
  rewrite <-(Z.add_0_l (granted W rs)).
  apply (run_checks_inv win prefix W Hwin' limit Hlim k 0 w rs w'); try done; [lia|].
  split_and!; [done|lia|]. intros _. by left.
Qed.

(** What one window check reports. An allowed request keeps
    the current window's count within the limit (the weighted count is never rounded
    below it); without requests in the previous window the verdict and the remaining
    quota are exact; the reset is the end of the current window. *)
Lemma build_check_result_spec current previous now win limit :
  0 ≤ current < 2 ^ 53 → in_u64 previous → 0 < win ≤ U32_MAX → 0 ≤ limit < U32_MAX →
  0 ≤ now < 2 ^ 53 →
  let r := build_check_result current previous now win limit in
  (wc_allowed r = true → current ≤ limit) ∧
  (previous = 0 → (wc_allowed r = true ↔ current ≤ limit) ∧
                  wc_remaining r = Z.max 0 (limit - current)) ∧
  0 ≤ wc_remaining r ≤ limit ∧ wc_limit r = limit ∧
  now < wc_reset_at r ≤ now + win ∧ (wc_reset_at r) mod win = 0.
Proof.
  intros Hc Hp Hw Hl Hn r. unfold U32_MAX in Hw, Hl.
  pose proof (Z.mod_pos_bound now win ltac:(lia)) as Hmod.
  pose proof (Z.div_mod now win ltac:(lia)) as Hdm.
  pose proof (f64_ceil_bounds (weighted_count current previous (now mod win) win)) as Hcb.
  assert (wc_reset_at r = (now / win + 1) * win) as Hreset.
  { cbn. unfold as_u64. rewrite Z.mod_small; [done|].
    pose proof (Z.div_pos now win ltac:(lia) ltac:(lia)). nia. }
  split_and!.
  - apply build_check_result_allowed; unfold U32_MAX; lia || done.
  - intros ->. cbn. rewrite weighted_count_fresh by lia. unfold saturating_sub, U32_MAX.
    rewrite Z.leb_le. lia.
  - cbn. unfold saturating_sub. lia.
  - cbn. unfold saturating_sub. lia.
  - done.
  - rewrite Hreset. nia.
  - rewrite Hreset. nia.
  - rewrite Hreset. apply Z.mod_mul. lia.
Qed.

(** A request passes the rate limiter only if every
    applicable level answered and allowed it, and the reported remaining quota is the
    smallest of the levels; every other outcome is an error: a 429 with a non-negative
    [Retry-After], or a 500 when Redis did not answer. *)
Lemma evaluate_limits_fail_closed `{!Backends, !BackendsLaws, !UuidLib} ev sa evaluated w x w' :
  evaluate_limits ev sa evaluated w = (x, w') →
  match x with
  | Ok o =>
    ∃ global w1 w2,
      check_and_increment (window_secs ev) "rl:global" (global_rpm ev) w1 = (Ok global, w2) ∧
      wc_allowed global = true ∧
      match rpm_limit evaluated with
      | Some rpm => ∃ own,
          check_and_increment (window_secs ev) (sa_prefix sa) rpm w = (Ok own, w1) ∧
          wc_allowed own = true ∧
          ro_remaining o = Z.min (wc_remaining global) (wc_remaining own)
      | None => w1 = w ∧ ro_remaining o = wc_remaining global
      end
  | Err e =>
    (∃ msg retry, e = ERateLimit "rate_limit_exceeded" msg (Some retry) ∧ 0 ≤ retry) ∨
    e = EConfig "rate_limiter_unavailable" "rate limiter temporarily unavailable"
  end.
Proof.
  unfold evaluate_limits. intros Hrun. destruct x as [o|e].
  - apply io_bind_ok in Hrun as (sar & w1 & Hsa & Hrun).
    apply io_bind_ok in Hrun as (global & w2 & Hg%io_map_err_ok & Hrun).
    destruct (wc_allowed global) eqn:Hal; cbn in Hrun.
    2:{ apply io_bind_ok in Hrun as (_ & w3 & _ & (_ & r & ? & _)%reject_err). done. }
    injection Hrun as <- <-. exists global, w1, w2. split_and!; [done..|].
    destruct (rpm_limit evaluated) as [rpm|].
    + apply io_bind_ok in Hsa as (own & w3 & Hown%io_map_err_ok & Hsa).
      destruct (wc_allowed own) eqn:Hown'; cbn in Hsa.
      2:{ apply reject_err in Hsa as (_ & r & ? & _). done. }
      injection Hsa as <- <-. exists own. split_and!; [done..|].
      by rewrite most_restrictive_remaining.
    + by injection Hsa as <- <-.
  - apply io_bind_err in Hrun as [Hsa|(sar & w1 & _ & Hrun)].
    + destruct (rpm_limit evaluated) as [rpm|]; [|done].
      apply io_bind_err in Hsa as [(? & _ & ->)%io_map_err_err|(own & w3 & _ & Hsa)]; [by right|].
      destruct (wc_allowed own); [done|]. apply reject_err in Hsa as (_ & r & [= ->] & ? & _).
      left. eauto.
    + apply io_bind_err in Hrun as [(? & _ & ->)%io_map_err_err|(global & w2 & _ & Hrun)];
        [by right|].
      destruct (wc_allowed global); [done|]. left.
      apply io_bind_err in Hrun as [Hroll|(? & w3 & _ & (_ & r & [= ->] & ? & _)%reject_err)];
        [|eauto].
      by apply rollback_no_err in Hroll.
Qed.

(** A request rejected at the service-account level does
    not consume global quota: after it, every stored value except the account's own
    counter of the current window is what it was. *)
Lemma sa_rejection_spares_global `{!Backends, !BackendsLaws, !UuidLib} ev sa evaluated w retry w' k :
  0 < window_secs ev ≤ U32_MAX →
  evaluate_limits ev sa evaluated w =
    (Err (ERateLimit "rate_limit_exceeded" "service account rate limit exceeded" retry), w') →
  k ≠ window_key (sa_prefix sa) (clock w / 1000 / window_secs ev) →
  peek (clock w') (redis w') k = peek (clock w') (redis w) k.
Proof.
  intros Hwin Hrun Hk. unfold evaluate_limits in Hrun.
  apply io_bind_err in Hrun as [Hsa|(sar & w1 & _ & Hrun)].
  - destruct (rpm_limit evaluated) as [rpm|]; [|done].
    apply io_bind_err in Hsa as [(? & _ & ?)%io_map_err_err|(own & w3 & Hown%io_map_err_ok & Hsa)];
      [done|].
    destruct (wc_allowed own); [done|]. apply reject_err in Hsa as [-> _].
    by eapply check_frame.
  - exfalso. apply io_bind_err in Hrun as [(? & _ & ?)%io_map_err_err|(g & w2 & _ & Hrun)]; [done|].
    destruct (wc_allowed g); [done|].
    apply io_bind_err in Hrun as [Hroll|(? & w3 & _ & (_ & r & ? & _)%reject_err)]; [|done].
    by apply rollback_no_err in Hroll.
Qed.

Section rollback.
Context `{!Backends, !BackendsLaws, !UuidLib}.
Implicit Types (w : World) (ev : RateLimitEvaluator).

Lemma incr_entry_i64 d e n e' : in_i64 d → incr_entry d e = Some (n, e') → in_i64 n.
Proof.
  unfold incr_entry, in_i64. intros Hd. destruct e as [[v dl]|]; [|by intros [= <- _]].
  destruct (parse_i64 v); [|done]. destruct (_ && _) eqn:Hb; [|done]. intros [= <- _]. lia.
Qed.

(** A successful check with an idle schedule: the counter after it. *)
Lemma check_idle win prefix limit w r w' :
  0 < win ≤ U32_MAX → script w = [] → check_and_increment win prefix limit w = (Ok r, w') →
  script w' = [] ∧ clock w' = clock w ∧
  ∃ n d, in_i64 n ∧
    peek (clock w) (redis w') (window_key prefix (clock w / 1000 / win)) = Some (pretty n, d) ∧
    counter_value (peek (clock w) (redis w) (window_key prefix (clock w / 1000 / win)))
      = Some (n - 1).
Proof.
  intros Hwin Hs. unfold check_and_increment, now_unix_secs, mbind, io_bind.
  destruct (Z.leb_spec 0 (clock w)); [|done].
  unfold redis_call. rewrite (tick_idle w Hs).
  assert (as_u64 (win * 2) = win * 2) as ->
    by (unfold as_u64, U32_MAX in *; apply Z.mod_small; lia).
  set (ck := window_key prefix (clock w / 1000 / win)). set (pk := window_key prefix _).
  pose proof (lua_sliding_window_current ck pk (win * 2) (clock w) (redis w) ltac:(lia)) as Hc.
  destruct (lua_sliding_window _ _ _ _ _) as [reply st']. cbn [fst snd] in Hc. unfold lift.
  destruct (incr_entry 1 (peek (clock w) (redis w) ck)) as [[n e]|] eqn:Hi.
  2:{ destruct Hc as [_ ->]. done. }
  destruct Hc as [Hp _]. destruct (u64_pair reply); [|done]. intros [= _ <-].
  split_and!; [done..|].
  assert (in_i64 n) as Hn by (eapply incr_entry_i64; [|done]; done).
  exists n, (Some (clock w + win * 2 * 1000)). split_and!; [done|done|].
  by apply (counter_value_incr 1 _ n e).
Qed.

Lemma rollback_idle ev sa w w' n d :
  0 ≤ clock w → script w = [] → in_i64 (n - 1) → in_i64 n →
  peek (clock w) (redis w) (window_key (sa_prefix sa) (clock w / 1000 / window_secs ev))
    = Some (pretty n, d) →
  rollback_sa_counter ev sa w = (Ok tt, w') →
  clock w' = clock w ∧
  counter_value (peek (clock w) (redis w')
    (window_key (sa_prefix sa) (clock w / 1000 / window_secs ev))) = Some (n - 1).
Proof.
  intros Hc Hs Hn1 Hn Hp. unfold rollback_sa_counter, now_unix_secs, io_try, mbind, io_bind.
  destruct (Z.leb_spec 0 (clock w)); [|lia]. unfold redis_call. rewrite (tick_idle w Hs).
  set (k := window_key _ _) in *.
  pose proof (peek_incrby (clock w) k (-1) (redis w) k) as Hi. rewrite decide_True in Hi by done.
  destruct (cmd_incrby _ _ _ _) as [x st']. cbn [snd] in Hi. intros [= <-].
  split; [done|]. cbn. rewrite Hi, Hp. cbn. rewrite parse_i64_pretty by done.
  destruct (_ && _) eqn:Hb; [|unfold in_i64 in *; lia]. cbn.
  by rewrite parse_i64_pretty.
Qed.
End rollback.

(** A request rejected at the global level does not count
    against its service account: when nothing intervenes and the window does not end
    meanwhile, the account's counter has the value it had before. *)
Lemma global_rejection_rolls_back `{!Backends, !BackendsLaws, !UuidLib} ev sa evaluated w retry w' :
  0 < window_secs ev ≤ U32_MAX → script w = [] → is_Some (rpm_limit evaluated) →
  evaluate_limits ev sa evaluated w =
    (Err (ERateLimit "rate_limit_exceeded" "global rate limit exceeded" retry), w') →
  let key := window_key (sa_prefix sa) (clock w / 1000 / window_secs ev) in
  clock w' = clock w ∧
  counter_value (peek (clock w) (redis w') key) = counter_value (peek (clock w) (redis w) key).
Proof.
  intros Hwin Hs [rpm Hrpm] Hrun key. unfold evaluate_limits in Hrun. rewrite Hrpm in Hrun.
  apply io_bind_err in Hrun as [Hsa|(sar & w1 & Hsa & Hrun)].
  { exfalso. apply io_bind_err in Hsa as [(? & _ & ?)%io_map_err_err|(own & w3 & _ & Hsa)]; [done|].
    destruct (wc_allowed own); [done|]. by apply reject_err in Hsa as (_ & r & [=] & _). }
  apply io_bind_ok in Hsa as (own & w1' & Hown%io_map_err_ok & Hsa).
  destruct (wc_allowed own); [|by apply reject_err in Hsa as (_ & r & ? & _)].
  injection Hsa as <- <-.
  apply io_bind_err in Hrun as [(? & _ & ?)%io_map_err_err|(g & w2 & Hg%io_map_err_ok & Hrun)];
    [done|].
  destruct (wc_allowed g); [done|].
  apply io_bind_err in Hrun as [Hroll|([] & w3 & Hroll & (-> & _)%reject_err)];
    [by apply rollback_no_err in Hroll|].
  rewrite bool_decide_eq_true_2 in Hroll by done.
  pose proof (check_ok _ _ _ _ _ _ Hown) as [[Hc0 _] _].
  destruct (check_idle _ _ _ _ _ _ Hwin Hs Hown) as (Hs1 & Hc1 & n & d & Hn & Hp1 & Hv).
  destruct (check_idle _ _ _ _ _ _ Hwin Hs1 Hg) as (Hs2 & Hc2 & _).
  destruct (check_frame _ _ _ _ _ _ key Hwin Hg (global_sa_keys_differ _ _ _)) as [_ Hfr].
  rewrite Hc2, Hc1 in Hfr. unfold key in Hfr. rewrite Hp1 in Hfr.
  assert (in_i64 (n - 1)) as Hn1.
  { unfold counter_value in Hv. destruct (peek _ (redis w) _) as [[v dl]|].
    - destruct (parse_i64 v) eqn:Hpv; [|done]. injection Hv as <-.
      eapply from_str_bounds; [|done]. unfold I64_MIN, I64_MAX. lia.
    - injection Hv as Hv. rewrite <-Hv. done. }
  assert (clock w2 = clock w) as Hcw by congruence.
  destruct (rollback_idle ev sa w2 w3 n d) as [Hc3 Hval].
  - lia.
  - done.
  - done.
  - done.
  - rewrite Hcw. done.
  - done.
  - rewrite Hcw in Hval, Hc3. split; [done|]. unfold key. by rewrite Hval, Hv.
Qed.

(** ** Concrete runs *)

(** A world with a clock, a schedule and a Redis content, all else empty. *)
Definition mem_world (t : Z) (steps : list Step) (st : gmap string Entry) (d : Db) :
    @World mem_backends :=
  @mkWorld mem_backends t steps [] st d
    (@moka_new _ _ (@be_keys mem_backends) 60) (@moka_new _ _ (@be_policies mem_backends) 30)
    (@moka_new _ _ (@be_routes mem_backends) 60) (@moka_new _ _ (@be_admins mem_backends) 30).

Definition rpm_policy (rpm : option Z) (conc : option Z) : EvaluatedPolicy := {|
  model_access := ModelAccess.ModelAccessRules_default;
  token_limits := Quotas.TokenLimits_default;
  feature_flags := Features.FeatureFlags_default;
  rpm_limit := rpm;
  concurrency_limit := conc
|}.

(** A defect of the rollback. It recomputes the window
    from a later clock reading: when the window ends between the increment and the
    rollback, it decrements a counter of the next window that nobody incremented. The
    counter is left at minus one, without expiry, and a window later every request of the
    account fails with [rate_limiter_unavailable] although Redis works and the account
    has made no request. *)
Lemma rollback_after_rollover_blocks :
  let B := mem_backends in let U := decimal_uuid in
  let ev := mkRateLimitEvaluator 60 1 in
  let sa : ServiceAccountId := from_uuid 7 in
  let w := mem_world 59500 [mkStep 0 None; mkStep 1000 None]
             {["rl:global:0" := ("1", Some 120000)]} empty_db in
  let '(r1, w1) := evaluate_limits ev sa (rpm_policy (Some 10) None) w in
  r1 = Err (ERateLimit "rate_limit_exceeded" "global rate limit exceeded" (Some 0)) ∧
  peek (clock w1) (redis w1) "rl:sa:7:1" = Some ("-1", None) ∧
  (evaluate_limits ev sa (rpm_policy (Some 10) None)
     (mem_world 125000 [] (redis w1) empty_db)).1
  = Err (EConfig "rate_limiter_unavailable" "rate limiter temporarily unavailable").
Proof. vm_compute. done. Qed.

(** Writing the headers never panics (a decimal number is
    always a legal header value) and sets exactly the three rate limit headers. *)
Lemma rate_limit_headers_total response outcome :
  ∃ r, inject_rate_limit_headers response outcome = Some r ∧
    resp_status r = resp_status response ∧ resp_body r = resp_body response ∧
    resp_headers r =
      <["x-ratelimit-reset" := pretty (ro_reset_at outcome)]>
      (<["x-ratelimit-remaining" := pretty (ro_remaining outcome)]>
       (<["x-ratelimit-limit" := pretty (ro_limit outcome)]> (resp_headers response))).
Proof.
  unfold inject_rate_limit_headers, header_from_u64.
  rewrite !pretty_header_ok. cbn. by eexists.
Qed.

(** ** Witnesses *)

Lemma rate_limit_window_bound_witness :
  let B := mem_backends in
  let w := mem_world 1000 [mkStep 5 None; mkStep 2 (Some (FailAfter "timeout"))] ∅ empty_db in
  granted 0 (run_checks 60 "rl:global" 2 4 w).1 = 1 ∧
  granted 0 (run_checks 60 "rl:global" 2 4 w).1 ≤ 2.
Proof.
  intros B w. split; [by vm_compute|]. pose proof mem_backends_laws.
  apply (rate_limit_window_bound 60 "rl:global" 2 0 4 w _ (run_checks 60 "rl:global" 2 4 w).2).
  - unfold U32_MAX. lia.
  - unfold U32_MAX. lia.
  - lia.
  - unfold prompt, w. cbn. repeat constructor; cbn; lia.
  - done.
  - done.
  - apply surjective_pairing.
Defined.
