(* ===== verification/Concurrency.v ===== *)
(** * Per-account concurrency limiting
      (src/gateway/crates/gateway/src/policy/concurrency.rs)

    The acquire script as one atomic Redis step, the permit with its release and drop,
    and the system of concurrent requests as a step relation over these operations, with
    the invariant that never more than [limit] permits are out. *)

From stdpp Require Import options.
From S2P Require Import Prelude Rust Types Errors Json Models PolicyMerge Backends Db World.
From S2P Require Import RateLimit.
#[local] Set Default Proof Using "Type*".

Definition CONCURRENCY_KEY_TTL_SECS : Z := 120.

(** The guard returned on success: its counter and whether it was given back. *)
Record ConcurrencyPermit : Type := mkPermit { permit_key : string; released : bool }.

Section limiter.
Context `{!Backends, !UuidLib}.

(** [LUA_CONCURRENCY_ACQUIRE]: increment, refresh the expiry, undo when over the limit. *)
Definition lua_concurrency_acquire (key : string) (limit ttl : Z) (t : Z) (st : Redis)
    : option (Z * Z) * Redis :=
  match cmd_incrby t key 1 st with
  | (None, st1) => (None, st1)
  | (Some current, st1) =>
    let st2 := cmd_expire t key ttl st1 in
    if limit <? current
    then
      match cmd_incrby t key (-1) st2 with
      | (None, st3) => (None, st3)
      | (Some _, st3) => (Some (0, current), st3)
      end
    else (Some (1, current), st2)
  end.

Definition concurrency_key (sa_id : ServiceAccountId) : string :=
  "concurrency:" +:+ id_display sa_id.

Definition concurrency_unavailable : GatewayError :=
  EConfig "concurrency_limiter_unavailable" "concurrency limiter temporarily unavailable".

Definition acquire (sa_id : ServiceAccountId) (limit : Z)
    : IO World GatewayError ConcurrencyPermit :=
  let key := concurrency_key sa_id in
  reply ← io_map_err (λ _, concurrency_unavailable)
    (redis_call (lua_concurrency_acquire key limit CONCURRENCY_KEY_TTL_SECS));
  '(allowed, _) ← lift (ok_or concurrency_unavailable reply);
  if allowed =? 0
  then lift (Err (ERateLimit "concurrency_limit_exceeded"
                    ("concurrent request limit (" +:+ pretty limit +:+ ") exceeded") (Some 1)))
  else mret (mkPermit key false).

(** [release_inner]: the flag is set first; a second call does nothing; errors of the
    decrement are dropped. *)
Definition release_inner {E} (permit : ConcurrencyPermit) : IO World E ConcurrencyPermit :=
  if released permit then mret permit else
  _ ← io_try (redis_call (λ t, cmd_incrby t (permit_key permit) (-1)));
  mret (mkPermit (permit_key permit) true).

(** [Drop]: the same decrement, in a task that runs if the runtime still does. *)
Definition drop_permit {E} (runtime_alive : bool) (permit : ConcurrencyPermit)
    : IO World E ConcurrencyPermit :=
  if released permit then mret permit else
  if runtime_alive
  then
    _ ← io_try (redis_call (λ t, cmd_incrby t (permit_key permit) (-1)));
    mret (mkPermit (permit_key permit) true)
  else mret (mkPermit (permit_key permit) true).

(** ** The system: requests that acquire and release, and everything else

    A state is the world and the number of permits out; [limit] is the largest limit any
    request of the account comes with, as its policies change. A step that executes while
    permits are out requires the counter not to have expired meanwhile: no permit is
    held longer than [CONCURRENCY_KEY_TTL_SECS] after the last acquire. *)
Definition in_time (sa_id : ServiceAccountId) (w : World) (out : nat) (w' : World) : Prop :=
  out = O ∨ is_Some (peek (clock w') (redis w) (concurrency_key sa_id)).

Inductive cstep (sa_id : ServiceAccountId) (limit : Z) : World * nat → World * nat → Prop :=
  | cs_acquired l w out permit w' :
      l ≤ limit → acquire sa_id l w = (Ok permit, w') → in_time sa_id w out w' →
      cstep sa_id limit (w, out) (w', S out)
  | cs_refused l w out e w' :
      l ≤ limit → acquire sa_id l w = (Err e, w') → in_time sa_id w out w' →
      cstep sa_id limit (w, out) (w', out)
  | cs_released w out w' (p : ConcurrencyPermit) :
      release_inner (E:=GatewayError) (mkPermit (concurrency_key sa_id) false) w = (Ok p, w') →
      in_time sa_id w (S out) w' →
      cstep sa_id limit (w, S out) (w', out)
  | cs_other w out w' :
      clock w ≤ clock w' →
      peek (clock w') (redis w') (concurrency_key sa_id)
        = peek (clock w') (redis w) (concurrency_key sa_id) →
      in_time sa_id w out w' →
      cstep sa_id limit (w, out) (w', out).
End limiter.

(** ** The counter under each operation *)

Section counter.
Context `{!Backends, !BackendsLaws, !UuidLib}.
Implicit Types (w : World) (st : Redis).

Lemma incr_entry_pretty n d dl : in_i64 n → in_i64 (n + d) →
  incr_entry d (Some (pretty n, dl)) = Some (n + d, (pretty (n + d), dl)).
Proof.
  intros Hn Hnd. unfold incr_entry. rewrite parse_i64_pretty by done.
  unfold in_i64 in Hnd. destruct (_ && _) eqn:Hb; [done|]. lia.
Qed.

(** The acquire script on an absent or numeric counter. *)
Lemma acquire_script key limit t st n d :
  (peek t st key = None ∧ n = 0) ∨ peek t st key = Some (pretty n, d) →
  0 ≤ n < I64_MAX →
  let '(reply, st') := lua_concurrency_acquire key limit CONCURRENCY_KEY_TTL_SECS t st in
  if limit <? n + 1
  then reply = Some (0, n + 1) ∧ peek t st' key = Some (pretty n, Some (t + 120000))
  else reply = Some (1, n + 1) ∧ peek t st' key = Some (pretty (n + 1), Some (t + 120000)).
Proof.
  intros Hp Hn. unfold lua_concurrency_acquire.
  assert (in_i64 n ∧ in_i64 (n + 1)) as [Hn1 Hn2] by (unfold in_i64, I64_MIN in *; lia).
  pose proof (incrby_result t key 1 st) as Hr. pose proof (peek_incrby t key 1 st key) as Hi.
  rewrite decide_True in Hi by done.
  assert (∃ dl, incr_entry 1 (peek t st key) = Some (n + 1, (pretty (n + 1), dl))) as [dl He].
  { destruct Hp as [[-> ->]| ->]; [by exists None|]. exists d. by apply incr_entry_pretty. }
  rewrite He in Hr, Hi. cbn in Hr, Hi.
  destruct (cmd_incrby t key 1 st) as [c st1]. cbn in Hr, Hi. subst c.
  pose proof (peek_expire t key CONCURRENCY_KEY_TTL_SECS st1 key ltac:(done)) as Hx.
  rewrite decide_True, Hi in Hx by done. cbn in Hx.
  destruct (Z.ltb_spec limit (n + 1)); [|by split].
  pose proof (incrby_result t key (-1) (cmd_expire t key CONCURRENCY_KEY_TTL_SECS st1)) as Hr2.
  pose proof (peek_incrby t key (-1) (cmd_expire t key CONCURRENCY_KEY_TTL_SECS st1) key) as Hi2.
  rewrite decide_True in Hi2 by done.
  rewrite Hx, incr_entry_pretty in Hr2, Hi2; [|done|by replace (n + 1 + -1) with n by lia..].
  destruct (cmd_incrby _ _ _ _) as [c st3]. cbn in Hr2, Hi2. subst c.
  split; [done|]. rewrite Hi2. by replace (n + 1 + -1) with n by lia.
Qed.

(** The counter seen at time [t] when [out] permits are out. *)
Definition counter_covers (key : string) (limit : Z) (out : nat) (t : Z) st : Prop :=
  (peek t st key = None ∧ out = O) ∨
  ∃ n d, peek t st key = Some (pretty n, d) ∧ Z.of_nat out ≤ n ≤ limit.

Definition conc_inv (sa : ServiceAccountId) (limit : Z) (s : World * nat) : Prop :=
  counter_covers (concurrency_key sa) limit s.2 (clock s.1) (redis s.1).

Lemma counter_covers_later key limit out t t' st :
  t ≤ t' → (out = O ∨ is_Some (peek t' st key)) →
  counter_covers key limit out t st → counter_covers key limit out t' st.
Proof.
  unfold counter_covers. intros Ht Halive Hc. rewrite (peek_later t t') in Halive |- * by done.
  destruct Hc as [[-> ->]|(n & d & Hp & Hn)]; [by left|]. rewrite Hp in *.
  cbn in *. unfold live in *. destruct d as [d|]; cbn in *; [|right; eauto].
  destruct (t' <? d); [right; eauto|]. left. split; [done|].
  destruct Halive as [?|[? [=]]]; done.
Qed.

(** One acquire, whatever its outcome. *)
Lemma acquire_inv sa limit l w out r w' :
  0 ≤ limit ≤ U32_MAX → l ≤ limit → conc_inv sa limit (w, out) → acquire sa l w = (r, w') →
  in_time sa w out w' →
  conc_inv sa limit (w', if is_ok r then S out else out).
Proof.
  intros Hlim Hl Hinv Hacq Htime. unfold acquire, mbind, io_bind, io_map_err, redis_call in Hacq.
  pose proof (tick_clock w) as Hc. pose proof (tick_frame redis w ltac:(done)) as Hr.
  destruct (tick w) as [flt w1]. cbn [fst snd] in *. rewrite Hr in Hacq.
  set (key := concurrency_key sa) in *.
  assert (clock w' = clock w1) as Hcw.
  { destruct (lua_concurrency_acquire _ _ _ _ _) as [reply st'].
    destruct flt as [[]|]; [by injection Hacq as <- <-..|].
    cbn in Hacq. unfold lift in Hacq. destruct reply as [[a ?]|]; cbn in Hacq;
      [destruct (a =? 0)|]; by injection Hacq as <- <-. }
  unfold in_time in Htime. rewrite Hcw in Htime.
  pose proof (counter_covers_later key limit out (clock w) (clock w1) (redis w) Hc Htime Hinv)
    as Hat.
  assert (∃ n d, ((peek (clock w1) (redis w) key = None ∧ n = 0) ∨
      peek (clock w1) (redis w) key = Some (pretty n, d)) ∧ Z.of_nat out ≤ n ≤ limit)
    as (n & d & Hp & Hn).
  { destruct Hat as [[Hnone ->]|(n & d & Hp & Hn)]; [exists 0, None|exists n, d]; auto with lia. }
  pose proof (acquire_script key l (clock w1) (redis w) n d Hp
    ltac:(unfold U32_MAX, I64_MAX in *; lia)) as Hs.
  destruct (lua_concurrency_acquire _ _ _ _ _) as [reply st'].
  assert (∀ out', (Z.of_nat out' ≤ if l <? n + 1 then n else n + 1) →
    counter_covers key limit out' (clock w1) st') as Hafter.
  { intros out' Hout. right. destruct (Z.ltb_spec l (n + 1)); destruct Hs as [_ Hs];
      eexists _, _; (split; [exact Hs|lia]). }
  assert (Z.of_nat out ≤ if l <? n + 1 then n else n + 1) as Hsame
    by (destruct (Z.ltb_spec l (n + 1)); lia).
  unfold conc_inv. cbn [fst snd]. rewrite Hcw. destruct flt as [[]|].
  - injection Hacq as <- <-. cbn [is_ok]. by rewrite Hr.
  - injection Hacq as <- <-. cbn [is_ok set_redis redis]. by apply Hafter.
  - cbn in Hacq. unfold lift in Hacq.
    destruct (Z.ltb_spec l (n + 1)); destruct Hs as [-> Hs]; cbn in Hacq;
      injection Hacq as <- <-; cbn [is_ok set_redis redis]; apply Hafter; lia.
Qed.

Lemma release_inv sa limit w out (p : ConcurrencyPermit) w' :
  limit ≤ U32_MAX → conc_inv sa limit (w, S out) →
  release_inner (E:=GatewayError) (mkPermit (concurrency_key sa) false) w = (Ok p, w') →
  in_time sa w (S out) w' → conc_inv sa limit (w', out).
Proof.
  intros Hlim Hinv Hrel Htime.
  unfold release_inner, mbind, io_bind, io_try, redis_call in Hrel. cbn in Hrel.
  pose proof (tick_clock w) as Hc. pose proof (tick_frame redis w ltac:(done)) as Hr.
  destruct (tick w) as [flt w1]. cbn [fst snd] in *. rewrite Hr in Hrel.
  set (key := concurrency_key sa) in *.
  assert (clock w' = clock w1) as Hcw
    by (destruct (cmd_incrby _ _ _ _), flt as [[]|]; by injection Hrel as <- <-).
  unfold in_time in Htime. rewrite Hcw in Htime.
  pose proof (counter_covers_later key limit (S out) (clock w) (clock w1) (redis w) Hc Htime Hinv)
    as [[_ ?]|(n & d & Hp & Hn)]; [done|].
  pose proof (peek_incrby (clock w1) key (-1) (redis w) key) as Hi.
  rewrite decide_True, Hp, incr_entry_pretty in Hi
    by (done || unfold in_i64, I64_MIN, I64_MAX, U32_MAX in *; lia).
  unfold conc_inv. cbn [fst snd]. rewrite Hcw.
  destruct (cmd_incrby _ _ _ _) as [x st'], flt as [[]|]; injection Hrel as <- <-;
    cbn [set_redis redis snd] in *; rewrite ?Hr; right;
    [exists n, d|exists (n + -1), d..]; split; try done; lia.
Qed.

Lemma cstep_inv sa limit s s' :
  0 ≤ limit ≤ U32_MAX → cstep sa limit s s' → conc_inv sa limit s → conc_inv sa limit s'.
Proof.
  intros Hlim [l w out permit w' Hl Hacq Ht|l w out e w' Hl Hacq Ht|w out w' p Hrel Ht
    |w out w' Hc Hp Ht] Hinv.
  - apply (acquire_inv sa limit l w out _ w' Hlim Hl Hinv Hacq Ht).
  - apply (acquire_inv sa limit l w out _ w' Hlim Hl Hinv Hacq Ht).
  - by eapply release_inv; [lia|..].
  - pose proof (counter_covers_later _ limit out _ _ _ Hc Ht Hinv) as Hat.
    unfold conc_inv, counter_covers in *. cbn [fst snd] in *. by rewrite Hp.
Qed.

Lemma rtc_cstep_inv sa limit s s' :
  0 ≤ limit ≤ U32_MAX → rtc (cstep sa limit) s s' → conc_inv sa limit s → conc_inv sa limit s'.
Proof. intros Hlim. induction 1 as [|s s1 s2 Hs _ IH]; [done|]. eauto using cstep_inv. Qed.
End counter.

(** ** Properties *)

(** In every interleaving of acquires (granted, refused,
    lost), releases and other activity, as long as no permit is held beyond the key's
    time to live, never more than [limit] permits are out for a service account, where
    [limit] is the largest any of the acquires asked with. *)
Lemma concurrency_never_exceeds `{!Backends, !BackendsLaws, !UuidLib} sa limit w0 w out :
  0 ≤ limit ≤ U32_MAX → peek (clock w0) (redis w0) (concurrency_key sa) = None →
  rtc (cstep sa limit) (w0, O) (w, out) → Z.of_nat out ≤ limit.
Proof.
  intros Hlim Hnone Hsteps.
  assert (conc_inv sa limit (w, out)) as Hinv.
  { eapply rtc_cstep_inv; [done..|]. by left. }
  unfold conc_inv, counter_covers in Hinv. cbn [fst snd] in Hinv.
  destruct Hinv as [[_ ->]|(n & d & _ & Hn)]; lia.
Qed.

(** A refused acquire leaves the number of counted requests
    unchanged, answers 429 with [Retry-After: 1], and refusal happens exactly when the
    limit is used up; Redis failures are reported as a configuration error (500). *)
Lemma acquire_refusal_restores `{!Backends, !BackendsLaws, !UuidLib} sa limit w n d :
  script w = [] → 0 ≤ limit ≤ U32_MAX → 0 ≤ n < I64_MAX →
  peek (clock w) (redis w) (concurrency_key sa) = Some (pretty n, d) →
  let '(r, w') := acquire sa limit w in
  (is_ok r = true ↔ n < limit) ∧
  counter_value (peek (clock w) (redis w') (concurrency_key sa))
    = Some (if is_ok r then n + 1 else n) ∧
  (is_ok r = false → r = Err (ERateLimit "concurrency_limit_exceeded"
     ("concurrent request limit (" +:+ pretty limit +:+ ") exceeded") (Some 1))).
Proof.
  intros Hs Hlim Hn Hp. unfold acquire, mbind, io_bind, io_map_err, redis_call.
  rewrite (tick_idle w Hs).
  pose proof (acquire_script (concurrency_key sa) limit (clock w) (redis w) n d
    (or_intror Hp) Hn) as Hscr.
  destruct (lua_concurrency_acquire _ _ _ _ _) as [reply st']. cbn. unfold lift.
  assert (in_i64 n ∧ in_i64 (n + 1)) as [Hi Hi1] by (unfold in_i64, I64_MIN, I64_MAX in *; lia).
  destruct (Z.ltb_spec limit (n + 1)); destruct Hscr as [-> Hscr]; cbn;
    rewrite Hscr; cbn; rewrite parse_i64_pretty by done; split_and!; try done; lia.
Qed.

(** The limit of the previous guarantee. A permit released
    after its key expired creates the counter at minus one without expiry; with a limit
    of one, two requests are then admitted at the same time. *)
Lemma late_release_overadmits :
  let B := mem_backends in let U := decimal_uuid in
  let sa : ServiceAccountId := from_uuid 7 in
  let w0 := mem_world 0 [] ∅ empty_db in
  let '(r1, w1) := acquire sa 1 w0 in
  let late := mem_world 121000 [] (redis w1) empty_db in
  let '(_, w2) := release_inner (E:=GatewayError) (mkPermit (concurrency_key sa) false) late in
  let '(r2, w3) := acquire sa 1 w2 in
  let '(r3, w4) := acquire sa 1 w3 in
  is_ok r1 = true ∧ peek 121000 (redis w2) "concurrency:7" = Some ("-1", None) ∧
  is_ok r2 = true ∧ is_ok r3 = true.
Proof. vm_compute. done. Qed.

(** ** Witnesses *)

