(* ===== verification/Recovery.v ===== *)
(** * Limits give way again
      (src/gateway/crates/gateway/src/policy/rate_limit.rs, concurrency.rs)

    Progress of the two limiters. The counters they keep in Redis expire: whatever happened
    before, an idle period gives a caller its full quota back, and slots leaked by a crashed
    process are reclaimed. The second guarantee ends where the code ends it: a refused
    attempt renews the expiry, so a caller that keeps asking never gets a leaked slot back. *)

From stdpp Require Import options.
From S2P Require Import Prelude Rust Types Errors Json Models PolicyMerge Backends Db World.
From S2P Require Import RateLimit Concurrency.
#[local] Set Default Proof Using "Type*".

(** A stored value that is gone at [t + ttl] at the latest. *)
Definition expires_within (ttl t : Z) (e : option Entry) : Prop :=
  match e with
  | None => True
  | Some (_, d) => ∃ dl, d = Some dl ∧ dl ≤ t + ttl
  end.

Section expiry.
Context `{!Backends, !BackendsLaws}.

Lemma expires_later ttl t t' st k : t ≤ t' →
  expires_within ttl t (peek t st k) → expires_within ttl t' (peek t' st k).
Proof.
  intros Ht He. rewrite (peek_later t t') by done. destruct (peek t st k) as [[v d]|]; [|done].
  destruct He as (dl & -> & Hdl). cbn. unfold live. cbn. destruct (_ <? _); [|done].
  exists dl. split; [done|lia].
Qed.

Lemma expired ttl t t' st k : 0 ≤ ttl → t + ttl ≤ t' →
  expires_within ttl t (peek t st k) → peek t' st k = None.
Proof.
  intros Httl Ht He. rewrite (peek_later t t') by lia. destruct (peek t st k) as [[v d]|]; [|done].
  destruct He as (dl & -> & Hdl). cbn. unfold live. cbn. by destruct (Z.ltb_spec t' dl); [lia|].
Qed.
End expiry.

(** ** Rate limit windows *)

Section windows.
Context `{!Backends, !BackendsLaws}.
Context (win : Z) (prefix : string) (limit : Z) (Hwin : 0 < win ≤ U32_MAX).
Implicit Types (w : World).
#[local] Set Default Proof Using "All".

(** What a check does to the server, whatever its outcome: nothing, or the script. *)
Lemma check_effect w r w' : check_and_increment win prefix limit w = (r, w') →
  clock w ≤ clock w' ∧
  (redis w' = redis w ∨
   redis w' = (lua_sliding_window (window_key prefix (clock w / 1000 / win))
     (window_key prefix (saturating_sub (clock w / 1000 / win) 1)) (win * 2)
     (clock w') (redis w)).2).
Proof.
  unfold check_and_increment, now_unix_secs, mbind, io_bind.
  destruct (Z.leb_spec 0 (clock w)); [|intros [= <- <-]; split; [lia|by left]].
  unfold redis_call. pose proof (tick_clock w) as Hc.
  pose proof (tick_frame redis w ltac:(done)) as Hr.
  destruct (tick w) as [flt w1]. cbn [fst snd] in *. rewrite Hr.
  assert (as_u64 (win * 2) = win * 2) as ->
    by (unfold as_u64, U32_MAX in *; apply Z.mod_small; lia).
  set (script_run := lua_sliding_window _ _ _ _ _).
  destruct script_run as [reply st'] eqn:Hs. subst script_run. intros Hrun.
  destruct flt as [[]|]; [| |unfold lift in Hrun; destruct (u64_pair reply)];
    injection Hrun as <- <-; cbn; rewrite ?Hs; (split; [done|]); auto.
Qed.

(** Every counter of the prefix is gone two windows from now. *)
Definition windows_expire w : Prop :=
  ∀ V, expires_within (win * 2 * 1000) (clock w)
         (peek (clock w) (redis w) (window_key prefix V)).

Lemma lua_sliding_window_expires ck pk t st k :
  expires_within (win * 2 * 1000) t (peek t st k) →
  expires_within (win * 2 * 1000) t (peek t (lua_sliding_window ck pk (win * 2) t st).2 k).
Proof.
  intros He. destruct (decide (k = ck)) as [->|Hk].
  2:{ by rewrite lua_sliding_window_frame by (done || lia). }
  pose proof (lua_sliding_window_current ck pk (win * 2) t st ltac:(lia)) as Hc.
  destruct (incr_entry 1 (peek t st ck)) as [[n e]|]; destruct Hc as [-> _]; [|done].
  exists (t + win * 2 * 1000). split; [done|lia].
Qed.

Lemma check_expires w r w' : windows_expire w →
  check_and_increment win prefix limit w = (r, w') → windows_expire w'.
Proof.
  intros He [Hc Hr]%check_effect V. specialize (He V). apply (expires_later _ _ (clock w')) in He;
    [|done].
  destruct Hr as [-> | ->]; [done|by apply lua_sliding_window_expires].
Qed.

Lemma run_checks_expire k w rs w' : windows_expire w →
  run_checks win prefix limit k w = (rs, w') → windows_expire w' ∧ clock w ≤ clock w'.
Proof.
  revert w rs. induction k as [|k IH]; intros w rs He; cbn [run_checks].
  { intros [= _ <-]. split; [done|lia]. }
  destruct (check_and_increment win prefix limit w) as [r w1] eqn:Hc.
  destruct (run_checks win prefix limit k w1) as [rs1 w2] eqn:Hrun. intros [= _ <-].
  pose proof (check_effect _ _ _ Hc) as [Hc1 _].
  apply IH in Hrun as [??]; [split; [done|lia]|]. by eapply check_expires.
Qed.

(** [i] requests counted in the current window, none in the previous one. *)
Definition counted (i : Z) w : Prop :=
  script w = [] ∧
  peek (clock w) (redis w) (window_key prefix (clock w / 1000 / win - 1)) = None ∧
  ((i = 0 ∧ peek (clock w) (redis w) (window_key prefix (clock w / 1000 / win)) = None) ∨
   ∃ d, peek (clock w) (redis w) (window_key prefix (clock w / 1000 / win)) = Some (pretty i, d)).

Lemma check_counted i w :
  0 ≤ i < 2 ^ 53 → 0 ≤ clock w → 1 ≤ clock w / 1000 / win → counted i w →
  ∃ w', check_and_increment win prefix limit w
        = (Ok (build_check_result (i + 1) 0 (clock w / 1000) win limit), w') ∧
    clock w' = clock w ∧ counted (i + 1) w'.
Proof.
  intros Hi Hc HV (Hs & Hpk & Hck). unfold check_and_increment, now_unix_secs, mbind, io_bind.
  destruct (Z.leb_spec 0 (clock w)); [|lia]. unfold redis_call. rewrite (tick_idle w Hs).
  assert (as_u64 (win * 2) = win * 2) as ->
    by (unfold as_u64, U32_MAX in *; apply Z.mod_small; lia).
  set (V := clock w / 1000 / win) in *.
  assert (saturating_sub V 1 = V - 1) as -> by (unfold saturating_sub; lia).
  set (ck := window_key prefix V) in *. set (pk := window_key prefix (V - 1)) in *.
  assert (pk ≠ ck) as Hne by (intros Heq%window_key_inj; lia).
  pose proof (lua_sliding_window_current ck pk (win * 2) (clock w) (redis w) ltac:(lia)) as Hcur.
  pose proof (lua_sliding_window_frame ck pk (win * 2) (clock w) (redis w) pk ltac:(lia) Hne) as Hfr.
  assert (∃ e, incr_entry 1 (peek (clock w) (redis w) ck) = Some (i + 1, e)) as [e He].
  { destruct Hck as [[-> ->]|[d ->]]; [by eexists|]. eexists. apply incr_entry_pretty;
      unfold in_i64, I64_MIN, I64_MAX; lia. }
  rewrite He in Hcur. destruct Hcur as [Hcur [prev Hreply]].
  assert (prev = Some 0) as ->.
  { unfold lua_sliding_window in Hreply, Hfr. destruct (cmd_incrby _ _ _ _) as [[c|] st1]; [|done].
    cbn in Hreply, Hfr. injection Hreply as _ <-. rewrite get_peek, Hfr, Hpk. cbn.
    by apply (tonumber_pretty 0). }
  destruct (lua_sliding_window _ _ _ _ _) as [reply st']. cbn [fst snd] in *. subst reply.
  assert (u64_pair (Some (i + 1, Some 0)) = Ok (i + 1, 0)) as Hpair.
  { unfold u64_pair. destruct (_ && _) eqn:Hb; [done|]. unfold U64_MAX in Hb. lia. }
  unfold lift. rewrite Hpair. eexists. split_and!; [done|done|]. split_and!; [done| |].
  - exact (eq_trans Hfr Hpk).
  - right. eexists. exact Hcur.
Qed.

Lemma run_checks_counted n i w :
  0 ≤ limit < U32_MAX → 0 ≤ i → i + Z.of_nat n < 2 ^ 52 → 0 ≤ clock w < 2 ^ 53 * 1000 →
  1 ≤ clock w / 1000 / win → counted i w →
  granted (clock w / 1000 / win) (run_checks win prefix limit n w).1
  = Z.max 0 (Z.min (Z.of_nat n) (limit - i)).
Proof.
  intros Hlim. revert i w. induction n as [|n IH]; intros i w Hi Hin Hc HV Hcnt; cbn [run_checks].
  { cbn. lia. }
  destruct (check_counted i w ltac:(lia) ltac:(lia) HV Hcnt) as (w1 & Hrun & Hc1 & Hcnt1).
  rewrite Hrun. specialize (IH (i + 1) w1 ltac:(lia) ltac:(lia)). rewrite Hc1 in IH.
  specialize (IH Hc HV Hcnt1). destruct (run_checks win prefix limit n w1) as [rs w2].
  cbn [fst granted] in *. rewrite IH. unfold allowed_in. cbn [fst snd]. rewrite Z.eqb_refl.
  cbn [andb].
  destruct (build_check_result_spec (i + 1) 0 (clock w / 1000) win limit) as (_ & Hex & _).
  { lia. }
  { done. }
  { done. }
  { done. }
  { split; [apply Z.div_pos; lia|]. apply Z.div_lt_upper_bound; lia. }
  destruct (Hex eq_refl) as [Hal _].
  destruct (wc_allowed _).
  - assert (i + 1 ≤ limit) by by apply Hal. lia.
  - assert (¬ i + 1 ≤ limit) by by intros ?%Hal. lia.
Qed.
End windows.

(** ** Concurrency slots *)

(** A caller that tries to acquire [k] times in a row, never releasing. *)
Fixpoint run_acquires `{!Backends, !UuidLib} (sa_id : ServiceAccountId) (limit : Z) (k : nat)
    (w : World) : list (result GatewayError ConcurrencyPermit) * World :=
  match k with
  | O => ([], w)
  | S k =>
    let '(r, w1) := acquire sa_id limit w in
    let '(rs, w2) := run_acquires sa_id limit k w1 in
    (r :: rs, w2)
  end.

(** The permits among the answers. *)
Definition permits (rs : list (result GatewayError ConcurrencyPermit)) : Z :=
  Z.of_nat (length (filter (λ r, is_ok r = true) rs)).

Lemma permits_cons r rs : permits (r :: rs) = (if is_ok r then 1 else 0) + permits rs.
Proof. unfold permits. rewrite filter_cons. destruct r; cbn [is_ok]; case_decide; cbn; lia || done. Qed.

Definition slot_refused (limit : Z) (r : result GatewayError ConcurrencyPermit) : Prop :=
  r = Err (ERateLimit "concurrency_limit_exceeded"
             ("concurrent request limit (" +:+ pretty limit +:+ ") exceeded") (Some 1)).

Section slots.
Context `{!Backends, !BackendsLaws, !UuidLib}.
Context (sa : ServiceAccountId) (limit : Z).
Implicit Types (w : World).

Abbreviation key := (concurrency_key sa).
Abbreviation slot w := (peek (clock w) (redis w) key).
Abbreviation ttl_ms := (CONCURRENCY_KEY_TTL_SECS * 1000).

(** What an acquire does to the server, whatever its outcome: nothing, or the script. *)
Lemma acquire_effect l w r w' : acquire sa l w = (r, w') →
  clock w ≤ clock w' ∧
  (redis w' = redis w ∨
   redis w' = (lua_concurrency_acquire key l CONCURRENCY_KEY_TTL_SECS
                 (clock w') (redis w)).2).
Proof.
  unfold acquire, mbind, io_bind, io_map_err, redis_call.
  pose proof (tick_clock w) as Hc. pose proof (tick_frame redis w ltac:(done)) as Hr.
  destruct (tick w) as [flt w1]. cbn [fst snd] in *. rewrite Hr.
  destruct (lua_concurrency_acquire _ _ _ _ _) as [reply st'] eqn:Hs. intros Hacq.
  destruct flt as [[]|]; [injection Hacq as <- <-; by auto| |].
  - injection Hacq as <- <-. cbn. rewrite Hs. auto.
  - unfold lift in Hacq. destruct reply as [[a ?]|]; cbn in Hacq; [destruct (a =? 0)|];
      injection Hacq as <- <-; cbn; rewrite Hs; auto.
Qed.

Lemma acquire_expires l w out r w' :
  0 ≤ limit ≤ U32_MAX → conc_inv sa limit (w, out) → acquire sa l w = (r, w') →
  in_time sa w out w' → expires_within ttl_ms (clock w) (slot w) →
  expires_within ttl_ms (clock w') (slot w').
Proof.
  intros Hlim Hinv [Hc Hr]%acquire_effect Htime He.
  apply (expires_later _ _ (clock w')) in He; [|done].
  destruct Hr as [-> | ->]; [done|].
  pose proof (counter_covers_later _ limit out _ _ _ Hc Htime Hinv) as Hat.
  assert (∃ n d, ((peek (clock w') (redis w) key = None ∧ n = 0) ∨
      peek (clock w') (redis w) key = Some (pretty n, d)) ∧ 0 ≤ n ≤ limit) as (n & d & Hp & Hn).
  { destruct Hat as [[Hnone _]|(n & d & Hp & Hn)]; [exists 0, None|exists n, d];
      (split; [tauto|lia]). }
  pose proof (acquire_script key l (clock w') (redis w) n d Hp
    ltac:(unfold U32_MAX, I64_MAX in *; lia)) as Hs.
  destruct (lua_concurrency_acquire _ _ _ _ _) as [reply st'].
  cbn [snd]. destruct (l <? n + 1); destruct Hs as [_ ->]; by eexists.
Qed.

Lemma release_expires w out (p : ConcurrencyPermit) w' :
  limit ≤ U32_MAX → conc_inv sa limit (w, S out) →
  release_inner (E:=GatewayError) (mkPermit key false) w = (Ok p, w') →
  in_time sa w (S out) w' → expires_within ttl_ms (clock w) (slot w) →
  expires_within ttl_ms (clock w') (slot w').
Proof.
  intros Hlim Hinv Hrel Htime He. unfold release_inner, mbind, io_bind, io_try, redis_call in Hrel.
  cbn in Hrel. pose proof (tick_clock w) as Hc. pose proof (tick_frame redis w ltac:(done)) as Hr.
  destruct (tick w) as [flt w1]. cbn [fst snd] in *. rewrite Hr in Hrel.
  assert (clock w' = clock w1) as Hcw
    by (destruct (cmd_incrby _ _ _ _), flt as [[]|]; by injection Hrel as <- <-).
  unfold in_time in Htime. rewrite Hcw in *.
  pose proof (counter_covers_later key limit (S out) _ _ _ Hc Htime Hinv)
    as [[_ ?]|(n & d & Hp & Hn)]; [done|].
  apply (expires_later _ _ (clock w1)) in He; [|done].
  pose proof (peek_incrby (clock w1) key (-1) (redis w) key) as Hi.
  rewrite decide_True, Hp, incr_entry_pretty in Hi
    by (done || unfold in_i64, I64_MIN, I64_MAX, U32_MAX in *; lia).
  destruct (cmd_incrby _ _ _ _) as [x st'], flt as [[]|]; injection Hrel as <- <-;
    cbn [set_redis redis snd] in *; rewrite ?Hr; [done|..]; rewrite Hi; by rewrite Hp in He.
Qed.

Lemma cstep_expires s s' :
  0 ≤ limit ≤ U32_MAX → cstep sa limit s s' → conc_inv sa limit s →
  expires_within ttl_ms (clock s.1) (slot s.1) → expires_within ttl_ms (clock s'.1) (slot s'.1).
Proof.
  intros Hlim [l w out permit w' Hl Hacq Ht|l w out e w' Hl Hacq Ht|w out w' p Hrel Ht
    |w out w' Hc Hp Ht] Hinv He; cbn [fst] in *.
  - by eapply acquire_expires.
  - by eapply acquire_expires.
  - eapply release_expires; [lia|done..].
  - rewrite Hp. by apply (expires_later _ (clock w)).
Qed.

Lemma rtc_cstep_expires s s' :
  0 ≤ limit ≤ U32_MAX → rtc (cstep sa limit) s s' → conc_inv sa limit s →
  expires_within ttl_ms (clock s.1) (slot s.1) → expires_within ttl_ms (clock s'.1) (slot s'.1).
Proof.
  intros Hlim. induction 1 as [|s s1 s2 Hs _ IH]; [done|].
  eauto using cstep_inv, cstep_expires.
Qed.

(** One acquire without delay on a counter at [n]. *)
Lemma acquire_counted w n :
  script w = [] → 0 ≤ n < I64_MAX →
  (n = 0 ∧ slot w = None ∨ ∃ d, slot w = Some (pretty n, d)) →
  ∃ w', acquire sa limit w
      = (if limit <? n + 1
         then Err (ERateLimit "concurrency_limit_exceeded"
                ("concurrent request limit (" +:+ pretty limit +:+ ") exceeded") (Some 1))
         else Ok (mkPermit key false), w') ∧
    script w' = [] ∧ clock w' = clock w ∧
    slot w' = Some (pretty (if limit <? n + 1 then n else n + 1), Some (clock w + ttl_ms)).
Proof.
  intros Hs Hn Hp. unfold acquire, mbind, io_bind, io_map_err, redis_call.
  rewrite (tick_idle w Hs).
  assert (∃ d, (slot w = None ∧ n = 0) ∨ slot w = Some (pretty n, d)) as [d Hp']
    by (destruct Hp as [[??]|[d ?]]; [exists None; auto|eauto]).
  pose proof (acquire_script key limit (clock w) (redis w) n d Hp' Hn) as Hscr.
  destruct (lua_concurrency_acquire _ _ _ _ _) as [reply st'].
  destruct (limit <? n + 1); destruct Hscr as [-> Hscr]; (eexists; split_and!; [done..|];
    exact Hscr).
Qed.

Lemma run_acquires_counted k n w :
  limit ≤ U32_MAX → script w = [] → 0 ≤ n ≤ limit →
  (n = 0 ∧ slot w = None ∨ ∃ d, slot w = Some (pretty n, d)) →
  permits (run_acquires sa limit k w).1 = Z.min (Z.of_nat k) (limit - n).
Proof.
  intros Hlim. revert n w. induction k as [|k IH]; intros n w Hs Hn Hp; cbn [run_acquires].
  { unfold permits. cbn. lia. }
  destruct (acquire_counted w n Hs ltac:(unfold U32_MAX, I64_MAX in *; lia) Hp)
    as (w1 & -> & Hs1 & Hc1 & Hp1).
  destruct (Z.ltb_spec limit (n + 1)).
  - specialize (IH n w1 Hs1 Hn (or_intror (ex_intro _ _ Hp1))).
    destruct (run_acquires sa limit k w1) as [rs w2]. cbn [fst] in *.
    rewrite permits_cons. cbn [is_ok]. lia.
  - specialize (IH (n + 1) w1 Hs1 ltac:(lia) (or_intror (ex_intro _ _ Hp1))).
    destruct (run_acquires sa limit k w1) as [rs w2]. cbn [fst] in *.
    rewrite permits_cons. cbn [is_ok]. lia.
Qed.

(** Every call executes, each less than the time to live after the one before. *)
Definition keeps_asking w : Prop :=
  Forall (λ s, fault s = None ∧ Z.of_N (elapsed_ms s) < ttl_ms) (script w).

Lemma acquire_renews w n :
  keeps_asking w → 0 ≤ n < I64_MAX → limit ≤ n → slot w = Some (pretty n, Some (clock w + ttl_ms)) →
  ∃ r w', acquire sa limit w = (r, w') ∧ slot_refused limit r ∧ keeps_asking w' ∧
    slot w' = Some (pretty n, Some (clock w' + ttl_ms)).
Proof.
  unfold keeps_asking. intros Hk Hn Hlim Hp.
  unfold acquire, mbind, io_bind, io_map_err, redis_call.
  assert ((tick w).1 = None ∧ redis (tick w).2 = redis w ∧
    clock w ≤ clock (tick w).2 < clock w + ttl_ms ∧
    Forall (λ s, fault s = None ∧ Z.of_N (elapsed_ms s) < ttl_ms) (script (tick w).2))
    as (Hf & Hr & Hc & Hk').
  { unfold tick. destruct (script w) as [|s rest] eqn:Hs; cbn -[Z.mul]; [rewrite Hs|].
    - unfold CONCURRENCY_KEY_TTL_SECS. split_and!; try done; lia.
    - apply Forall_cons in Hk as [[??]?]. split_and!; try done; lia. }
  destruct (tick w) as [flt w1]. cbn [fst snd] in *. subst flt. rewrite Hr.
  assert (peek (clock w1) (redis w) key = Some (pretty n, Some (clock w + ttl_ms))) as Hp1.
  { rewrite (peek_later (clock w)), Hp by lia. cbn -[Z.mul]. unfold live. cbn -[Z.mul].
    by destruct (Z.ltb_spec (clock w1) (clock w + ttl_ms)); [|lia]. }
  pose proof (acquire_script key limit (clock w1) (redis w) n _ (or_intror Hp1) Hn) as Hscr.
  destruct (lua_concurrency_acquire _ _ _ _ _) as [reply st'].
  destruct (Z.ltb_spec limit (n + 1)); [|lia]. destruct Hscr as [-> Hscr].
  eexists _, _. split_and!; [done|done|exact Hk'|exact Hscr].
Qed.

Lemma run_acquires_renew k w n :
  keeps_asking w → 0 ≤ n < I64_MAX → limit ≤ n → slot w = Some (pretty n, Some (clock w + ttl_ms)) →
  Forall (slot_refused limit) (run_acquires sa limit k w).1.
Proof.
  intros Hk Hn Hlim. revert w Hk. induction k as [|k IH]; intros w Hk Hp; cbn [run_acquires].
  { constructor. }
  destruct (acquire_renews w n Hk Hn Hlim Hp) as (r & w1 & -> & Hr & Hk1 & Hp1).
  specialize (IH w1 Hk1 Hp1). destruct (run_acquires sa limit k w1). by constructor.
Qed.
End slots.

(** ** Properties *)



(** C39: where the safety net fails. A refused attempt renews the
    counter's expiry before it undoes its increment, so once all slots are leaked, a caller
    whose attempts are less than [CONCURRENCY_KEY_TTL_SECS] apart is refused every time,
    for as long as it asks. *)
Theorem retries_keep_leaked_slots `{!Backends, !BackendsLaws, !UuidLib} sa limit n w k :
  0 ≤ limit ≤ n → n < I64_MAX → keeps_asking w →
  peek (clock w) (redis w) (concurrency_key sa)
  = Some (pretty n, Some (clock w + CONCURRENCY_KEY_TTL_SECS * 1000)) →
  Forall (slot_refused limit) (run_acquires sa limit k w).1.
Proof. intros Hlim Hn Hk Hp. apply (run_acquires_renew sa limit k w n); [done|lia|lia|done]. Qed.

(** ** Witnesses *)



Lemma retries_keep_leaked_slots_witness :
  let B := mem_backends in let U := decimal_uuid in
  let sa : ServiceAccountId := from_uuid 7 in
  let w := mem_world 1000 [mkStep 60000 None; mkStep 119999 None; mkStep 119999 None]
             {["concurrency:7" := ("1", Some 121000)]} empty_db in
  clock (run_acquires sa 1 3 w).2 = 300998 ∧
  Forall (slot_refused 1) (run_acquires sa 1 3 w).1.
Proof.
  intros B U sa w. split; [by vm_compute|]. pose proof mem_backends_laws.
  apply (retries_keep_leaked_slots sa 1 1 w 3).
  - lia.
  - unfold I64_MAX. lia.
  - unfold keeps_asking, w. cbn. by repeat constructor.
  - by vm_compute.
Defined.
