(* ===== verification/Repositories.v ===== *)
(** * Repositories (src/gateway/crates/gateway/src/storage/repositories/*.rs)

    One module per repository: each SQL statement as a function on the database of
    [Db], each method as the round trips it makes, its result mapping included. *)

From stdpp Require Import options.
From S2P Require Import Prelude Rust Types Errors Json Models Pagination PolicyMerge Backends.
From S2P Require Import Db World.

(** [StorageError::not_found] *)
Definition not_found (entity field value : string) : StorageError :=
  SNotFound entity field value.

(** [.await?] on a query: [From<sqlx::Error>]. *)
Definition query `{!Backends} {A} (stmt : Stmt A) : IO World StorageError A :=
  io_map_err storage_from_sqlx (db_call stmt).
Lemma calls_db_query `{!Backends} {A} (stmt : Stmt A) : calls_db (query stmt).
Proof. apply calls_db_map_err, calls_db_call. Qed.
#[export] Hint Resolve calls_db_query : gate.

(** [if matches!(&e, sqlx::Error::RowNotFound) { nf } else { StorageError::from(e) }] *)
Definition row_not_found_as (nf : StorageError) (e : SqlxError) : StorageError :=
  match e with SqlxRowNotFound _ => nf | _ => storage_from_sqlx e end.

(** [UPDATE ... RETURNING] with [fetch_one]: no row is the error [RowNotFound]. *)
Definition fetch_one {A} (p : option A * Db) : result SqlxError A * Db :=
  (ok_or row_not_found p.1, p.2).
Definition fetch_optional {A} (p : option A * Db) : result SqlxError (option A) * Db :=
  (Ok p.1, p.2).

(** The cursor listing every repository has. *)
Definition list_query `{!Backends, !CursorCodec} {T} (key : T → DateTime * Uuid)
    (cursor : option Cursor) (limit : Z)
    (select : option (DateTime * Uuid) → Z → Db → result SqlxError (list T))
    : IO World StorageError (Page T) :=
  let '(limit, fetch_limit) := clamp_limit limit in
  position ← lift match cursor with
                  | Some c => map_err SInvalidCursor (Some <$> cursor_decode c)
                  | None => mret None
                  end;
  rows ← query (λ _ d, (select position fetch_limit d, d));
  mret (from_rows rows limit key).

Module TenantRepo.
Section repo.
Context `{!Backends, !UuidLib, !CursorCodec}.

Definition stmt_create (input : CreateTenant) : Stmt Tenant := λ t d,
  let row := mkTenant (ct_id input) (ct_name input) (ct_slug input) (ct_status input)
               (ct_metadata input) (sql_now t) (sql_now t) in
  run_insert row
    (insert_row "tenants" (ct_id input) row
       [(exists_row (λ r, bool_decide (tenant_slug r = ct_slug input)) (tenants d),
         "tenants_slug_key")] [] (tenants d))
    set_tenants d.
Definition create (input : CreateTenant) : IO World StorageError Tenant :=
  query (stmt_create input).

Definition get_by_id (id : TenantId) : IO World StorageError Tenant :=
  row ← query (λ _ d, (Ok (tenants d !! id), d));
  lift (ok_or (not_found "tenant" "id" (id_display id)) row).

Definition get_by_slug (slug : string) : IO World StorageError Tenant :=
  row ← query (λ _ d, (Ok (find_row (λ r, bool_decide (tenant_slug r = slug)) (tenants d)), d));
  lift (ok_or (not_found "tenant" "slug" slug) row).

Definition tenant_key (t : Tenant) : DateTime * Uuid :=
  (tenant_created_at t, uuid_of (tenant_id t)).
Definition status_matches (status : option TenantStatus) (t : Tenant) : bool :=
  match status with Some s => bool_decide (tenant_status t = s) | None => true end.
Definition list (cursor : option Cursor) (limit : Z) (status : option TenantStatus)
    : IO World StorageError (Page Tenant) :=
  list_query tenant_key cursor limit
    (λ position fetch d,
      Ok (select_page tenant_key (status_matches status) position fetch (rows (tenants d)))).

(** [UPDATE tenants SET name = COALESCE(..), metadata = COALESCE(..)]; the trigger sets
    [updated_at]. Slug and status are not written. *)
Definition apply_update (t : Z) (input : UpdateTenant) (r : Tenant) : Tenant :=
  mkTenant (tenant_id r) (default (tenant_name r) (ut_name input)) (tenant_slug r)
    (tenant_status r) (default (tenant_metadata r) (ut_metadata input))
    (tenant_created_at r) (sql_now t).
Definition stmt_update (id : TenantId) (input : UpdateTenant) : Stmt Tenant := λ t d,
  let '(row, m) := update_row id (λ _, true) (apply_update t input) (tenants d) in
  fetch_one (row, set_tenants (λ _, m) d).
Definition update (id : TenantId) (input : UpdateTenant) : IO World StorageError Tenant :=
  io_map_err (row_not_found_as (not_found "tenant" "id" (id_display id)))
    (db_call (stmt_update id input)).

(** The two statements of [soft_delete]. *)
Definition suspend_account (t : Z) (tenant : TenantId) (sa : ServiceAccount) : ServiceAccount :=
  if bool_decide (sa_tenant_id sa = tenant) && bool_decide (sa_status sa = SaActive)
  then mkServiceAccount (sa_id sa) (sa_tenant_id sa) (sa_name sa) (sa_slug sa)
         (sa_environment sa) (sa_description sa) SaSuspended (sa_default_policy_id sa)
         (sa_created_at sa) (sql_now t)
  else sa.
Definition stmt_suspend_accounts (id : TenantId) : Stmt unit := λ t d,
  (Ok tt, set_service_accounts (fmap (suspend_account t id)) d).
Definition mark_deleted (t : Z) (r : Tenant) : Tenant :=
  mkTenant (tenant_id r) (tenant_name r) (tenant_slug r) TenantDeleted (tenant_metadata r)
    (tenant_created_at r) (sql_now t).
Definition stmt_mark_deleted (id : TenantId) : Stmt (option Tenant) := λ t d,
  let '(row, m) := update_row id (λ _, true) (mark_deleted t) (tenants d) in
  fetch_optional (row, set_tenants (λ _, m) d).
Definition soft_delete (id : TenantId) : IO World StorageError Tenant :=
  transaction storage_from_sqlx
    (_ ← query (stmt_suspend_accounts id);
     tenant ← query (stmt_mark_deleted id);
     lift (ok_or (not_found "tenant" "id" (id_display id)) tenant)).
End repo.
End TenantRepo.

Module ServiceAccountRepo.
(** The account with its tenant's status, as the auth path reads it. *)
Record ServiceAccountWithTenantStatus : Type := mkSaWithTenant {
  swt_account : ServiceAccount;
  swt_tenant_status : TenantStatus
}.

Section repo.
Context `{!Backends, !UuidLib, !CursorCodec}.

Definition stmt_create (input : CreateServiceAccount) : Stmt ServiceAccount := λ t d,
  let row := mkServiceAccount (csa_id input) (csa_tenant_id input) (csa_name input)
               (csa_slug input) (csa_environment input) (csa_description input)
               (csa_status input) (csa_default_policy_id input) (sql_now t) (sql_now t) in
  run_insert row
    (insert_row "service_accounts" (csa_id input) row
       [(exists_row (λ r, bool_decide (sa_tenant_id r = csa_tenant_id input) &&
                          bool_decide (sa_slug r = csa_slug input)) (service_accounts d),
         "service_accounts_tenant_id_slug_key")]
       [(ref_ok (Some (csa_tenant_id input)) (tenants d), "service_accounts_tenant_id_fkey");
        (ref_ok (csa_default_policy_id input) (policies d), "fk_service_accounts_default_policy")]
       (service_accounts d))
    set_service_accounts d.
Definition create (input : CreateServiceAccount) : IO World StorageError ServiceAccount :=
  query (stmt_create input).

Definition sa_not_found (id : ServiceAccountId) : StorageError :=
  not_found "service_account" "id" (id_display id).

Definition get_by_id_unscoped (id : ServiceAccountId) : IO World StorageError ServiceAccount :=
  row ← query (λ _ d, (Ok (service_accounts d !! id), d));
  lift (ok_or (sa_not_found id) row).

(** [service_accounts sa INNER JOIN tenants t ON t.id = sa.tenant_id WHERE sa.id = $1] *)
Definition select_with_tenant (id : ServiceAccountId) (d : Db)
    : option ServiceAccountWithTenantStatus :=
  sa ← service_accounts d !! id;
  t ← tenants d !! sa_tenant_id sa;
  Some (mkSaWithTenant sa (tenant_status t)).
Definition get_with_tenant_status (id : ServiceAccountId)
    : IO World StorageError ServiceAccountWithTenantStatus :=
  row ← query (λ _ d, (Ok (select_with_tenant id d), d));
  lift (ok_or (sa_not_found id) row).

(** [WHERE id = $1 AND tenant_id = $2] *)
Definition scoped (tenant_id : TenantId) (sa : ServiceAccount) : bool :=
  bool_decide (sa_tenant_id sa = tenant_id).
Definition get_by_id (tenant_id : TenantId) (id : ServiceAccountId)
    : IO World StorageError ServiceAccount :=
  row ← query (λ _ d, (Ok (sa ← service_accounts d !! id;
                           if scoped tenant_id sa then Some sa else None), d));
  lift (ok_or (sa_not_found id) row).

Definition sa_key (sa : ServiceAccount) : DateTime * Uuid :=
  (sa_created_at sa, uuid_of (sa_id sa)).
Definition list_by_tenant (tenant_id : TenantId) (cursor : option Cursor) (limit : Z)
    : IO World StorageError (Page ServiceAccount) :=
  list_query sa_key cursor limit
    (λ position fetch d,
      Ok (select_page sa_key (scoped tenant_id) position fetch (rows (service_accounts d)))).

(** [UPDATE ... SET name = COALESCE(..), description = COALESCE(..)] *)
Definition apply_update (t : Z) (input : UpdateServiceAccount) (r : ServiceAccount)
    : ServiceAccount :=
  mkServiceAccount (sa_id r) (sa_tenant_id r) (default (sa_name r) (usa_name input)) (sa_slug r)
    (sa_environment r)
    (match usa_description input with Some x => Some x | None => sa_description r end)
    (sa_status r) (sa_default_policy_id r) (sa_created_at r) (sql_now t).
(** [UPDATE ... SET status = $1] *)
Definition set_status (t : Z) (status : ServiceAccountStatus) (r : ServiceAccount)
    : ServiceAccount :=
  mkServiceAccount (sa_id r) (sa_tenant_id r) (sa_name r) (sa_slug r) (sa_environment r)
    (sa_description r) status (sa_default_policy_id r) (sa_created_at r) (sql_now t).
Definition stmt_update_scoped (f : Z → ServiceAccount → ServiceAccount) (tenant_id : TenantId)
    (id : ServiceAccountId) : Stmt (option ServiceAccount) := λ t d,
  let '(row, m) := update_row id (scoped tenant_id) (f t) (service_accounts d) in
  fetch_optional (row, set_service_accounts (λ _, m) d).

Definition update (tenant_id : TenantId) (id : ServiceAccountId) (input : UpdateServiceAccount)
    : IO World StorageError ServiceAccount :=
  row ← query (stmt_update_scoped (λ t, apply_update t input) tenant_id id);
  lift (ok_or (sa_not_found id) row).
Definition suspend (tenant_id : TenantId) (id : ServiceAccountId)
    : IO World StorageError ServiceAccount :=
  row ← query (stmt_update_scoped (λ t, set_status t SaSuspended) tenant_id id);
  lift (ok_or (sa_not_found id) row).
Definition activate (tenant_id : TenantId) (id : ServiceAccountId)
    : IO World StorageError ServiceAccount :=
  row ← query (stmt_update_scoped (λ t, set_status t SaActive) tenant_id id);
  lift (ok_or (sa_not_found id) row).
End repo.
End ServiceAccountRepo.

Module KeyRepo.
Section repo.
Context `{!Backends, !UuidLib, !CursorCodec}.

Definition stmt_register (id : KeyId) (input : RegisterKey) : Stmt ServiceAccountKey := λ t d,
  let row := mkServiceAccountKey id (rk_service_account_id input) (rk_key_id input)
               (rk_algorithm input) (rk_public_key_pem input) (rk_fingerprint input)
               KeyActive (rk_expires_at input) (sql_now t) None None in
  run_insert row
    (insert_row "service_account_keys" id row
       [(exists_row (λ r, bool_decide (key_key_id r = rk_key_id input))
           (service_account_keys d), "service_account_keys_key_id_key")]
       [(ref_ok (Some (rk_service_account_id input)) (service_accounts d),
         "service_account_keys_service_account_id_fkey")]
       (service_account_keys d))
    set_keys d.
(** The primary key is the column default [gen_random_uuid()]. *)
Definition register_key (input : RegisterKey) : IO World StorageError ServiceAccountKey :=
  id ← new_uuid;
  query (stmt_register (from_uuid id) input).

Definition select_by_key_id (key_id : string) (d : Db) : option ServiceAccountKey :=
  find_row (λ r, bool_decide (key_key_id r = key_id)) (service_account_keys d).
Definition get_by_key_id (key_id : string) : IO World StorageError ServiceAccountKey :=
  row ← query (λ _ d, (Ok (select_by_key_id key_id d), d));
  lift (ok_or (not_found "key" "key_id" key_id) row).

Definition key_key (k : ServiceAccountKey) : DateTime * Uuid :=
  (key_created_at k, uuid_of (key_uuid k)).
Definition owned_by (sa : ServiceAccountId) (k : ServiceAccountKey) : bool :=
  bool_decide (key_service_account_id k = sa).
Definition list_by_service_account (sa : ServiceAccountId) (cursor : option Cursor) (limit : Z)
    : IO World StorageError (Page ServiceAccountKey) :=
  list_query key_key cursor limit
    (λ position fetch d,
      Ok (select_page key_key (owned_by sa) position fetch (rows (service_account_keys d)))).

(** [SET status = 'revoked', revoked_at = NOW()] *)
Definition mark_revoked (t : Z) (r : ServiceAccountKey) : ServiceAccountKey :=
  mkServiceAccountKey (key_uuid r) (key_service_account_id r) (key_key_id r) (key_algorithm r)
    (key_public_key_pem r) (key_fingerprint r) KeyRevoked (key_expires_at r) (key_created_at r)
    (Some (sql_now t)) (key_last_used_at r).
Definition mark_used (t : Z) (r : ServiceAccountKey) : ServiceAccountKey :=
  mkServiceAccountKey (key_uuid r) (key_service_account_id r) (key_key_id r) (key_algorithm r)
    (key_public_key_pem r) (key_fingerprint r) (key_status r) (key_expires_at r)
    (key_created_at r) (key_revoked_at r) (Some (sql_now t)).
Definition stmt_update_key (p : ServiceAccountKey → bool)
    (f : Z → ServiceAccountKey → ServiceAccountKey) (id : KeyId)
    : Stmt (option ServiceAccountKey) := λ t d,
  let '(row, m) := update_row id p (f t) (service_account_keys d) in
  fetch_optional (row, set_keys (λ _, m) d).

Definition revoke (id : KeyId) : IO World StorageError ServiceAccountKey :=
  row ← query (stmt_update_key (λ _, true) mark_revoked id);
  lift (ok_or (not_found "key" "id" (id_display id)) row).
Definition revoke_scoped (id : KeyId) (sa : ServiceAccountId)
    : IO World StorageError ServiceAccountKey :=
  row ← query (stmt_update_key (owned_by sa) mark_revoked id);
  lift (ok_or (not_found "key" "id" (id_display id)) row).
Definition update_last_used (id : KeyId) : IO World StorageError unit :=
  _ ← query (stmt_update_key (λ _, true) mark_used id);
  mret tt.
End repo.
End KeyRepo.

Module PolicyRepo.
Section repo.
Context `{!Backends, !UuidLib, !CursorCodec}.

Definition stmt_create (input : CreatePolicy) : Stmt Policy := λ t d,
  let row := mkPolicy (cp_policy_id input) (cp_tenant_id input) (cp_name input)
               (cp_description input) (cp_allowed_models_json input)
               (cp_denied_models_json input) (cp_max_input_tokens input)
               (cp_max_output_tokens input) (cp_allow_streaming input) (cp_allow_tools input)
               (cp_allow_files input) (cp_rpm_limit input) (cp_concurrency_limit input)
               (sql_now t) (sql_now t) in
  run_insert row
    (insert_row "policies" (cp_policy_id input) row []
       [(ref_ok (Some (cp_tenant_id input)) (tenants d), "policies_tenant_id_fkey")]
       (policies d))
    set_policies d.
Definition create (input : CreatePolicy) : IO World StorageError Policy :=
  query (stmt_create input).

Definition policy_not_found (id : PolicyId) : StorageError :=
  not_found "policy" "id" (id_display id).
Definition scoped (tenant_id : TenantId) (p : Policy) : bool :=
  bool_decide (policy_tenant_id p = tenant_id).
Definition get_by_id (tenant_id : TenantId) (id : PolicyId) : IO World StorageError Policy :=
  row ← query (λ _ d, (Ok (p ← policies d !! id;
                           if scoped tenant_id p then Some p else None), d));
  lift (ok_or (policy_not_found id) row).

Definition policy_key (p : Policy) : DateTime * Uuid :=
  (policy_created_at p, uuid_of (policy_id p)).
Definition list_by_tenant (tenant_id : TenantId) (cursor : option Cursor) (limit : Z)
    : IO World StorageError (Page Policy) :=
  list_query policy_key cursor limit
    (λ position fetch d,
      Ok (select_page policy_key (scoped tenant_id) position fetch (rows (policies d)))).

(** [COALESCE($n, column)] for a nullable column. *)
Definition coalesce {A} (new old : option A) : option A :=
  match new with Some x => Some x | None => old end.
Definition apply_update (t : Z) (i : UpdatePolicy) (p : Policy) : Policy :=
  mkPolicy (policy_id p) (policy_tenant_id p) (default (policy_name p) (up_name i))
    (coalesce (up_description i) (policy_description p))
    (default (allowed_models_json p) (up_allowed_models_json i))
    (default (denied_models_json p) (up_denied_models_json i))
    (coalesce (up_max_input_tokens i) (policy_max_input_tokens p))
    (coalesce (up_max_output_tokens i) (policy_max_output_tokens p))
    (default (policy_allow_streaming p) (up_allow_streaming i))
    (default (policy_allow_tools p) (up_allow_tools i))
    (default (policy_allow_files p) (up_allow_files i))
    (coalesce (up_rpm_limit i) (policy_rpm_limit p))
    (coalesce (up_concurrency_limit i) (policy_concurrency_limit p))
    (policy_created_at p) (sql_now t).
Definition stmt_update (tenant_id : TenantId) (id : PolicyId) (input : UpdatePolicy)
    : Stmt Policy := λ t d,
  let '(row, m) := update_row id (scoped tenant_id) (apply_update t input) (policies d) in
  fetch_one (row, set_policies (λ _, m) d).
Definition update (tenant_id : TenantId) (id : PolicyId) (input : UpdatePolicy)
    : IO World StorageError Policy :=
  io_map_err (row_not_found_as (policy_not_found id)) (db_call (stmt_update tenant_id id input)).

(** [DELETE FROM policies]: the bindings go with the policy ([ON DELETE CASCADE]) and
    the accounts that had it as default lose it ([ON DELETE SET NULL]). *)
Definition unset_default (t : Z) (id : PolicyId) (sa : ServiceAccount) : ServiceAccount :=
  if bool_decide (sa_default_policy_id sa = Some id)
  then mkServiceAccount (sa_id sa) (sa_tenant_id sa) (sa_name sa) (sa_slug sa)
         (sa_environment sa) (sa_description sa) (sa_status sa) None (sa_created_at sa)
         (sql_now t)
  else sa.
Definition stmt_delete (tenant_id : TenantId) (id : PolicyId) : Stmt Z := λ t d,
  match policies d !! id with
  | Some p =>
    if scoped tenant_id p
    then (Ok 1,
          set_policies (delete id)
            (set_bindings (filter (λ b, binding_policy_id b.2 ≠ id))
              (set_service_accounts (fmap (unset_default t id)) d)))
    else (Ok 0, d)
  | None => (Ok 0, d)
  end.
Definition delete_policy (tenant_id : TenantId) (id : PolicyId) : IO World StorageError unit :=
  affected ← query (stmt_delete tenant_id id);
  lift (throw_if (affected =? 0) (policy_not_found id)).

(** ** Bindings *)

Definition stmt_bind (id : Uuid) (sa : ServiceAccountId) (policy : PolicyId)
    : Stmt ServiceAccountPolicyBinding := λ t d,
  let row := mkBinding id sa policy (sql_now t) in
  run_insert row
    (insert_row "service_account_policy_bindings" id row
       [(exists_row (λ b, bool_decide (binding_service_account_id b = sa) &&
                          bool_decide (binding_policy_id b = policy)) (bindings d),
         "service_account_policy_bindings_service_account_id_policy_id_key")]
       [(ref_ok (Some sa) (service_accounts d),
         "service_account_policy_bindings_service_account_id_fkey");
        (ref_ok (Some policy) (policies d), "service_account_policy_bindings_policy_id_fkey")]
       (bindings d))
    set_bindings d.
Definition create_binding (sa : ServiceAccountId) (policy : PolicyId)
    : IO World StorageError ServiceAccountPolicyBinding :=
  id ← new_uuid;
  query (stmt_bind id sa policy).

Definition is_binding (sa : ServiceAccountId) (policy : PolicyId)
    (b : ServiceAccountPolicyBinding) : bool :=
  bool_decide (binding_service_account_id b = sa) && bool_decide (binding_policy_id b = policy).
Definition stmt_unbind (sa : ServiceAccountId) (policy : PolicyId) : Stmt Z := λ _ d,
  let kept := filter (λ b, is_binding sa policy b.2 = false) (bindings d) in
  (Ok (Z.of_nat (size (bindings d)) - Z.of_nat (size kept)), set_bindings (λ _, kept) d).
Definition delete_binding (sa : ServiceAccountId) (policy : PolicyId)
    : IO World StorageError unit :=
  affected ← query (stmt_unbind sa policy);
  lift (throw_if (affected =? 0)
    (not_found "policy_binding" "service_account_id+policy_id"
       (id_display sa +:+ "+" +:+ id_display policy))).

(** [policies p JOIN bindings b ON p.id = b.policy_id WHERE b.service_account_id = $1],
    in an order the statement does not fix. *)
Definition select_bound (sa : ServiceAccountId) (d : Db) : list Policy :=
  omap (λ b, if bool_decide (binding_service_account_id b = sa)
             then policies d !! binding_policy_id b else None) (rows (bindings d)).
Definition list_policies_for_service_account (sa : ServiceAccountId)
    (default_policy_id : option PolicyId) : IO World StorageError (list Policy) :=
  bound ← query (λ _ d, (Ok (select_bound sa d), d));
  match default_policy_id with
  | Some default_id =>
    let already_present := existsb (λ p, bool_decide (policy_id p = default_id)) bound in
    if negb already_present
    then
      default_policy ← query (λ _ d, (Ok (policies d !! default_id), d));
      mret (match default_policy with Some dp => bound ++ [dp] | None => bound end)
    else mret bound
  | None => mret bound
  end.
End repo.
End PolicyRepo.

Module RouteRepo.
Section repo.
Context `{!Backends, !UuidLib, !CursorCodec}.

(** Decoding a row into the struct: the provider column must name a variant. *)
Definition decode_route (r : RouteRow) : result SqlxError ProviderRoute :=
  match enum_parse (rr_provider r) with
  | Some provider =>
    Ok (mkProviderRoute (rr_id r) (rr_tenant_id r) (rr_model_alias r) provider
          (rr_provider_model_name r) (rr_priority r) (rr_enabled r) (rr_timeout_ms r)
          (rr_max_retries r) (rr_retry_backoff_ms r) (rr_config r) (rr_created_at r)
          (rr_updated_at r))
  | None => Err (SqlxOther ("error occurred while decoding column provider: invalid value "
                            +:+ rr_provider r))
  end.
Fixpoint decode_all (rs : list RouteRow) : result SqlxError (list ProviderRoute) :=
  match rs with
  | [] => mret []
  | r :: rs => x ← decode_route r; xs ← decode_all rs; mret (x :: xs)
  end.
Definition decode_opt (r : option RouteRow) : result SqlxError (option ProviderRoute) :=
  match r with Some r => Some <$> decode_route r | None => Ok None end.

Definition row_key (r : RouteRow) : DateTime * Uuid := (rr_created_at r, uuid_of (rr_id r)).
Definition route_key (r : ProviderRoute) : DateTime * Uuid :=
  (route_created_at r, uuid_of (route_id r)).
Definition is_global (r : RouteRow) : bool := bool_decide (rr_tenant_id r = None).
Definition of_tenant (t : TenantId) (r : RouteRow) : bool :=
  bool_decide (rr_tenant_id r = Some t).

Definition list_global (cursor : option Cursor) (limit : Z)
    : IO World StorageError (Page ProviderRoute) :=
  list_query route_key cursor limit
    (λ position fetch d,
      decode_all (select_page row_key is_global position fetch (rows (provider_routes d)))).
Definition list_by_tenant (tenant_id : TenantId) (cursor : option Cursor) (limit : Z)
    : IO World StorageError (Page ProviderRoute) :=
  list_query route_key cursor limit
    (λ position fetch d,
      decode_all
        (select_page row_key (of_tenant tenant_id) position fetch (rows (provider_routes d)))).

(** The row is inserted before it is decoded: an unknown provider is stored and then
    reported as an error. *)
Definition stmt_create (id : RouteId) (input : CreateRoute) : Stmt ProviderRoute := λ t d,
  let row := mkRouteRow id (cr_tenant_id input) (cr_model_alias input) (cr_provider input)
               (cr_provider_model_name input) (default 100 (cr_priority input))
               (default true (cr_enabled input)) (default 30000 (cr_timeout_ms input))
               (default 1 (cr_max_retries input)) (default 250 (cr_retry_backoff_ms input))
               (default (JObject []) (cr_config input)) (sql_now t) (sql_now t) in
  match insert_row "provider_routes" id row []
          [(ref_ok (cr_tenant_id input) (tenants d), "provider_routes_tenant_id_fkey")]
          (provider_routes d) with
  | Ok m => (decode_route row, set_routes (λ _, m) d)
  | Err e => (Err e, d)
  end.
Definition create (input : CreateRoute) : IO World StorageError ProviderRoute :=
  id ← new_uuid;
  query (stmt_create (from_uuid id) input).

Definition route_not_found (id : RouteId) : StorageError := not_found "route" "id" (id_display id).
Definition get_by_id (id : RouteId) : IO World StorageError ProviderRoute :=
  row ← query (λ _ d, (decode_opt (provider_routes d !! id), d));
  lift (ok_or (route_not_found id) row).

Definition apply_update (t : Z) (i : UpdateRoute) (r : RouteRow) : RouteRow :=
  mkRouteRow (rr_id r) (rr_tenant_id r) (default (rr_model_alias r) (ur_model_alias i))
    (default (rr_provider r) (ur_provider i))
    (default (rr_provider_model_name r) (ur_provider_model_name i))
    (default (rr_priority r) (ur_priority i)) (default (rr_enabled r) (ur_enabled i))
    (default (rr_timeout_ms r) (ur_timeout_ms i)) (default (rr_max_retries r) (ur_max_retries i))
    (default (rr_retry_backoff_ms r) (ur_retry_backoff_ms i))
    (default (rr_config r) (ur_config i)) (rr_created_at r) (sql_now t).
Definition stmt_update (id : RouteId) (input : UpdateRoute) : Stmt ProviderRoute := λ t d,
  match update_row id (λ _, true) (apply_update t input) (provider_routes d) with
  | (Some row, m) => (decode_route row, set_routes (λ _, m) d)
  | (None, _) => (Err row_not_found, d)
  end.
Definition update (id : RouteId) (input : UpdateRoute) : IO World StorageError ProviderRoute :=
  io_map_err (row_not_found_as (route_not_found id)) (db_call (stmt_update id input)).

Definition stmt_delete (id : RouteId) : Stmt Z := λ _ d,
  (Ok (if bool_decide (is_Some (provider_routes d !! id)) then 1 else 0),
   set_routes (delete id) d).
Definition delete_route (id : RouteId) : IO World StorageError unit :=
  affected ← query (stmt_delete id);
  lift (throw_if (affected =? 0) (route_not_found id)).

(** The hot path: enabled routes of the alias, the tenant's own before the global ones,
    then by ascending priority. Ties keep the scan order. *)
Definition route_rank (r : RouteRow) : Z * Z :=
  (if bool_decide (is_Some (rr_tenant_id r)) then 0 else 1, rr_priority r).
Definition rank_le (a b : RouteRow) : Prop :=
  let '(ca, pa) := route_rank a in let '(cb, pb) := route_rank b in
  ca < cb ∨ (ca = cb ∧ pa ≤ pb).
#[global] Instance rank_le_dec : RelDecision rank_le.
Proof. intros a b. unfold rank_le. destruct (route_rank a), (route_rank b). apply _. Defined.
Definition resolves (tenant_id : TenantId) (model_alias : string) (r : RouteRow) : bool :=
  bool_decide (rr_model_alias r = model_alias) && rr_enabled r &&
  (bool_decide (rr_tenant_id r = Some tenant_id) || bool_decide (rr_tenant_id r = None)).
Definition select_routes (tenant_id : TenantId) (model_alias : string) (d : Db) : list RouteRow :=
  merge_sort rank_le
    (filter (λ r, resolves tenant_id model_alias r = true) (rows (provider_routes d))).
Definition resolve_routes (tenant_id : TenantId) (model_alias : string)
    : IO World StorageError (list ProviderRoute) :=
  query (λ _ d, (decode_all (select_routes tenant_id model_alias d), d)).
End repo.
End RouteRepo.

Module AdminApiKeyRepo.
Section repo.
Context `{!Backends}.

(** [WHERE is_active = TRUE ORDER BY created_at] *)
Definition created_le (a b : AdminApiKey) : Prop := ak_created_at a ≤ ak_created_at b.
#[global] Instance created_le_dec : RelDecision created_le.
Proof. intros a b. unfold created_le. apply _. Defined.
Definition list_active : IO World StorageError (list AdminApiKey) :=
  query (λ _ d,
    (Ok (merge_sort created_le (filter (λ k, ak_is_active k = true) (rows (admin_api_keys d)))),
     d)).

Definition mark_used (t : Z) (k : AdminApiKey) : AdminApiKey :=
  mkAdminApiKey (ak_id k) (ak_name k) (ak_key_hash k) (ak_role k) (ak_is_active k)
    (ak_created_at k) (Some (sql_now t)).
Definition touch_last_used (id : Uuid) : IO World StorageError unit :=
  query (λ t d,
    (Ok tt, set_admin_keys (λ m, (update_row id (λ _, true) (mark_used t) m).2) d)).
End repo.
End AdminApiKeyRepo.

Module AuditRepo.
Record CreateAuditEvent : Type := mkCreateAuditEvent {
  cae_tenant_id : option TenantId;
  cae_actor_type : string;
  cae_actor_id : string;
  cae_action : string;
  cae_target_type : string;
  cae_target_id : string;
  cae_metadata_json : Value
}.
Record AuditFilter : Type := mkAuditFilter {
  af_tenant_id : option TenantId;
  af_action : option string;
  af_target_type : option string;
  af_actor_id : option string;
  af_start_date : option DateTime;
  af_end_date : option DateTime
}.

Section repo.
Context `{!Backends, !CursorCodec}.

Definition stmt_insert (id : AuditEventId) (i : CreateAuditEvent) : Stmt AuditEvent := λ t d,
  let row := mkAuditEvent id (cae_tenant_id i) (cae_actor_type i) (cae_actor_id i)
               (cae_action i) (cae_target_type i) (cae_target_id i) (cae_metadata_json i)
               (sql_now t) in
  run_insert row
    (insert_row "audit_events" id row []
       [(ref_ok (cae_tenant_id i) (tenants d), "audit_events_tenant_id_fkey")] (audit_events d))
    set_audit d.
Definition insert_event (input : CreateAuditEvent) : IO World StorageError AuditEvent :=
  id ← new_uuid;
  query (stmt_insert (from_uuid id) input).

(** [$n IS NULL OR condition] *)
Definition if_given {A} (o : option A) (p : A → bool) : bool :=
  match o with Some a => p a | None => true end.
Definition matches_filter (f : AuditFilter) (e : AuditEvent) : bool :=
  if_given (af_tenant_id f) (λ t, bool_decide (ae_tenant_id e = Some t)) &&
  if_given (af_action f) (λ a, bool_decide (ae_action e = a)) &&
  if_given (af_target_type f) (λ a, bool_decide (ae_target_type e = a)) &&
  if_given (af_actor_id f) (λ a, bool_decide (ae_actor_id e = a)) &&
  if_given (af_start_date f) (λ s, s <=? ae_created_at e) &&
  if_given (af_end_date f) (λ s, ae_created_at e <=? s).
Definition audit_key (e : AuditEvent) : DateTime * Uuid := (ae_created_at e, uuid_of (ae_id e)).
Definition list_events (filter : AuditFilter) (cursor : option Cursor) (limit : Z)
    : IO World StorageError (Page AuditEvent) :=
  list_query audit_key cursor limit
    (λ position fetch d,
      Ok (select_page audit_key (matches_filter filter) position fetch
            (rows (audit_events d)))).
End repo.
End AuditRepo.
