(* ===== verification/Metering.v ===== *)
(** * Usage and pricing repositories (storage/repositories/usage.rs, audit.rs)

    [UsageRepo]: the append-only, partitioned table of usage events, its single and batch
    inserts and the aggregation query. [PricingRepo]: the versioned price list. The
    column types of the migrations that change a value on its way in (NUMERIC) and the
    partitions a row may fall into are written out. *)

From Stdlib Require Import SpecFloat.
From stdpp Require Import options.
From S2P Require Import Prelude Rust Types Errors Json Models Pagination PolicyMerge Backends.
From S2P Require Import Db World Float64 Repositories.

(** ** NUMERIC columns

    PostgreSQL rounds a value half away from zero to the column's scale and refuses one
    whose rounded absolute value needs more than [precision] digits. *)

Definition round_half_away (unit x : Z) : Z := Z.sgn x * ((Z.abs x + unit / 2) / unit * unit).

Definition numeric_overflow : SqlxError :=
  SqlxDatabase (Some "22003") None "numeric field overflow"
    "error returned from database: numeric field overflow".
Definition bigint_out_of_range : SqlxError :=
  SqlxDatabase (Some "22003") None "bigint out of range"
    "error returned from database: bigint out of range".

(** [NUMERIC(precision, scale)] *)
Definition numeric_column (precision scale : Z) (x : Decimal) : result SqlxError Decimal :=
  let y := round_half_away (10 ^ (28 - scale)) x in
  _ ← throw_if (10 ^ (28 + precision - scale) <=? Z.abs y) numeric_overflow;
  mret y.

(** The conversions between NUMERIC results and the driver's types: a quotient as a
    double, and an exact sum as a [Decimal], which holds 28 significant digits. *)
Class PgNumeric : Type := {
  avg_float8 : Z → Z → f64;
  decode_numeric : Z → result SqlxError Decimal
}.
Class PgNumericLaws `{!PgNumeric} : Prop := {
  decode_numeric_exact x :
    (10 ^ 20 | x) → Z.abs x < 10 ^ 48 → decode_numeric x = Ok x
}.

(** The order of a text column: the database's collation, deterministic by default. *)
Class TextCollation : Type := text_leb : string → string → bool.
Class TextCollationLaws `{!TextCollation} : Prop := {
  text_leb_total a b : text_leb a b = true ∨ text_leb b a = true;
  text_leb_trans a b c : text_leb a b = true → text_leb b c = true → text_leb a c = true;
  text_leb_antisym a b : text_leb a b = true → text_leb b a = true → a = b
}.

Module UsageRepo.

Record CreateUsageEvent : Type := mkCreateUsageEvent {
  cue_request_id : string;
  cue_tenant_id : TenantId;
  cue_service_account_id : ServiceAccountId;
  cue_provider_route_id : option Uuid;
  cue_provider : string;
  cue_model_alias : string;
  cue_provider_model_name : string;
  cue_prompt_tokens : Z;
  cue_completion_tokens : Z;
  cue_total_tokens : Z;
  cue_estimated_cost : Decimal;
  cue_currency : string;
  cue_latency_ms : Z;
  cue_retry_count : Z;
  cue_final_status : string;
  cue_is_streaming : bool
}.

Record UsageSummary : Type := mkUsageSummary {
  us_total_requests : Z;
  us_total_prompt_tokens : Z;
  us_total_completion_tokens : Z;
  us_total_tokens : Z;
  us_total_cost : Decimal;
  us_avg_latency_ms : f64;
  us_error_count : Z
}.

Record UsageFilter : Type := mkUsageFilter {
  uf_tenant_id : option TenantId;
  uf_service_account_id : option ServiceAccountId;
  uf_model_alias : option string;
  uf_provider : option string;
  uf_start_date : option DateTime;
  uf_end_date : option DateTime
}.

(** *** The partitions

    [FOR VALUES FROM (lo) TO (hi)]: the first instants of the months from April to August
    2026, UTC (the driver opens its sessions with that time zone), in microseconds. *)
Definition month_start (unix_day : Z) : DateTime := unix_day * 86400000000.
Definition partitions : list (string * DateTime * DateTime) :=
  [("usage_events_y2026m04", month_start 20544, month_start 20574);
   ("usage_events_y2026m05", month_start 20574, month_start 20605);
   ("usage_events_y2026m06", month_start 20605, month_start 20635);
   ("usage_events_y2026m07", month_start 20635, month_start 20666)].
Definition holds_instant (c : DateTime) (p : string * DateTime * DateTime) : bool :=
  (p.1.2 <=? c) && (c <? p.2).
Definition partition_of (c : DateTime) : option string :=
  (λ p, p.1.1) <$> head (filter (λ p, holds_instant c p = true) partitions).
Definition no_partition : SqlxError :=
  let m := "no partition of relation usage_events found for row" in
  SqlxDatabase (Some "23514") (Some "usage_events") m ("error returned from database: " +:+ m).

(** *** Inserts *)

(** The row of [VALUES (...)]: the columns' types and defaults applied. *)
Definition usage_row (t : Z) (id : UsageEventId) (i : CreateUsageEvent)
    : result SqlxError UsageEvent :=
  cost ← numeric_column 18 6 (cue_estimated_cost i);
  mret (mkUsageEvent id (cue_request_id i) (cue_tenant_id i) (cue_service_account_id i)
          (cue_provider_route_id i) (cue_provider i) (cue_model_alias i)
          (cue_provider_model_name i) (cue_prompt_tokens i) (cue_completion_tokens i)
          (cue_total_tokens i) cost (cue_currency i) (cue_latency_ms i) (cue_retry_count i)
          (cue_final_status i) (cue_is_streaming i) (sql_now t)).

(** One row of an [INSERT]: routed to its partition, then checked there against the
    primary key and the unique index. *)
Definition insert_usage (t : Z) (m : gmap (UsageEventId * DateTime) UsageEvent)
    (p : UsageEventId * CreateUsageEvent)
    : result SqlxError (UsageEvent * gmap (UsageEventId * DateTime) UsageEvent) :=
  row ← usage_row t p.1 p.2;
  part ← ok_or no_partition (partition_of (ue_created_at row));
  m' ← insert_row part (ue_key row) row
         [(exists_row (λ r, bool_decide (ue_request r = ue_request row)) m,
           part +:+ "_request_id_created_at_idx")] [] m;
  mret (row, m').

Definition stmt_insert (id : UsageEventId) (i : CreateUsageEvent) : Stmt UsageEvent := λ t d,
  match insert_usage t (usage_events d) (id, i) with
  | Ok (row, m) => (Ok row, set_usage (λ _, m) d)
  | Err e => (Err e, d)
  end.

(** The multi-row [INSERT]: one statement, so an error in any row undoes them all. *)
Definition stmt_batch (rows : list (UsageEventId * CreateUsageEvent)) : Stmt Z := λ t d,
  match for_each (λ m p, snd <$> insert_usage t m p) (usage_events d) rows with
  | Ok m => (Ok (Z.of_nat (length rows)), set_usage (λ _, m) d)
  | Err e => (Err e, d)
  end.

Section repo.
Context `{!Backends}.

Definition insert_one (input : CreateUsageEvent) : IO World StorageError UsageEvent :=
  id ← new_uuid;
  query (stmt_insert (from_uuid id) input).

(** [gen_random_uuid()] once per row. *)
Fixpoint with_ids {E} (events : list CreateUsageEvent)
    : IO World E (list (UsageEventId * CreateUsageEvent)) :=
  match events with
  | [] => mret []
  | e :: events =>
    id ← new_uuid;
    rest ← with_ids events;
    mret ((from_uuid id, e) :: rest)
  end.

(** The wire protocol counts a statement's arguments in 16 bits; [bind_overflow] is the
    error the driver answers with beyond them. *)
Variable bind_overflow : SqlxError.
Definition COLUMNS : Z := 16.

Definition batch_insert (events : list CreateUsageEvent) : IO World StorageError Z :=
  if bool_decide (events = []) then mret 0
  else
    _ ← lift (throw_if (U16_MAX <? COLUMNS * Z.of_nat (length events))
                (storage_from_sqlx bind_overflow));
    rows ← with_ids events;
    query (stmt_batch rows).
End repo.

(** *** Aggregation *)

Definition usage_matches (f : UsageFilter) (e : UsageEvent) : bool :=
  AuditRepo.if_given (uf_tenant_id f) (λ t, bool_decide (ue_tenant_id e = t)) &&
  AuditRepo.if_given (uf_service_account_id f) (λ s, bool_decide (ue_service_account_id e = s)) &&
  AuditRepo.if_given (uf_model_alias f) (λ a, bool_decide (ue_model_alias e = a)) &&
  AuditRepo.if_given (uf_provider f) (λ p, bool_decide (ue_provider e = p)) &&
  AuditRepo.if_given (uf_start_date f) (λ s, s <=? ue_created_at e) &&
  AuditRepo.if_given (uf_end_date f) (λ s, ue_created_at e <=? s).

(** [SUM] of an INTEGER column: a 64-bit accumulator, no overflow check. *)
Definition sum_bigint (l : list Z) : Z := foldr (λ x s, wrap_i64 (x + s)) 0 l.
Definition sum_numeric (l : list Z) : Z := foldr Z.add 0 l.
Definition failed (e : UsageEvent) : bool := bool_decide (ue_final_status e ≠ "success").
Definition matching (f : UsageFilter) (d : Db) : list UsageEvent :=
  filter (λ e, usage_matches f e = true) (rows (usage_events d)).

Section summary.
Context `{!Backends, !PgNumeric}.

(** [AVG] keeps the count and a 64-bit sum; no row: [COALESCE(NULL, 0)]. *)
Definition avg_latency (es : list UsageEvent) : f64 :=
  match es with
  | [] => S754_zero false
  | _ => avg_float8 (sum_bigint (ue_latency_ms <$> es)) (Z.of_nat (length es))
  end.

Definition summarize (es : list UsageEvent) : result SqlxError UsageSummary :=
  _ ← throw_if (I64_MAX <? Z.of_nat (length es)) bigint_out_of_range;
  cost ← decode_numeric (sum_numeric (ue_estimated_cost <$> es));
  mret (mkUsageSummary (Z.of_nat (length es)) (sum_bigint (ue_prompt_tokens <$> es))
          (sum_bigint (ue_completion_tokens <$> es)) (sum_bigint (ue_total_tokens <$> es))
          cost (avg_latency es) (Z.of_nat (length (filter (λ e, failed e = true) es)))).

Definition query_summary (f : UsageFilter) : IO World StorageError UsageSummary :=
  query (λ _ d, (summarize (matching f d), d)).
End summary.
End UsageRepo.

Module PricingRepo.
Record CreatePricingRule : Type := mkCreatePricingRule {
  cpr_provider : string;
  cpr_model_name : string;
  cpr_input_price_per_1k : Decimal;
  cpr_output_price_per_1k : Decimal;
  cpr_effective_from : option DateTime
}.

Definition pricing_row (t : Z) (id : PricingRuleId) (i : CreatePricingRule)
    : result SqlxError PricingRule :=
  input ← numeric_column 18 8 (cpr_input_price_per_1k i);
  output ← numeric_column 18 8 (cpr_output_price_per_1k i);
  mret (mkPricingRule id (cpr_provider i) (cpr_model_name i) input output
          (default (sql_now t) (cpr_effective_from i)) (sql_now t) (sql_now t)).
Definition stmt_create (id : PricingRuleId) (i : CreatePricingRule) : Stmt PricingRule := λ t d,
  match pricing_row t id i with
  | Err e => (Err e, d)
  | Ok row =>
    run_insert row
      (insert_row "pricing_rules" id row
         [(exists_row (λ r, bool_decide (pr_version r = pr_version row)) (pricing_rules d),
           "pricing_rules_provider_model_name_effective_from_key")] [] (pricing_rules d))
      set_pricing d
  end.

(** The closure of [create]: its own text for a conflict, any other error as it is. *)
Definition create_error (i : CreatePricingRule) (e : SqlxError) : StorageError :=
  match e with
  | SqlxDatabase (Some code) _ _ _ =>
    if decide (code = "23505") then
      SConflict "pricing_rule"
        ("pricing rule for " +:+ cpr_provider i +:+ "/" +:+ cpr_model_name i +:+
         " at given effective_from already exists")
    else SDatabase e
  | _ => SDatabase e
  end.

(** [ORDER BY effective_from DESC] *)
Definition later_first (a b : PricingRule) : Prop := pr_effective_from b ≤ pr_effective_from a.
#[global] Instance later_first_dec : RelDecision later_first.
Proof. intros a b. unfold later_first. apply _. Defined.
Definition in_effect (provider model_name : string) (now : DateTime) (r : PricingRule) : bool :=
  bool_decide (pr_provider r = provider) && bool_decide (pr_model_name r = model_name) &&
  (pr_effective_from r <=? now).
Definition select_effective (provider model_name : string) (t : Z) (d : Db)
    : option PricingRule :=
  head (merge_sort later_first
    (filter (λ r, in_effect provider model_name (sql_now t) r = true) (rows (pricing_rules d)))).

(** [ORDER BY provider, model_name, effective_from DESC] *)
Definition rule_le `{!TextCollation} (a b : PricingRule) : Prop :=
  if decide (pr_provider a = pr_provider b) then
    if decide (pr_model_name a = pr_model_name b) then later_first a b
    else text_leb (pr_model_name a) (pr_model_name b) = true
  else text_leb (pr_provider a) (pr_provider b) = true.
#[global] Instance rule_le_dec `{!TextCollation} : RelDecision rule_le.
Proof. intros a b. unfold rule_le. repeat case_decide; apply _. Defined.

Section repo.
Context `{!Backends}.

Definition create (input : CreatePricingRule) : IO World StorageError PricingRule :=
  id ← new_uuid;
  io_map_err (create_error input) (db_call (stmt_create (from_uuid id) input)).

Definition get_by_provider_model (provider model_name : string)
    : IO World StorageError (option PricingRule) :=
  query (λ t d, (Ok (select_effective provider model_name t d), d)).

Definition list_all `{!TextCollation} : IO World StorageError (list PricingRule) :=
  query (λ _ d, (Ok (merge_sort rule_le (rows (pricing_rules d))), d)).
End repo.
End PricingRepo.
