(* ===== verification/DbInvariant.v ===== *)
(** * Every statement preserves the constraints of the schema

    The statements of all repositories as one transition relation on databases, and the
    proof that every reachable database satisfies [db_wf]: identifiers key their rows,
    the unique columns are unique, every reference points to a row. *)

From stdpp Require Import options.
From S2P Require Import Prelude Rust Types Errors Json Models Pagination PolicyMerge Backends.
From S2P Require Import Db World Repositories Metering.

(** ** Preservation lemmas for the three kinds of constraint *)

Section constraints.
Context {K R : Type} `{Countable K}.
Implicit Types (m : gmap K R) (k : K) (r : R).

Lemma keyed_insert (id : R → K) m k r : keyed id m → id r = k → keyed id (<[k := r]> m).
Proof.
  intros Hm Hr k' r' [[<- <-]|[_ Hk]]%lookup_insert_Some; [done|]. by apply Hm.
Qed.

Lemma keyed_fmap (id : R → K) (f : R → R) m :
  (∀ r, id (f r) = id r) → keyed id m → keyed id (f <$> m).
Proof. intros Hf Hm k r (r0 & <- & Hk)%lookup_fmap_Some. rewrite Hf. by apply Hm. Qed.

Lemma keyed_filter (id : R → K) (P : K * R → Prop) `{!∀ x, Decision (P x)} m :
  keyed id m → keyed id (filter P m).
Proof. intros Hm k r [Hk _]%map_lookup_filter_Some. by apply Hm. Qed.

Lemma keyed_delete (id : R → K) m k : keyed id m → keyed id (delete k m).
Proof. intros Hm k' r [_ Hk]%lookup_delete_Some. by apply Hm. Qed.

Context {U : Type} (u : R → U).

Lemma unique_insert m k r :
  unique_by u m → (∀ k' r', m !! k' = Some r' → u r' ≠ u r) → unique_by u (<[k := r]> m).
Proof.
  intros Hm Hfresh k1 k2 r1 r2 Hk1 Hk2 Heq.
  apply lookup_insert_Some in Hk1 as [[<- <-]|[Hn1 Hk1]];
    apply lookup_insert_Some in Hk2 as [[<- <-]|[Hn2 Hk2]]; [done| | |by eapply Hm].
  - exfalso. by apply (Hfresh _ _ Hk2).
  - exfalso. by apply (Hfresh _ _ Hk1).
Qed.

(** Replacing a row by one with the same unique value. *)
Lemma unique_update m k r0 r :
  unique_by u m → m !! k = Some r0 → u r = u r0 → unique_by u (<[k := r]> m).
Proof.
  intros Hm Hk Hr k1 k2 r1 r2 Hk1 Hk2 Heq.
  apply lookup_insert_Some in Hk1 as [[<- <-]|[Hn1 Hk1]];
    apply lookup_insert_Some in Hk2 as [[<- <-]|[Hn2 Hk2]]; [done|..|by eapply Hm].
  - eapply Hm; eauto. congruence.
  - eapply Hm; eauto. congruence.
Qed.

Lemma unique_fmap (f : R → R) m :
  (∀ r, u (f r) = u r) → unique_by u m → unique_by u (f <$> m).
Proof.
  intros Hf Hm k1 k2 r1 r2 (x1 & <- & H1)%lookup_fmap_Some (x2 & <- & H2)%lookup_fmap_Some.
  rewrite !Hf. eauto.
Qed.

Lemma unique_filter (P : K * R → Prop) `{!∀ x, Decision (P x)} m :
  unique_by u m → unique_by u (filter P m).
Proof.
  intros Hm k1 k2 r1 r2 [H1 _]%map_lookup_filter_Some [H2 _]%map_lookup_filter_Some. eauto.
Qed.

Context {K' R' : Type} `{Countable K'}.
Implicit Types (f : R → option K') (j : K').

Lemma references_insert f m (n : gmap K' R') k r :
  references f m n → (∀ j, f r = Some j → is_Some (n !! j)) →
  references f (<[k := r]> m) n.
Proof.
  intros Hm Hr k1 r1 j [[<- <-]|[_ Hk]]%lookup_insert_Some Hf; [by apply Hr|by eapply Hm].
Qed.

(** Replacing a row by one with the same reference. *)
Lemma references_update f m (n : gmap K' R') k r0 r :
  references f m n → m !! k = Some r0 → f r = f r0 → references f (<[k := r]> m) n.
Proof. intros Hm Hk Hf. apply references_insert; [done|]. rewrite Hf. intros j. by apply (Hm k r0). Qed.

Lemma references_target_insert f m (n : gmap K' R') j (r' : R') :
  references f m n → references f m (<[j := r']> n).
Proof. intros Hm k r j' Hk Hf. apply lookup_insert_is_Some'. right. by eapply Hm. Qed.

Lemma references_target_fmap f m (n : gmap K' R') (g : R' → R') :
  references f m n → references f m (g <$> n).
Proof. intros Hm k r j Hk Hf. rewrite lookup_fmap, fmap_is_Some. by eapply Hm. Qed.

Lemma references_fmap f m (n : gmap K' R') (g : R → R) :
  (∀ r, f (g r) = f r) → references f m n → references f (g <$> m) n.
Proof.
  intros Hg Hm k r j (x & <- & Hk)%lookup_fmap_Some. rewrite Hg. by apply (Hm k x).
Qed.

Lemma references_filter f m (n : gmap K' R') (P : K * R → Prop) `{!∀ x, Decision (P x)} :
  references f m n → references f (filter P m) n.
Proof. intros Hm k r j [Hk _]%map_lookup_filter_Some. by apply (Hm k r). Qed.

Lemma references_delete_source f m (n : gmap K' R') k :
  references f m n → references f (delete k m) n.
Proof. intros Hm k1 r j [_ Hk]%lookup_delete_Some. by apply (Hm k1 r). Qed.

(** Deleting a row nothing refers to. *)
Lemma references_target_delete f m (n : gmap K' R') j :
  references f m n → (∀ k r, m !! k = Some r → f r ≠ Some j) →
  references f m (delete j n).
Proof.
  intros Hm Hno k r j1 Hk Hf. destruct (Hm _ _ _ Hk Hf) as [r' Hr'].
  exists r'. apply lookup_delete_Some. split; [|done]. intros <-. by eapply Hno.
Qed.
End constraints.

#[export] Hint Resolve keyed_insert keyed_fmap keyed_filter keyed_delete unique_fmap
  unique_filter references_target_insert references_target_fmap references_filter
  references_delete_source : gate.

(** ** The statements *)

Inductive statement `{!UuidLib} : (Z → Db → Db) → Prop :=
  | st_tenant_create i : statement (λ t d, (TenantRepo.stmt_create i t d).2)
  | st_tenant_update id i : statement (λ t d, (TenantRepo.stmt_update id i t d).2)
  | st_tenant_suspend id : statement (λ t d, (TenantRepo.stmt_suspend_accounts id t d).2)
  | st_tenant_delete id : statement (λ t d, (TenantRepo.stmt_mark_deleted id t d).2)
  | st_sa_create i : statement (λ t d, (ServiceAccountRepo.stmt_create i t d).2)
  | st_sa_update tenant id i : statement (λ t d, (ServiceAccountRepo.stmt_update_scoped
      (λ t, ServiceAccountRepo.apply_update t i) tenant id t d).2)
  | st_sa_status tenant id s : statement (λ t d, (ServiceAccountRepo.stmt_update_scoped
      (λ t, ServiceAccountRepo.set_status t s) tenant id t d).2)
  | st_key_register id i : statement (λ t d, (KeyRepo.stmt_register id i t d).2)
  | st_key_revoke p id : statement (λ t d, (KeyRepo.stmt_update_key p KeyRepo.mark_revoked id t d).2)
  | st_key_used p id : statement (λ t d, (KeyRepo.stmt_update_key p KeyRepo.mark_used id t d).2)
  | st_policy_create i : statement (λ t d, (PolicyRepo.stmt_create i t d).2)
  | st_policy_update tenant id i : statement (λ t d, (PolicyRepo.stmt_update tenant id i t d).2)
  | st_policy_delete tenant id : statement (λ t d, (PolicyRepo.stmt_delete tenant id t d).2)
  | st_bind id sa p : statement (λ t d, (PolicyRepo.stmt_bind id sa p t d).2)
  | st_unbind sa p : statement (λ t d, (PolicyRepo.stmt_unbind sa p t d).2)
  | st_route_create id i : statement (λ t d, (RouteRepo.stmt_create id i t d).2)
  | st_route_update id i : statement (λ t d, (RouteRepo.stmt_update id i t d).2)
  | st_route_delete id : statement (λ t d, (RouteRepo.stmt_delete id t d).2)
  | st_admin_key_used id : statement (λ t d, set_admin_keys
      (λ m, (update_row id (λ _, true) (AdminApiKeyRepo.mark_used t) m).2) d)
  | st_audit id i : statement (λ t d, (AuditRepo.stmt_insert id i t d).2)
  | st_usage id i : statement (λ t d, (UsageRepo.stmt_insert id i t d).2)
  | st_usage_batch rows : statement (λ t d, (UsageRepo.stmt_batch rows t d).2)
  | st_pricing_create id i : statement (λ t d, (PricingRepo.stmt_create id i t d).2).

Definition db_step `{!UuidLib} (d d' : Db) : Prop := ∃ f t, statement f ∧ d' = f t d.

(** ** Preservation, one lemma per table *)

Lemma ref_ok_spec {K R} `{Countable K} (o : option K) (m : gmap K R) k :
  ref_ok o m = true → o = Some k → is_Some (m !! k).
Proof. intros Hr ->. by apply bool_decide_eq_true in Hr. Qed.

(** Peel an insert: failed, or all checks passed. *)
Ltac case_insert :=
  match goal with
  | |- context [insert_row ?t ?k ?r ?us ?fs ?m] =>
    let E := fresh "E" in
    destruct (insert_row t k r us fs m) as [?m'|] eqn:E; [|done];
    apply insert_row_ok in E as (?Hfresh & ?Hus & ?Hfs & ->);
    rewrite ?Forall_cons in *; destruct_and?; cbn in *
  end.
(** Peel an update of at most one row. *)
Ltac case_update :=
  match goal with
  | |- context [update_row ?k ?p ?f ?m] =>
    let E := fresh "E" in
    destruct (update_row k p f m) as [[?r|] ?m'] eqn:E;
    [apply update_row_some in E as (?r0 & ?Hk & ?Hp & -> & ->)
    |apply update_row_none in E as [-> _]]
  end.
Ltac wf_start Hwf := destruct Hwf; split; cbn in *; eauto with gate.

Section preservation.
Context `{!UuidLib}.
Implicit Types (d : Db).

Lemma tenant_create_wf i t d : db_wf d → db_wf (TenantRepo.stmt_create i t d).2.
Proof.
  intros Hwf. unfold TenantRepo.stmt_create. case_insert.
  wf_start Hwf. apply unique_insert; [done|]. intros k r Hk Heq. cbn in Heq.
  assert (exists_row (λ r, bool_decide (tenant_slug r = ct_slug i)) (tenants d) = true).
  { apply exists_row_true. exists k, r. split; [done|]. by apply bool_decide_eq_true. }
  congruence.
Qed.

Lemma tenant_row_wf id (f : Z → Tenant → Tenant) t d (p : Tenant → bool) :
  (∀ r, tenant_id (f t r) = tenant_id r ∧ tenant_slug (f t r) = tenant_slug r) →
  db_wf d → db_wf (set_tenants (λ _, (update_row id p (f t) (tenants d)).2) d).
Proof.
  intros Hf Hwf. case_update; [|by destruct d].
  pose proof (wf_tenants _ Hwf _ _ Hk) as Hkey. wf_start Hwf.
  - apply keyed_insert; [done|]. by rewrite (proj1 (Hf r0)).
  - eapply unique_update; [done..|]. apply Hf.
Qed.

Lemma suspend_accounts_wf id t d :
  db_wf d → db_wf (TenantRepo.stmt_suspend_accounts id t d).2.
Proof.
  assert (∀ r, let r' := TenantRepo.suspend_account t id r in
    sa_id r' = sa_id r ∧ sa_tenant_id r' = sa_tenant_id r ∧ sa_slug r' = sa_slug r ∧
    sa_default_policy_id r' = sa_default_policy_id r) as Hr.
  { intros r. unfold TenantRepo.suspend_account. by destruct (_ && _). }
  intros Hwf. wf_start Hwf.
  - apply keyed_fmap; [|done]. intros r. apply Hr.
  - apply unique_fmap; [|done]. intros r. destruct (Hr r) as (_ & -> & -> & _). done.
  - apply references_fmap; [|done]. intros r. destruct (Hr r) as (_ & -> & _). done.
  - apply references_fmap; [|done]. intros r. apply Hr.
Qed.

Lemma sa_create_wf i t d : db_wf d → db_wf (ServiceAccountRepo.stmt_create i t d).2.
Proof.
  intros Hwf. unfold ServiceAccountRepo.stmt_create. case_insert.
  wf_start Hwf.
  - apply unique_insert; [done|]. intros k r Hk [= Ht Hs].
    match goal with H : exists_row _ _ = false |- _ => apply not_true_iff_false in H; apply H end.
    apply exists_row_true. exists k, r. split; [done|].
    by rewrite !bool_decide_eq_true_2.
  - apply references_insert; [done|]. intros k' [= <-]. by eapply bool_decide_eq_true_1.
  - apply references_insert; [done|]. intros k' Hk'. by eapply ref_ok_spec.
Qed.

Lemma sa_row_wf id (f : Z → ServiceAccount → ServiceAccount) t d p :
  (∀ r, sa_id (f t r) = sa_id r ∧ sa_tenant_id (f t r) = sa_tenant_id r ∧
        sa_slug (f t r) = sa_slug r ∧ sa_default_policy_id (f t r) = sa_default_policy_id r) →
  db_wf d → db_wf (set_service_accounts (λ _, (update_row id p (f t) (service_accounts d)).2) d).
Proof.
  intros Hf Hwf. case_update; [|by destruct d].
  pose proof (wf_sas _ Hwf _ _ Hk) as Hkey.
  destruct (Hf r0) as (Hid & Ht & Hs & Hdp). wf_start Hwf.
  - apply keyed_insert; [done|]. by rewrite Hid.
  - eapply unique_update; [done..|]. by rewrite Ht, Hs.
  - eapply references_update; [done..|]. by rewrite Ht.
  - eapply references_update; done.
Qed.

Lemma key_register_wf id i t d : db_wf d → db_wf (KeyRepo.stmt_register id i t d).2.
Proof.
  intros Hwf. unfold KeyRepo.stmt_register. case_insert.
  wf_start Hwf.
  - apply unique_insert; [done|]. intros k r Hk Heq. cbn in Heq.
    match goal with H : exists_row _ _ = false |- _ => apply not_true_iff_false in H; apply H end.
    apply exists_row_true. exists k, r. split; [done|]. by apply bool_decide_eq_true.
  - apply references_insert; [done|]. intros k' [= <-]. by eapply bool_decide_eq_true_1.
Qed.

Lemma key_row_wf id (f : Z → ServiceAccountKey → ServiceAccountKey) t d p :
  (∀ r, key_uuid (f t r) = key_uuid r ∧ key_key_id (f t r) = key_key_id r ∧
        key_service_account_id (f t r) = key_service_account_id r) →
  db_wf d → db_wf (set_keys (λ _, (update_row id p (f t) (service_account_keys d)).2) d).
Proof.
  intros Hf Hwf. case_update; [|by destruct d].
  pose proof (wf_keys _ Hwf _ _ Hk) as Hkey.
  destruct (Hf r0) as (Hid & Hkid & Hsa). wf_start Hwf.
  - apply keyed_insert; [done|]. by rewrite Hid.
  - eapply unique_update; [done..|]. done.
  - eapply references_update; [done..|]. by rewrite Hsa.
Qed.
End preservation.

Section preservation_2.
Context `{!UuidLib}.
Implicit Types (d : Db).

Lemma policy_create_wf i t d : db_wf d → db_wf (PolicyRepo.stmt_create i t d).2.
Proof.
  intros Hwf. unfold PolicyRepo.stmt_create. case_insert. wf_start Hwf.
  apply references_insert; [done|]. intros k' [= <-]. by eapply bool_decide_eq_true_1.
Qed.

Lemma policy_update_wf tenant id i t d :
  db_wf d → db_wf (PolicyRepo.stmt_update tenant id i t d).2.
Proof.
  intros Hwf. unfold PolicyRepo.stmt_update. case_update; [|by destruct d].
  pose proof (wf_policies _ Hwf _ _ Hk) as Hkey. wf_start Hwf.
  eapply references_update; [done..|]. done.
Qed.

Lemma unset_default_fields t id r :
  let r' := PolicyRepo.unset_default t id r in
  sa_id r' = sa_id r ∧ sa_tenant_id r' = sa_tenant_id r ∧ sa_slug r' = sa_slug r ∧
  sa_default_policy_id r' ≠ Some id ∧
  (sa_default_policy_id r' = None ∨ sa_default_policy_id r' = sa_default_policy_id r).
Proof. unfold PolicyRepo.unset_default. case_bool_decide; cbn; split_and!; auto. Qed.

Lemma policy_delete_wf tenant id t d : db_wf d → db_wf (PolicyRepo.stmt_delete tenant id t d).2.
Proof.
  intros Hwf. unfold PolicyRepo.stmt_delete. destruct (policies d !! id) as [p|] eqn:Hp; [|done].
  destruct (PolicyRepo.scoped tenant p); [|done]. cbn.
  pose proof (unset_default_fields t id) as Hu. wf_start Hwf.
  - apply keyed_fmap; [|done]. intros r. apply Hu.
  - apply unique_fmap; [|done]. intros r. destruct (Hu r) as (_ & -> & -> & _). done.
  - apply references_fmap; [|done]. intros r. destruct (Hu r) as (_ & -> & _). done.
  - apply references_target_delete.
    + intros k r k' (x & <- & Hx)%lookup_fmap_Some Hf.
      destruct (Hu x) as (_ & _ & _ & _ & [Hn|Hs]); [congruence|]. rewrite Hs in Hf. eauto.
    + intros k r (x & <- & Hx)%lookup_fmap_Some. apply Hu.
  - apply references_target_delete; [eauto with gate|].
    intros k r [_ Hne]%map_lookup_filter_Some [= Heq]. done.
Qed.

Lemma bind_wf id sa p t d : db_wf d → db_wf (PolicyRepo.stmt_bind id sa p t d).2.
Proof.
  intros Hwf. unfold PolicyRepo.stmt_bind. case_insert. wf_start Hwf.
  - apply unique_insert; [done|]. intros k r Hk [= Ht Hs].
    match goal with H : exists_row _ _ = false |- _ => apply not_true_iff_false in H; apply H end.
    apply exists_row_true. exists k, r. split; [done|]. by rewrite !bool_decide_eq_true_2.
  - apply references_insert; [done|]. intros k' [= <-]. by eapply bool_decide_eq_true_1.
  - apply references_insert; [done|]. intros k' [= <-]. by eapply bool_decide_eq_true_1.
Qed.

Lemma unbind_wf sa p t d : db_wf d → db_wf (PolicyRepo.stmt_unbind sa p t d).2.
Proof. intros Hwf. wf_start Hwf. Qed.

Lemma route_create_wf id i t d : db_wf d → db_wf (RouteRepo.stmt_create id i t d).2.
Proof.
  intros Hwf. unfold RouteRepo.stmt_create. case_insert. wf_start Hwf.
  apply references_insert; [done|]. intros k' Hk'. by eapply ref_ok_spec.
Qed.

Lemma route_update_wf id i t d : db_wf d → db_wf (RouteRepo.stmt_update id i t d).2.
Proof.
  intros Hwf. unfold RouteRepo.stmt_update. case_update; [|done].
  pose proof (wf_routes _ Hwf _ _ Hk) as Hkey. wf_start Hwf.
  eapply references_update; [done..|]. done.
Qed.

Lemma route_delete_wf id t d : db_wf d → db_wf (RouteRepo.stmt_delete id t d).2.
Proof. intros Hwf. wf_start Hwf. Qed.

Lemma audit_insert_wf id i t d : db_wf d → db_wf (AuditRepo.stmt_insert id i t d).2.
Proof.
  intros Hwf. unfold AuditRepo.stmt_insert. case_insert. wf_start Hwf.
  apply references_insert; [done|]. intros k' Hk'. by eapply ref_ok_spec.
Qed.

(** One row inserted keeps the two keys of the usage table. *)
Definition usage_wf (m : gmap (UsageEventId * DateTime) UsageEvent) : Prop :=
  keyed ue_key m ∧ unique_by ue_request m.
Lemma usage_wf_db d m : db_wf d → usage_wf m → db_wf (set_usage (λ _, m) d).
Proof. intros Hwf [Hk Hu]. destruct Hwf. by split. Qed.

(** What an accepted row is: built from its input, routed to a partition, new. *)
Lemma insert_usage_ok t m p row m' :
  UsageRepo.insert_usage t m p = Ok (row, m') ↔
  UsageRepo.usage_row t p.1 p.2 = Ok row ∧
  is_Some (UsageRepo.partition_of (ue_created_at row)) ∧ m !! ue_key row = None ∧
  (∀ k r, m !! k = Some r → ue_request r ≠ ue_request row) ∧ m' = <[ue_key row := row]> m.
Proof.
  unfold UsageRepo.insert_usage.
  assert (∀ row, exists_row (λ r, bool_decide (ue_request r = ue_request row)) m = false ↔
    ∀ k r, m !! k = Some r → ue_request r ≠ ue_request row) as Hex.
  { intros r0. rewrite <-not_true_iff_false, exists_row_true.
    setoid_rewrite bool_decide_eq_true. split.
    - intros Hno k r Hk Heq. apply Hno. by exists k, r.
    - intros Hno (k & r & Hk & Heq). by apply (Hno k r). }
  split.
  - intros (r0 & Hrow & (part & Hp%ok_or_ok & (m1 & (Hk & Hus & _ & ->)%insert_row_ok
      & [= <- <-])%result_bind_ok)%result_bind_ok)%result_bind_ok.
    apply Forall_cons in Hus as [Hx _]. cbn in Hx. rewrite Hex in Hx. eauto 10.
  - intros (-> & [part Hp] & Hk & Hu & ->). cbn. rewrite Hp. cbn.
    rewrite (proj2 (insert_row_ok _ _ _ _ _ _ (<[ue_key row:=row]> m))); [done|].
    split_and!; [done|apply Forall_singleton; by apply Hex|by constructor|done].
Qed.

Lemma insert_usage_wf t m p row m' :
  UsageRepo.insert_usage t m p = Ok (row, m') → usage_wf m → usage_wf m'.
Proof.
  intros (_ & _ & _ & Hu & ->)%insert_usage_ok [Hk Hr].
  split; [by apply keyed_insert|by apply unique_insert].
Qed.

Lemma usage_insert_wf id i t d : db_wf d → db_wf (UsageRepo.stmt_insert id i t d).2.
Proof.
  intros Hwf. unfold UsageRepo.stmt_insert.
  destruct (UsageRepo.insert_usage _ _ _) as [[row m]|] eqn:E; [|done]. cbn.
  apply usage_wf_db; [done|]. eapply insert_usage_wf; [done|]. by split; apply Hwf.
Qed.

Lemma usage_batch_wf rows t d : db_wf d → db_wf (UsageRepo.stmt_batch rows t d).2.
Proof.
  intros Hwf. unfold UsageRepo.stmt_batch.
  destruct (for_each _ _ rows) as [m|] eqn:E; [|done]. cbn. apply usage_wf_db; [done|].
  revert E. apply for_each_inv; [by split; apply Hwf|]. intros m1 p m2 _ Hm1 Hins.
  destruct (UsageRepo.insert_usage t m1 p) as [[row m']|] eqn:E; [|done].
  injection Hins as <-. by eapply insert_usage_wf.
Qed.

Lemma pricing_create_wf id i t d : db_wf d → db_wf (PricingRepo.stmt_create id i t d).2.
Proof.
  intros Hwf. unfold PricingRepo.stmt_create.
  destruct (PricingRepo.pricing_row t id i) as [row|] eqn:Hrow; [|done]. case_insert.
  assert (pr_id row = id) as Hid
    by (apply result_bind_ok in Hrow as (? & _ & (? & _ & [= <-])%result_bind_ok); done).
  wf_start Hwf. apply unique_insert; [done|]. intros k r Hk Heq.
  match goal with H : exists_row _ _ = false |- _ => apply not_true_iff_false in H; apply H end.
  apply exists_row_true. exists k, r. split; [done|]. by apply bool_decide_eq_true.
Qed.

(** The [let '(row, m) := update_row ..] of the statements, as a projection. *)
Lemma update_row_let {K R A} `{Countable K} k p (f : R → R) (m : gmap K R) (g : option R → gmap K R → A) :
  (let '(row, m') := update_row k p f m in g row m') =
  g (update_row k p f m).1 (update_row k p f m).2.
Proof. by destruct (update_row k p f m). Qed.

Lemma statement_wf f t d : statement f → db_wf d → db_wf (f t d).
Proof.
  intros [] Hwf.
  - by apply tenant_create_wf.
  - unfold TenantRepo.stmt_update. rewrite update_row_let.
    by apply (tenant_row_wf id (λ t, TenantRepo.apply_update t i)).
  - by apply suspend_accounts_wf.
  - unfold TenantRepo.stmt_mark_deleted. rewrite update_row_let.
    by apply (tenant_row_wf id TenantRepo.mark_deleted).
  - by apply sa_create_wf.
  - unfold ServiceAccountRepo.stmt_update_scoped. rewrite update_row_let.
    by apply (sa_row_wf id (λ t, ServiceAccountRepo.apply_update t i)).
  - unfold ServiceAccountRepo.stmt_update_scoped. rewrite update_row_let.
    by apply (sa_row_wf id (λ t, ServiceAccountRepo.set_status t s)).
  - by apply key_register_wf.
  - unfold KeyRepo.stmt_update_key. rewrite update_row_let.
    by apply (key_row_wf id KeyRepo.mark_revoked).
  - unfold KeyRepo.stmt_update_key. rewrite update_row_let.
    by apply (key_row_wf id KeyRepo.mark_used).
  - by apply policy_create_wf.
  - by apply policy_update_wf.
  - by apply policy_delete_wf.
  - by apply bind_wf.
  - by apply unbind_wf.
  - by apply route_create_wf.
  - by apply route_update_wf.
  - by apply route_delete_wf.
  - destruct Hwf. by split.
  - by apply audit_insert_wf.
  - by apply usage_insert_wf.
  - by apply usage_batch_wf.
  - by apply pricing_create_wf.
Qed.

Lemma empty_db_wf : db_wf empty_db.
Proof.
  split; cbn; unfold keyed, unique_by, references; intros;
    match goal with H : _ !! _ = Some _ |- _ => by rewrite lookup_empty in H end.
Qed.
End preservation_2.

(** ** Properties *)

(** C14: every database the repositories' statements can produce from the
    empty schema satisfies its constraints: slugs, key identifiers and bindings are
    unique and no reference dangles, whatever the order of the statements. *)
Theorem reachable_db_wf `{!UuidLib} d : rtc db_step empty_db d → db_wf d.
Proof.
  intros Hsteps. assert (∀ a b, rtc db_step a b → db_wf a → db_wf b) as Hrtc.
  { induction 1 as [|a b c (f & t & Hst & ->) _ IH]; [done|]. intros Ha.
    by apply IH, statement_wf. }
  eapply Hrtc; [done|]. apply empty_db_wf.
Qed.

Lemma reachable_db_wf_witness :
  let U := decimal_uuid in
  let create := mkCreateTenant (from_uuid 1) "Acme" "acme" TenantActive (JObject []) in
  db_wf (TenantRepo.stmt_create create 5 empty_db).2.
Proof.
  intros U create. apply (reachable_db_wf (TenantRepo.stmt_create create 5 empty_db).2).
  eapply rtc_l; [|apply rtc_refl]. exists (λ t d, (TenantRepo.stmt_create create t d).2), 5.
  split; [apply (st_tenant_create create)|done].
Defined.
