(* ===== verification/MeteringProps.v ===== *)
(** * Usage accounting and price lookup: properties

    What is recorded is what the summary reports; a batch is recorded whole or not at
    all; the price in effect is the latest one that is not in the future. The rows of
    the usage table keep the types of its columns, which bounds the aggregation. *)

From stdpp Require Import options.
From S2P Require Import Prelude Rust Types Errors Json Models Pagination PolicyMerge Backends.
From S2P Require Import Db World Float64 RateLimit Repositories Metering DbInvariant.
Import UsageRepo.

(** ** Rows of the usage table *)

Lemma rows_insert {K R} `{Countable K} (m : gmap K R) k r :
  m !! k = None → rows (<[k := r]> m) ≡ₚ r :: rows m.
Proof. intros Hk. unfold rows. by rewrite map_to_list_insert. Qed.

Lemma numeric_column_ok p s x y :
  numeric_column p s x = Ok y →
  y = round_half_away (10 ^ (28 - s)) x ∧ Z.abs y < 10 ^ (28 + p - s).
Proof.
  unfold numeric_column. intros (? & Hlt%throw_if_ok & [= <-])%result_bind_ok.
  split; [done|]. by apply Z.leb_gt.
Qed.

Lemma round_half_away_divides unit x : (unit | round_half_away unit x).
Proof. unfold round_half_away. apply Z.divide_mul_r, Z.divide_factor_r. Qed.

(** Rounding moves a value by at most half a unit. *)
Lemma round_half_away_close unit x :
  0 < unit → 2 * Z.abs (round_half_away unit x - x) ≤ unit.
Proof.
  intros Hu. unfold round_half_away.
  pose proof (Z.div_mod (Z.abs x + unit / 2) unit ltac:(lia)) as Hd.
  pose proof (Z.mod_pos_bound (Z.abs x + unit / 2) unit Hu) as Hm.
  pose proof (Z.div_mod unit 2 ltac:(lia)) as Hh.
  pose proof (Z.mod_pos_bound unit 2 ltac:(lia)) as Hb.
  set (q := (Z.abs x + unit / 2) / unit) in *.
  assert (q * unit = unit * q) as -> by lia. destruct (Z.sgn_spec x) as [[? ->]|[[? ->]|[? ->]]]; lia.
Qed.

(** The row an input becomes, given its identifier. *)
Definition recorded_as (t : Z) (i : CreateUsageEvent) (r : UsageEvent) : Prop :=
  usage_row t (ue_id r) i = Ok r.

(** The table grew by exactly the rows of [inputs], stamped [t]. *)
Definition appended (t : Z) (inputs : list CreateUsageEvent)
    (m m' : gmap (UsageEventId * DateTime) UsageEvent) : Prop :=
  ∃ new, Forall2 (recorded_as t) inputs new ∧ rows m' ≡ₚ new ++ rows m ∧
    Forall (λ r, is_Some (partition_of (ue_created_at r))) new ∧ m ⊆ m'.

Lemma usage_row_id t id i r : usage_row t id i = Ok r → ue_id r = id ∧ recorded_as t i r.
Proof.
  intros Hr. assert (ue_id r = id) as <-; [|done].
  unfold usage_row in Hr. by apply result_bind_ok in Hr as (? & _ & [= <-]).
Qed.

Lemma insert_usage_appended t m p row m' :
  insert_usage t m p = Ok (row, m') → appended t [p.2] m m'.
Proof.
  intros ((_ & Hrow)%usage_row_id & Hp & Hk & _ & ->)%insert_usage_ok.
  exists [row]. split_and!; [by repeat constructor|by apply rows_insert|by repeat constructor|].
  by apply insert_subseteq.
Qed.

Lemma appended_app t is1 is2 m1 m2 m3 :
  appended t is1 m1 m2 → appended t is2 m2 m3 → appended t (is1 ++ is2) m1 m3.
Proof.
  intros (n1 & Hf1 & Hp1 & Hw1 & Hs1) (n2 & Hf2 & Hp2 & Hw2 & Hs2).
  exists (n1 ++ n2). split_and!.
  - by apply Forall2_app.
  - rewrite Hp2, Hp1, (assoc (++)). f_equiv. apply Permutation_app_comm.
  - by apply Forall_app.
  - by etrans.
Qed.

Lemma for_each_appended t m ps m' :
  for_each (λ m p, snd <$> insert_usage t m p) m ps = Ok m' → appended t ps.*2 m m'.
Proof.
  revert m. induction ps as [|p ps IH]; intros m; cbn.
  - intros [= <-]. exists []. split_and!; [constructor|done|constructor|done].
  - intros (m1 & Hm1 & Hrest)%result_bind_ok.
    destruct (insert_usage t m p) as [[row m1']|] eqn:E; [|done]. injection Hm1 as <-.
    eapply (appended_app t [p.2]); [by eapply insert_usage_appended|by apply IH].
Qed.

(** ** One round trip that records events *)

Section record.
Context `{!Backends}.
Variable bind_overflow : SqlxError.
Implicit Types (w : World).

Lemma with_ids_spec {E} events w rs w' :
  (with_ids events : IO World E _) w = (Ok rs, w') →
  rs.*2 = events ∧ db w' = db w ∧ script w' = script w ∧ clock w' = clock w.
Proof.
  revert w rs w'. induction events as [|e events IH]; intros w rs w'; cbn.
  - intros [= <- <-]. done.
  - intros (id & w1 & [= <- <-] & (rest & w2 & (IHe & Hd & Hs & Hc)%IH & [= <- <-])%io_bind_ok)
      %io_bind_ok. cbn in *. by rewrite IHe.
Qed.
Lemma with_ids_ok {E} events w : ∃ rs w', (with_ids events : IO World E _) w = (Ok rs, w').
Proof.
  revert w. induction events as [|e events IH]; intros w; [by repeat eexists|]. cbn.
  unfold mbind, io_bind at 1, new_uuid. cbn. unfold io_bind.
  edestruct IH as (rs & w' & ->). by repeat eexists.
Qed.

(** An acknowledged statement that changed only the usage table. *)
Definition grew (inputs : list CreateUsageEvent) w w' : Prop :=
  ∃ t m, clock w ≤ t ≤ clock w' ∧ appended t inputs (usage_events (db w)) m ∧
    db w' = set_usage (λ _, m) (db w).

Lemma insert_one_grew e w r w' : insert_one e w = (Ok r, w') → grew [e] w w' ∧ recorded_as (clock w') e r.
Proof.
  unfold insert_one, query.
  intros (id & w1 & [= <- <-] & (Hc & Hst & _)%io_map_err_ok%db_call_ok)%io_bind_ok.
  cbn in *. unfold stmt_insert in Hst.
  destruct (insert_usage _ _ _) as [[row m]|] eqn:E; [|done]. injection Hst as <- Hd.
  split.
  - exists (clock w'), m. split_and!; [done|lia|by eapply insert_usage_appended in E|done].
  - apply insert_usage_ok in E as ((_ & Hrow)%usage_row_id & _). done.
Qed.

Lemma stmt_batch_cases ps t d :
  let '(r, d') := stmt_batch ps t d in
  match r with
  | Ok n => n = Z.of_nat (length ps) ∧
      ∃ m, appended t ps.*2 (usage_events d) m ∧ d' = set_usage (λ _, m) d
  | Err _ => d' = d
  end.
Proof.
  unfold stmt_batch. destruct (for_each _ _ ps) as [m|] eqn:E; [|done].
  split; [done|]. exists m. split; [by apply for_each_appended|done].
Qed.

Lemma grew_nothing w : grew [] w w.
Proof.
  exists (clock w), (usage_events (db w)). split_and!; [lia..| |by destruct (db w)].
  exists []. split_and!; [constructor|done|constructor|done].
Qed.

Lemma batch_insert_cases events w r w' :
  batch_insert bind_overflow events w = (r, w') →
  match r with
  | Ok n => n = Z.of_nat (length events) ∧ grew events w w'
  | Err _ => db w' = db w ∨ grew events w w'
  end.
Proof.
  unfold batch_insert. case_bool_decide as Hne.
  { intros [= <- <-]. subst. split; [done|]. apply grew_nothing. }
  unfold mbind, io_bind at 1, lift. destruct (throw_if _ _); [|intros [= <- <-]; by left].
  unfold io_bind. destruct (with_ids_ok (E := StorageError) events w) as (ps & w1 & Hids).
  rewrite Hids. apply with_ids_spec in Hids as (Hps & Hd & Hs & Hc).
  unfold query, io_map_err. destruct (db_call (stmt_batch ps) w1) as [r1 w2] eqn:Hcall.
  apply db_call_any in Hcall as (t & Ht & Hcases). rewrite Hc, Hd in *.
  pose proof (stmt_batch_cases ps t (db w)) as Hst. rewrite Hps in Hst.
  assert (length ps = length events) as Hlen by (by rewrite <-Hps, length_fmap).
  intros [= <- <-]. destruct Hcases as [Hok|(msg & -> & [Hb|Ha])].
  - rewrite <-Hok in Hst. destruct r1 as [n|e]; cbn.
    + destruct Hst as (-> & m & Hm & Hdb). rewrite Hlen. split; [done|]. by exists t, m.
    + by left.
  - by left.
  - cbn. destruct (stmt_batch ps t (db w)) as [[n|e] d'] eqn:E; cbn in Ha; rewrite Ha in *.
    + destruct Hst as (_ & m & Hm & ->). right. by exists t, m.
    + by left.
Qed.
End record.

Lemma insert_one_cases `{!Backends} e (w : World) r w' :
  insert_one e w = (r, w') →
  match r with
  | Ok row => recorded_as (clock w') e row ∧ grew [e] w w'
  | Err _ => db w' = db w ∨ grew [e] w w'
  end.
Proof.
  destruct r as [row|err]; [by intros [? ?]%insert_one_grew|].
  unfold insert_one, query, mbind, io_bind, new_uuid, io_map_err. cbn.
  destruct (db_call _ _) as [r1 w2] eqn:Hcall. intros [= Hr <-].
  apply db_call_any in Hcall as (t & Ht & [Hst|(msg & -> & [Hd|Hd])]); [|by left|]; cbn in *;
    unfold stmt_insert in *; destruct (insert_usage _ _ _) as [[row m]|] eqn:E; cbn in *.
  - injection Hst as -> Hd. done.
  - injection Hst as -> Hd. by left.
  - right. exists t, m. by apply insert_usage_appended in E.
  - by left.
Qed.

(** ** Acceptance: when nothing is in the way, the batch is recorded *)

Lemma for_each_accepts t m ps :
  is_Some (partition_of (sql_now t)) → keyed ue_key m →
  Forall (λ i, is_ok (numeric_column 18 6 (cue_estimated_cost i)) = true) ps.*2 →
  NoDup ps.*1 → NoDup (cue_request_id <$> ps.*2) →
  (∀ k r, m !! k = Some r → ue_created_at r = sql_now t →
     (ue_id r ∉ ps.*1) ∧ ue_request_id r ∉ (cue_request_id <$> ps.*2)) →
  ∃ m', for_each (λ m p, snd <$> insert_usage t m p) m ps = Ok m'.
Proof.
  intros Hpart. revert m. induction ps as [|[id i] ps IH]; intros m Hk Hcost Hids Hreq Hold;
    [by eexists|].
  cbn in *. apply Forall_cons in Hcost as [Hc Hcost].
  apply NoDup_cons in Hids as [Hid Hids]. apply NoDup_cons in Hreq as [Hrq Hreq].
  destruct (usage_row t id i) as [row|] eqn:Hrow.
  2: { unfold usage_row in Hrow. by destruct (numeric_column _ _ _). }
  assert (ue_id row = id ∧ ue_request_id row = cue_request_id i ∧ ue_created_at row = sql_now t)
    as (Ei & Er & Et) by (by apply result_bind_ok in Hrow as (? & _ & [= <-])).
  assert (insert_usage t m (id, i) = Ok (row, <[ue_key row := row]> m)) as ->.
  { apply insert_usage_ok. rewrite Et. split_and!; try done.
    - apply eq_None_not_Some. intros [r Hr]. pose proof (Hk _ _ Hr) as [= H1 H2].
      destruct (Hold _ _ Hr) as [Hx _]; [congruence|]. apply Hx. rewrite H1, Ei. set_solver.
    - intros k r Hr [= H1 H2]. destruct (Hold _ _ Hr) as [_ Hx]; [congruence|].
      apply Hx. rewrite H1, Er. set_solver. }
  cbn. apply IH; try done; [by apply keyed_insert|].
  intros k r [[<- <-]|[_ Hr]]%lookup_insert_Some Hts; [by rewrite Ei, Er|].
  destruct (Hold _ _ Hr Hts). set_solver.
Qed.

Lemma with_ids_ids `{!Backends} {E} events (w : World) rs w' :
  (with_ids events : IO World E _) w = (Ok rs, w') →
  (length events ≤ length (uuids w))%nat →
  rs.*1 = from_uuid <$> take (length events) (uuids w).
Proof.
  revert w rs w'. induction events as [|e events IH]; intros w rs w'; cbn.
  - intros [= <- <-]. done.
  - intros (id & w1 & [= <- <-] & (rest & w2 & Hrest & [= <- <-])%io_bind_ok)%io_bind_ok Hlen.
    destruct (uuids w) as [|u us] eqn:Hu; cbn in Hlen; [lia|]. cbn.
    rewrite (IH _ _ _ Hrest); cbn; rewrite ?Hu; cbn; [done|lia].
Qed.

(** ** Totals: what a summary should report *)

Record Totals : Type := mkTotals {
  tt_requests : Z;
  tt_prompt : Z;
  tt_completion : Z;
  tt_tokens : Z;
  tt_cost : Z;
  tt_failed : Z
}.
Definition totals_zero : Totals := mkTotals 0 0 0 0 0 0.
Definition totals_add (a b : Totals) : Totals :=
  mkTotals (tt_requests a + tt_requests b) (tt_prompt a + tt_prompt b)
    (tt_completion a + tt_completion b) (tt_tokens a + tt_tokens b) (tt_cost a + tt_cost b)
    (tt_failed a + tt_failed b).
Definition totals_sum (l : list Totals) : Totals := foldr totals_add totals_zero l.

Definition totals_of_event (e : UsageEvent) : Totals :=
  mkTotals 1 (ue_prompt_tokens e) (ue_completion_tokens e) (ue_total_tokens e)
    (ue_estimated_cost e) (Z.b2z (failed e)).
Definition totals_of_summary (s : UsageSummary) : Totals :=
  mkTotals (us_total_requests s) (us_total_prompt_tokens s) (us_total_completion_tokens s)
    (us_total_tokens s) (us_total_cost s) (us_error_count s).

(** What recording an input should add to the summaries that select it. *)
Definition totals_of_input (i : CreateUsageEvent) : Totals :=
  mkTotals 1 (cue_prompt_tokens i) (cue_completion_tokens i) (cue_total_tokens i)
    (round_half_away (10 ^ 22) (cue_estimated_cost i))
    (Z.b2z (bool_decide (cue_final_status i ≠ "success"))).
Definition input_matches (f : UsageFilter) (i : CreateUsageEvent) : bool :=
  AuditRepo.if_given (uf_tenant_id f) (λ t, bool_decide (cue_tenant_id i = t)) &&
  AuditRepo.if_given (uf_service_account_id f) (λ s, bool_decide (cue_service_account_id i = s)) &&
  AuditRepo.if_given (uf_model_alias f) (λ a, bool_decide (cue_model_alias i = a)) &&
  AuditRepo.if_given (uf_provider f) (λ p, bool_decide (cue_provider i = p)).
Definition undated (f : UsageFilter) : Prop := uf_start_date f = None ∧ uf_end_date f = None.
Definition selected_inputs (f : UsageFilter) (is_ : list CreateUsageEvent) : Totals :=
  totals_sum (totals_of_input <$> filter (λ i, input_matches f i = true) is_).
Definition selected_rows (f : UsageFilter) (es : list UsageEvent) : Totals :=
  totals_sum (totals_of_event <$> filter (λ e, usage_matches f e = true) es).

#[global] Instance totals_add_assoc : Assoc (=) totals_add.
Proof. intros [] [] []. unfold totals_add. cbn. f_equal; lia. Qed.
#[global] Instance totals_add_comm : Comm (=) totals_add.
Proof. intros [] []. unfold totals_add. cbn. f_equal; lia. Qed.
#[global] Instance totals_zero_left : LeftId (=) totals_zero totals_add.
Proof. by intros []. Qed.
#[global] Instance totals_sum_proper : Proper ((≡ₚ) ==> (=)) totals_sum.
Proof.
  unfold totals_sum. induction 1 as [|x l1 l2 _ IH|x y l|l1 l2 l3 _ IH1 _ IH2]; cbn.
  - done.
  - by rewrite IH.
  - rewrite !(assoc_L totals_add). f_equal. apply (comm_L totals_add).
  - by rewrite IH1.
Qed.
#[global] Instance selected_rows_proper f : Proper ((≡ₚ) ==> (=)) (selected_rows f).
Proof. intros l1 l2 Hl. unfold selected_rows. by rewrite Hl. Qed.

Lemma totals_sum_app l1 l2 : totals_sum (l1 ++ l2) = totals_add (totals_sum l1) (totals_sum l2).
Proof.
  induction l1 as [|x l1 IH]; cbn; [by rewrite (left_id_L _ totals_add)|].
  unfold totals_sum in *. by rewrite IH, (assoc_L totals_add).
Qed.
Lemma selected_rows_app f l1 l2 :
  selected_rows f (l1 ++ l2) = totals_add (selected_rows f l1) (selected_rows f l2).
Proof. unfold selected_rows. by rewrite filter_app, fmap_app, totals_sum_app. Qed.

(** A recorded row counts for exactly what its input says. *)
Lemma recorded_as_totals t f i r :
  undated f → recorded_as t i r →
  usage_matches f r = input_matches f i ∧ totals_of_event r = totals_of_input i.
Proof.
  intros [Hs He] (cost & Hcost & [= <-])%result_bind_ok.
  apply numeric_column_ok in Hcost as [-> _].
  unfold usage_matches, input_matches. rewrite Hs, He. cbn. by rewrite !andb_true_r.
Qed.
Lemma selected_recorded t f is_ new :
  undated f → Forall2 (recorded_as t) is_ new → selected_rows f new = selected_inputs f is_.
Proof.
  intros Hf. unfold selected_rows, selected_inputs.
  induction 1 as [|i r is_ new Hr _ IH]; [done|].
  destruct (recorded_as_totals _ _ _ _ Hf Hr) as [Hm Ht]. rewrite !filter_cons, Hm.
  destruct (decide (input_matches f i = true)); cbn; [|done]. unfold totals_sum in *.
  by rewrite IH, Ht.
Qed.
Lemma appended_totals t f is_ m m' :
  undated f → appended t is_ m m' →
  selected_rows f (rows m') = totals_add (selected_rows f (rows m)) (selected_inputs f is_).
Proof.
  intros Hf (new & Hnew & Hrows & _). rewrite Hrows, selected_rows_app.
  rewrite (selected_recorded t f is_ new) by done. apply (comm_L totals_add).
Qed.

(** ** Column types *)

Definition event_typed (e : UsageEvent) : Prop :=
  in_i32 (ue_prompt_tokens e) ∧ in_i32 (ue_completion_tokens e) ∧ in_i32 (ue_total_tokens e) ∧
  in_i32 (ue_latency_ms e) ∧ in_i32 (ue_retry_count e) ∧
  (10 ^ 22 | ue_estimated_cost e) ∧ Z.abs (ue_estimated_cost e) < 10 ^ 40 ∧
  is_Some (partition_of (ue_created_at e)).
Definition usage_typed (d : Db) : Prop := Forall event_typed (rows (usage_events d)).
Definition input_typed (i : CreateUsageEvent) : Prop :=
  in_i32 (cue_prompt_tokens i) ∧ in_i32 (cue_completion_tokens i) ∧
  in_i32 (cue_total_tokens i) ∧ in_i32 (cue_latency_ms i) ∧ in_i32 (cue_retry_count i).

Lemma appended_typed t is_ m m' :
  Forall input_typed is_ → appended t is_ m m' →
  Forall event_typed (rows m) → Forall event_typed (rows m').
Proof.
  intros His (new & Hnew & Hrows & Hpart & _) Hm. rewrite Hrows. apply Forall_app.
  split; [|done]. clear Hrows Hm. induction Hnew as [|i r is_ new Hr _ IH]; [done|].
  apply Forall_cons in His as [(? & ? & ? & ? & ?) His]. apply Forall_cons in Hpart as [Hp Hpart].
  apply Forall_cons. split; [|auto]. apply result_bind_ok in Hr as (cost & Hc & [= Hr]).
  rewrite <-Hr in Hp |- *. apply numeric_column_ok in Hc as [-> Hb]. unfold event_typed.
  cbn [ue_prompt_tokens ue_completion_tokens ue_total_tokens ue_latency_ms ue_retry_count
    ue_estimated_cost ue_created_at].
  split_and!; try done. apply (round_half_away_divides (10 ^ 22)).
Qed.

Lemma appended_length t is_ m m' :
  appended t is_ m m' → length (rows m') = (length is_ + length (rows m))%nat.
Proof.
  intros (new & Hnew%Forall2_length & Hrows%Permutation_length & _).
  by rewrite Hrows, length_app, Hnew.
Qed.

(** ** Exact sums *)

Lemma sum_bound (b : Z) l :
  Forall (λ x, Z.abs x ≤ b) l → Z.abs (sum_numeric l) ≤ b * Z.of_nat (length l).
Proof. unfold sum_numeric. induction 1 as [|x l Hx _ IH]; cbn -[Z.mul Z.of_nat] in *; lia. Qed.

(** Fewer than 2^32 values of 32 bits cannot overflow the 64-bit accumulator. *)
Lemma sum_bigint_exact l :
  Forall in_i32 l → Z.of_nat (length l) < 4294967296 → sum_bigint l = sum_numeric l.
Proof.
  intros Hl. assert (Forall (λ x, Z.abs x ≤ 2147483648) l) as Hb.
  { eapply Forall_impl; [done|]. unfold in_i32, I32_MIN, I32_MAX. lia. }
  clear Hl. induction Hb as [|x l Hx Hl IH]; intros Hlen; [done|].
  unfold sum_bigint, sum_numeric in *. cbn in *. rewrite IH by lia.
  pose proof (sum_bound _ _ Hl) as Hs. unfold sum_numeric in Hs.
  apply wrap_i64_id. unfold in_i64, I64_MIN, I64_MAX. lia.
Qed.

Lemma sum_divide d l : Forall (λ x, (d | x)) l → (d | sum_numeric l).
Proof.
  unfold sum_numeric. induction 1; cbn; [apply Z.divide_0_r|by apply Z.divide_add_r].
Qed.

Lemma totals_sum_events es :
  totals_sum (totals_of_event <$> es) =
  mkTotals (Z.of_nat (length es)) (sum_numeric (ue_prompt_tokens <$> es))
    (sum_numeric (ue_completion_tokens <$> es)) (sum_numeric (ue_total_tokens <$> es))
    (sum_numeric (ue_estimated_cost <$> es))
    (Z.of_nat (length (filter (λ e, failed e = true) es))).
Proof.
  unfold sum_numeric, totals_sum. induction es as [|e es IH]; [done|]. cbn [fmap list_fmap foldr].
  rewrite IH, filter_cons. unfold totals_add. cbn -[Z.of_nat].
  destruct (failed e); cbn -[Z.of_nat]; [rewrite decide_True by done|]; cbn -[Z.of_nat]; f_equal; lia.
Qed.

(** Aggregation is exact for up to a hundred million rows. *)
Definition ROWS_MAX : Z := 10 ^ 8.

Lemma summarize_exact `{!PgNumeric, !PgNumericLaws} es :
  Forall event_typed es → Z.of_nat (length es) ≤ ROWS_MAX →
  ∃ s, summarize es = Ok s ∧ totals_of_summary s = totals_sum (totals_of_event <$> es).
Proof.
  intros Hty Hlen. unfold ROWS_MAX in Hlen. unfold summarize.
  rewrite (proj2 (Z.ltb_ge I64_MAX (Z.of_nat (length es)))) by (unfold I64_MAX; lia). cbn.
  assert (∀ g, (∀ e, event_typed e → in_i32 (g e)) → sum_bigint (g <$> es) = sum_numeric (g <$> es))
    as Hsum.
  { intros g Hg. apply sum_bigint_exact; [|rewrite length_fmap; lia].
    apply Forall_fmap. eapply Forall_impl; [done|]. apply Hg. }
  rewrite decode_numeric_exact.
  - cbn. eexists. split; [done|]. rewrite totals_sum_events. unfold totals_of_summary. cbn.
    rewrite !Hsum; [done|unfold event_typed; naive_solver..].
  - apply sum_divide, Forall_fmap. eapply Forall_impl; [done|].
    intros e (_ & _ & _ & _ & _ & Hd & _). cbn -[Z.pow].
    apply (Z.divide_trans _ (10 ^ 22)); [by exists 100|done].
  - assert (Forall (λ x, Z.abs x ≤ 10 ^ 40 - 1) (ue_estimated_cost <$> es)) as Hb.
    { apply Forall_fmap. eapply Forall_impl; [done|].
      intros e (_ & _ & _ & _ & _ & _ & Hb & _). unfold compose. lia. }
    apply sum_bound in Hb. rewrite length_fmap in Hb. lia.
Qed.

(** ** Runs of recordings *)

Inductive Recording : Type :=
  | RecordOne (e : CreateUsageEvent)
  | RecordBatch (es : list CreateUsageEvent).
Definition recorded_events (op : Recording) : list CreateUsageEvent :=
  match op with RecordOne e => [e] | RecordBatch es => es end.

Section accounting.
Context `{!Backends}.
Variable bind_overflow : SqlxError.
Implicit Types (w : World).

Definition record (op : Recording) : IO World StorageError unit :=
  match op with
  | RecordOne e => _ ← insert_one e; mret tt
  | RecordBatch es => _ ← batch_insert bind_overflow es; mret tt
  end.
Fixpoint record_all (ops : list Recording) : IO World StorageError unit :=
  match ops with
  | [] => mret tt
  | op :: ops => _ ← record op; record_all ops
  end.

(** An acknowledged recording took effect; any other did, or left the database alone. *)
Lemma record_cases op w r w' : record op w = (r, w') →
  if is_ok r then grew (recorded_events op) w w'
  else db w' = db w ∨ grew (recorded_events op) w w'.
Proof.
  destruct op as [e|es]; cbn; unfold mbind, io_bind.
  - destruct (insert_one e w) as [[row|err] w1] eqn:Hins; intros [= <- <-];
      apply insert_one_cases in Hins; cbn in *; tauto.
  - destruct (batch_insert bind_overflow es w) as [[n|err] w1] eqn:Hins; intros [= <- <-];
      apply batch_insert_cases in Hins; cbn in *; tauto.
Qed.
Lemma record_grew op w w' : record op w = (Ok tt, w') → grew (recorded_events op) w w'.
Proof. apply record_cases. Qed.

(** Recordings whose callers go on whatever the answer. *)
Fixpoint record_each (ops : list Recording) w : World :=
  match ops with
  | [] => w
  | op :: ops => record_each ops (record op w).2
  end.

Lemma grew_typed events w w' :
  Forall input_typed events → grew events w w' → usage_typed (db w) → usage_typed (db w').
Proof.
  intros Hin (t & m & _ & Happ & ->) Hty. by apply (appended_typed _ _ _ _ Hin Happ).
Qed.

(** Acknowledged recordings add up, and keep the table typed. *)
Lemma record_all_sound f ops w w' :
  undated f → Forall input_typed (ops ≫= recorded_events) → usage_typed (db w) →
  record_all ops w = (Ok tt, w') →
  usage_typed (db w') ∧
  length (rows (usage_events (db w'))) =
    (length (ops ≫= recorded_events) + length (rows (usage_events (db w))))%nat ∧
  selected_rows f (rows (usage_events (db w'))) =
    totals_add (selected_rows f (rows (usage_events (db w))))
      (selected_inputs f (ops ≫= recorded_events)).
Proof.
  intros Hf. revert w. induction ops as [|op ops IH]; intros w Hin Hty; cbn.
  - intros [= <-]. split_and!; [done..|].
    change (selected_inputs f []) with totals_zero.
    rewrite (comm_L totals_add). symmetry. apply (left_id_L totals_zero totals_add).
  - cbn in Hin. apply Forall_app in Hin as [Hop Hin].
    intros ([] & w1 & Hg%record_grew & Hrest)%io_bind_ok.
    destruct (IH w1) as (Hty' & Hlen & Hsum); [done|by apply (grew_typed _ w _ Hop Hg)|done|].
    destruct Hg as (t & m & _ & Happ & Hd).
    assert (usage_events (db w1) = m) as Hm by (by rewrite Hd).
    split; [done|]. rewrite Hlen, Hsum, Hm, length_app.
    rewrite (appended_length _ _ _ _ Happ), (appended_totals _ f _ _ _ Hf Happ).
    split; [lia|]. unfold selected_inputs. rewrite filter_app, fmap_app, totals_sum_app.
    by rewrite (assoc_L totals_add).
Qed.

Lemma query_summary_answers `{!PgNumeric} f s w r w' :
  summarize (matching f (db w)) = Ok s → query_summary f w = (r, w') →
  (r = Ok s ∨ ∃ msg, r = Err (SDatabase (SqlxOther msg))) ∧ db w' = db w.
Proof.
  intros Hs. unfold query_summary, query, io_map_err.
  destruct (db_call _ w) as [r1 w1] eqn:Hcall. intros [= <- <-].
  apply db_call_any in Hcall as (t & _ & [[= -> ->]|(msg & -> & Hd)]); rewrite ?Hs; cbn; eauto.
  split; [eauto|]. by destruct Hd.
Qed.
End accounting.

(** ** Properties of the usage table *)

Definition exact_pg : PgNumeric := {|
  avg_float8 s n := f64_div (f64_of_u64 s) (f64_of_u64 n);
  decode_numeric x := Ok x
|}.
Lemma exact_pg_laws : @PgNumericLaws exact_pg.
Proof. by split. Qed.

Section properties.
Context `{!Backends}.
Variable bind_overflow : SqlxError.
Implicit Types (w : World).


(** Nothing stands in the way of a batch: no fault scheduled, the driver's argument limit
    respected, a partition for the current instant, costs that fit their column, distinct
    request ids and identifiers, no row stamped with the same instant. *)
Record acceptable (events : list CreateUsageEvent) w : Prop := mkAcceptable {
  ac_script : script w = [];
  ac_args : COLUMNS * Z.of_nat (length events) ≤ U16_MAX;
  ac_partition : is_Some (partition_of (sql_now (clock w)));
  ac_costs : Forall (λ i, is_ok (numeric_column 18 6 (cue_estimated_cost i)) = true) events;
  ac_requests : NoDup (cue_request_id <$> events);
  ac_supply : (length events ≤ length (uuids w))%nat;
  ac_ids : NoDup (take (length events) (uuids w));
  ac_keyed : keyed ue_key (usage_events (db w));
  ac_instant : ∀ k r, usage_events (db w) !! k = Some r → ue_created_at r ≠ sql_now (clock w)
}.

Lemma batch_insert_accepts events w :
  acceptable events w → ∃ n w', batch_insert bind_overflow events w = (Ok n, w').
Proof.
  intros [Hs Ha Hp Hc Hr Hu Hi Hk Hn]. unfold batch_insert.
  case_bool_decide as Hne; [by repeat eexists|].
  rewrite (proj2 (Z.ltb_ge U16_MAX _) Ha).
  destruct (with_ids_ok (E := StorageError) events w) as (ps & w1 & Hids).
  unfold mbind, io_bind. cbn. rewrite Hids.
  pose proof (with_ids_ids _ _ _ _ Hids Hu) as Hps1.
  apply with_ids_spec in Hids as (Hps & Hd & Hsc & Hcl).
  unfold query, io_map_err, db_call. rewrite tick_idle by congruence. rewrite Hcl, Hd.
  unfold stmt_batch. rewrite <-Hps in Hc, Hr.
  assert (NoDup ps.*1) as Hnd by (rewrite Hps1; by apply NoDup_fmap_2; [intros ?? [=]|]).
  destruct (for_each_accepts (clock w) (usage_events (db w)) ps Hp Hk Hc Hnd Hr) as [m ->];
    [|by repeat eexists].
  intros k r Hkr Ht. by destruct (Hn k r Hkr).
Qed.

(** C27: a batch is one unit. Whatever the schedule of delays
    and faults, an acknowledged batch has added exactly one row per event, as many as it
    reports, all stamped with one instant of the call; a failed one has added nothing, or,
    when only its acknowledgement was lost, all of them. A batch nothing stands in the
    way of is acknowledged. *)
Theorem batch_insert_all_or_nothing events w :
  (∀ r w', batch_insert bind_overflow events w = (r, w') →
   match r with
   | Ok n => n = Z.of_nat (length events) ∧ grew events w w'
   | Err _ => db w' = db w ∨ grew events w w'
   end) ∧
  (acceptable events w →
   ∃ w', batch_insert bind_overflow events w = (Ok (Z.of_nat (length events)), w')).
Proof.
  split; [apply batch_insert_cases|]. intros (n & w' & Hrun)%batch_insert_accepts.
  exists w'. rewrite Hrun. by apply batch_insert_cases in Hrun as [-> _].
Qed.

(** *** The partitions end *)

Lemma partition_expired c : month_start 20666 ≤ c → partition_of c = None.
Proof.
  intros Hc. unfold partition_of. rewrite list_filter_none; [done|].
  intros p Hp Hh. unfold partitions in Hp. unfold month_start, holds_instant in *.
  repeat (apply elem_of_cons in Hp as [->|Hp]; [cbn -[Z.leb Z.ltb Z.mul] in Hh; lia|]).
  by apply elem_of_nil in Hp.
Qed.

Lemma grew_unexpired e events w w' :
  grew (e :: events) w w' → ¬ month_start 20666 ≤ sql_now (clock w).
Proof.
  intros (t & m & Ht & (new & Hnew & _ & Hpart & _) & _) Hexp.
  apply Forall2_cons_inv_l in Hnew as (r & new' & Hr & _ & ->).
  apply Forall_cons in Hpart as [Hp _]. apply result_bind_ok in Hr as (cost & _ & [= Hr]).
  rewrite <-Hr in Hp. cbn in Hp. rewrite partition_expired in Hp; [by destruct Hp|].
  unfold sql_now in *. lia.
Qed.

(** C38: no usage is recorded from 1 August 2026 on. The migrations
    create partitions up to July 2026 and no default partition, and nothing creates
    another: from then on every insert, single or batch, fails and leaves the database
    unchanged. *)
Theorem usage_recording_expires op w r w' :
  month_start 20666 ≤ sql_now (clock w) → recorded_events op ≠ [] →
  record bind_overflow op w = (r, w') →
  is_ok r = false ∧ db w' = db w.
Proof.
  intros Hexp Hne Hrun. assert (∀ es w2, recorded_events op = es → ¬ grew es w w2) as Hno.
  { intros [|e es] w2 Hes Hg; [by rewrite Hes in Hne|]. by eapply grew_unexpired. }
  pose proof (record_cases _ _ _ _ _ Hrun) as Hc. destruct (is_ok r).
  - by destruct (Hno _ _ eq_refl Hc).
  - split; [done|]. by destruct Hc as [?|[]%Hno].
Qed.

End properties.

(** *** Witnesses: three events on 24 April 2026 *)

Definition april : Z := 1777000000000.
Definition sample_event (req status : string) (tokens cost : Z) : CreateUsageEvent :=
  mkCreateUsageEvent req (from_uuid 1) (from_uuid 7) None "openai" "gpt-4" "openai/gpt-4"
    tokens 50 (tokens + 50) cost "USD" 200 0 status false.
Definition with_supply (ids : list Uuid) (w : @World mem_backends) : @World mem_backends :=
  @mkWorld mem_backends (clock w) (script w) ids (redis w) (db w) (key_l1 w) (policy_l1 w)
    (route_l1 w) (admin_l1 w).
Definition metering_world (t : Z) (steps : list Step) : @World mem_backends :=
  with_supply [101; 102; 103; 104; 105; 106] (mem_world t steps ∅ empty_db).
Definition sample_ops : list Recording :=
  [RecordOne (sample_event "r1" "success" 100 (15 * 10 ^ 25));
   RecordBatch [sample_event "r2" "success" 30 (5 * 10 ^ 21);
                sample_event "r3" "timeout" 7 (4 * 10 ^ 21)]].
Definition all_usage : UsageFilter := mkUsageFilter (Some (from_uuid 1)) None None None None None.

Lemma sample_ops_typed : Forall input_typed (sample_ops ≫= recorded_events).
Proof.
  cbn. repeat constructor; unfold input_typed, in_i32, I32_MIN, I32_MAX; cbn; lia.
Qed.



Lemma usage_recording_expires_witness :
  let w := metering_world 1785542400000 [] in
  (record row_not_found (RecordOne (sample_event "r1" "success" 100 0)) w).1
    = Err (storage_from_sqlx no_partition) ∧
  db (record row_not_found (RecordOne (sample_event "r1" "success" 100 0)) w).2 = empty_db.
Proof.
  intros w. split; [vm_compute; reflexivity|].
  apply (usage_recording_expires row_not_found (RecordOne (sample_event "r1" "success" 100 0)) w
    (Err (storage_from_sqlx no_partition))
    (record row_not_found (RecordOne (sample_event "r1" "success" 100 0)) w).2).
  - done.
  - done.
  - apply run_answer. vm_compute. reflexivity.
Defined.

(** The same request can be recorded twice. The unique index is
    on the request id together with the time of the insert, so a client that repeats an
    insert a millisecond later is acknowledged again and the summary counts it twice. *)
Lemma request_recorded_twice :
  let e := sample_event "r1" "success" 100 (15 * 10 ^ 25) in
  let w := metering_world april [mkStep 0 None; mkStep 1 None] in
  let again := record_all row_not_found [RecordOne e; RecordOne e] w in
  again.1 = Ok tt ∧
  (totals_of_summary <$> (@query_summary mem_backends exact_pg all_usage again.2).1) =
    Ok (mkTotals 2 200 100 300 (30 * 10 ^ 25) 0).
Proof. split; vm_compute; reflexivity. Qed.
