(* ===== verification/PricingProps.v ===== *)
(** * The price in effect

    [PricingRepo]: the lookup selects the one latest rule that is not in the future, the
    listing shows it first among the rules in effect, and a rule just created is found. *)

From stdpp Require Import options.
From S2P Require Import Prelude Rust Types Errors Json Models Pagination PolicyMerge Backends.
From S2P Require Import Db World Float64 RateLimit Repositories Metering DbInvariant MeteringProps.
Import PricingRepo.

#[local] Set Default Proof Using "Type*".

(** ** Sorting *)

#[global] Instance later_first_trans : Transitive later_first.
Proof. intros a b c. unfold later_first. lia. Qed.
#[global] Instance later_first_total : Total later_first.
Proof. intros a b. unfold later_first. lia. Qed.

(** The first row of a sorted selection comes before every selected row. *)
Lemma head_merge_sort {A} (R : relation A) `{!RelDecision R, !Transitive R, !Total R} l :
  match head (merge_sort R l) with
  | Some x => x ∈ l ∧ ∀ y, y ∈ l → y ≠ x → R x y
  | None => l = []
  end.
Proof.
  pose proof (merge_sort_Permutation R l) as Hp.
  pose proof (StronglySorted_merge_sort R l) as Hs.
  destruct (merge_sort R l) as [|x xs] eqn:E; cbn.
  - by apply Permutation_nil_l in Hp.
  - split; [rewrite <-Hp; apply list_elem_of_here|]. intros y Hy Hne.
    rewrite <-Hp in Hy. apply elem_of_cons in Hy as [->|Hy]; [done|].
    inversion_clear Hs. by eapply (proj1 (Forall_forall _ _)).
Qed.

Section order.
Context `{!TextCollation, !TextCollationLaws}.

(** One level of a lexicographic order on text. *)
Lemma text_lex_trans x y z (P Q R : Prop) :
  (P → Q → R) →
  (if decide (x = y) then P else text_leb x y = true) →
  (if decide (y = z) then Q else text_leb y z = true) →
  (if decide (x = z) then R else text_leb x z = true).
Proof.
  intros HR. destruct (decide (x = y)) as [<-|Nxy]; [by case_decide; auto|].
  destruct (decide (y = z)) as [<-|Nyz]; [by rewrite decide_False|].
  intros Hxy Hyz. case_decide as Exz; [|by eapply text_leb_trans].
  subst. by destruct Nxy; apply text_leb_antisym.
Qed.
Lemma text_lex_total x y (P Q : Prop) :
  (P ∨ Q) →
  (if decide (x = y) then P else text_leb x y = true) ∨
  (if decide (y = x) then Q else text_leb y x = true).
Proof.
  intros HPQ. destruct (decide (x = y)) as [<-|N]; [by rewrite decide_True|].
  rewrite (decide_False (P := y = x)) by congruence. apply text_leb_total.
Qed.

#[global] Instance rule_le_trans : Transitive rule_le.
Proof.
  intros a b c. apply text_lex_trans, text_lex_trans. apply later_first_trans.
Qed.
#[global] Instance rule_le_total : Total rule_le.
Proof. intros a b. apply text_lex_total, text_lex_total. apply later_first_total. Qed.
End order.

(** ** The selection *)

#[global] Instance PricingRule_eq_dec : EqDecision PricingRule.
Proof. solve_decision. Defined.

(** [r] is the rule in effect: the latest of those that apply. *)
Definition price_at (d : Db) (provider model : string) (now : DateTime) (o : option PricingRule)
    : Prop :=
  match o with
  | Some r =>
    r ∈ rows (pricing_rules d) ∧ in_effect provider model now r = true ∧
    ∀ r', r' ∈ rows (pricing_rules d) → in_effect provider model now r' = true → r' ≠ r →
      pr_effective_from r' < pr_effective_from r
  | None => ∀ r', r' ∈ rows (pricing_rules d) → in_effect provider model now r' = false
  end.

Lemma in_effect_spec provider model now r :
  in_effect provider model now r = true ↔
  pr_provider r = provider ∧ pr_model_name r = model ∧ pr_effective_from r ≤ now.
Proof.
  unfold in_effect. rewrite !andb_true_iff, !bool_decide_eq_true, Z.leb_le. tauto.
Qed.

(** Two rules of one model take effect at different instants. *)
Lemma in_effect_distinct d provider model now r r' :
  db_wf d → r ∈ rows (pricing_rules d) → r' ∈ rows (pricing_rules d) →
  in_effect provider model now r = true → in_effect provider model now r' = true →
  pr_effective_from r = pr_effective_from r' → r = r'.
Proof.
  intros Hwf [k Hk]%elem_of_rows [k' Hk']%elem_of_rows (E1 & E2 & _)%in_effect_spec
    (E1' & E2' & _)%in_effect_spec Heff.
  assert (k = k') as <- by (eapply (wf_pricing_version _ Hwf); eauto; unfold pr_version; congruence).
  congruence.
Qed.

(** Selecting with an order that ranks the applicable rules by date. *)
Lemma select_price_at d provider model now (R : relation PricingRule)
    `{!RelDecision R, !Transitive R, !Total R} :
  db_wf d →
  (∀ a b, in_effect provider model now a = true → in_effect provider model now b = true →
     R a b → later_first a b) →
  price_at d provider model now
    (head (merge_sort R (filter (λ r, in_effect provider model now r = true)
       (rows (pricing_rules d))))).
Proof.
  intros Hwf HR. pose proof (head_merge_sort R
    (filter (λ r, in_effect provider model now r = true) (rows (pricing_rules d)))) as Hh.
  destruct (head _) as [r|]; cbn.
  - destruct Hh as [[Hr Hin]%list_elem_of_filter Hmax]. split_and!; [done..|].
    intros r' Hr' He Hne. assert (later_first r r') as Hl.
    { apply HR; [done..|]. apply Hmax; [|done]. by apply list_elem_of_filter. }
    unfold later_first in Hl. assert (pr_effective_from r' ≠ pr_effective_from r); [|lia].
    intros Heq. apply Hne. by eapply in_effect_distinct.
  - intros r' Hr'. apply not_true_iff_false. intros He.
    assert (r' ∈ ([] : list PricingRule)) as []%elem_of_nil.
    rewrite <-Hh. by apply list_elem_of_filter.
Qed.

(** The description determines the rule. *)
Lemma price_at_unique d provider model now o o' :
  price_at d provider model now o → price_at d provider model now o' → o = o'.
Proof.
  destruct o as [r|], o' as [r'|]; cbn.
  - intros (Hr & He & Hm) (Hr' & He' & Hm'). destruct (decide (r = r')) as [->|Hne]; [done|].
    specialize (Hm' r Hr He Hne). specialize (Hm r' Hr' He' (not_eq_sym Hne)). lia.
  - intros (Hr & He & _) Hn. by rewrite Hn in He.
  - intros Hn (Hr & He & _). by rewrite Hn in He.
  - done.
Qed.

(** Selecting after sorting is sorting the selection, up to the first row. *)
Lemma listing_price_at `{!TextCollation, !TextCollationLaws} d provider model now :
  db_wf d →
  price_at d provider model now
    (head (filter (λ r, in_effect provider model now r = true)
       (merge_sort rule_le (rows (pricing_rules d))))).
Proof.
  intros Hwf. set (l := merge_sort rule_le (rows (pricing_rules d))).
  assert (l ≡ₚ rows (pricing_rules d)) as Hp by apply merge_sort_Permutation.
  pose proof (StronglySorted_filter _ (λ r, in_effect provider model now r = true) l
    (StronglySorted_merge_sort rule_le _)) as Hs.
  destruct (filter _ l) as [|r rs] eqn:Hf; cbn.
  - intros r' Hr'. apply not_true_iff_false. intros He.
    assert (r' ∈ ([] : list PricingRule)) as []%elem_of_nil.
    rewrite <-Hf, list_elem_of_filter, Hp. done.
  - assert (r ∈ filter (λ r, in_effect provider model now r = true) l) as [He Hr]
      %list_elem_of_filter by (rewrite Hf; apply list_elem_of_here).
    rewrite Hp in Hr. split_and!; [done..|]. intros r' Hr' He' Hne.
    assert (r' ∈ r :: rs) as [->|Hin]%elem_of_cons; [|done|].
    { rewrite <-Hf, list_elem_of_filter, Hp. done. }
    inversion_clear Hs as [|? ? _ Hall].
    assert (rule_le r r') as Hle by (by eapply (proj1 (Forall_forall _ _) Hall)).
    pose proof He as (E1 & E2 & _)%in_effect_spec. pose proof He' as (E1' & E2' & _)%in_effect_spec.
    unfold rule_le in Hle. rewrite !decide_True in Hle by congruence. unfold later_first in Hle.
    assert (pr_effective_from r' ≠ pr_effective_from r); [|lia].
    intros Heq. apply Hne. by eapply in_effect_distinct.
Qed.

(** ** Properties *)

Section properties.
Context `{!Backends}.
Implicit Types (w : World).

Lemma get_by_provider_model_ok provider model w o w' :
  get_by_provider_model provider model w = (Ok o, w') →
  clock w ≤ clock w' ∧ db w' = db w ∧ o = select_effective provider model (clock w') (db w).
Proof.
  unfold get_by_provider_model, query. intros Hq%io_map_err_ok.
  apply db_call_ok in Hq as (Hc & [= <- Hd] & _). done.
Qed.

(** C28: the price in effect is the latest one. The lookup answers
    the rule of the provider and model whose effective date is the greatest of those not
    after the time of the query, every other rule then in effect being strictly older,
    and answers nothing exactly when none is in effect; it is the first rule in effect
    that the listing of all rules shows, and the lookup changes nothing. *)
Theorem price_lookup_latest `{!TextCollation, !TextCollationLaws} provider model w o w' :
  db_wf (db w) → get_by_provider_model provider model w = (Ok o, w') →
  price_at (db w) provider model (sql_now (clock w')) o ∧
  (∀ rules w2, list_all w = (Ok rules, w2) →
     o = head (filter (λ r, in_effect provider model (sql_now (clock w')) r = true) rules)) ∧
  db w' = db w.
Proof.
  intros Hwf (_ & Hd & ->)%get_by_provider_model_ok.
  assert (price_at (db w) provider model (sql_now (clock w'))
    (select_effective provider model (clock w') (db w))) as Hat.
  { apply (select_price_at _ _ _ _ later_first); auto. }
  split_and!; [done| |done]. unfold list_all, query. intros rules w2 Hl%io_map_err_ok.
  apply db_call_ok in Hl as (_ & [= <- _] & _).
  eapply price_at_unique; [done|]. by apply listing_price_at.
Qed.

Lemma stmt_create_ok id i t d r d' :
  stmt_create id i t d = (Ok r, d') →
  pricing_row t id i = Ok r ∧ pricing_rules d !! id = None ∧
  d' = set_pricing (λ _, <[id := r]> (pricing_rules d)) d.
Proof.
  unfold stmt_create. destruct (pricing_row t id i) as [row|] eqn:Hrow; [|done].
  destruct (insert_row _ _ _ _ _ _) as [m|] eqn:E; [|done]. cbn. intros [= <- <-].
  by apply insert_row_ok in E as (? & _ & _ & ->).
Qed.

(** A price that was created is the price that is charged.
    After an acknowledged creation, a lookup at or after the rule's effective date, with
    no other rule of that model taking effect in between, answers exactly the created
    rule: the given provider and model, the prices rounded half away from zero to eight
    decimals, and the given date or the time of creation. *)
Lemma created_price_takes_effect i w r w1 o w2 :
  db_wf (db w) → create i w = (Ok r, w1) →
  get_by_provider_model (cpr_provider i) (cpr_model_name i) w1 = (Ok o, w2) →
  pr_effective_from r ≤ sql_now (clock w2) →
  (∀ r', r' ∈ rows (pricing_rules (db w)) → pr_provider r' = cpr_provider i →
     pr_model_name r' = cpr_model_name i → pr_effective_from r' ≤ sql_now (clock w2) →
     pr_effective_from r' < pr_effective_from r) →
  o = Some r ∧
  pr_provider r = cpr_provider i ∧ pr_model_name r = cpr_model_name i ∧
  pr_input_price_per_1k r = round_half_away (10 ^ 20) (cpr_input_price_per_1k i) ∧
  pr_output_price_per_1k r = round_half_away (10 ^ 20) (cpr_output_price_per_1k i) ∧
  pr_effective_from r = default (sql_now (clock w1)) (cpr_effective_from i).
Proof.
  intros Hwf Hcreate (_ & _ & Ho)%get_by_provider_model_ok Heff Hother.
  unfold create in Hcreate.
  apply io_bind_ok in Hcreate as (id & w0 & [= <- <-] & Hcall%io_map_err_ok%db_call_ok).
  destruct Hcall as (_ & Hst & _). cbn [db] in Hst.
  pose proof (pricing_create_wf (from_uuid (default 0 (head (uuids w)))) i (clock w1) _ Hwf) as Hwf1.
  rewrite Hst in Hwf1. apply stmt_create_ok in Hst as (Hrow & Hfresh & Hd).
  assert (rows (pricing_rules (db w1)) ≡ₚ r :: rows (pricing_rules (db w))) as Hrows.
  { rewrite Hd. by apply rows_insert. }
  apply result_bind_ok in Hrow as (pin & [-> _]%numeric_column_ok
    & (pout & [-> _]%numeric_column_ok & [= Hr])%result_bind_ok).
  assert (pr_provider r = cpr_provider i ∧ pr_model_name r = cpr_model_name i) as [E1 E2]
    by (by subst r).
  split; [|by subst r].
  rewrite Ho. eapply price_at_unique.
  - apply (select_price_at _ _ _ _ later_first); [exact Hwf1|auto].
  - split_and!.
    + rewrite Hrows. apply list_elem_of_here.
    + by apply in_effect_spec.
    + intros r' Hr' (? & ? & ?)%in_effect_spec Hne. rewrite Hrows in Hr'.
      apply elem_of_cons in Hr' as [->|Hr']; [done|]. by apply Hother.
Qed.
End properties.

(** *** Witnesses: two versions of one price *)

Definition code_collation : TextCollation := λ a b, Pos.leb (encode a) (encode b).
Lemma code_collation_laws : @TextCollationLaws code_collation.
Proof.
  split; unfold text_leb, code_collation.
  - intros a b. rewrite !Pos.leb_le. lia.
  - intros a b c. rewrite !Pos.leb_le. lia.
  - intros a b. rewrite !Pos.leb_le. intros H1 H2. apply (inj encode). lia.
Qed.

Definition price_of (cents : Z) (eff : option DateTime) : CreatePricingRule :=
  mkCreatePricingRule "openai" "gpt-4" (cents * 10 ^ 26) (2 * cents * 10 ^ 26) eff.
(** A price from the start, and another announced for an instant 50 ms away. *)
Definition priced_world : @World mem_backends :=
  (create (price_of 4 (Some (sql_now april + 50000)))
    (create (price_of 3 None) (metering_world april [mkStep 0 None; mkStep 20 None; mkStep 10 None])).2).2.

Lemma priced_world_wf : db_wf (db priced_world).
Proof.
  assert (∀ i w, db_wf (db w) → db_wf (db (create (H := mem_backends) i w).2)) as Hstep.
  { intros i w Hwf. unfold create, mbind, io_bind, new_uuid, io_map_err. cbn.
    match goal with |- context [db_call ?s ?w1] =>
      pose proof (db_call_inv db_wf s w1 (λ t d, pricing_create_wf _ _ t d) Hwf) as Hd;
      by destruct (db_call s w1) end. }
  apply Hstep, Hstep, empty_db_wf.
Qed.

Lemma price_lookup_latest_witness :
  let got := get_by_provider_model (H := mem_backends) "openai" "gpt-4" priced_world in
  ∃ r, got.1 = Ok (Some r) ∧ pr_input_price_per_1k r = 3 * 10 ^ 26 ∧
    price_at (db priced_world) "openai" "gpt-4" (sql_now (april + 30)) (Some r).
Proof.
  intros got. assert (∃ r, got.1 = Ok (Some r) ∧ pr_input_price_per_1k r = 3 * 10 ^ 26)
    as (r & Hr & Hp) by (eexists; split; vm_compute; reflexivity).
  exists r. split_and!; [exact Hr|exact Hp|].
  destruct (price_lookup_latest (H0 := code_collation) (H1 := code_collation_laws)
    "openai" "gpt-4" priced_world (Some r) got.2) as [Hat _].
  - exact priced_world_wf.
  - apply run_answer. exact Hr.
  - revert Hat. assert (clock got.2 = april + 30) as -> by (vm_compute; reflexivity). auto.
Defined.
