(* ===== verification/Listing.v ===== *)
(** * Listings through the repositories

    A client that follows [next_cursor] from page to page, against the listing methods
    of the repositories (storage/repositories/*.rs): it sees every matching row exactly
    once, newest first, whatever the page size. *)

From Stdlib Require Import Ascii.
From stdpp Require Import options.
From S2P Require Import Prelude Rust Types Errors Json Models Pagination PolicyMerge Backends.
From S2P Require Import Db World Repositories DbInvariant RateLimit.
#[local] Set Default Proof Using "Type*".

(** Follow the cursors until there is no next page; [fuel] bounds the number of pages. *)
Fixpoint walk_listing `{!Backends} {T} (listing : option Cursor → IO World StorageError (Page T))
    (fuel : nat) (cursor : option Cursor) : IO World StorageError (list T) :=
  match fuel with
  | O => lift (Err (SInternal "out of fuel"))
  | S fuel =>
    page ← listing cursor;
    match next_cursor page with
    | None => mret (items page)
    | Some c => rest ← walk_listing listing fuel (Some c); mret (items page ++ rest)
    end
  end.

Section walk.
Context `{!Backends, !CursorCodec}.
Implicit Types (w : World).

(** Nothing fails and nothing changes: the listing is the pure one of [Pagination]. *)
Lemma list_query_idle {T} (key : T → DateTime * Uuid) p (table : Db → list T) cursor limit w :
  script w = [] →
  list_query key cursor limit (λ position fetch d, Ok (select_page key p position fetch (table d))) w
    = (list_page key p (table (db w)) cursor limit, w).
Proof.
  intros Hs. unfold list_query, list_page. destruct (clamp_limit limit) as [lim fetch].
  destruct (match cursor with
    | Some c => map_err SInvalidCursor (Some <$> cursor_decode c)
    | None => mret None end) as [position|e] eqn:Hpos.
  - unfold mbind, io_bind, lift. cbn. unfold query, io_map_err, db_call. rewrite (tick_idle w Hs).
    cbn. by destruct w.
  - done.
Qed.

Lemma walk_idle {T} (key : T → DateTime * Uuid) p (table : Db → list T) limit
    (listing : option Cursor → IO World StorageError (Page T)) fuel cursor w rows :
  script w = [] →
  (∀ c, listing c w = (list_page key p (table (db w)) c limit, w)) →
  walk_pages key p (table (db w)) limit fuel cursor = Ok rows →
  walk_listing listing fuel cursor w = (Ok rows, w).
Proof.
  intros Hs Hlist. revert cursor rows. induction fuel as [|fuel IH]; intros cursor rows; [done|].
  cbn [walk_pages walk_listing]. intros (page & Hpage & Hrest)%result_bind_ok. unfold mbind, io_bind. rewrite Hlist, Hpage.
  destruct (next_cursor page) as [c|]; [|by injection Hrest as <-].
  apply result_bind_ok in Hrest as (rest & Hrest & [= <-]). by rewrite (IH _ _ Hrest).
Qed.
End walk.

(** The rows of a table in which the identifier is the primary key have distinct
    positions. *)
Lemma keyed_positions {K R} `{Countable K} (ident : R → K) (created : R → DateTime)
    (uuid : K → Uuid) `{!Inj (=) (=) uuid} (m : gmap K R) :
  keyed ident m → NoDup ((λ r, (created r, uuid (ident r))) <$> rows m).
Proof.
  intros Hk. unfold rows. rewrite <-list_fmap_compose. apply NoDup_fmap_2_strong.
  - intros [k r] [k' r'] Hr%elem_of_map_to_list Hr'%elem_of_map_to_list. cbn. intros [= _ Heq].
    apply (inj uuid) in Heq. rewrite (Hk _ _ Hr), (Hk _ _ Hr') in Heq. subst k'. congruence.
  - apply NoDup_map_to_list.
Qed.
#[global] Instance uuid_of_inj k : Inj (=) (=) (@uuid_of k).
Proof. intros [a] [b]. cbn. congruence. Qed.

(** [listing] gives, over however many pages, exactly the rows of [table] that satisfy
    [p], each once, by descending position. *)
Definition lists_exactly `{!Backends} {T} (w : World)
    (listing : option Cursor → IO World StorageError (Page T)) (key : T → DateTime * Uuid)
    (p : T → bool) (table : list T) : Prop :=
  ∀ fuel, (length table < fuel)%nat →
    ∃ result, walk_listing listing fuel None w = (Ok result, w) ∧
      result ≡ₚ filter (λ r, p r = true) table ∧ StronglySorted (key_desc key) result ∧
      NoDup (key <$> result).

Section exact.
Context `{!Backends, !CursorCodec, !CursorCodecLaws}.
Implicit Types (w : World).

Lemma listing_exact {T} (key : T → DateTime * Uuid) p (table : Db → list T) limit w
    (listing : option Cursor → IO World StorageError (Page T)) :
  script w = [] → NoDup (key <$> table (db w)) →
  (∀ c, listing c w = (list_page key p (table (db w)) c limit, w)) →
  lists_exactly w listing key p (table (db w)).
Proof.
  intros Hs Hnd Hl fuel Hfuel.
  assert (length (order_desc key (filter (λ r, p r = true) (table (db w)))) < fuel)%nat as Hlen.
  { rewrite order_desc_perm. pose proof (length_filter (λ r, p r = true) (table (db w))). lia. }
  exists (order_desc key (filter (λ r, p r = true) (table (db w)))). split_and!.
  - eapply (walk_idle key p table limit); [done..|].
    exact (walk_pages_spec key p (table (db w)) limit fuel [] _ Hnd eq_refl Hlen).
  - apply order_desc_perm.
  - apply order_desc_sorted.
  - rewrite order_desc_perm. eapply sublist_NoDup; [exact Hnd|]. apply fmap_sublist, sublist_filter.
Qed.
End exact.

(** ** Properties *)


(** ** A reference codec and a concrete run *)

(** A number as its bits, least significant first, with a sign; the rest follows. *)
Fixpoint bits_encode (p : positive) (rest : string) : string :=
  match p with
  | xH => String "." rest
  | xO p => String "0" (bits_encode p rest)
  | xI p => String "1" (bits_encode p rest)
  end.
Fixpoint bits_decode (s : string) : option (positive * string) :=
  match s with
  | String "."%char rest => Some (xH, rest)
  | String "0"%char s => '(p, rest) ← bits_decode s; Some (xO p, rest)
  | String "1"%char s => '(p, rest) ← bits_decode s; Some (xI p, rest)
  | _ => None
  end.
Definition number_encode (z : Z) (rest : string) : string :=
  match z with
  | Z0 => String "z" rest
  | Zpos p => String "+" (bits_encode p rest)
  | Zneg p => String "-" (bits_encode p rest)
  end.
Definition number_decode (s : string) : option (Z * string) :=
  match s with
  | String "z"%char rest => Some (0, rest)
  | String "+"%char s => '(p, rest) ← bits_decode s; Some (Zpos p, rest)
  | String "-"%char s => '(p, rest) ← bits_decode s; Some (Zneg p, rest)
  | _ => None
  end.
Lemma bits_roundtrip p rest : bits_decode (bits_encode p rest) = Some (p, rest).
Proof. induction p as [p IH|p IH|]; cbn; [by rewrite IH..|done]. Qed.
Lemma number_roundtrip z rest : number_decode (number_encode z rest) = Some (z, rest).
Proof. destruct z as [|p|p]; cbn; [done|by rewrite bits_roundtrip..]. Qed.

Definition bits_codec : CursorCodec := {|
  to_rfc3339 t := number_encode t "";
  parse_from_rfc3339 s := match number_decode s with Some (t, _) => Ok t | None => Err "bad" end;
  payload_to_vec p := number_encode (cp_id p) (cp_ts p);
  payload_from_slice s :=
    match number_decode s with Some (id, ts) => Ok (mkCursorPayload ts id) | None => Err "bad" end;
  b64url_encode s := s;
  b64url_decode := Ok
|}.
Lemma bits_codec_laws : @CursorCodecLaws bits_codec.
Proof.
  split; cbn; [|intros [ts id]; cbn|done].
  - intros t. by rewrite number_roundtrip.
  - by rewrite number_roundtrip.
Qed.

Section run.
#[local] Existing Instances mem_backends decimal_uuid bits_codec.

Definition listed_tenant (id : Z) (created : DateTime) (slug : string) : Tenant :=
  mkTenant (from_uuid id) slug slug TenantActive (JObject []) created created.
(** Three tenants, two of them created at the same instant, through the statements. *)
Definition listing_db : Db :=
  let create id slug t d :=
    (TenantRepo.stmt_create (mkCreateTenant (from_uuid id) slug slug TenantActive (JObject [])) t d).2 in
  create 3 "c" 7 (create 2 "b" 5 (create 1 "a" 5 empty_db)).

Lemma listing_db_wf : db_wf listing_db.
Proof.
  unfold listing_db. do 3 apply (statement_wf _ _ _ (st_tenant_create _)). apply empty_db_wf.
Qed.

End run.
