(* ===== verification/Signing.v ===== *)
(** * Canonical strings and signatures
      (src/gateway/crates/gateway/src/auth/canonical.rs, verifier.rs)

    The string a client signs, the hex digest of the body, PEM parsing and signature
    verification. SHA-256, base64 and Ed25519 belong to the crates [sha2], [base64] and
    [ed25519-dalek]: the class [Crypto], with the shape of a digest as [CryptoLaws]. *)

From Stdlib Require Import Ascii.
From stdpp Require Import options.
From S2P Require Import Prelude Rust Errors.
#[local] Set Default Proof Using "Type*".

Class Crypto : Type := {
  sha256 : string → list Z;
  b64_decode : string → result string string;
  VerifyingKey : Type;
  Signature : Type;
  key_from_bytes : string → result string VerifyingKey;
  key_as_bytes : VerifyingKey → string;
  signature_from_slice : string → result string Signature;
  ed25519_verify : VerifyingKey → string → Signature → bool
}.
(** A digest is 32 bytes. *)
Class CryptoLaws `{!Crypto} : Prop := {
  sha256_length body : length (sha256 body) = 32%nat;
  sha256_bytes body : Forall (λ b, 0 ≤ b < 256) (sha256 body)
}.

(** ** Canonical string *)

Definition LF_str : string := String LF "".

Definition build_canonical_string (method path timestamp nonce body_sha256 : string) : string :=
  method +:+ LF_str +:+ path +:+ LF_str +:+ timestamp +:+ LF_str +:+ nonce +:+ LF_str
  +:+ body_sha256.

(** ** Body hash *)

Definition HEX_TABLE : list ascii :=
  ["0"; "1"; "2"; "3"; "4"; "5"; "6"; "7"; "8"; "9"; "a"; "b"; "c"; "d"; "e"; "f"]%char.
(** Indexing the table: the nibbles are below 16. *)
Definition hex_digit (n : Z) : ascii := default "0"%char (HEX_TABLE !! Z.to_nat n).

Fixpoint hex_encode (bytes : list Z) : string :=
  match bytes with
  | [] => ""
  | byte :: rest =>
    String (hex_digit (Z.shiftr byte 4)) (String (hex_digit (Z.land byte 15)) (hex_encode rest))
  end.
Definition compute_body_hash `{!Crypto} (body : string) : string := hex_encode (sha256 body).

Definition verify_body_hash `{!Crypto} (body expected_hash : string) : result GatewayError unit :=
  let actual := compute_body_hash body in
  throw_if (negb (String.eqb actual expected_hash))
    (EAuth "body_hash_mismatch" "request body SHA-256 hash does not match X-Body-SHA256 header").

(** ** Keys and signatures *)

Fixpoint str_join (ss : list string) : string :=
  match ss with [] => "" | s :: ss => s +:+ str_join ss end.
Fixpoint str_drop (n : nat) (s : string) : string :=
  match n, s with
  | O, _ => s
  | S n, String _ s => str_drop n s
  | S _, EmptyString => ""
  end.

Definition parse_public_key `{!Crypto} (pem : string) : result GatewayError VerifyingKey :=
  let b64 := str_join (filter (λ line, negb (starts_with line "-----") = true) (str_lines pem)) in
  der ← map_err (λ e, EAuth "invalid_key_format" ("base64 decode failed: " +:+ e)) (b64_decode b64);
  key_bytes ←
    (if str_len der =? 44 then mret (str_drop 12 der)
     else if str_len der =? 32 then mret der
     else Err (EAuth "invalid_key_format"
       ("unexpected key length: " +:+ pretty (str_len der) +:+ " bytes (expected 32 or 44)")));
  _ ← throw_if (negb (str_len key_bytes =? 32))
        (EAuth "invalid_key_format" "key bytes conversion failed");
  map_err (λ e, EAuth "invalid_key_format" ("invalid Ed25519 public key: " +:+ e))
    (key_from_bytes key_bytes).

Definition verify_signature `{!Crypto} (public_key : VerifyingKey) (canonical signature_b64 : string)
    : result GatewayError unit :=
  sig_bytes ← map_err (λ e, EAuth "invalid_signature" ("signature base64 decode failed: " +:+ e))
    (b64_decode signature_b64);
  signature ← map_err (λ e, EAuth "invalid_signature" ("invalid signature format: " +:+ e))
    (signature_from_slice sig_bytes);
  throw_if (negb (ed25519_verify public_key canonical signature))
    (EAuth "invalid_signature" "Ed25519 signature verification failed").

(** ** Lemmas *)

Lemma hex_digit_cases (n : Z) : 0 ≤ n < 16 →
  n = 0 ∨ n = 1 ∨ n = 2 ∨ n = 3 ∨ n = 4 ∨ n = 5 ∨ n = 6 ∨ n = 7 ∨ n = 8 ∨ n = 9 ∨
  n = 10 ∨ n = 11 ∨ n = 12 ∨ n = 13 ∨ n = 14 ∨ n = 15.
Proof. lia. Qed.

(** The value of a hex digit, the inverse of [hex_digit]. *)
Definition unhex (c : ascii) : Z :=
  if byte_of c <? 58 then byte_of c - 48 else byte_of c - 87.
Definition is_lower_hex (c : ascii) : bool :=
  is_ascii_digit c || ((97 <=? byte_of c) && (byte_of c <=? 102)).

Lemma unhex_hex_digit n : 0 ≤ n < 16 → unhex (hex_digit n) = n ∧ is_lower_hex (hex_digit n) = true.
Proof. intros Hn%hex_digit_cases. by destruct_or! Hn; subst. Qed.

Lemma byte_nibbles b : 0 ≤ b < 256 →
  0 ≤ Z.shiftr b 4 < 16 ∧ 0 ≤ Z.land b 15 < 16 ∧ b = Z.shiftr b 4 * 16 + Z.land b 15.
Proof.
  intros Hb. rewrite Z.shiftr_div_pow2 by lia. change 15 with (Z.ones 4).
  rewrite Z.land_ones by lia. change (2 ^ 4) with 16.
  pose proof (Z.mod_pos_bound b 16 ltac:(lia)). pose proof (Z.div_mod b 16 ltac:(lia)). lia.
Qed.

Lemma hex_encode_inj bs cs :
  Forall (λ b, 0 ≤ b < 256) bs → Forall (λ b, 0 ≤ b < 256) cs →
  hex_encode bs = hex_encode cs → bs = cs.
Proof.
  intros Hbs. revert cs. induction Hbs as [|b bs Hb _ IH]; intros cs Hcs Heq.
  { by destruct cs. }
  destruct Hcs as [|c cs Hc Hcs]; [done|]. cbn in Heq. injection Heq as H1 H2 Heq.
  destruct (byte_nibbles b Hb) as (Hb1 & Hb2 & Hbe), (byte_nibbles c Hc) as (Hc1 & Hc2 & Hce).
  f_equal; [|by apply IH].
  apply (f_equal unhex) in H1, H2.
  rewrite (proj1 (unhex_hex_digit _ Hb1)), (proj1 (unhex_hex_digit _ Hc1)) in H1.
  rewrite (proj1 (unhex_hex_digit _ Hb2)), (proj1 (unhex_hex_digit _ Hc2)) in H2. lia.
Qed.

Lemma hex_encode_shape bs : Forall (λ b, 0 ≤ b < 256) bs →
  str_len (hex_encode bs) = 2 * Z.of_nat (length bs) ∧ str_all is_lower_hex (hex_encode bs) = true.
Proof.
  unfold str_len. induction 1 as [|b bs Hb _ [IHl IHc]]; [done|]. cbn.
  destruct (byte_nibbles b Hb) as (Hb1 & Hb2 & _). rewrite IHc.
  rewrite (proj2 (unhex_hex_digit _ Hb1)), (proj2 (unhex_hex_digit _ Hb2)). split; [lia|done].
Qed.

(** ** Properties *)

(** C16: a signature covers one request only. Two requests whose
    method, path, timestamp and nonce contain no line feed have the same canonical string
    only if all five components are the same. *)
Theorem canonical_string_injective m1 p1 t1 n1 h1 m2 p2 t2 n2 h2 :
  str_free LF m1 = true → str_free LF p1 = true → str_free LF t1 = true → str_free LF n1 = true →
  str_free LF m2 = true → str_free LF p2 = true → str_free LF t2 = true → str_free LF n2 = true →
  build_canonical_string m1 p1 t1 n1 h1 = build_canonical_string m2 p2 t2 n2 h2 →
  m1 = m2 ∧ p1 = p2 ∧ t1 = t2 ∧ n1 = n2 ∧ h1 = h2.
Proof.
  intros Hm1 Hp1 Ht1 Hn1 Hm2 Hp2 Ht2 Hn2 Heq. unfold build_canonical_string, LF_str in Heq.
  assert (∀ s, String LF "" +:+ s = String LF s) as Hcons by done. rewrite !Hcons in Heq.
  apply str_sep_inj in Heq as [-> Heq]; [|done..].
  apply str_sep_inj in Heq as [-> Heq]; [|done..].
  apply str_sep_inj in Heq as [-> Heq]; [|done..].
  by apply str_sep_inj in Heq as [-> ->].
Qed.

(** The body check accepts exactly the lower-case hex digest of
    the body, 64 characters long, and two bodies accepted under one header value have the
    same SHA-256 digest. *)
Lemma verify_body_hash_exact `{!Crypto, !CryptoLaws} body body' expected :
  (verify_body_hash body expected = Ok tt ↔ expected = hex_encode (sha256 body)) ∧
  (verify_body_hash body expected = Ok tt →
     str_len expected = 64 ∧ str_all is_lower_hex expected = true) ∧
  (verify_body_hash body expected = Ok tt → verify_body_hash body' expected = Ok tt →
     sha256 body = sha256 body').
Proof.
  assert (∀ b, verify_body_hash b expected = Ok tt ↔ expected = hex_encode (sha256 b)) as Hiff.
  { intros b. unfold verify_body_hash, compute_body_hash. rewrite throw_if_ok, negb_false_iff.
    rewrite String.eqb_eq. by split. }
  rewrite !Hiff. split_and!; [done| |].
  - intros ->. destruct (hex_encode_shape (sha256 body) (sha256_bytes body)) as [Hl Hc].
    rewrite Hl, sha256_length. by split.
  - intros Hb Hb'. apply hex_encode_inj; [apply sha256_bytes..|congruence].
Qed.

(** ** Witnesses *)

(** A concrete instance for evaluating runs: the "digest" is the first 32 bytes, padded;
    base64 is the identity; a "signature" is the key followed by the message, its line
    feeds replaced so that it can stand in a header. *)
Fixpoint one_line (s : string) : string :=
  match s with
  | EmptyString => ""
  | String c s => String (if Ascii.eqb c LF then ";"%char else c) (one_line s)
  end.
Definition toy_crypto : Crypto := {|
  sha256 body := take 32 (as_bytes body ++ replicate 32 0);
  b64_decode := Ok;
  VerifyingKey := string;
  Signature := string;
  key_from_bytes := Ok;
  key_as_bytes := id;
  signature_from_slice := Ok;
  ed25519_verify k m s := String.eqb s (k +:+ one_line m)
|}.

Lemma byte_of_bounds c : 0 ≤ byte_of c < 256.
Proof.
  unfold byte_of. pose proof (N_ascii_bounded c). lia.
Qed.

Lemma toy_crypto_laws : @CryptoLaws toy_crypto.
Proof.
  split; intros body;
    change (@sha256 toy_crypto body) with (take 32 (as_bytes body ++ replicate 32 0)).
  - rewrite length_take, length_app, length_replicate. lia.
  - apply Forall_take, Forall_app_2.
    + unfold as_bytes. apply Forall_fmap, Forall_true. intros c. apply byte_of_bounds.
    + apply Forall_replicate. lia.
Qed.

Lemma canonical_string_injective_witness :
  build_canonical_string "POST" "/v1/models" "17" "nonce" "00" =
  build_canonical_string "POST" "/v1/models" "17" "nonce" "00" ∧
  "POST" = "POST" ∧ "/v1/models" = "/v1/models" ∧ "17" = "17" ∧ "nonce" = "nonce" ∧ "00" = "00".
Proof.
  split; [done|].
  by apply (canonical_string_injective "POST" "/v1/models" "17" "nonce" "00"
    "POST" "/v1/models" "17" "nonce" "00").
Defined.
