(* ===== verification/AppState.v ===== *)
(** * Application state (src/gateway/crates/gateway/src/server.rs)

    Which backends the process has, the configuration the handlers read, and the
    [require_*] accessors that turn a missing backend into a 500. The backends
    themselves live in the [World]. *)

From stdpp Require Import options.
From S2P Require Import Prelude Rust Errors RateLimit.

Record AppState : Type := mkAppState {
  timestamp_skew_secs : Z;
  has_db : bool;
  has_redis : bool;
  (** the key store, and whether it was built with a Redis client *)
  key_store : option bool;
  has_admin_key_cache : bool;
  has_policy_cache : bool;
  rate_limit_evaluator : option RateLimitEvaluator;
  has_concurrency_limiter : bool;
  has_route_cache : bool
}.

Definition unavailable (what : string) : GatewayError :=
  EConfig "internal_error" (what +:+ " not available").

Definition require_db (s : AppState) : result GatewayError unit :=
  throw_if (negb (has_db s)) (unavailable "database").
Definition require_redis (s : AppState) : result GatewayError unit :=
  throw_if (negb (has_redis s)) (unavailable "redis").
Definition require_key_store (s : AppState) : result GatewayError bool :=
  ok_or (unavailable "key store") (key_store s).
Definition require_policy_cache (s : AppState) : result GatewayError unit :=
  throw_if (negb (has_policy_cache s)) (unavailable "policy cache").
Definition require_rate_limit_evaluator (s : AppState) : result GatewayError RateLimitEvaluator :=
  ok_or (unavailable "rate limit evaluator") (rate_limit_evaluator s).
Definition require_concurrency_limiter (s : AppState) : result GatewayError unit :=
  throw_if (negb (has_concurrency_limiter s)) (unavailable "concurrency limiter").
Definition require_route_cache (s : AppState) : result GatewayError unit :=
  throw_if (negb (has_route_cache s)) (unavailable "route cache").
