(* ===== verification/KeyStore.v ===== *)
(** * The key store (src/gateway/crates/gateway/src/auth/key_store.rs)

    Lookups through the in-process cache, Redis and PostgreSQL, and the invalidation a
    revocation calls. The JSON form of a key belongs to [serde_json]: the class
    [KeyCodec], whose law is its round trip. *)

From stdpp Require Import options.
From S2P Require Import Prelude Rust Types Errors Json Models PolicyMerge Backends Db World.
From S2P Require Import Repositories DbInvariant RateLimit.
#[local] Set Default Proof Using "Type*".

Class KeyCodec : Type := {
  key_to_json : ServiceAccountKey → result string string;
  key_from_json : string → option ServiceAccountKey
}.
Class KeyCodecLaws `{!KeyCodec} : Prop := {
  key_json_roundtrip k json : key_to_json k = Ok json → key_from_json json = Some k
}.

Definition L1_TTL_SECS : Z := 60.
Definition L2_TTL_SECS : Z := 300.
Definition L2_KEY_PREFIX : string := "keycache:".

Section store.
Context `{!Backends, !KeyCodec}.
Implicit Types (w : World).

Definition redis_key (key_id : string) : string := L2_KEY_PREFIX +:+ key_id.

(** [KeyStore::new]: the in-process cache; its capacity shows only in what it forgets. *)
Definition key_store_new : Moka string ServiceAccountKey := moka_new L1_TTL_SECS.

(** [RedisClient::get], [set_ex], [del] (storage/redis.rs) *)
Definition redis_get (key : string) : IO World StorageError (option string) :=
  redis_call (λ t st, (cmd_get t key st, st)).
Definition redis_set_ex (key value : string) (seconds : Z) : IO World StorageError unit :=
  redis_call (λ t st, (tt, cmd_set_ex t key value seconds st)).
Definition redis_del (key : string) : IO World StorageError unit :=
  redis_call (λ t st, (tt, cmd_del t key st)).

Definition l1_get (key_id : string) : IO World GatewayError (option ServiceAccountKey) := λ w,
  let '(o, c) := moka_get (clock w) key_id (key_l1 w) in (Ok o, set_key_l1 c w).
Definition l1_insert (key_id : string) (key : ServiceAccountKey) : IO World GatewayError unit :=
  io_modify (λ w, set_key_l1 (moka_insert (clock w) key_id key (key_l1 w)) w).

(** Any failure on the way is a miss. *)
Definition get_from_redis (key_id : string) : IO World GatewayError (option ServiceAccountKey) :=
  reply ← io_try (redis_get (redis_key key_id));
  mret (match reply with
        | Ok (Some json) => key_from_json json
        | _ => None
        end).

Definition set_in_redis (key_id : string) (key : ServiceAccountKey) : IO World GatewayError unit :=
  match key_to_json key with
  | Ok json =>
    _ ← io_try (redis_set_ex (redis_key key_id) json L2_TTL_SECS); mret tt
  | Err _ => mret tt
  end.

(** After a database read: fill both caches. *)
Definition populate (with_redis : bool) (key_id : string) (key : ServiceAccountKey)
    : IO World GatewayError ServiceAccountKey :=
  _ ← l1_insert key_id key;
  _ ← (if with_redis then set_in_redis key_id key else mret tt);
  mret key.

(** [with_redis]: whether the store was built with a Redis client. *)
Definition get_by_key_id (with_redis : bool) (key_id : string)
    : IO World GatewayError ServiceAccountKey :=
  hit ← l1_get key_id;
  match hit with
  | Some key => mret key
  | None =>
    l2 ← (if with_redis then get_from_redis key_id else mret None);
    match l2 with
    | Some key => _ ← l1_insert key_id key; mret key
    | None =>
      key ← io_map_err (λ _, EAuth "unknown_key" ("key '" +:+ key_id +:+ "' not found"))
              (KeyRepo.get_by_key_id key_id);
      populate with_redis key_id key
    end
  end.

Definition invalidate (with_redis : bool) (key_id : string) : IO World GatewayError unit :=
  _ ← io_modify (λ w, set_key_l1 (moka_invalidate key_id (key_l1 w)) w);
  if with_redis
  then _ ← io_try (redis_del (redis_key key_id)); mret tt
  else mret tt.

(** ** What a cached key may be

    [sees P w]: every copy of a key the store could serve under its identifier, in either
    cache or in the database, satisfies [P]. *)
Definition sees (P : string → ServiceAccountKey → Prop) w : Prop :=
  (∀ key_id k t, latest (key_l1 w) key_id = Some (k, t) → P key_id k) ∧
  (∀ key_id json d k, peek (clock w) (redis w) (redis_key key_id) = Some (json, d) →
     key_from_json json = Some k → P key_id k) ∧
  (∀ key_id k, KeyRepo.select_by_key_id key_id (db w) = Some k → P key_id k).

(** No copy of the key is cached. *)
Definition uncached (key_id : string) w : Prop :=
  latest (key_l1 w) key_id = None ∧ peek (clock w) (redis w) (redis_key key_id) = None.
End store.

Section lookup.
Context `{!Backends, !BackendsLaws, !KeyCodec, !KeyCodecLaws}.
Implicit Types (w : World).

Lemma redis_key_inj a b : redis_key a = redis_key b → a = b.
Proof. apply str_app_inj_l. Qed.

Lemma peek_earlier t t' st k e : t ≤ t' → peek t' st k = Some e → peek t st k = Some e.
Proof.
  intros Ht. rewrite (peek_later t t') by done. intros (e' & Hp & Hl)%bind_Some.
  unfold live in Hl. destruct e' as [v [d|]]; cbn in Hl; [destruct (t' <? d)|]; congruence.
Qed.

(** Time may pass and a round trip may fail without showing other keys. *)
Lemma sees_frame P w w' :
  sees P w → clock w ≤ clock w' → redis w' = redis w → db w' = db w →
  (∀ key_id, latest (key_l1 w') key_id = latest (key_l1 w) key_id) → sees P w'.
Proof.
  intros (S1 & S2 & S3) Hc Hr Hd Hl. split_and!.
  - intros key_id k t. rewrite Hl. apply S1.
  - intros key_id json d k. rewrite Hr. intros Hp%(peek_earlier (clock w)); [|done]. by eapply S2.
  - intros key_id k. rewrite Hd. apply S3.
Qed.

Lemma sees_tick P w : sees P w → sees P (tick w).2.
Proof.
  intros Hs. apply (sees_frame P w); [done|apply tick_clock|..]; try by apply tick_frame.
  intros key_id. by rewrite (tick_frame key_l1 w).
Qed.

(** A round trip that does not change what Redis holds. *)
Lemma sees_redis_read {A} P (f : Z → Redis → A) w r w' :
  sees P w → redis_call (λ t st, (f t st, st)) w = (r, w') → sees P w'.
Proof.
  intros Hs%sees_tick. unfold redis_call. destruct (tick w) as [flt w1]. cbn [snd] in Hs.
  destruct flt as [[]|]; intros [= <- <-]; try done; by destruct w1.
Qed.

(** A round trip that writes one key store entry, or deletes it. *)
Lemma sees_redis_write {A} P (f : Z → Redis → A * Redis) w r w' key_id :
  sees P w → redis_call f w = (r, w') →
  (∀ t st k, k ≠ redis_key key_id → peek t (f t st).2 k = peek t st k) →
  (∀ t st json d k, peek t (f t st).2 (redis_key key_id) = Some (json, d) →
     key_from_json json = Some k → P key_id k) →
  sees P w'.
Proof.
  intros Hs%sees_tick Hcall Hframe Hnew. unfold redis_call in Hcall.
  destruct (tick w) as [flt w1]. cbn [snd] in Hs.
  pose proof (Hframe (clock w1) (redis w1)) as Hfr. pose proof (Hnew (clock w1) (redis w1)) as Hnw.
  destruct (f (clock w1) (redis w1)) as [a st']. cbn [snd] in *.
  assert (sees P (set_redis st' w1)) as Hset.
  { destruct Hs as (S1 & S2 & S3). split_and!; [done| |done].
    intros kid json d k. cbn. destruct (decide (kid = key_id)) as [->|Hne]; [apply Hnw|].
    rewrite Hfr by (by intros ?%redis_key_inj). apply S2. }
  destruct flt as [[]|]; by injection Hcall as <- <-.
Qed.

Lemma sees_l1_insert P w key_id k r w' :
  sees P w → P key_id k → l1_insert key_id k w = (r, w') → sees P w'.
Proof.
  intros (S1 & S2 & S3) Hk [= <- <-]. split_and!; [|done..].
  intros kid k' t. cbn. rewrite latest_insert. case_decide as Hd; [|apply S1].
  subst kid. by intros [= <- <-].
Qed.

Lemma sees_select P w (q : Z → Db → result SqlxError (option ServiceAccountKey)) r w' :
  sees P w → query (λ t d, (q t d, d)) w = (r, w') → sees P w'.
Proof.
  intros Hs%sees_tick Hq. unfold query, io_map_err, db_call in Hq.
  destruct (tick w) as [flt w1]. cbn [snd] in Hs.
  destruct flt as [[]|]; injection Hq as <- <-; by destruct w1.
Qed.

(** The tiers, one by one: each answers only with keys it can see. *)
Lemma l1_get_sees P key_id w r w' :
  sees P w → l1_get key_id w = (r, w') →
  sees P w' ∧ ∃ o, r = Ok o ∧ ∀ k, o = Some k → P key_id k.
Proof.
  intros Hs. unfold l1_get. pose proof (get_latest (clock w) key_id (key_l1 w)) as Hget.
  pose proof (latest_get (clock w) key_id (key_l1 w)) as Hlat.
  destruct (moka_get (clock w) key_id (key_l1 w)) as [o c]; cbn [fst snd] in *.
  intros [= <- <-]. split; [by apply (sees_frame P w)|]. exists o. split; [done|]. intros k ->.
  destruct (Hget k eq_refl) as (t0 & Hl & _). by apply (proj1 Hs) in Hl.
Qed.

Lemma get_from_redis_sees P key_id w r w' :
  sees P w → get_from_redis key_id w = (r, w') →
  sees P w' ∧ ∃ o, r = Ok o ∧ ∀ k, o = Some k → P key_id k.
Proof.
  intros Hs. unfold get_from_redis, io_try, mbind, io_bind.
  destruct (redis_get (redis_key key_id) w) as [x w1] eqn:Hg. intros [= <- <-].
  split; [exact (sees_redis_read P _ w x w1 Hs Hg)|]. eexists. split; [done|]. intros k Hk.
  destruct x as [[json|]|e]; try done.
  unfold redis_get in Hg. apply redis_call_ok in Hg as (Hc & Hx & _). cbn in Hx.
  rewrite get_peek in Hx. symmetry in Hx. apply fmap_Some in Hx as ([v d] & Hp & ->).
  apply (peek_earlier (clock w)) in Hp; [|done]. eapply (proj1 (proj2 Hs)); eauto.
Qed.

Lemma select_key_sees P key_id w r w' :
  sees P w → KeyRepo.get_by_key_id key_id w = (r, w') →
  sees P w' ∧ ∀ k, r = Ok k → P key_id k.
Proof.
  intros Hs. unfold KeyRepo.get_by_key_id, mbind, io_bind.
  destruct (query _ w) as [y w1] eqn:Hquery. intros Hq.
  assert (w' = w1) as -> by (destruct y; by injection Hq as <- <-).
  split; [exact (sees_select P w _ y w1 Hs Hquery)|]. intros k ->.
  destruct y as [row|]; [|done]. injection Hq as Hrow. apply ok_or_ok in Hrow as ->.
  apply io_map_err_ok, db_call_ok in Hquery as (_ & [= Hsel] & _).
  by apply (proj2 (proj2 Hs)).
Qed.

Lemma set_in_redis_sees P key_id key w r w' :
  sees P w → P key_id key → set_in_redis key_id key w = (r, w') → sees P w' ∧ r = Ok tt.
Proof.
  intros Hs Hk. unfold set_in_redis. destruct (key_to_json key) as [json|] eqn:Hjson;
    [|by intros [= <- <-]].
  unfold io_try, mbind, io_bind.
  destruct (redis_set_ex _ json L2_TTL_SECS w) as [x w1] eqn:Hset. intros [= <- <-].
  split; [|done]. eapply (sees_redis_write P _ w x w1 key_id Hs Hset).
  - intros t st k' Hk'. cbn. by rewrite peek_set_ex, decide_False.
  - intros t st json' d k'. cbn. rewrite peek_set_ex, decide_True by done.
    intros [= <- <-]. rewrite (key_json_roundtrip _ _ Hjson). by intros [= <-].
Qed.

Lemma populate_sees P with_redis key_id key w r w' :
  sees P w → P key_id key → populate with_redis key_id key w = (r, w') →
  sees P w' ∧ r = Ok key.
Proof.
  intros Hs Hk. unfold populate, mbind, io_bind.
  destruct (l1_insert key_id key w) as [r1 w1] eqn:Hi.
  pose proof (sees_l1_insert _ _ _ _ _ _ Hs Hk Hi) as Hs1. injection Hi as <- <-.
  destruct with_redis; [|by intros [= <- <-]].
  destruct (set_in_redis key_id key _) as [r2 w2] eqn:Hset.
  apply (set_in_redis_sees P) in Hset as [Hs2 ->]; [|done..]. by intros [= <- <-].
Qed.

(** The store serves only keys it can see, and keeps seeing only those. *)
Lemma lookup_sees P with_redis key_id w r w' :
  sees P w → get_by_key_id with_redis key_id w = (r, w') →
  sees P w' ∧ ∀ k, r = Ok k → P key_id k.
Proof.
  intros Hs. unfold get_by_key_id, mbind, io_bind.
  destruct (l1_get key_id w) as [r1 w1] eqn:Hl1.
  apply (l1_get_sees P) in Hl1 as (Hs1 & [k|] & -> & Ho); [intros [= <- <-]; naive_solver| |done].
  destruct ((if with_redis then get_from_redis key_id else mret None) w1) as [r2 w2] eqn:Hl2.
  assert (sees P w2 ∧ ∃ o, r2 = Ok o ∧ ∀ k, o = Some k → P key_id k) as (Hs2 & o & -> & Ho').
  { destruct with_redis; [by apply (get_from_redis_sees P key_id w1)|].
    injection Hl2 as <- <-. split; [done|]. by exists None. }
  destruct o as [k|].
  { destruct (l1_insert key_id k w2) as [r3 w3] eqn:Hi.
    pose proof (sees_l1_insert _ _ _ _ _ _ Hs2 (Ho' k eq_refl) Hi) as Hs3.
    injection Hi as <- <-. intros [= <- <-]. naive_solver. }
  unfold io_map_err. destruct (KeyRepo.get_by_key_id key_id w2) as [r3 w3] eqn:Hdb.
  apply (select_key_sees P) in Hdb as [Hs3 Hk]; [|done].
  destruct r3 as [k|e]; [|intros [= <- <-]; by split].
  intros [Hs4 ->]%(populate_sees P); [|done|by apply Hk]. split; [done|]. intros ? [= <-]. by apply Hk.
Qed.

Lemma invalidate_sees P with_redis key_id w r w' :
  sees P w → invalidate with_redis key_id w = (r, w') → sees P w'.
Proof.
  intros Hs. unfold invalidate, io_modify, mbind, io_bind.
  set (w1 := set_key_l1 _ w).
  assert (sees P w1) as Hs1.
  { destruct Hs as (S1 & S2 & S3). split_and!; [|done..]. intros kid k t. cbn.
    rewrite latest_invalidate. case_decide; [done|apply S1]. }
  destruct with_redis; [|intros [= <- <-]; done]. unfold io_try.
  destruct (redis_del _ w1) as [x w2] eqn:Hdel. intros [= <- <-].
  eapply (sees_redis_write P _ w1 x w2 key_id Hs1 Hdel).
  - intros t st k Hk. cbn. by rewrite peek_del, decide_False.
  - intros t st json d k. cbn. by rewrite peek_del, decide_True.
Qed.
End lookup.

(** ** Activity of the store after a revocation *)

(** Lookups and invalidations by any request, and time passing under any schedule. *)
Inductive store_step `{!Backends, !KeyCodec} : World → World → Prop :=
  | ss_lookup with_redis key_id w r w' :
      get_by_key_id with_redis key_id w = (r, w') → store_step w w'
  | ss_invalidate with_redis key_id w r w' :
      invalidate with_redis key_id w = (r, w') → store_step w w'
  | ss_schedule w w' :
      clock w ≤ clock w' → redis w' = redis w → db w' = db w → key_l1 w' = key_l1 w →
      store_step w w'.

Section revocation.
Context `{!Backends, !BackendsLaws, !KeyCodec, !KeyCodecLaws, !UuidLib}.
Implicit Types (w : World).

Lemma store_steps_sees P w w' : rtc store_step w w' → sees P w → sees P w'.
Proof.
  induction 1 as [|w w1 w2 Hstep _ IH]; [done|]. intros Hs. apply IH.
  destruct Hstep as [b kid w r w' Hl|b kid w r w' Hi|w w' Hc Hr Hd Hk].
  - by eapply (lookup_sees P b kid w r w').
  - by eapply (invalidate_sees P b kid w r w').
  - apply (sees_frame P w); [done..|]. by rewrite Hk.
Qed.

(** What a successful revocation leaves in the database. *)
Lemma revoke_scoped_db id sa w row w' :
  db_wf (db w) → KeyRepo.revoke_scoped id sa w = (Ok row, w') →
  key_status row = KeyRevoked ∧ key_service_account_id row = sa ∧
  (∀ k, KeyRepo.select_by_key_id (key_key_id row) (db w') = Some k → k = row) ∧
  service_account_keys (db w') !! id = Some row ∧
  clock w ≤ clock w'.
Proof.
  intros Hwf Hrev. unfold KeyRepo.revoke_scoped in Hrev.
  apply io_bind_ok in Hrev as (o & w1 & Hq%io_map_err_ok%db_call_ok & Hl).
  apply lift_eq in Hl as [->%ok_or_ok ->].
  destruct Hq as (Hc & Hst & _).
  pose proof (statement_wf _ (clock w') (db w)
    (st_key_revoke (KeyRepo.owned_by sa) id) Hwf) as Hwf'.
  cbn beta in Hwf'. rewrite Hst in Hwf'. cbn [snd] in Hwf'.
  unfold KeyRepo.stmt_update_key in Hst.
  destruct (update_row _ _ _ _) as [o m'] eqn:Hup. injection Hst as -> Hdb.
  apply update_row_some in Hup as (r0 & Hk & Hp%bool_decide_eq_true & -> & ->).
  assert (service_account_keys (db w') !! id = Some (KeyRepo.mark_revoked (clock w') r0)) as Hrow.
  { rewrite <-Hdb. cbn. by rewrite lookup_insert_eq. }
  split_and!; [done|done| |done|done].
  intros k Hsel. apply find_row_some in Hsel as [[j Hj] Heq%bool_decide_eq_true].
  assert (j = id) as -> by (eapply (wf_key_id _ Hwf'); [exact Hj|exact Hrow|done]). congruence.
Qed.

(** After a fault-free invalidation, no copy is cached. *)
Lemma invalidate_idle key_id w r w' :
  script w = [] → invalidate true key_id w = (r, w') →
  uncached key_id w' ∧ db w' = db w.
Proof.
  intros Hs. unfold invalidate, io_modify, mbind, io_bind, io_try, redis_del, redis_call.
  set (w1 := set_key_l1 _ w).
  assert (script w1 = []) as Hs1 by done. rewrite (tick_idle w1 Hs1). intros [= <- <-].
  split; [|done]. split; cbn.
  - by rewrite latest_invalidate, decide_True.
  - by rewrite peek_del, decide_True.
Qed.
End revocation.

(** The served copies of a key are revoked ones. *)
Definition only_revoked (revoked : string) (kid : string) (k : ServiceAccountKey) : Prop :=
  kid = revoked → key_status k = KeyRevoked.

(** After a revocation and a fault-free invalidation, every copy anywhere is revoked. *)
Lemma revocation_seen `{!Backends, !BackendsLaws, !KeyCodec, !UuidLib} id sa w row w1 r w2 :
  db_wf (db w) → KeyRepo.revoke_scoped id sa w = (Ok row, w1) → script w1 = [] →
  invalidate true (key_key_id row) w1 = (r, w2) → sees (only_revoked (key_key_id row)) w2.
Proof.
  intros Hwf Hrev Hs1 Hinv.
  destruct (revoke_scoped_db _ _ _ _ _ Hwf Hrev) as (Hst & _ & Hsel & _ & _).
  destruct (invalidate_idle _ _ _ _ Hs1 Hinv) as [[Hl1 Hl2] Hdb].
  split_and!; unfold only_revoked.
  - intros kid k' t Hk ->. congruence.
  - intros kid json d k' Hk _ ->. congruence.
  - intros kid k' Hk ->. rewrite Hdb in Hk. by rewrite (Hsel _ Hk).
Qed.

(** ** Concrete runs *)

#[global] Instance ServiceAccountKey_eq_dec : EqDecision ServiceAccountKey.
Proof. solve_decision. Defined.

Definition sample_key : ServiceAccountKey := {|
  key_uuid := from_uuid 11; key_service_account_id := from_uuid 7; key_key_id := "kid";
  key_algorithm := "ed25519"; key_public_key_pem := "0123456789abcdef0123456789abcdef";
  key_fingerprint := "fp"; key_status := KeyActive; key_expires_at := None;
  key_created_at := 0; key_revoked_at := None; key_last_used_at := None
|}.
(** A codec that knows one key. *)
Definition sample_codec : KeyCodec := {|
  key_to_json k := if decide (k = sample_key) then Ok "key" else Err "unsupported";
  key_from_json s := if decide (s = "key") then Some sample_key else None
|}.
Lemma sample_codec_laws : @KeyCodecLaws sample_codec.
Proof. split. intros k json. cbn. case_decide as Hk; [|done]. by intros [= <-]; subst. Qed.

Definition sample_tenant : Tenant :=
  mkTenant (from_uuid 1) "Acme" "acme" TenantActive (JObject []) 0 0.
Definition sample_account : ServiceAccount :=
  mkServiceAccount (from_uuid 7) (from_uuid 1) "bot" "bot" Prod None SaActive None 0 0.
(** A tenant, a service account and its key, inserted by the repositories' statements. *)
Definition sample_db : Db :=
  mkDb {[from_uuid 1 := sample_tenant]} {[from_uuid 7 := sample_account]}
    {[from_uuid 11 := sample_key]} ∅ ∅ ∅ ∅ ∅ ∅ ∅.

Lemma sample_db_wf : db_wf sample_db.
Proof.
  split; cbn; unfold keyed, unique_by, references; intros;
    repeat match goal with
    | H : {[_ := _]} !! _ = Some _ |- _ => apply lookup_singleton_Some in H as [<- <-]
    | H : _ !! _ = Some _ |- _ => by rewrite lookup_empty in H
    | H : Some _ = Some _ |- _ => injection H as <-
    end; try done; rewrite lookup_singleton_eq; eauto.
Qed.

(** The gap in the guarantee above. A request that
    read the key from the database before the revocation and fills the caches after the
    invalidation leaves the key in both caches: later lookups serve it as active although
    the database has it revoked and the invalidation succeeded. *)
Lemma revocation_race_serves_revoked_key :
  let B := mem_backends in let U := decimal_uuid in let C := sample_codec in
  let w0 := mem_world 1000 [] ∅ sample_db in
  let '(read, w1) := KeyRepo.get_by_key_id "kid" w0 in
  let '(revoked, w2) := KeyRepo.revoke_scoped (from_uuid 11) (from_uuid 7) w1 in
  let '(invalidated, w3) := invalidate true "kid" w2 in
  let '(filled, w4) := populate true "kid" sample_key w3 in
  read = Ok sample_key ∧ key_status <$> revoked = Ok KeyRevoked ∧ invalidated = Ok tt ∧
  filled = Ok sample_key ∧
  key_status <$> (KeyRepo.get_by_key_id "kid" w4).1 = Ok KeyRevoked ∧
  key_status <$> (get_by_key_id true "kid" w4).1 = Ok KeyActive.
Proof. vm_compute. done. Qed.
