(* ===== verification/Auth.v ===== *)
(** * Request authentication
      (src/gateway/crates/gateway/src/auth/{nonce,middleware,context}.rs)

    The timestamp window, the nonce check, and the middleware: headers, body hash, key,
    service account, signature, nonce, context. *)

From stdpp Require Import options.
From S2P Require Import Prelude Rust Types Errors Json Models PolicyMerge Backends Db World.
From S2P Require Import Repositories DbInvariant RateLimit Signing AppState KeyStore.
#[local] Set Default Proof Using "Type*".

Record AuthContext : Type := mkAuthContext {
  ac_tenant_id : TenantId;
  ac_service_account_id : ServiceAccountId;
  ac_key_id : string;
  ac_service_account_name : string;
  ac_environment : Environment;
  ac_default_policy_id : option PolicyId
}.

(** What the middleware reads of a request: the header map (raw bytes, first value of
    each name), the URI, and the outcome of collecting the body. *)
Record Request : Type := mkRequest {
  req_method : string;
  req_path : string;
  req_path_and_query : option string;
  req_headers : gmap string string;
  req_body : result string string
}.

Record AuthHeaders : Type := mkAuthHeaders {
  sa_id_str : string;
  h_key_id : string;
  h_timestamp : string;
  h_nonce : string;
  h_body_hash : string;
  h_signature : string
}.

(** ** Headers *)

(** [HeaderValue::to_str]: visible ASCII and tab only. *)
Definition to_str_ok (v : string) : bool :=
  str_all (λ c, ((32 <=? byte_of c) && (byte_of c <? 127)) || (byte_of c =? 9)) v.

Definition extract_header (headers : gmap string string) (name : string)
    : result GatewayError string :=
  v ← ok_or (EAuth "missing_auth_header" ("missing required header: " +:+ name)) (headers !! name);
  if to_str_ok v then mret v
  else Err (EAuth "invalid_header" ("header '" +:+ name +:+ "' contains non-ASCII characters")).

Definition extract_auth_headers (headers : gmap string string) : result GatewayError AuthHeaders :=
  sa ← extract_header headers "x-service-account-id";
  key_id ← extract_header headers "x-key-id";
  timestamp ← extract_header headers "x-timestamp";
  nonce ← extract_header headers "x-nonce";
  body_hash ← extract_header headers "x-body-sha256";
  signature ← extract_header headers "x-signature";
  mret (mkAuthHeaders sa key_id timestamp nonce body_hash signature).

(** ** Timestamp and nonce *)

(** [(now - timestamp).unsigned_abs()]: the subtraction wraps at 64 bits. *)
Definition timestamp_diff (now timestamp : Z) : Z := Z.abs (wrap_i64 (now - timestamp)).

Definition validate_timestamp_at (now : Z) (timestamp_str : string) (skew_secs : Z)
    : result GatewayError unit :=
  timestamp ← map_err (λ _, EAuth "invalid_timestamp" "X-Timestamp is not a valid integer")
    (parse_i64 timestamp_str);
  let diff := timestamp_diff now timestamp in
  throw_if (skew_secs <? diff)
    (EAuth "timestamp_expired"
      ("request timestamp is " +:+ pretty diff +:+ "s from server time (max " +:+
       pretty skew_secs +:+ "s)")).

Definition validate_nonce_length (nonce : string) : result GatewayError unit :=
  let len := str_len nonce in
  throw_if (negb ((16 <=? len) && (len <=? 64)))
    (EAuth "invalid_nonce" ("nonce must be 16-64 characters, got " +:+ pretty len)).

Definition denied : GatewayError := EAuth "authentication_failed" "authentication denied".

Section auth.
Context `{!Backends, !UuidLib, !KeyCodec, !Crypto}.
Implicit Types (w : World).

Definition validate_timestamp (timestamp_str : string) (skew_secs : Z)
    : IO World GatewayError unit :=
  now ← now_secs; lift (validate_timestamp_at now timestamp_str skew_secs).

(** [RedisClient::set_nx_ex] *)
Definition redis_set_nx_ex (key value : string) (seconds : Z) : IO World StorageError bool :=
  redis_call (λ t, cmd_set_nx_ex t key value seconds).

Definition nonce_key (service_account_id nonce : string) : string :=
  "nonce:" +:+ service_account_id +:+ ":" +:+ nonce.

Definition check_nonce (service_account_id nonce : string) (ttl_secs : Z)
    : IO World GatewayError unit :=
  was_set ← io_map_err (λ _, EAuth "nonce_check_failed" "unable to verify nonce uniqueness")
    (redis_set_nx_ex (nonce_key service_account_id nonce) "1" ttl_secs);
  lift (throw_if (negb was_set)
    (EAuth "nonce_replay" "this nonce has already been used within the timestamp window")).

(** ** Key and service account *)

Definition key_usable (now : DateTime) (key : ServiceAccountKey) : bool :=
  match key_status key with
  | KeyRevoked | KeyExpired => false
  | KeyActive | KeyRotating =>
    match key_expires_at key with Some expires_at => negb (expires_at <? now) | None => true end
  end.

Definition verify_key (with_redis : bool) (key_id : string)
    : IO World GatewayError ServiceAccountKey :=
  key ← io_map_err (λ _, denied) (get_by_key_id with_redis key_id);
  now ← io_reads (λ w, sql_now (clock w));
  _ ← lift (throw_if (negb (key_usable now key)) denied);
  mret key.

Definition verify_service_account (key : ServiceAccountKey)
    : IO World GatewayError ServiceAccountRepo.ServiceAccountWithTenantStatus :=
  sa ← io_map_err (λ _, denied)
    (ServiceAccountRepo.get_with_tenant_status (key_service_account_id key));
  _ ← lift (throw_if (negb (bool_decide
        (sa_status (ServiceAccountRepo.swt_account sa) = SaActive))) denied);
  _ ← lift (throw_if (negb (bool_decide
        (ServiceAccountRepo.swt_tenant_status sa = TenantActive))) denied);
  mret sa.

(** ** The middleware, up to the call of the next handler

    The last-used update runs in a task of its own; its outcome is dropped. *)
Definition canonical_of (req : Request) (h : AuthHeaders) : string :=
  build_canonical_string (req_method req) (default (req_path req) (req_path_and_query req))
    (h_timestamp h) (h_nonce h) (h_body_hash h).

Definition authenticate (state : AppState) (req : Request) : IO World GatewayError AuthContext :=
  h ← lift (extract_auth_headers (req_headers req));
  body ← lift (map_err (λ e, EAuth "body_read_error" ("failed to read body: " +:+ e)) (req_body req));
  _ ← lift (verify_body_hash body (h_body_hash h));
  _ ← validate_timestamp (h_timestamp h) (timestamp_skew_secs state);
  _ ← lift (validate_nonce_length (h_nonce h));
  with_redis ← lift (require_key_store state);
  key ← verify_key with_redis (h_key_id h);
  _ ← lift (require_db state);
  found ← verify_service_account key;
  let sa := ServiceAccountRepo.swt_account found in
  _ ← lift (throw_if (negb (String.eqb (sa_id_str h) (id_display (sa_id sa)))) denied);
  public_key ← lift (parse_public_key (key_public_key_pem key));
  _ ← lift (verify_signature public_key (canonical_of req h) (h_signature h));
  _ ← lift (require_redis state);
  _ ← check_nonce (id_display (sa_id sa)) (h_nonce h) (timestamp_skew_secs state);
  _ ← io_try (KeyRepo.update_last_used (key_uuid key));
  mret (mkAuthContext (sa_tenant_id sa) (sa_id sa) (h_key_id h) (sa_name sa)
          (sa_environment sa) (sa_default_policy_id sa)).

(** [next] is the rest of the stack, given the context. *)
Definition auth_middleware {A} (state : AppState)
    (next : AuthContext → Request → IO World GatewayError A) (req : Request)
    : IO World GatewayError A :=
  ctx ← authenticate state req;
  next ctx req.
End auth.

(** ** The timestamp window *)

Lemma timestamp_diff_exact now ts skew :
  0 ≤ now < 2 ^ 62 → 0 ≤ skew < 2 ^ 62 → in_i64 ts →
  (timestamp_diff now ts ≤ skew ↔ Z.abs (now - ts) ≤ skew).
Proof.
  intros Hn Hs Ht. unfold timestamp_diff, wrap_i64, in_i64, I64_MIN, I64_MAX in *.
  destruct (decide (now - ts < 2 ^ 63)) as [Hlt|Hge].
  - rewrite Z.mod_small by lia. by replace (now - ts + 9223372036854775808 - 9223372036854775808)
      with (now - ts) by lia.
  - assert ((now - ts + 9223372036854775808) mod 18446744073709551616
      = now - ts + 9223372036854775808 - 18446744073709551616) as ->.
    { symmetry. apply (Z.mod_unique _ _ 1); lia. }
    lia.
Qed.

Lemma validate_timestamp_at_ok now ts skew :
  0 ≤ now < 2 ^ 62 → 0 ≤ skew < 2 ^ 62 →
  (validate_timestamp_at now ts skew = Ok tt ↔
   ∃ n, parse_i64 ts = Ok n ∧ Z.abs (now - n) ≤ skew).
Proof.
  intros Hn Hs. unfold validate_timestamp_at. rewrite result_bind_ok.
  assert (∀ n, parse_i64 ts = Ok n → in_i64 n) as Hb.
  { intros n Hp. eapply from_str_bounds; [|exact Hp]. unfold I64_MIN, I64_MAX. lia. }
  split.
  - intros (n & Hp%map_err_ok & Hd%throw_if_ok%Z.ltb_ge). exists n. split; [done|].
    apply (timestamp_diff_exact now n skew) in Hd; auto.
  - intros (n & Hp & Hd). exists n. rewrite map_err_ok. split; [done|].
    apply throw_if_ok, Z.ltb_ge. apply timestamp_diff_exact; auto.
Qed.

(** ** What each part leaves alone *)

Ltac solve_preserves :=
  repeat match goal with
  | |- preserves _ (_ ≫= _) => apply preserves_bind; [|intros]
  | |- preserves _ (io_map_err _ _) => apply preserves_map_err
  | |- preserves _ (io_try _) => apply preserves_try
  | |- preserves _ (query _) => apply preserves_map_err
  | |- preserves _ (match ?x with _ => _ end) => destruct x
  | |- preserves _ _ => eauto with gate
  end.
Ltac solve_advances :=
  repeat match goal with
  | |- advances (_ ≫= _) => apply advances_bind; [|intros]
  | |- advances (io_map_err _ _) => apply advances_map_err
  | |- advances (io_try _) => apply advances_try
  | |- advances (query _) => apply advances_map_err
  | |- advances (match ?x with _ => _ end) => destruct x
  | |- advances _ => eauto with gate
  end.

Section frames.
Context `{!Backends, !UuidLib, !KeyCodec, !Crypto}.

Lemma lookup_db b key_id : preserves db (get_by_key_id b key_id).
Proof.
  unfold get_by_key_id, populate, get_from_redis, set_in_redis.
  apply preserves_bind; [intros w; unfold l1_get; by destruct (moka_get _ _ _)|].
  intros [k|]; [done|]. apply preserves_bind.
  { destruct b; [|done]. solve_preserves. }
  intros [k|]; [solve_preserves; done|]. solve_preserves; try done.
Qed.

Lemma verify_key_db b key_id : preserves db (verify_key b key_id).
Proof. unfold verify_key. solve_preserves. apply lookup_db. Qed.

Lemma lookup_advances b key_id : advances (get_by_key_id b key_id).
Proof.
  unfold get_by_key_id, populate, get_from_redis, set_in_redis, redis_get, redis_set_ex.
  apply advances_bind; [intros w; unfold l1_get; by destruct (moka_get _ _ _)|].
  intros [k|]; [apply advances_ret|]. apply advances_bind.
  { destruct b; [|apply advances_ret]. solve_advances. }
  intros [k|]; unfold KeyRepo.get_by_key_id, l1_insert; solve_advances;
    apply advances_preserves; done.
Qed.

End frames.

(** ** What stays stored in Redis under a key *)

Section keeps.
Context `{!Backends, !BackendsLaws}.
Implicit Types (w : World).

(** [m] takes some time and does not touch [k]: an entry is still there afterwards
    unless it expired meanwhile. *)
Definition keeps {E A} (k : string) (m : IO World E A) : Prop := ∀ w,
  clock w ≤ clock (m w).2 ∧
  peek (clock (m w).2) (redis (m w).2) k = peek (clock w) (redis w) k ≫= live (clock (m w).2).

Lemma live_live t t' e : t ≤ t' → live t e ≫= live t' = live t' e.
Proof. intros Ht. symmetry. by apply live_idem. Qed.

Lemma keeps_bind {E A B} k (m : IO World E A) (f : A → IO World E B) :
  keeps k m → (∀ a, keeps k (f a)) → keeps k (m ≫= f).
Proof.
  intros Hm Hf w. unfold mbind, io_bind. specialize (Hm w).
  destruct (m w) as [[a|e] w1]; cbn in *; [|done]. destruct Hm as [Hc Hp].
  destruct (Hf a w1) as [Hc' Hp']. split; [lia|]. rewrite Hp', Hp.
  destruct (peek (clock w) (redis w) k); cbn; [by rewrite live_live|done].
Qed.
Lemma keeps_still {E A} k (m : IO World E A) :
  preserves clock m → preserves redis m → keeps k m.
Proof.
  intros Hc Hr w. rewrite Hc, Hr. split; [done|]. by apply peek_later.
Qed.
Lemma keeps_map_err {E F A} k (g : E → F) (m : IO World E A) :
  keeps k m → keeps k (io_map_err g m).
Proof. intros Hm w. specialize (Hm w). unfold io_map_err. by destruct (m w). Qed.
Lemma keeps_try {E F A} k (m : IO World E A) : keeps k m → keeps k (io_try m : IO World F _).
Proof. intros Hm w. specialize (Hm w). unfold io_try. by destruct (m w). Qed.
Lemma keeps_ret {E A} k (a : A) : keeps k (mret a : IO World E A).
Proof. by apply keeps_still. Qed.
Lemma keeps_lift {E A} k (r : result E A) : keeps k (lift r).
Proof. by apply keeps_still. Qed.
Lemma keeps_reads {E A} k (f : World → A) : keeps k (io_reads f : IO World E A).
Proof. by apply keeps_still. Qed.
Lemma keeps_db_call {A} k (stmt : Stmt A) : keeps k (db_call stmt).
Proof.
  intros w. rewrite db_call_redis. split; [apply db_call_advances|].
  apply peek_later, db_call_advances.
Qed.
Lemma keeps_redis_call {A} k (f : Z → Redis → A * Redis) :
  (∀ t st, peek t (f t st).2 k = peek t st k) → keeps k (redis_call f).
Proof.
  intros Hf w. unfold redis_call. pose proof (tick_clock w) as Hc.
  pose proof (tick_frame redis w ltac:(done)) as Hr.
  destruct (tick w) as [flt w1]. cbn in *. specialize (Hf (clock w1) (redis w1)).
  destruct (f (clock w1) (redis w1)) as [a st]. cbn in *.
  destruct flt as [[]|]; cbn; (split; [done|]); try rewrite Hf; rewrite Hr; by apply peek_later.
Qed.
End keeps.

#[export] Hint Resolve keeps_ret keeps_lift keeps_reads keeps_db_call keeps_redis_call : gate.
Ltac solve_keeps :=
  repeat match goal with
  | |- keeps _ (_ ≫= _) => apply keeps_bind; [|intros]
  | |- keeps _ (io_map_err _ _) => apply keeps_map_err
  | |- keeps _ (io_try _) => apply keeps_try
  | |- keeps _ (query _) => apply keeps_map_err
  | |- keeps _ (match ?x with _ => _ end) => destruct x
  | |- keeps _ _ => eauto with gate
  end.

Section nonce.
Context `{!Backends, !BackendsLaws, !UuidLib, !KeyCodec, !Crypto}.
Implicit Types (w : World).

Lemma nonce_not_cached sa n key_id : nonce_key sa n ≠ redis_key key_id.
Proof. unfold nonce_key, redis_key, L2_KEY_PREFIX. done. Qed.

(** The key store never touches a nonce. *)
Lemma lookup_keeps_nonce sa n b key_id : keeps (nonce_key sa n) (get_by_key_id b key_id).
Proof.
  pose proof (nonce_not_cached sa n key_id) as Hne.
  assert (∀ c k, keeps (nonce_key sa n) (l1_insert c k)) as Hins by (intros; by apply keeps_still).
  unfold get_by_key_id, populate, get_from_redis, set_in_redis, redis_get, redis_set_ex,
    KeyRepo.get_by_key_id.
  apply keeps_bind.
  { apply keeps_still; intros w; unfold l1_get; by destruct (moka_get _ _ _). }
  intros [k|]; [solve_keeps|]. solve_keeps; apply keeps_redis_call; intros t st; cbn.
  by rewrite peek_set_ex, decide_False.
Qed.

Lemma verify_key_keeps_nonce sa n b key_id : keeps (nonce_key sa n) (verify_key b key_id).
Proof. unfold verify_key. solve_keeps. apply lookup_keeps_nonce. Qed.
Lemma verify_sa_keeps k key : keeps k (verify_service_account key).
Proof. unfold verify_service_account, ServiceAccountRepo.get_with_tenant_status. solve_keeps. Qed.

(** An accepted nonce was not stored, and is stored from then on for [ttl] seconds. *)
Lemma check_nonce_ok sa n ttl w w' : 0 < ttl →
  check_nonce sa n ttl w = (Ok tt, w') →
  clock w ≤ clock w' ∧ peek (clock w') (redis w) (nonce_key sa n) = None ∧
  peek (clock w') (redis w') (nonce_key sa n) = Some ("1", Some (clock w' + ttl * 1000)).
Proof.
  intros Httl. unfold check_nonce, redis_set_nx_ex. intros Hrun. inv_res.
  match goal with H : redis_call _ _ = _ |- _ => apply redis_call_ok in H as (Hc & Hb & Hr & _) end.
  rewrite set_nx_ex_result in Hb by done. subst.
  match goal with H : negb _ = false |- _ => apply negb_false_iff, bool_decide_eq_true in H as Hn end.
  split_and!; [done..|]. rewrite Hr, peek_set_nx_ex by done. by rewrite decide_True.
Qed.
End nonce.

(** ** What an accepted request went through *)

Section accepted.
Context `{!Backends, !UuidLib, !KeyCodec, !Crypto}.
Implicit Types (w : World).

(** The service account and the tenant behind a key, as the database has them. *)
Lemma verify_sa_ok key w found w' :
  verify_service_account key w = (Ok found, w') →
  ∃ sa tenant,
    found = ServiceAccountRepo.mkSaWithTenant sa (tenant_status tenant) ∧
    service_accounts (db w) !! key_service_account_id key = Some sa ∧
    tenants (db w) !! sa_tenant_id sa = Some tenant ∧
    sa_status sa = SaActive ∧ tenant_status tenant = TenantActive.
Proof.
  unfold verify_service_account, ServiceAccountRepo.get_with_tenant_status. intros Hrun. inv_res.
  match goal with H : query _ _ = _ |- _ => apply io_map_err_ok, db_call_ok in H as (_ & [= Hsel _] & _) end.
  unfold ServiceAccountRepo.select_with_tenant in Hsel.
  destruct (service_accounts (db w) !! _) as [sa|] eqn:Hsa; [cbn in Hsel|done].
  destruct (tenants (db w) !! _) as [t|] eqn:Ht; [cbn in Hsel|done]. injection Hsel as <-.
  exists sa, t. cbn in *.
  repeat match goal with H : negb _ = false |- _ => apply negb_false_iff, bool_decide_eq_true in H end.
  auto.
Qed.

Lemma verify_key_ok b key_id w key w' :
  verify_key b key_id w = (Ok key, w') →
  get_by_key_id b key_id w = (Ok key, w') ∧ key_usable (sql_now (clock w')) key = true.
Proof.
  unfold verify_key. intros Hrun. inv_res.
  match goal with H : io_reads _ _ = _ |- _ => injection H as <- <- end.
  match goal with H : negb _ = false |- _ => apply negb_false_iff in H end. auto.
Qed.

(** Everything the middleware established before it answered. *)
Lemma authenticate_ok state req w ctx w' :
  authenticate state req w = (Ok ctx, w') →
  ∃ h body b key sa tenant public_key w1 w2 w3,
    extract_auth_headers (req_headers req) = Ok h ∧ req_body req = Ok body ∧
    verify_body_hash body (h_body_hash h) = Ok tt ∧
    validate_timestamp_at (clock w / 1000) (h_timestamp h) (timestamp_skew_secs state) = Ok tt ∧
    validate_nonce_length (h_nonce h) = Ok tt ∧
    verify_key b (h_key_id h) w = (Ok key, w1) ∧
    verify_service_account key w1 =
      (Ok (ServiceAccountRepo.mkSaWithTenant sa (tenant_status tenant)), w2) ∧
    service_accounts (db w) !! key_service_account_id key = Some sa ∧ sa_status sa = SaActive ∧
    tenants (db w) !! sa_tenant_id sa = Some tenant ∧ tenant_status tenant = TenantActive ∧
    sa_id_str h = id_display (sa_id sa) ∧
    parse_public_key (key_public_key_pem key) = Ok public_key ∧
    verify_signature public_key (canonical_of req h) (h_signature h) = Ok tt ∧
    check_nonce (id_display (sa_id sa)) (h_nonce h) (timestamp_skew_secs state) w2 = (Ok tt, w3) ∧
    w' = (KeyRepo.update_last_used (key_uuid key) w3).2 ∧
    ctx = mkAuthContext (sa_tenant_id sa) (sa_id sa) (h_key_id h) (sa_name sa)
            (sa_environment sa) (sa_default_policy_id sa).
Proof.
  unfold authenticate. intros Hrun. inv_res.
  repeat match goal with x : () |- _ => destruct x end.
  match goal with H : verify_service_account _ _ = _ |- _ =>
    pose proof (verify_sa_ok _ _ _ _ H) as (sa & tenant & -> & Hsa & Ht & Hact & Htact) end.
  match goal with H : verify_key ?b ?kid ?w0 = _ |- _ =>
    pose proof (verify_key_db b kid w0) as Hdb; rewrite H in Hdb; cbn in Hdb end.
  match goal with H : validate_timestamp _ _ _ = _ |- _ => injection H as Hts <- end.
  match goal with H : negb (String.eqb _ _) = false |- _ =>
    apply negb_false_iff, String.eqb_eq in H end.
  match goal with H : io_try ?m ?w0 = (Ok _, ?w1) |- _ =>
    assert (w1 = (m w0).2) by (revert H; unfold io_try; destruct (m w0); by intros [= _ <-]) end.
  rewrite Hdb in Hsa, Ht. cbn in *.
  do 10 eexists. split_and!; try eassumption; done.
Qed.
End accepted.

(** ** Properties *)

Section properties.
Context `{!Backends, !BackendsLaws, !UuidLib, !KeyCodec, !Crypto}.
Implicit Types (w : World).

Lemma update_last_used_keeps k id : keeps k (KeyRepo.update_last_used id).
Proof. unfold KeyRepo.update_last_used. solve_keeps. Qed.

(** From the key lookup to the answer: the nonce was absent at some instant, and is
    stored from then on for the skew. *)
Lemma nonce_window b key_id key found sa n ttl id w w1 w2 w3 :
  0 < ttl →
  verify_key b key_id w = (Ok key, w1) → verify_service_account key w1 = (Ok found, w2) →
  check_nonce sa n ttl w2 = (Ok tt, w3) →
  let w' := (KeyRepo.update_last_used id w3).2 in
  clock w ≤ clock w1 ≤ clock w3 ∧ clock w3 ≤ clock w' ∧
  peek (clock w3) (redis w) (nonce_key sa n) = None ∧
  peek (clock w') (redis w') (nonce_key sa n) =
    live (clock w') ("1", Some (clock w3 + ttl * 1000)).
Proof.
  intros Httl Hkey Hsa Hnonce w'.
  destruct (verify_key_keeps_nonce sa n b key_id w) as [Hc1 Hp1].
  destruct (verify_sa_keeps (nonce_key sa n) key w1) as [Hc2 Hp2].
  rewrite Hkey in Hc1, Hp1. rewrite Hsa in Hc2, Hp2. cbn [snd] in Hc1, Hp1, Hc2, Hp2.
  apply check_nonce_ok in Hnonce as (Hc3 & Hfresh & Hset); [|done].
  destruct (update_last_used_keeps (nonce_key sa n) id w3) as [Hc4 Hp4]. fold w' in Hc4, Hp4.
  split_and!; [lia..| |].
  - rewrite (peek_later (clock w2)) in Hfresh by lia. rewrite Hp2, Hp1 in Hfresh.
    rewrite (peek_later (clock w)) by lia.
    destruct (peek (clock w) (redis w) (nonce_key sa n)) as [e|]; [|done]. cbn in Hfresh |- *.
    rewrite live_live in Hfresh by lia. by rewrite live_live in Hfresh by lia.
  - by rewrite Hp4, Hset.
Qed.

(** C1: a request the middleware accepts carried all six headers and a
    body with the announced digest, a timestamp within the skew of the clock at arrival
    and a nonce of 16 to 64 characters; the key it names is one the store could see
    (whatever holds of every cached and stored copy holds of it) and was usable when it
    was checked; the key's service account, the one the client claims to be, and its
    tenant were active in the database; the signature over method, path, timestamp, nonce
    and digest verifies under the key; the nonce was not stored. The context handed on is
    that account's. *)
Theorem auth_success_sound `{!KeyCodecLaws} state req w ctx w' :
  0 ≤ clock w < 2 ^ 62 → 0 < timestamp_skew_secs state < 2 ^ 62 →
  authenticate state req w = (Ok ctx, w') →
  ∃ h body key sa tenant public_key ts t,
    extract_auth_headers (req_headers req) = Ok h ∧
    req_body req = Ok body ∧ h_body_hash h = compute_body_hash body ∧
    parse_i64 (h_timestamp h) = Ok ts ∧ Z.abs (clock w / 1000 - ts) ≤ timestamp_skew_secs state ∧
    16 ≤ str_len (h_nonce h) ≤ 64 ∧
    (∀ P, sees P w → P (h_key_id h) key) ∧
    clock w ≤ t ≤ clock w' ∧ key_usable (sql_now t) key = true ∧
    service_accounts (db w) !! key_service_account_id key = Some sa ∧ sa_status sa = SaActive ∧
    tenants (db w) !! sa_tenant_id sa = Some tenant ∧ tenant_status tenant = TenantActive ∧
    sa_id_str h = id_display (sa_id sa) ∧
    parse_public_key (key_public_key_pem key) = Ok public_key ∧
    verify_signature public_key (canonical_of req h) (h_signature h) = Ok tt ∧
    peek (clock w') (redis w) (nonce_key (id_display (sa_id sa)) (h_nonce h)) = None ∧
    ctx = mkAuthContext (sa_tenant_id sa) (sa_id sa) (h_key_id h) (sa_name sa)
            (sa_environment sa) (sa_default_policy_id sa).
Proof.
  intros Hclock Hskew (h & body & b & key & sa & tenant & pk & w1 & w2 & w3 & Hh & Hbody & Hhash &
    Hts & Hlen & Hkey & Hsa & Hrow & Hact & Htrow & Htact & Hid & Hpk & Hsig & Hnonce & -> & Hctx)
    %authenticate_ok.
  apply validate_timestamp_at_ok in Hts as (ts & Hts & Hdiff); [|lia..].
  destruct (verify_key_ok _ _ _ _ _ Hkey) as [Hget Husable].
  destruct (nonce_window _ _ _ _ _ _ _ (key_uuid key) _ _ _ _ (proj1 Hskew) Hkey Hsa Hnonce)
    as (Hc & Hc' & Hfresh & _).
  exists h, body, key, sa, tenant, pk, ts, (clock w1). split_and!; try assumption.
  - unfold verify_body_hash in Hhash.
    by apply throw_if_ok, negb_false_iff, String.eqb_eq in Hhash.
  - unfold validate_nonce_length in Hlen. apply throw_if_ok, negb_false_iff in Hlen. lia.
  - unfold validate_nonce_length in Hlen. apply throw_if_ok, negb_false_iff in Hlen. lia.
  - intros P HP. destruct (lookup_sees P b (h_key_id h) w _ _ HP Hget) as [_ Hs]. by apply Hs.
  - lia.
  - lia.
  - by rewrite (peek_later (clock w3)), Hfresh by lia.
Qed.

(** A nonce is accepted once per skew. When two requests of one
    service account with one nonce are both accepted, the second by the same process
    state or another sharing the Redis server in which nobody touched the nonce in
    between, then the second one finished at least [timestamp_skew_secs] after the first
    arrived. *)
Lemma nonce_replay_refused state req1 req2 w1 w1' w2 w2' ctx1 ctx2 h1 h2 :
  0 < timestamp_skew_secs state →
  authenticate state req1 w1 = (Ok ctx1, w1') →
  authenticate state req2 w2 = (Ok ctx2, w2') →
  extract_auth_headers (req_headers req1) = Ok h1 →
  extract_auth_headers (req_headers req2) = Ok h2 →
  ac_service_account_id ctx1 = ac_service_account_id ctx2 → h_nonce h1 = h_nonce h2 →
  let k := nonce_key (id_display (ac_service_account_id ctx1)) (h_nonce h1) in
  clock w1' ≤ clock w2 →
  peek (clock w2) (redis w2) k = peek (clock w1') (redis w1') k ≫= live (clock w2) →
  clock w1 + timestamp_skew_secs state * 1000 ≤ clock w2'.
Proof.
  intros Hskew (g1 & ? & ? & key1 & sa1 & ? & ? & ? & ? & w3 & Hg1 & ? & ? & ? & ? & Hk1 & Hs1 & ? & ? &
    ? & ? & ? & ? & ? & Hn1 & -> & ->)%authenticate_ok
    (g2 & ? & ? & key2 & sa2 & ? & ? & ? & ? & w4 & Hg2 & ? & ? & ? & ? & Hk2 & Hs2 & ? & ? &
    ? & ? & ? & ? & ? & Hn2 & -> & ->)%authenticate_ok Hh1 Hh2.
  rewrite Hg1 in Hh1. rewrite Hg2 in Hh2. injection Hh1 as ->. injection Hh2 as ->.
  cbn [ac_service_account_id]. intros Hsa Hnonce Hle Hbetween.
  destruct (nonce_window _ _ _ _ _ _ _ (key_uuid key1) _ _ _ _ Hskew Hk1 Hs1 Hn1) as (Hc1 & Hc1' & _ & Hset).
  destruct (nonce_window _ _ _ _ _ _ _ (key_uuid key2) _ _ _ _ Hskew Hk2 Hs2 Hn2) as (Hc2 & Hc2' & Hfresh & _).
  rewrite <-Hsa, <-Hnonce in Hfresh. rewrite Hset in Hbetween.
  rewrite live_live in Hbetween by done. rewrite (peek_later (clock w2)), Hbetween in Hfresh by lia.
  rewrite live_live in Hfresh by lia. unfold live in Hfresh. cbn in Hfresh.
  destruct (Z.ltb_spec (clock w4) (clock w3 + timestamp_skew_secs state * 1000)); [done|lia].
Qed.
End properties.

(** ** Concrete runs *)

Section runs.
#[local] Existing Instances mem_backends decimal_uuid sample_codec toy_crypto.

Definition sample_state : AppState :=
  mkAppState 300 true true (Some true) true true None true true.

(** A request of the sample account, signed with the sample key at [timestamp]. *)
Definition sample_request (timestamp : string) : Request :=
  let hash := compute_body_hash "{}" in
  let nonce := "nonce-0123456789" in
  let canonical := build_canonical_string "POST" "/v1/chat/completions" timestamp nonce hash in
  mkRequest "POST" "/v1/chat/completions" None
    (list_to_map [("x-service-account-id", "7"); ("x-key-id", "kid"); ("x-timestamp", timestamp);
      ("x-nonce", nonce); ("x-body-sha256", hash);
      ("x-signature", key_public_key_pem sample_key +:+ one_line canonical)])
    (Ok "{}").
Definition sample_context : AuthContext :=
  mkAuthContext (from_uuid 1) (from_uuid 7) "kid" "bot" Prod None.


Lemma auth_success_sound_witness :
  let w := mem_world 1000000 [mkStep 3 None] ∅ sample_db in
  let w' := (authenticate sample_state (sample_request "990") w).2 in
  (authenticate sample_state (sample_request "990") w).1 = Ok sample_context ∧
  ∃ h key, extract_auth_headers (req_headers (sample_request "990")) = Ok h ∧
    h_key_id h = "kid" ∧ ∃ t, key_usable t key = true.
Proof.
  intros w w'. pose proof mem_backends_laws. pose proof sample_codec_laws.
  assert ((authenticate sample_state (sample_request "990") w).1 = Ok sample_context) as Hrun
    by by vm_compute.
  split; [done|].
  destruct (auth_success_sound sample_state (sample_request "990") w sample_context w')
    as (h & ? & key & ? & ? & ? & ? & t & Hh & Hrest); [cbn; lia..| |].
  { exact (run_answer _ _ Hrun). }
  exists h, key. split; [done|]. split; [|exists (sql_now t); tauto].
  assert (extract_auth_headers (req_headers (sample_request "990")) ≫= (λ h, Ok (h_key_id h))
    = Ok "kid") as Hk by by vm_compute.
  rewrite Hh in Hk. by injection Hk.
Defined.

End runs.
