(* ===== verification/PolicyEngine.v ===== *)
(** * Evaluating policies for a service account
      (src/gateway/crates/gateway/src/policy/engine.rs, the stateful part)

    Loading the applicable policies, the cache of merged policies, and the evaluation of
    a request with and without it. The cache is coherent: as long as every change of the
    policies is followed by the invalidation the admin handlers perform, a cached
    evaluation enforces what the database says. *)

From stdpp Require Import options.
From S2P Require Import Prelude Rust Types Errors Json Models PolicyChecks PolicyMerge Backends.
From S2P Require Import Db World Repositories RateLimit AppState KeyStore Auth.
Import Features Quotas.
#[local] Set Default Proof Using "Type*".

Section engine.
Context `{!Backends, !UuidLib, !HashOrder}.
Implicit Types (w : World).

Definition load_policies (auth : AuthContext) : IO World GatewayError (list Policy) :=
  io_map_err (λ _, EPolicy "policy_load_failed" "failed to load policies for service account")
    (PolicyRepo.list_policies_for_service_account (ac_service_account_id auth)
       (ac_default_policy_id auth)).

Definition evaluate (auth : AuthContext) (model : string) (request_features : RequestFeatures)
    (estimated_input_tokens requested_max_output_tokens : option Z)
    : IO World GatewayError PolicyDecision :=
  policies ← load_policies auth;
  evaluated ← lift (merge_policies policies);
  token_check ← lift (apply_policy_checks evaluated model request_features
                        estimated_input_tokens requested_max_output_tokens);
  mret (mkPolicyDecision token_check evaluated).

(** ** The cache *)

(** [PolicyCache::new] *)
Definition policy_cache_new (ttl_secs : Z) : Moka ServiceAccountId EvaluatedPolicy :=
  moka_new ttl_secs.
Definition policy_cache_get (sa_id : ServiceAccountId)
    : IO World GatewayError (option EvaluatedPolicy) := λ w,
  let '(o, c) := moka_get (clock w) sa_id (policy_l1 w) in (Ok o, set_policy_l1 c w).
Definition policy_cache_insert (sa_id : ServiceAccountId) (ev : EvaluatedPolicy)
    : IO World GatewayError unit :=
  io_modify (λ w, set_policy_l1 (moka_insert (clock w) sa_id ev (policy_l1 w)) w).

(** [try_get_with]: a hit, or the value of the closure, inserted when it is [Ok]. *)
Definition get_or_evaluate (auth : AuthContext) : IO World GatewayError EvaluatedPolicy :=
  let sa_id := ac_service_account_id auth in
  hit ← policy_cache_get sa_id;
  match hit with
  | Some ev => mret ev
  | None =>
    io_map_err (λ e, EPolicy "policy_load_failed" (error_display e))
      (policies ← load_policies auth;
       evaluated ← lift (merge_policies policies);
       _ ← policy_cache_insert sa_id evaluated;
       mret evaluated)
  end.

Definition invalidate_policy {E} (sa_id : ServiceAccountId) : IO World E unit :=
  io_modify (λ w, set_policy_l1 (moka_invalidate sa_id (policy_l1 w)) w).
Definition invalidate_all_policies {E} : IO World E unit :=
  io_modify (λ w, set_policy_l1 (moka_invalidate_all (policy_l1 w)) w).

Definition evaluate_cached (auth : AuthContext) (model : string)
    (request_features : RequestFeatures)
    (estimated_input_tokens requested_max_output_tokens : option Z)
    : IO World GatewayError PolicyDecision :=
  evaluated ← get_or_evaluate auth;
  token_check ← lift (apply_policy_checks evaluated model request_features
                        estimated_input_tokens requested_max_output_tokens);
  mret (mkPolicyDecision token_check evaluated).
End engine.

(** ** What the database says applies to an account *)

Definition default_row (d : Db) (bound : list Policy) (default_id : PolicyId) : list Policy :=
  if existsb (λ p, bool_decide (policy_id p = default_id)) bound then []
  else match policies d !! default_id with Some p => [p] | None => [] end.
Definition applicable (sa : ServiceAccountId) (default_id : option PolicyId) (d : Db) : list Policy :=
  let bound := PolicyRepo.select_bound sa d in
  bound ++ match default_id with Some id => default_row d bound id | None => [] end.

Section load.
Context `{!Backends, !UuidLib, !HashOrder}.
Implicit Types (w : World).

Lemma list_policies_ok sa def w ps w' :
  PolicyRepo.list_policies_for_service_account sa def w = (Ok ps, w') →
  ps = applicable sa def (db w) ∧ db w' = db w ∧ policy_l1 w' = policy_l1 w ∧ clock w ≤ clock w'.
Proof.
  unfold PolicyRepo.list_policies_for_service_account, applicable, default_row.
  intros (bound & w1 & (Hc & [= <- Hdb] & _ & _ & Hl1 & _)%io_map_err_ok%db_call_ok & Hrest)%io_bind_ok.
  destruct def as [id|]; [|injection Hrest as <- <-; by rewrite app_nil_r].
  destruct (existsb _ _); cbn in Hrest; [injection Hrest as <- <-; by rewrite app_nil_r|].
  apply io_bind_ok in Hrest
    as (row & w2 & (Hc2 & [= <- Hdb2] & _ & _ & Hl2 & _)%io_map_err_ok%db_call_ok & [= <- <-]).
  rewrite <-Hdb. split_and!; [|congruence|congruence|lia].
  destruct (policies (db w) !! id) as [p|]; [done|by rewrite app_nil_r].
Qed.

(** Loading never writes, whatever its outcome. *)
Lemma list_policies_frame sa def w :
  let w' := (PolicyRepo.list_policies_for_service_account sa def w).2 in
  db w' = db w ∧ policy_l1 w' = policy_l1 w.
Proof.
  assert (∀ {A} (q : Z → Db → result SqlxError A),
    preserves policy_l1 (db_call (λ t d, (q t d, d)))) as Hcache.
  { intros A q w0. unfold db_call. pose proof (tick_frame policy_l1 w0 ltac:(done)) as Ht.
    destruct (tick w0) as [flt w1]. cbn in Ht |- *. by destruct flt as [[]|]. }
  split; [revert w|revert w]; unfold PolicyRepo.list_policies_for_service_account;
    (apply preserves_bind; [apply preserves_map_err; auto with gate|]); intros bound;
    (destruct def as [id|]; [|apply preserves_ret]);
    (destruct (negb _); [|apply preserves_ret]);
    (apply preserves_bind; [apply preserves_map_err; auto with gate|]);
    intros []; apply preserves_ret.
Qed.

(** Every binding of the account, and its default, is among what is loaded. *)
Lemma select_bound_elem sa d b p id :
  bindings d !! id = Some b → binding_service_account_id b = sa →
  policies d !! binding_policy_id b = Some p → p ∈ PolicyRepo.select_bound sa d.
Proof.
  intros Hb Hsa Hp. unfold PolicyRepo.select_bound. apply list_elem_of_omap. exists b. split.
  - unfold rows. apply list_elem_of_fmap. exists (id, b). split; [done|].
    by apply elem_of_map_to_list.
  - by rewrite bool_decide_true.
Qed.
Lemma applicable_default sa id d p :
  policies d !! id = Some p → policy_id p = id → (∀ q, q ∈ PolicyRepo.select_bound sa d →
    policies d !! policy_id q = Some q) → p ∈ applicable sa (Some id) d.
Proof.
  intros Hp Hid Hkeyed. unfold applicable, default_row. apply elem_of_app.
  destruct (existsb _ _) eqn:He; [left|right; rewrite Hp; set_solver].
  apply existsb_exists in He as (q & Hq & Heq%bool_decide_eq_true).
  apply list_elem_of_In in Hq. pose proof (Hkeyed q Hq) as Hq'. rewrite Heq, Hp in Hq'. congruence.
Qed.
End load.

(** ** Coherence of the cache *)

(** The context carries the account's default policy as the database has it. *)
Definition context_current (auth : AuthContext) (d : Db) : Prop :=
  ∃ row, service_accounts d !! ac_service_account_id auth = Some row ∧
    ac_default_policy_id auth = sa_default_policy_id row.

(** The policies of an account, as the database has them; their order means nothing. *)
Definition account_policies (sa : ServiceAccountId) (d : Db) : list Policy :=
  applicable sa (service_accounts d !! sa ≫= sa_default_policy_id) d.

(** Activity of a process and of the database: lookups, changes of the policies with the
    invalidation the admin handlers perform right after, anything else. *)
Inductive policy_step `{!Backends, !UuidLib, !HashOrder} : World → World → Prop :=
  | ps_lookup auth w r w' :
      context_current auth (db w) → get_or_evaluate auth w = (r, w') → policy_step w w'
  | ps_change_all w w1 r w' :
      policy_l1 w1 = policy_l1 w → invalidate_all_policies (E:=GatewayError) w1 = (r, w') →
      policy_step w w'
  | ps_change_one sa w w1 r w' :
      policy_l1 w1 = policy_l1 w →
      (∀ sa', sa' ≠ sa → account_policies sa' (db w1) ≡ₚ account_policies sa' (db w)) →
      invalidate_policy (E:=GatewayError) sa w1 = (r, w') → policy_step w w'
  | ps_other w w' :
      policy_l1 w' = policy_l1 w →
      (∀ sa, account_policies sa (db w') ≡ₚ account_policies sa (db w)) → policy_step w w'.

(** Every cached policy is the merge of the policies the database has for the account. *)
Definition merge_of `{!HashOrder} (ps : list Policy) (ev : EvaluatedPolicy) : Prop :=
  ∃ qs, qs ≡ₚ ps ∧ merge_policies qs = Ok ev.
Definition coherent `{!Backends, !HashOrder} (w : World) : Prop :=
  ∀ sa ev t, latest (policy_l1 w) sa = Some (ev, t) → merge_of (account_policies sa (db w)) ev.

#[global] Instance merge_of_proper `{!HashOrder} : Proper ((≡ₚ) ==> (=) ==> iff) merge_of.
Proof. intros ps qs Hpq ev ? <-. unfold merge_of. by setoid_rewrite Hpq. Qed.

Section coherence.
Context `{!Backends, !BackendsLaws, !UuidLib, !HashOrder}.
Implicit Types (w : World).

Lemma context_policy auth d : context_current auth d →
  account_policies (ac_service_account_id auth) d =
    applicable (ac_service_account_id auth) (ac_default_policy_id auth) d.
Proof. intros (row & Hrow & Hdef). unfold account_policies. by rewrite Hrow, Hdef. Qed.

Lemma get_or_evaluate_coherent auth w r w' :
  coherent w → context_current auth (db w) → get_or_evaluate auth w = (r, w') →
  coherent w' ∧ ∀ ev, r = Ok ev → merge_of (account_policies (ac_service_account_id auth) (db w)) ev.
Proof.
  intros Hco Hctx Hrun. unfold get_or_evaluate, policy_cache_get, mbind, io_bind in Hrun.
  set (sa := ac_service_account_id auth) in *.
  pose proof (get_latest (clock w) sa (policy_l1 w)) as Hget.
  pose proof (latest_get (clock w) sa (policy_l1 w)) as Hlat.
  destruct (moka_get (clock w) sa (policy_l1 w)) as [[ev|] c]; cbn [fst snd] in *.
  { injection Hrun as <- <-. split.
    - intros sa' ev' t. cbn. rewrite Hlat. apply Hco.
    - intros ? [= <-]. destruct (Hget ev eq_refl) as (t0 & Hl & _). by eapply Hco. }
  set (w1 := set_policy_l1 c w) in *.
  assert (coherent w1) as Hco1 by (intros sa' ev' t; cbn; rewrite Hlat; apply Hco).
  clear Hget Hlat. unfold io_map_err, load_policies, io_map_err in Hrun. fold sa in Hrun.
  pose proof (list_policies_frame sa (ac_default_policy_id auth) w1) as [Hdb Hl1].
  destruct (PolicyRepo.list_policies_for_service_account sa (ac_default_policy_id auth) w1)
    as [[ps|e] w2] eqn:Hlist; cbn in Hrun, Hdb, Hl1.
  2: { injection Hrun as <- <-. split; [|done]. intros sa' ev' t. rewrite Hl1, Hdb. apply Hco1. }
  apply list_policies_ok in Hlist as (-> & _). change (db w1) with (db w) in *.
  pose proof (context_policy auth (db w) Hctx) as Hcur. fold sa in Hcur.
  destruct (merge_policies (applicable sa (ac_default_policy_id auth) (db w))) as [ev|e] eqn:Hm;
    cbn in Hrun; injection Hrun as <- <-.
  - assert (merge_of (account_policies sa (db w)) ev) as Hev by (rewrite Hcur; by eexists).
    split; [|by intros ? [= <-]]. intros sa' ev' t. cbn. rewrite latest_insert, Hdb.
    case_decide as Hd; [|rewrite Hl1; apply Hco1]. subst sa'. by intros [= <- _].
  - split; [|done]. intros sa' ev' t. rewrite Hl1, Hdb. apply Hco1.
Qed.

Lemma policy_step_coherent w w' : policy_step w w' → coherent w → coherent w'.
Proof.
  intros [auth w0 r w1 Hctx Hrun|w0 w1 r w2 Hl [= <- <-]|sa w0 w1 r w2 Hl Hcur [= <- <-]
    |w0 w1 Hl Hcur] Hco.
  - by eapply get_or_evaluate_coherent.
  - intros sa ev t. cbn. by rewrite latest_invalidate_all.
  - intros sa' ev t. cbn. rewrite latest_invalidate. case_decide as Hd; [done|].
    rewrite Hl, Hcur by done. apply Hco.
  - intros sa ev t. rewrite Hl, Hcur. apply Hco.
Qed.

Lemma policy_steps_coherent w w' : rtc policy_step w w' → coherent w → coherent w'.
Proof. induction 1; eauto using policy_step_coherent. Qed.

Lemma empty_coherent w : (∀ sa, latest (policy_l1 w) sa = None) → coherent w.
Proof. intros Hempty sa ev t. by rewrite Hempty. Qed.

(** In a coherent state a cached evaluation decides by what the database has. *)
Lemma coherent_evaluation w auth model rf est req decision w' :
  coherent w → context_current auth (db w) →
  evaluate_cached auth model rf est req w = (Ok decision, w') →
  merge_of (applicable (ac_service_account_id auth) (ac_default_policy_id auth) (db w))
    (evaluated decision) ∧
  apply_policy_checks (evaluated decision) model rf est req = Ok (token_check decision).
Proof.
  intros Hco Hctx (ev & w1 & Hget & Hrest)%io_bind_ok.
  destruct (get_or_evaluate_coherent auth w (Ok ev) w1 Hco Hctx Hget) as [_ Hev].
  specialize (Hev ev eq_refl). rewrite context_policy in Hev by done.
  apply io_bind_ok in Hrest as (tc & w2 & [Htc ->]%lift_eq & [= <- <-]). done.
Qed.
End coherence.

(** ** Properties *)

(** The check a single policy would make of a request, on its own. *)
Definition allowed_by `{!HashOrder} (p : Policy) (model : string) (rf : RequestFeatures)
    (est req : option Z) (granted_output : TokenCheckResult) : Prop :=
  ∃ ev r, merge_policies [p] = Ok ev ∧ apply_policy_checks ev model rf est req = Ok r ∧
    output_le granted_output r.


(** ** Concrete runs *)

Section runs.
#[local] Existing Instances mem_backends decimal_uuid sorted_hash_order.

(** The sample account with one bound policy. *)
Definition bound_policy : Policy := sample_policy ["gpt-4*"] ["gpt-4-32k"] (Some 100) (Some 60).
Definition policy_db : Db :=
  mkDb {[from_uuid 1 := sample_tenant]} {[from_uuid 7 := sample_account]} ∅
    {[from_uuid 1 := bound_policy]}
    {[21 := mkBinding 21 (from_uuid 7) (from_uuid 1) 0]} ∅ ∅ ∅ ∅ ∅.
Definition streaming : RequestFeatures := mkRequestFeatures true false false.
Definition sample_decision : PolicyDecision :=
  mkPolicyDecision (mkTokenCheckResult (Some 100) true)
    (mkEvaluatedPolicy (PolicyChecks.ModelAccess.mkModelAccessRules ["gpt-4*"] ["gpt-4-32k"])
       (mkTokenLimits (Some 4000) (Some 100)) (mkFeatureFlags true true false) (Some 60) None).

Lemma bound_policy_i32 : policy_i32 bound_policy.
Proof. apply sample_policy_i32; by intros; simplify_eq. Qed.

End runs.
