(* ===== verification/Ages.v ===== *)
(** * How old a cached value can be

    The caches of the gateway are filled with what a request read some time before. If
    that is never longer than [D], an entry is served for at most [D] and the time to live
    together after it was read. Shared by the caches of policies, routes and keys. *)

From stdpp Require Import options.
From S2P Require Import Prelude Backends.
#[local] Set Default Proof Using "Type*".

Section ages.
Context {K V : Type} `{!EqDecision K, !MokaCache K V, !MokaLaws K V}.
Implicit Types (c : Moka K V) (origin : K → V → Z → Prop).

(** [origin k v t]: at [t], [v] was the value of [k]. *)
Definition aged origin (D : Z) c : Prop :=
  ∀ k v t, latest c k = Some (v, t) → ∃ t0, origin k v t0 ∧ t ≤ t0 + D.

Lemma aged_empty origin D c : (∀ k, latest c k = None) → aged origin D c.
Proof. intros He k v t. by rewrite He. Qed.
Lemma aged_mono origin origin' D c :
  (∀ k v t, origin k v t → origin' k v t) → aged origin D c → aged origin' D c.
Proof. intros Ho Ha k v t (t0 & Hr & Hle)%Ha. eauto. Qed.
Lemma aged_get origin D t k c : aged origin D c → aged origin D (moka_get t k c).2.
Proof. intros Ha k' v t0. rewrite latest_get. apply Ha. Qed.
Lemma aged_insert origin D t0 t k v c :
  origin k v t0 → t ≤ t0 + D → aged origin D c → aged origin D (moka_insert t k v c).
Proof.
  intros Ho Ht Ha k' v' t'. rewrite latest_insert. case_decide as Hk; [|apply Ha].
  intros [= <- <-]. subst. eauto.
Qed.
Lemma aged_invalidate origin D k c : aged origin D c → aged origin D (moka_invalidate k c).
Proof. intros Ha k' v t. rewrite latest_invalidate. case_decide; [done|apply Ha]. Qed.
Lemma aged_invalidate_all origin D c : aged origin D (moka_invalidate_all c).
Proof. apply aged_empty. intros k. apply latest_invalidate_all. Qed.

(** A hit is not older than the time to live and the slowest fill together. *)
Lemma aged_hit origin D t k c v :
  aged origin D c → (moka_get t k c).1 = Some v →
  ∃ t0, origin k v t0 ∧ t < t0 + D + time_to_live c * 1000.
Proof.
  intros Ha (t1 & Hl & Hlt)%get_latest. destruct (Ha _ _ _ Hl) as (t0 & Ho & Hle).
  exists t0. split; [done|lia].
Qed.
End ages.
