(* ===== verification/Staleness.v ===== *)
(** * Policies from the cache, under races
      (src/gateway/crates/gateway/src/policy/engine.rs)

    [get_or_evaluate] taken apart: a request reads its account, later the policies, and
    later still fills the cache, while administrators change the database, here or through
    another process, and invalidate this process's cache or not. A fill that overlaps a
    change leaves a stale policy behind; the time to live bounds for how long. *)

From stdpp Require Import options.
From S2P Require Import Prelude Rust Types Errors Json Models PolicyMerge Backends Db World.
From S2P Require Import Repositories RateLimit AppState KeyStore Auth PolicyEngine Ages.
#[local] Set Default Proof Using "Type*".

Definition default_policy (sa : ServiceAccountId) (d : Db) : option PolicyId :=
  service_accounts d !! sa ≫= sa_default_policy_id.

(** An evaluation on its way to the cache, and when its request read the account. *)
Record Load : Type := mkLoad {
  ld_account : ServiceAccountId;
  ld_value : EvaluatedPolicy;
  ld_read : Z
}.
(** The world, the loads in flight, and the databases requests have read so far. *)
Record Races `{!Backends} : Type := mkRaces {
  here : World;
  pending : list Load;
  past : list (Z * Db)
}.

(** ** The steps *)

Inductive policy_op `{!Backends, !UuidLib, !HashOrder} (D : Z) : Races → Races → Prop :=
  (** a request reads its account *)
  | rc_context w ls ps :
      policy_op D (mkRaces _ w ls ps) (mkRaces _ w ls ((clock w, db w) :: ps))
  (** it loads and merges the policies, with the default policy it read *)
  | rc_load auth d0 t0 w policies ev w' ls ps :
      (t0, d0) ∈ ps → t0 ≤ clock w → context_current auth d0 →
      load_policies auth w = (Ok policies, w') → merge_policies policies = Ok ev →
      policy_op D (mkRaces _ w ls ps)
        (mkRaces _ w' (mkLoad (ac_service_account_id auth) ev t0 :: ls) ((clock w, db w) :: ps))
  (** or fails to *)
  | rc_unloaded auth w r w' ls ps :
      load_policies auth w = (r, w') → policy_op D (mkRaces _ w ls ps) (mkRaces _ w' ls ps)
  (** it fills the cache, at most [D] after it read its account *)
  | rc_fill l w r w' ls ps :
      l ∈ ls → clock w ≤ ld_read l + D →
      policy_cache_insert (ld_account l) (ld_value l) w = (r, w') →
      policy_op D (mkRaces _ w ls ps) (mkRaces _ w' ls ps)
  | rc_hit sa w r w' ls ps :
      policy_cache_get sa w = (r, w') → policy_op D (mkRaces _ w ls ps) (mkRaces _ w' ls ps)
  | rc_invalidate sa w (r : result GatewayError unit) w' ls ps :
      invalidate_policy sa w = (r, w') → policy_op D (mkRaces _ w ls ps) (mkRaces _ w' ls ps)
  | rc_invalidate_all w (r : result GatewayError unit) w' ls ps :
      invalidate_all_policies w = (r, w') → policy_op D (mkRaces _ w ls ps) (mkRaces _ w' ls ps).

Inductive race_step `{!Backends, !UuidLib, !HashOrder} (D : Z) : Races → Races → Prop :=
  | rc_own s s' : policy_op D s s' → race_step D s s'
  (** anything else, changes of the database included *)
  | rc_other w w' ls ps :
      clock w ≤ clock w' → policy_l1 w' = policy_l1 w →
      race_step D (mkRaces _ w ls ps) (mkRaces _ w' ls ps).

(** ** Where a cached policy comes from *)

(** [ev] was merged from what the database held for [sa]: its default policy as read at
    [t], its policies as read then or later. *)
Definition read_at `{!HashOrder} (ps : list (Z * Db)) (t : Z) (sa : ServiceAccountId)
    (ev : EvaluatedPolicy) : Prop :=
  ∃ d0 t1 d1, (t, d0) ∈ ps ∧ (t1, d1) ∈ ps ∧ t ≤ t1 ∧
    merge_policies (applicable sa (default_policy sa d0) d1) = Ok ev.

Section races.
Context `{!Backends, !BackendsLaws, !UuidLib, !HashOrder}.
Context (D ttl : Z).

Record races_inv (s : Races) : Prop := mkRacesInv {
  ri_ttl : time_to_live (policy_l1 (here s)) = ttl;
  ri_pending : Forall (λ l, read_at (past s) (ld_read l) (ld_account l) (ld_value l)) (pending s);
  ri_cached : aged (λ sa ev t, read_at (past s) t sa ev) D (policy_l1 (here s))
}.

Lemma read_at_later ps x t sa ev : read_at ps t sa ev → read_at (x :: ps) t sa ev.
Proof.
  intros (d0 & t1 & d1 & Hin0 & Hin1 & Ht & Hm). exists d0, t1, d1.
  split_and!; [by apply elem_of_cons; right..|done|done].
Qed.

(** More is remembered, the cache keeps the age of its entries. *)
Lemma races_inv_weaken s s' :
  races_inv s → time_to_live (policy_l1 (here s')) = time_to_live (policy_l1 (here s)) →
  (∀ origin, aged origin D (policy_l1 (here s)) → aged origin D (policy_l1 (here s'))) →
  pending s' = pending s → (past s' = past s ∨ ∃ x, past s' = x :: past s) → races_inv s'.
Proof.
  intros [Ht Hp Hc] Htt Hl Hpe Hpa.
  assert (∀ t sa ev, read_at (past s) t sa ev → read_at (past s') t sa ev) as Hmono.
  { destruct Hpa as [->|[x ->]]; [done|]. intros. by apply read_at_later. }
  split; [by rewrite Htt| |].
  - rewrite Hpe. eapply Forall_impl; [done|]. cbn. auto.
  - apply Hl. eapply aged_mono; [|done]. cbn. auto.
Qed.

Lemma load_reads auth d0 t0 w policies ev w' ps :
  (t0, d0) ∈ ps → t0 ≤ clock w → context_current auth d0 →
  load_policies auth w = (Ok policies, w') → merge_policies policies = Ok ev →
  read_at ((clock w, db w) :: ps) t0 (ac_service_account_id auth) ev ∧
  policy_l1 w' = policy_l1 w.
Proof.
  intros Hin Hle (row & Hrow & Hdef) Hload%io_map_err_ok Hm.
  apply list_policies_ok in Hload as (-> & _ & Hl1 & _). split; [|done].
  exists d0, (clock w), (db w). unfold default_policy. rewrite Hrow. cbn. rewrite <-Hdef.
  split_and!; [by apply elem_of_cons; right|apply elem_of_cons; by left|done|done].
Qed.

(** Loading leaves everything but the clock alone. *)
Lemma load_quiet auth w r w' :
  load_policies auth w = (r, w') → elsewhere w w' ∧ policy_l1 w' = policy_l1 w.
Proof.
  assert (calls_db (load_policies auth)) as Hload.
  { unfold load_policies, PolicyRepo.list_policies_for_service_account. solve_calls_db. }
  intros Hrun. specialize (Hload w). rewrite Hrun in Hload. split; [done|]. apply Hload.
Qed.

Lemma race_step_inv s s' : race_step D s s' → races_inv s → races_inv s'.
Proof.
  intros Hstep Hinv. destruct Hstep as [s1 s2 [w ls ps|auth d0 t0 w policies ev w' ls ps Hin0 Ht Hctx Hl Hm
    |auth w r w' ls ps Hrun|l w r w' ls ps Hin Ht [= <- <-]|sa w r w' ls ps Hrun
    |sa w r w' ls ps [= <- <-]|w r w' ls ps [= <- <-]]|w w' ls ps Hc Hl1].
  - by eapply races_inv_weaken; eauto.
  - destruct (load_reads _ _ _ _ _ _ _ _ Hin0 Ht Hctx Hl Hm) as [Hr Hl1].
    assert (races_inv (mkRaces _ w' ls ((clock w, db w) :: ps))) as [A B C].
    { eapply races_inv_weaken; [exact Hinv|..]; cbn; rewrite ?Hl1; eauto. }
    split; cbn in *; [done| |done]. by constructor.
  - apply load_quiet in Hrun as (_ & Hl1). eapply races_inv_weaken; [exact Hinv|..]; cbn; rewrite ?Hl1; eauto.
  - destruct Hinv as [Htt Hp Hca]. cbn in *. split; cbn; [by rewrite ttl_insert|done|].
    apply (aged_insert _ D (ld_read l)); [|done..]. by apply (proj1 (Forall_forall _ _) Hp).
  - unfold policy_cache_get in Hrun. pose proof (ttl_get (clock w) sa (policy_l1 w)) as Htt.
    pose proof (λ o, aged_get o D (clock w) sa (policy_l1 w)) as Hla.
    destruct (moka_get _ _ _) as [o c]. injection Hrun as <- <-. cbn [snd] in *.
    eapply races_inv_weaken; [exact Hinv|..]; cbn; eauto.
  - eapply races_inv_weaken; [exact Hinv|..]; cbn; [apply ttl_invalidate|intros; by apply aged_invalidate|done|by left].
  - eapply races_inv_weaken; [exact Hinv|..]; cbn; [apply ttl_invalidate_all|intros; apply aged_invalidate_all|done|by left].
  - eapply races_inv_weaken; [exact Hinv|..]; cbn; rewrite ?Hl1; eauto.
Qed.

Lemma race_steps_inv s s' : rtc (race_step D) s s' → races_inv s → races_inv s'.
Proof. induction 1; eauto using race_step_inv. Qed.

Lemma races_start w :
  time_to_live (policy_l1 w) = ttl → (∀ sa, latest (policy_l1 w) sa = None) →
  races_inv (mkRaces _ w [] []).
Proof. intros Ht He. split; cbn; [done|done|]. by apply aged_empty. Qed.

Lemma hit_read s sa ev w' :
  races_inv s → policy_cache_get sa (here s) = (Ok (Some ev), w') →
  ∃ t0, read_at (past s) t0 sa ev ∧ clock (here s) < t0 + D + ttl * 1000.
Proof.
  intros [<- _ Hc]. unfold policy_cache_get.
  pose proof (aged_hit _ D (clock (here s)) sa (policy_l1 (here s)) ev Hc) as Hhit.
  destruct (moka_get _ _ _) as [o c]. intros [= -> _]. by apply Hhit.
Qed.
End races.

(** ** Properties *)

(** Requests since [T] have read what the database says now. *)
Definition settled (T : Z) (ps : list (Z * Db)) (d : Db) : Prop :=
  ∀ t d', (t, d') ∈ ps → T ≤ t → ∀ sa,
    default_policy sa d' = default_policy sa d ∧
    ∀ def, applicable sa def d' ≡ₚ applicable sa def d.

(** C22: expiry makes the policy cache consistent in the
    end. Whatever requests, fills, changes and invalidations (also none, when another
    process made the change) went before, in any order: once the policies have been
    unchanged for the cache's time to live plus the duration of the slowest request, every
    evaluation is the merge of the policies the database holds. *)
Theorem policy_cache_eventually_consistent `{!Backends, !BackendsLaws, !UuidLib, !HashOrder}
    D w0 T s auth ev w' :
  (∀ sa, latest (policy_l1 w0) sa = None) →
  rtc (race_step D) (mkRaces _ w0 [] []) s →
  settled T (past s) (db (here s)) →
  T + D + time_to_live (policy_l1 w0) * 1000 ≤ clock (here s) →
  context_current auth (db (here s)) →
  get_or_evaluate auth (here s) = (Ok ev, w') →
  merge_of (account_policies (ac_service_account_id auth) (db (here s))) ev.
Proof.
  intros Hempty Hsteps Hset HT Hctx Hget. set (sa := ac_service_account_id auth) in *.
  pose proof (race_steps_inv D _ _ _ Hsteps (races_start D _ w0 eq_refl Hempty)) as Hinv.
  unfold get_or_evaluate in Hget. fold sa in Hget.
  apply io_bind_ok in Hget as ([hit|] & w1 & Hhit & Hrest).
  - injection Hrest as <- _.
    destruct (hit_read D _ s sa hit w1 Hinv Hhit) as (t0 & (d0 & t1 & d1 & Hin0 & Hin1 & Ht & Hm) & Hlt).
    destruct (Hset t0 d0 Hin0 ltac:(lia) sa) as [Hdef _].
    destruct (Hset t1 d1 Hin1 ltac:(lia) sa) as [_ Happ].
    exists (applicable sa (default_policy sa d0) d1). split; [|done].
    rewrite Happ, Hdef. done.
  - apply io_map_err_ok in Hrest. apply io_bind_ok in Hrest as (ps & w2 & Hload%io_map_err_ok & Hrest).
    apply io_bind_ok in Hrest as (ev' & w3 & [Hm ->]%lift_eq & Hrest).
    apply io_bind_ok in Hrest as (? & w4 & _ & [= <- _]).
    apply list_policies_ok in Hload as (-> & _). exists (applicable sa (ac_default_policy_id auth) (db w1)).
    split; [|done]. unfold sa. rewrite (context_policy auth) by done.
    unfold policy_cache_get in Hhit. destruct (moka_get _ _ _). by injection Hhit as _ <-.
Qed.

(** ** Concrete runs *)

Section runs.
#[local] Existing Instances mem_backends decimal_uuid sorted_hash_order.

Definition deny_gpt4 : UpdatePolicy :=
  mkUpdatePolicy None None None (Some (JArray [JString "gpt-4*"])) None None None None None None None.

(** A fill that overlaps a change: the policies are read, an administrator denies the
    model and the cache is invalidated, then the cache is filled with what was read. Until
    it expires, requests are evaluated by the policy that is no longer there. *)
Lemma policy_fill_race_serves_stale :
  let w0 := mem_world 1000 [] ∅ policy_db in
  let w1 := (load_policies sample_context w0).2 in
  let w2 := (PolicyRepo.update (from_uuid 2) (from_uuid 1) deny_gpt4 w1).2 in
  let w3 := (invalidate_all_policies (E:=GatewayError) w2).2 in
  let w4 := (policy_cache_insert (from_uuid 7) (evaluated sample_decision) w3).2 in
  ((load_policies sample_context w0).1 ≫= merge_policies) = Ok (evaluated sample_decision) ∧
  is_ok (PolicyRepo.update (from_uuid 2) (from_uuid 1) deny_gpt4 w1).1 = true ∧
  (evaluate_cached sample_context "gpt-4-turbo" streaming (Some 12) (Some 500) w4).1
    = Ok sample_decision ∧
  is_ok (evaluate sample_context "gpt-4-turbo" streaming (Some 12) (Some 500) w4).1 = false.
Proof. split_and!; vm_compute; reflexivity. Qed.

(** The race above, and forty seconds later: the denial is in force. *)
Definition race_start : World := mem_world 1000 [] ∅ policy_db.
Definition race_read : World := (load_policies sample_context race_start).2.
Definition race_changed : World :=
  (PolicyRepo.update (from_uuid 2) (from_uuid 1) deny_gpt4 race_read).2.
Definition race_filled : World :=
  (policy_cache_insert (from_uuid 7) (evaluated sample_decision)
     (invalidate_all_policies (E:=GatewayError) race_changed).2).2.
Definition race_later : World :=
  mkWorld _ 41000 [] [] (redis race_filled) (db race_filled) (key_l1 race_filled)
    (policy_l1 race_filled) (route_l1 race_filled) (admin_l1 race_filled).
Definition denied_policy : EvaluatedPolicy :=
  mkEvaluatedPolicy (PolicyChecks.ModelAccess.mkModelAccessRules ["gpt-4*"] ["gpt-4*"])
    (PolicyChecks.Quotas.mkTokenLimits (Some 4000) (Some 100))
    (PolicyChecks.Features.mkFeatureFlags true true false) (Some 60) None.

Lemma race_run : rtc (race_step 5000) (mkRaces _ race_start [] [])
  (mkRaces _ race_later [mkLoad (from_uuid 7) (evaluated sample_decision) 1000]
     [(1000, policy_db); (1000, policy_db)]).
Proof.
  eapply rtc_l; [apply rc_own, rc_context|].
  eapply rtc_l.
  { eapply rc_own, (rc_load 5000 sample_context policy_db 1000 race_start [bound_policy]
      (evaluated sample_decision) race_read).
    - apply elem_of_cons. by left.
    - done.
    - by exists sample_account.
    - apply run_answer. vm_compute. reflexivity.
    - vm_compute. reflexivity. }
  eapply rtc_l; [apply (rc_other 5000 race_read race_changed); [vm_compute; discriminate|vm_compute; reflexivity]|].
  eapply rtc_l; [by eapply rc_own, rc_invalidate_all|].
  eapply rtc_l.
  { eapply rc_own, (rc_fill 5000 (mkLoad (from_uuid 7) (evaluated sample_decision) 1000));
      [apply elem_of_cons; by left|vm_compute; discriminate|reflexivity]. }
  apply rtc_once. apply rc_other; [vm_compute; discriminate|vm_compute; reflexivity].
Qed.

Lemma policy_cache_eventually_consistent_witness :
  (get_or_evaluate sample_context race_later).1 = Ok denied_policy ∧
  merge_of (account_policies (from_uuid 7) (db race_later)) denied_policy.
Proof.
  assert ((get_or_evaluate sample_context race_later).1 = Ok denied_policy) as Hget
    by (vm_compute; reflexivity).
  split; [exact Hget|]. pose proof mem_backends_laws.
  apply (policy_cache_eventually_consistent 5000 race_start 2000
    (mkRaces _ race_later [mkLoad (from_uuid 7) (evaluated sample_decision) 1000]
       [(1000, policy_db); (1000, policy_db)]) sample_context denied_policy
    (get_or_evaluate sample_context race_later).2).
  - intros sa. apply lookup_empty.
  - exact race_run.
  - intros t d' Hin Ht. exfalso. clear -Hin Ht. cbn [past] in Hin.
    repeat (apply elem_of_cons in Hin as [[= -> ->]|Hin]; [lia|]).
    exact (proj1 (elem_of_nil _) Hin).
  - vm_compute. discriminate.
  - exists sample_account. split; vm_compute; reflexivity.
  - exact (run_answer _ _ Hget).
Defined.
End runs.
