(* ===== verification/PolicyMiddleware.v ===== *)
(** * The rate limit middleware (src/gateway/crates/gateway/src/policy/middleware.rs)

    Policy lookup, rate limits, concurrency permit, the handler, release, headers. The
    handler is the rest of the stack: any function of the evaluated policy and the world.
    It runs only when every check passed, and the permit is given back after it. *)

From stdpp Require Import options.
From S2P Require Import Prelude Rust Types Errors Json Models PolicyMerge Backends Db World.
From S2P Require Import Repositories RateLimit Concurrency AppState KeyStore Auth PolicyEngine.
#[local] Set Default Proof Using "Type*".

Section middleware.
Context `{!Backends, !UuidLib, !HashOrder}.
Implicit Types (w : World).

(** [next.run(request)]: always a response. *)
Definition Handler : Type := EvaluatedPolicy → World → Response * World.
Definition run_handler (next : Handler) (ev : EvaluatedPolicy) : IO World GatewayError Response :=
  λ w, let '(r, w') := next ev w in (Ok r, w').

(** [if let Some(limit) = evaluated.concurrency_limit] *)
Definition take_permit (state : AppState) (sa : ServiceAccountId) (ev : EvaluatedPolicy)
    : IO World GatewayError (option ConcurrencyPermit) :=
  match concurrency_limit ev with
  | Some limit =>
    _ ← lift (require_concurrency_limiter state);
    permit ← acquire sa limit;
    mret (Some permit)
  | None => mret None
  end.
Definition give_back (permit : option ConcurrencyPermit) : IO World GatewayError unit :=
  match permit with
  | Some p => _ ← release_inner p; mret tt
  | None => mret tt
  end.

(** [None] in the answer stands for a panic while the headers are written. *)
Definition rate_limit_middleware (state : AppState) (auth : option AuthContext) (next : Handler)
    : IO World GatewayError (option Response) :=
  auth ← lift (ok_or (EConfig "internal_error" "auth context missing") auth);
  _ ← lift (require_redis state);
  evaluator ← lift (require_rate_limit_evaluator state);
  _ ← lift (require_policy_cache state);
  _ ← lift (require_db state);
  evaluated ← get_or_evaluate auth;
  outcome ← evaluate_limits evaluator (ac_service_account_id auth) evaluated;
  permit ← take_permit state (ac_service_account_id auth) evaluated;
  response ← run_handler next evaluated;
  _ ← give_back permit;
  mret (inject_rate_limit_headers response outcome).
End middleware.

(** ** The counter of a permit *)

Lemma incr_counter d e n : in_i64 (n + d) → in_i64 d → counter_value e = Some n →
  ∃ e', incr_entry d e = Some (n + d, e') ∧ counter_value (Some e') = Some (n + d).
Proof.
  intros Hnd Hd. unfold counter_value, incr_entry. destruct e as [[v dl]|].
  - cbn. destruct (parse_i64 v) as [m|]; [|done]. intros [= <-].
    unfold in_i64 in Hnd. destruct (_ && _) eqn:Hb; [|lia]. eexists. split; [done|]. cbn.
    by rewrite parse_i64_pretty.
  - intros [= <-]. eexists. split; [done|]. cbn. by rewrite parse_i64_pretty.
Qed.

Section slot.
Context `{!Backends, !BackendsLaws, !UuidLib}.
Implicit Types (w : World).

(** A granted permit: the count was below the limit and went up by one. *)
Lemma acquire_counter sa limit w permit w' n :
  acquire sa limit w = (Ok permit, w') → 0 ≤ n < I64_MAX - 1 →
  counter_value (peek (clock w') (redis w) (concurrency_key sa)) = Some n →
  n < limit ∧ counter_value (peek (clock w') (redis w') (concurrency_key sa)) = Some (n + 1).
Proof.
  intros (reply & w1 & Hcall%io_map_err_ok & Hrest)%io_bind_ok Hn.
  apply io_bind_ok in Hrest as ([allowed c] & w2 & [Hreply%ok_or_ok ->]%lift_eq & Hrest).
  destruct (Z.eqb_spec allowed 0); [done|]. injection Hrest as <- <-.
  apply redis_call_ok in Hcall as (Hc & Ha & Hr & _). rewrite Hreply in Ha. rewrite Hr. clear Hr.
  set (t := clock w2) in *. set (k := concurrency_key sa) in *. intros Hv.
  assert (in_i64 (n + 1) ∧ in_i64 1) as [Hi1 Hi] by (unfold in_i64, I64_MIN, I64_MAX in *; lia).
  destruct (incr_counter 1 _ n Hi1 Hi Hv) as (e' & He & Hv').
  unfold lua_concurrency_acquire in Ha |- *.
  pose proof (incrby_result t k 1 (redis w)) as Hres. pose proof (peek_incrby t k 1 (redis w) k) as Hp.
  rewrite decide_True, He in Hp by done. rewrite He in Hres. cbn in Hres.
  destruct (cmd_incrby t k 1 (redis w)) as [x st1]. cbn in Hres, Hp. subst x.
  destruct (Z.ltb_spec limit (n + 1)) as [Hlt|Hge].
  - destruct (cmd_incrby t k (-1) _) as [[?|] ?]; cbn in Ha; congruence.
  - split; [lia|]. cbn. rewrite peek_expire, decide_True, Hp by done. destruct e' as [v dl]. cbn in *.
    done.
Qed.

(** A release whose round trip goes through: the count goes down by one. *)
Lemma release_counter {E} sa w (r : result E ConcurrencyPermit) w' n :
  release_inner (mkPermit (concurrency_key sa) false) w = (r, w') → script w = [] →
  0 < n ≤ I64_MAX →
  counter_value (peek (clock w) (redis w) (concurrency_key sa)) = Some n →
  counter_value (peek (clock w') (redis w') (concurrency_key sa)) = Some (n - 1).
Proof.
  intros Hrun Hs Hn Hv.
  unfold release_inner, mbind, io_bind, io_try, redis_call in Hrun. cbn [released permit_key] in Hrun.
  rewrite (tick_idle w Hs) in Hrun. set (k := concurrency_key sa) in *.
  assert (in_i64 (n + -1) ∧ in_i64 (-1)) as [Hi1 Hi] by (unfold in_i64, I64_MIN, I64_MAX in *; lia).
  destruct (incr_counter (-1) _ n Hi1 Hi Hv) as (e' & He & Hv').
  pose proof (peek_incrby (clock w) k (-1) (redis w) k) as Hp. rewrite decide_True, He in Hp by done.
  destruct (cmd_incrby (clock w) k (-1) (redis w)) as [x st1]. injection Hrun as <- <-.
  cbn [set_redis clock redis snd] in *. by rewrite Hp, Hv'.
Qed.
End slot.

(** ** Properties *)

Section properties.
Context `{!Backends, !BackendsLaws, !UuidLib, !HashOrder}.
Implicit Types (w : World).

(** Everything before the handler. *)
Definition admission (state : AppState) (auth : option AuthContext)
    : IO World GatewayError (EvaluatedPolicy * RateLimitOutcome * option ConcurrencyPermit) :=
  auth ← lift (ok_or (EConfig "internal_error" "auth context missing") auth);
  _ ← lift (require_redis state);
  evaluator ← lift (require_rate_limit_evaluator state);
  _ ← lift (require_policy_cache state);
  _ ← lift (require_db state);
  evaluated ← get_or_evaluate auth;
  outcome ← evaluate_limits evaluator (ac_service_account_id auth) evaluated;
  permit ← take_permit state (ac_service_account_id auth) evaluated;
  mret (evaluated, outcome, permit).

(** Both associativity laws of the monad, pointwise. *)
Lemma io_assoc {E A B C} (m : IO World E A) (f : A → IO World E B) (g : B → IO World E C) w :
  ((m ≫= f) ≫= g) w = (m ≫= λ a, f a ≫= g) w.
Proof using. unfold mbind, io_bind. by destruct (m w) as [[]]. Qed.
Lemma io_bind_ext {E A B} (m : IO World E A) (f g : A → IO World E B) w :
  (∀ a w', f a w' = g a w') → (m ≫= f) w = (m ≫= g) w.
Proof using. intros Hfg. unfold mbind, io_bind. by destruct (m w) as [[]]. Qed.

Lemma middleware_admit state auth next w :
  rate_limit_middleware state auth next w =
  (admission state auth ≫= λ '(evaluated, outcome, permit),
     response ← run_handler next evaluated;
     _ ← give_back permit;
     mret (inject_rate_limit_headers response outcome)) w.
Proof using.
  unfold rate_limit_middleware, admission.
  repeat (rewrite io_assoc; apply io_bind_ext; intros).
  reflexivity.
Qed.


(** Around the handler of an admitted request, the account's
    concurrency counter goes up by one, from a value below the limit, and after the
    handler down by one again, whenever the round trip of the release goes through. *)
Lemma middleware_slot_balance state auth next w answer w' :
  rate_limit_middleware state (Some auth) next w = (Ok answer, w') →
  ∃ ev w1 w2 response w3,
    next ev w2 = (response, w3) ∧
    match concurrency_limit ev with
    | None => w1 = w2 ∧ w3 = w'
    | Some limit =>
      let k := concurrency_key (ac_service_account_id auth) in
      acquire (ac_service_account_id auth) limit w1 = (Ok (mkPermit k false), w2) ∧
      (∀ n, 0 ≤ n < I64_MAX - 1 → counter_value (peek (clock w2) (redis w1) k) = Some n →
         n < limit ∧ counter_value (peek (clock w2) (redis w2) k) = Some (n + 1)) ∧
      (∀ n, script w3 = [] → 0 < n ≤ I64_MAX →
         counter_value (peek (clock w3) (redis w3) k) = Some n →
         counter_value (peek (clock w') (redis w') k) = Some (n - 1))
    end.
Proof.
  intros Hrun. unfold rate_limit_middleware, take_permit, run_handler, give_back in Hrun. inv_res.
  match goal with H : (let '(r, w) := next ?ev ?w2 in _) = _ |- _ =>
    destruct (next ev w2) as [response w3] eqn:Hnext; injection H as <- <- end.
  match type of Hnext with next ?ev ?w2 = _ =>
    exists ev; destruct (concurrency_limit ev) as [limit|] end; inv_res;
    [|by repeat esplit].
  match goal with H : acquire ?sa _ ?w1 = (Ok ?p, ?w2) |- _ =>
    rename H into Hacq; exists w1, w2, response, w3;
    assert (p = mkPermit (concurrency_key sa) false) as ->
  end.
  { clear -Hacq. unfold acquire in Hacq. inv_res. case_match. inv_res.
    destruct (_ =? 0); by inv_res. }
  split; [done|]. cbn zeta. split_and!; [done| |].
  - intros n Hn Hv. by eapply acquire_counter.
  - intros n Hs Hn Hv. by eapply release_counter.
Qed.
End properties.

(** ** Concrete runs *)

Section runs.
#[local] Existing Instances mem_backends decimal_uuid sorted_hash_order.

Definition limited_policy : Policy :=
  mkPolicy (from_uuid 1) (from_uuid 1) "p" None (JArray []) (JArray []) None None
    true true true (Some 5) (Some 2) 0 0.
Definition limited_db : Db :=
  mkDb {[from_uuid 1 := sample_tenant]} {[from_uuid 7 := sample_account]} ∅
    {[from_uuid 1 := limited_policy]} {[21 := mkBinding 21 (from_uuid 7) (from_uuid 1) 0]} ∅ ∅ ∅
    ∅ ∅.
Definition limited_state : AppState :=
  mkAppState 300 true true (Some true) true true (Some (mkRateLimitEvaluator 60 100)) true true.
End runs.
