(* ===== verification/Router.v ===== *)
(** * Routes of a model alias (src/gateway/crates/gateway/src/routing/router.rs, resolver.rs)

    The route cache, the resolver in front of the repository, and the execution plan
    built from the resolved routes. *)

From Stdlib Require Import Ascii.
From stdpp Require Import options.
From S2P Require Import Prelude Rust Types Errors Json Models PolicyMerge Backends Db World.
From S2P Require Import Repositories RateLimit AppState KeyStore Auth.
#[local] Set Default Proof Using "Type*".

(** ** The cache *)

Section cache.
Context `{!Backends, !UuidLib}.
Implicit Types (w : World).

Definition cache_key (tenant_id : TenantId) (model_alias : string) : string :=
  "routes:" +:+ id_display tenant_id +:+ ":" +:+ model_alias.

(** [RouteCache::new] *)
Definition route_cache_new (ttl_secs : Z) : Moka string (list ProviderRoute) := moka_new ttl_secs.
Definition route_cache_get (key : string) : IO World GatewayError (option (list ProviderRoute)) := λ w,
  let '(o, c) := moka_get (clock w) key (route_l1 w) in (Ok o, set_route_l1 c w).
Definition route_cache_insert (key : string) (routes : list ProviderRoute)
    : IO World GatewayError unit :=
  io_modify (λ w, set_route_l1 (moka_insert (clock w) key routes (route_l1 w)) w).

Definition get_or_load (tenant_id : TenantId) (model_alias : string)
    (loader : IO World GatewayError (list ProviderRoute))
    : IO World GatewayError (list ProviderRoute) :=
  let key := cache_key tenant_id model_alias in
  hit ← route_cache_get key;
  match hit with
  | Some routes => mret routes
  | None =>
    io_map_err (λ e, ERouting "route_cache_load_failed" (error_display e))
      (routes ← loader;
       _ ← route_cache_insert key routes;
       mret routes)
  end.

Definition invalidate_all_routes {E} : IO World E unit :=
  io_modify (λ w, set_route_l1 (moka_invalidate_all (route_l1 w)) w).

(** ** The resolver *)

Definition resolve (tenant_id : TenantId) (model_alias : string)
    : IO World GatewayError (list ProviderRoute) :=
  routes ← get_or_load tenant_id model_alias
    (io_map_err
       (λ _, ERouting "route_resolve_failed" "failed to resolve routes from database")
       (RouteRepo.resolve_routes tenant_id model_alias));
  _ ← lift (throw_if (bool_decide (routes = []))
        (ERouting "no_route" ("no enabled routes for model alias '" +:+ model_alias +:+ "'")));
  mret routes.
End cache.

(** ** The plan *)

Definition DEFAULT_BACKOFF_CAP : Z := 10000.

Record RouteAttempt : Type := mkRouteAttempt {
  ra_route : ProviderRoute;
  ra_max_retries : Z;
  ra_timeout : Z;
  ra_backoff_base : Z;
  ra_backoff_cap : Z
}.
Record ExecutionPlan : Type := mkExecutionPlan {
  plan_model_alias : string;
  plan_attempts : list RouteAttempt
}.

Definition negative_config (route : ProviderRoute) : bool :=
  (route_max_retries route <? 0) || (route_timeout_ms route <? 0)
  || (route_retry_backoff_ms route <? 0).

(** [ExecutionPlan::build] *)
Definition build_plan `{!UuidLib} (model_alias : string) (routes : list ProviderRoute)
    : result GatewayError ExecutionPlan :=
  _ ← throw_if (bool_decide (routes = []))
        (ERouting "no_healthy_route"
           ("no available routes for model alias '" +:+ model_alias +:+ "'"));
  attempts ← for_each (λ attempts route,
      _ ← throw_if (negative_config route)
            (ERouting "invalid_route_config"
               ("route " +:+ id_display (route_id route) +:+
                " has invalid configuration (negative values)"));
      mret (attempts ++ [mkRouteAttempt route (as_u32 (route_max_retries route))
                           (as_u64 (route_timeout_ms route))
                           (as_u64 (route_retry_backoff_ms route)) DEFAULT_BACKOFF_CAP]))
    [] routes;
  mret (mkExecutionPlan model_alias attempts).

(** ** Lemmas *)

Definition attempt_of (route : ProviderRoute) : RouteAttempt :=
  mkRouteAttempt route (route_max_retries route) (route_timeout_ms route)
    (route_retry_backoff_ms route) DEFAULT_BACKOFF_CAP.
Definition route_i32 (route : ProviderRoute) : Prop :=
  in_i32 (route_max_retries route) ∧ in_i32 (route_timeout_ms route) ∧
  in_i32 (route_retry_backoff_ms route).

Lemma cast_config route : route_i32 route → negative_config route = false →
  mkRouteAttempt route (as_u32 (route_max_retries route)) (as_u64 (route_timeout_ms route))
    (as_u64 (route_retry_backoff_ms route)) DEFAULT_BACKOFF_CAP = attempt_of route.
Proof.
  unfold route_i32, in_i32, I32_MIN, I32_MAX, negative_config, attempt_of, as_u32, as_u64.
  rewrite !orb_false_iff, !Z.ltb_ge. intros ([_ ?] & [_ ?] & [_ ?]) [[? ?] ?].
  by rewrite !Z.mod_small by lia.
Qed.

(** The answer of the loop: every route converted, or the first bad one reported. *)
Lemma build_loop `{!UuidLib} acc routes : Forall route_i32 routes →
  for_each (λ attempts route,
      _ ← throw_if (negative_config route)
            (ERouting "invalid_route_config"
               ("route " +:+ id_display (route_id route) +:+
                " has invalid configuration (negative values)"));
      mret (attempts ++ [mkRouteAttempt route (as_u32 (route_max_retries route))
                           (as_u64 (route_timeout_ms route))
                           (as_u64 (route_retry_backoff_ms route)) DEFAULT_BACKOFF_CAP]))
    acc routes =
  match list_find (λ r, negative_config r = true) routes with
  | Some (_, route) => Err (ERouting "invalid_route_config"
      ("route " +:+ id_display (route_id route) +:+ " has invalid configuration (negative values)"))
  | None => Ok (acc ++ (attempt_of <$> routes))
  end.
Proof.
  intros Hall. revert acc. induction Hall as [|route routes Hr _ IH]; intros acc; cbn.
  { by rewrite app_nil_r. }
  destruct (negative_config route) eqn:Hneg; cbn; [done|].
  rewrite IH, cast_config by done. destruct (list_find _ routes) as [[i r]|]; cbn; [done|].
  by rewrite <-app_assoc.
Qed.

(** ** What the database says the routes are *)

Section resolution.
Context `{!Backends, !BackendsLaws, !UuidLib, !UuidLaws}.
Implicit Types (w : World).

(** Entries of different tenants or aliases never share a key. *)
Lemma cache_key_inj t1 a1 t2 a2 : cache_key t1 a1 = cache_key t2 a2 → t1 = t2 ∧ a1 = a2.
Proof.
  unfold cache_key. intros Heq%str_app_inj_l.
  assert (∀ s, ":" +:+ s = String ":"%char s) as Hcons by done. rewrite !Hcons in Heq.
  apply str_sep_inj in Heq as [Ht ->]; [|by apply id_display_free..].
  by apply (inj id_display) in Ht.
Qed.

Definition database_routes (tenant : TenantId) (alias : string) (d : Db) :
    result SqlxError (list ProviderRoute) :=
  RouteRepo.decode_all (RouteRepo.select_routes tenant alias d).

(** Every cached list is what the database would give. *)
Definition routes_coherent w : Prop := ∀ tenant alias routes t,
  latest (route_l1 w) (cache_key tenant alias) = Some (routes, t) →
  database_routes tenant alias (db w) = Ok routes.

(** Lookups of any tenant, changes of the routes followed by the invalidation the admin
    handlers perform, anything else. *)
Inductive route_step : World → World → Prop :=
  | rs_resolve tenant alias w r w' : resolve tenant alias w = (r, w') → route_step w w'
  | rs_change w w1 r w' :
      route_l1 w1 = route_l1 w → invalidate_all_routes (E:=GatewayError) w1 = (r, w') →
      route_step w w'
  | rs_other w w' :
      route_l1 w' = route_l1 w → provider_routes (db w') = provider_routes (db w) →
      route_step w w'.

Lemma select_frame tenant alias w :
  let w' := (RouteRepo.resolve_routes tenant alias w).2 in
  db w' = db w ∧ route_l1 w' = route_l1 w.
Proof.
  unfold RouteRepo.resolve_routes, query, io_map_err, db_call.
  pose proof (tick_frame db w ltac:(done)) as Hd. pose proof (tick_frame route_l1 w ltac:(done)) as Hr.
  destruct (tick w) as [flt w1]. cbn in *. by destruct flt as [[]|].
Qed.

Lemma get_or_load_coherent tenant alias w r w' :
  routes_coherent w →
  get_or_load tenant alias (io_map_err
       (λ _, ERouting "route_resolve_failed" "failed to resolve routes from database")
       (RouteRepo.resolve_routes tenant alias)) w = (r, w') →
  routes_coherent w' ∧ db w' = db w ∧
  ∀ routes, r = Ok routes → database_routes tenant alias (db w) = Ok routes.
Proof.
  intros Hco Hrun. unfold get_or_load, route_cache_get, mbind, io_bind in Hrun.
  set (key := cache_key tenant alias) in *.
  pose proof (get_latest (clock w) key (route_l1 w)) as Hget.
  pose proof (latest_get (clock w) key (route_l1 w)) as Hlat.
  destruct (moka_get (clock w) key (route_l1 w)) as [[routes|] c]; cbn [fst snd] in *.
  { injection Hrun as <- <-. split_and!; [|done|].
    - intros t a rs t0. cbn. rewrite Hlat. apply Hco.
    - intros ? [= <-]. destruct (Hget routes eq_refl) as (t0 & Hl & _). by eapply Hco. }
  set (w1 := set_route_l1 c w) in *.
  assert (routes_coherent w1) as Hco1 by (intros t a rs t0; cbn; rewrite Hlat; apply Hco).
  clear Hget Hlat. unfold io_map_err in Hrun. pose proof (select_frame tenant alias w1) as [Hdb Hl1].
  destruct (RouteRepo.resolve_routes tenant alias w1) as [[rs|e] w2] eqn:Hsel; cbn in Hrun, Hdb, Hl1;
    injection Hrun as <- <-.
  - apply io_map_err_ok, db_call_ok in Hsel as (_ & [= Hsel _] & _). fold (database_routes tenant alias (db w)) in Hsel.
    split_and!; [|done|by intros ? [= <-]]. intros t a rs' t0. cbn. rewrite latest_insert.
    case_decide as Hd; [|rewrite Hl1, Hdb; apply Hco1].
    apply cache_key_inj in Hd as [-> ->]. intros [= <- _]. by rewrite Hdb.
  - split_and!; [|done|done]. intros t a rs' t0. rewrite Hl1, Hdb. apply Hco1.
Qed.

Lemma resolve_coherent tenant alias w r w' :
  routes_coherent w → resolve tenant alias w = (r, w') →
  routes_coherent w' ∧ db w' = db w ∧
  ∀ routes, r = Ok routes → database_routes tenant alias (db w) = Ok routes ∧ routes ≠ [].
Proof.
  intros Hco Hrun. unfold resolve in Hrun. unfold mbind at 1, io_bind at 1 in Hrun.
  destruct (get_or_load tenant alias _ w) as [r1 w1] eqn:Hload.
  destruct (get_or_load_coherent _ _ _ _ _ Hco Hload) as (Hco1 & Hdb & Hok).
  destruct r1 as [routes|e]; [|by injection Hrun as <- <-].
  unfold mbind, io_bind, lift, throw_if in Hrun. case_bool_decide; injection Hrun as <- <-;
    split_and!; try done. intros ? [= <-]. auto.
Qed.

Lemma route_steps_coherent w w' : rtc route_step w w' → routes_coherent w → routes_coherent w'.
Proof.
  induction 1 as [|w w1 w2 Hstep _ IH]; [done|]. intros Hco. apply IH.
  destruct Hstep as [t a w r w' Hrun|w w1 r w' Hl [= <- <-]|w w' Hl Hr].
  - by destruct (resolve_coherent _ _ _ _ _ Hco Hrun).
  - intros t a rs t0. cbn. by rewrite latest_invalidate_all.
  - intros t a rs t0. rewrite Hl. unfold database_routes, RouteRepo.select_routes. rewrite Hr. apply Hco.
Qed.
End resolution.

(** ** The order of the routes *)

(** The tenant's own routes come first, then by ascending priority. *)
Definition preferred (a b : ProviderRoute) : Prop :=
  let global r := bool_decide (route_tenant_id r = None) in
  (global a = false ∧ global b = true) ∨
  (global a = global b ∧ route_priority a ≤ route_priority b).

#[global] Instance rank_le_trans : Transitive RouteRepo.rank_le.
Proof.
  intros a b c. unfold RouteRepo.rank_le.
  destruct (RouteRepo.route_rank a), (RouteRepo.route_rank b), (RouteRepo.route_rank c). lia.
Qed.
#[global] Instance rank_le_total : Total RouteRepo.rank_le.
Proof.
  intros a b. unfold RouteRepo.rank_le.
  destruct (RouteRepo.route_rank a), (RouteRepo.route_rank b). lia.
Qed.

Lemma decode_all_Forall2 rows routes :
  RouteRepo.decode_all rows = Ok routes ↔ Forall2 (λ r x, RouteRepo.decode_route r = Ok x) rows routes.
Proof.
  revert routes. induction rows as [|r rows IH]; intros routes; cbn.
  - split; [intros [= <-]; constructor|by intros ->%Forall2_nil_inv_l].
  - rewrite result_bind_ok. setoid_rewrite result_bind_ok. split.
    + intros (x & Hx & xs & Hxs & [= <-]). constructor; [done|by apply IH].
    + intros (x & xs & Hx & Hxs & ->)%Forall2_cons_inv_l. exists x. split; [done|].
      exists xs. by rewrite IH.
Qed.

Lemma decode_rank a b x y : RouteRepo.decode_route a = Ok x → RouteRepo.decode_route b = Ok y →
  RouteRepo.rank_le a b → preferred x y.
Proof.
  unfold RouteRepo.decode_route. destruct (enum_parse _); [|done]. intros [= <-].
  destruct (enum_parse _); [|done]. intros [= <-].
  unfold RouteRepo.rank_le, RouteRepo.route_rank, preferred. cbn.
  destruct (rr_tenant_id a), (rr_tenant_id b); cbn; rewrite ?bool_decide_true by (done || by eexists);
    repeat case_bool_decide; (done || (naive_solver lia) || idtac).
Qed.

Lemma decode_sorted rows routes :
  Forall2 (λ r x, RouteRepo.decode_route r = Ok x) rows routes →
  StronglySorted RouteRepo.rank_le rows → StronglySorted preferred routes.
Proof.
  induction 1 as [|r x rows routes Hx Hall IH]; intros Hs; [constructor|].
  inversion Hs as [|? ? Hs' Hle]; subst. constructor; [auto|].
  clear -Hx Hall Hle. induction Hall as [|r' x' rows routes Hx' _ IH]; constructor.
  - inversion Hle; subst. by eapply decode_rank.
  - apply IH. by inversion Hle.
Qed.

(** ** What a coherent resolution is *)

Lemma coherent_resolution `{!Backends, !BackendsLaws, !UuidLib, !UuidLaws} w tenant alias routes w' :
  routes_coherent w → resolve tenant alias w = (Ok routes, w') →
  routes ≠ [] ∧ StronglySorted preferred routes ∧
  (∀ x, x ∈ routes ↔ ∃ id row, provider_routes (db w) !! id = Some row ∧
     rr_model_alias row = alias ∧ rr_enabled row = true ∧
     (rr_tenant_id row = Some tenant ∨ rr_tenant_id row = None) ∧
     RouteRepo.decode_route row = Ok x) ∧
  Forall (λ x, route_tenant_id x = Some tenant ∨ route_tenant_id x = None) routes.
Proof.
  intros Hco Hrun.
  destruct (resolve_coherent _ _ _ _ _ Hco Hrun) as (_ & _ & Hok).
  destruct (Hok routes eq_refl) as [Hdec Hne]. unfold database_routes in Hdec.
  apply decode_all_Forall2 in Hdec as Hall.
  assert (∀ row, row ∈ RouteRepo.select_routes tenant alias (db w) ↔
    (∃ id, provider_routes (db w) !! id = Some row) ∧ rr_model_alias row = alias ∧
    rr_enabled row = true ∧ (rr_tenant_id row = Some tenant ∨ rr_tenant_id row = None)) as Hrows.
  { intros row. unfold RouteRepo.select_routes. rewrite merge_sort_Permutation.
    rewrite list_elem_of_filter. unfold RouteRepo.resolves.
    rewrite !andb_true_iff, orb_true_iff, !bool_decide_eq_true. unfold rows.
    rewrite list_elem_of_fmap. split.
    - intros [[[? ?] ?] ([i r] & -> & Hin%elem_of_map_to_list)]. cbn. eauto.
    - intros ([id Hid] & ? & ? & ?). split; [done|]. exists (id, row). split; [done|].
      by apply elem_of_map_to_list. }
  split_and!; [done| | |].
  - eapply decode_sorted; [done|]. unfold RouteRepo.select_routes. apply (StronglySorted_merge_sort _).
  - intros x. split.
    + intros Hx. apply list_elem_of_lookup in Hx as [i Hi].
      destruct (Forall2_lookup_r _ _ _ _ _ Hall Hi) as (row & Hrow & Hd).
      apply list_elem_of_lookup_2, Hrows in Hrow as ([id Hid] & ? & ? & ?). eauto 10.
    + intros (id & row & Hid & Ha & He & Ht & Hd).
      assert (row ∈ RouteRepo.select_routes tenant alias (db w)) as Hin by (apply Hrows; eauto).
      apply list_elem_of_lookup in Hin as [i Hi].
      destruct (Forall2_lookup_l _ _ _ _ _ Hall Hi) as (x' & Hx' & Hd').
      rewrite Hd in Hd'. injection Hd' as <-. by eapply list_elem_of_lookup_2.
  - rewrite Forall_forall. intros x Hx. apply list_elem_of_lookup in Hx as [i Hi].
    destruct (Forall2_lookup_r _ _ _ _ _ Hall Hi) as (row & Hrow & Hd).
    apply list_elem_of_lookup_2, Hrows in Hrow as (_ & _ & _ & Ht).
    unfold RouteRepo.decode_route in Hd. destruct (enum_parse _); [|done]. by injection Hd as <-.
Qed.
Lemma empty_routes_coherent `{!Backends, !UuidLib} w :
  (∀ key, latest (route_l1 w) key = None) → routes_coherent w.
Proof. intros Hempty t a rs t0. by rewrite Hempty. Qed.

(** ** Properties *)

(** The plan keeps the routes and their order, and every number of
    the configuration survives the casts; no route at all, or the first route with a
    negative number, is refused with its own error. *)
Lemma build_plan_correct `{!UuidLib} alias routes :
  Forall route_i32 routes →
  build_plan alias routes =
  match routes, list_find (λ r, negative_config r = true) routes with
  | [], _ => Err (ERouting "no_healthy_route"
                    ("no available routes for model alias '" +:+ alias +:+ "'"))
  | _, Some (_, route) => Err (ERouting "invalid_route_config"
      ("route " +:+ id_display (route_id route) +:+ " has invalid configuration (negative values)"))
  | _, None => Ok (mkExecutionPlan alias (attempt_of <$> routes))
  end.
Proof.
  intros Hall. unfold build_plan. destruct routes as [|route routes]; [done|].
  rewrite bool_decide_false by done. cbn [throw_if mbind result_bind].
  pose proof (build_loop [] (route :: routes) Hall) as Hloop. cbn beta in Hloop.
  unfold mbind at 1, result_bind at 1. rewrite Hloop. by destruct (list_find _ _) as [[]|].
Qed.

(** ** Concrete runs *)

Section runs.
#[local] Existing Instances mem_backends decimal_uuid.

Definition sample_route_row (id : Z) (tenant : option TenantId) (priority : Z) : RouteRow :=
  mkRouteRow (from_uuid id) tenant "fast" "openai" "gpt-4o-mini" priority true 30000 1 250
    (JObject []) 0 0.
Definition sample_route (id : Z) (tenant : option TenantId) (priority : Z) : ProviderRoute :=
  mkProviderRoute (from_uuid id) tenant "fast" Openai "gpt-4o-mini" priority true 30000 1 250
    (JObject []) 0 0.
(** A preferred global route, two of the sample tenant, one of another tenant. *)
Definition route_db : Db :=
  mkDb ∅ ∅ ∅ ∅ ∅ {[from_uuid 1 := sample_route_row 1 None 5;
    from_uuid 2 := sample_route_row 2 (Some (from_uuid 1)) 90;
    from_uuid 3 := sample_route_row 3 (Some (from_uuid 1)) 10;
    from_uuid 4 := sample_route_row 4 (Some (from_uuid 2)) 1]} ∅ ∅ ∅ ∅.
Definition sample_routes : list ProviderRoute :=
  [sample_route 3 (Some (from_uuid 1)) 10; sample_route 2 (Some (from_uuid 1)) 90;
   sample_route 1 None 5].
End runs.
