(* ===== verification/Retry.v ===== *)
(** * Retries and fallback (src/gateway/crates/gateway/src/routing/retry.rs, fallback.rs)

    Exponential backoff with full jitter, the retry loop over one route and the fallback
    over a plan. The provider call and the random generator are parameters with a state
    of their own; what happened is recorded as a sequence of calls and sleeps, and the
    loops are shown to produce exactly the sequences of a reference definition. *)

From stdpp Require Import options.
From S2P Require Import Prelude Rust Types Errors Json Models PolicyMerge Backends Db World.
From S2P Require Import Repositories RateLimit AppState KeyStore Auth Router.
#[local] Set Default Proof Using "Type*".

Definition MAX_BACKOFF_SHIFT : Z := 32.

Inductive AttemptOutcome (T : Type) : Type :=
  | Success (result : T)
  | Retryable (e : GatewayError)
  | Fatal (e : GatewayError).
Arguments Success {T} result.
Arguments Retryable {T} e.
Arguments Fatal {T} e.

(** [rand::Rng]: [gen_range(0..=bound)]. *)
Class Rng : Type := {
  RngState : Type;
  gen_range : Z → RngState → Z * RngState
}.
Class RngLaws `{!Rng} : Prop := {
  gen_range_bounds bound st : 0 ≤ bound → 0 ≤ (gen_range bound st).1 ≤ bound
}.

(** What an observer sees: provider calls with their outcome, and sleeps. *)
Inductive Event (T : Type) : Type :=
  | Called (route : ProviderRoute) (outcome : AttemptOutcome T)
  | Slept (ms : Z).
Arguments Called {T} route outcome.
Arguments Slept {T} ms.

(** ** Backoff *)

(** The bound of the jitter: [base * 2^attempt], saturating, capped. *)
Definition backoff_bound (base_ms cap_ms attempt : Z) : Z :=
  Z.min (saturating_mul_u64 base_ms (Z.shiftl 1 (Z.min attempt MAX_BACKOFF_SHIFT))) cap_ms.

Definition compute_backoff `{!Rng} (base cap attempt : Z) (rng : RngState) : Z * RngState :=
  let base_ms := as_u64 base in
  let cap_ms := as_u64 cap in
  if (base_ms =? 0) || (cap_ms =? 0) then (0, rng)
  else gen_range (backoff_bound base_ms cap_ms attempt) rng.

(** ** The loops *)

Section executor.
Context `{!Rng}.
Context {T C : Type}.
(** [call_fn]: one call of the provider, whose state is [C]. *)
Variable call_fn : ProviderRoute → C → AttemptOutcome T * C.

Record Exec : Type := mkExec { provider : C; rng : RngState; trace : list (Event T) }.

Definition call_provider {E} (route : ProviderRoute) : IO Exec E (AttemptOutcome T) := λ s,
  let '(outcome, c) := call_fn route (provider s) in
  (Ok outcome, mkExec c (rng s) (trace s ++ [Called route outcome])).
Definition back_off {E} (ra : RouteAttempt) (attempt : Z) : IO Exec E unit := λ s,
  let '(ms, r) := compute_backoff (ra_backoff_base ra) (ra_backoff_cap ra) attempt (rng s) in
  (Ok tt, mkExec (provider s) r (trace s ++ [Slept ms])).

Definition total_calls (ra : RouteAttempt) : Z := as_u32 (1 + ra_max_retries ra).

(** [for attempt in 0..total_calls]; [todo] is the number of iterations left. *)
Fixpoint retry_loop (ra : RouteAttempt) (todo : nat) (attempt : Z) (last_error : option GatewayError)
    : IO Exec (GatewayError * Z) (T * Z) :=
  match todo with
  | O =>
    lift (Err (default (ERouting "retry_exhausted" "all retry attempts exhausted") last_error,
               total_calls ra))
  | S todo =>
    outcome ← call_provider (ra_route ra);
    match outcome with
    | Success result => mret (result, attempt + 1)
    | Fatal e => lift (Err (e, attempt + 1))
    | Retryable e =>
      let remaining := total_calls ra - attempt - 1 in
      _ ← (if 0 <? remaining then back_off ra attempt else mret tt);
      retry_loop ra todo (attempt + 1) (Some e)
    end
  end.
Definition retry_with_backoff (ra : RouteAttempt) : IO Exec (GatewayError * Z) (T * Z) :=
  retry_loop ra (Z.to_nat (total_calls ra)) 0 None.

Record RoutingOutcome : Type := mkRoutingOutcome {
  out_result : T;
  out_route : ProviderRoute;
  out_total_attempts : Z;
  out_routes_tried : Z
}.

(** The counters are [u32] and wrap. *)
Fixpoint fallback_loop (alias : string) (attempts : list RouteAttempt)
    (total_attempts routes_tried : Z) (last_error : option GatewayError)
    : IO Exec GatewayError RoutingOutcome :=
  match attempts with
  | [] =>
    lift (Err (default (ERouting "all_routes_exhausted"
      ("all " +:+ pretty routes_tried +:+ " routes failed for model alias '" +:+ alias +:+ "'"))
      last_error))
  | ra :: attempts =>
    let routes_tried := as_u32 (routes_tried + 1) in
    r ← io_try (retry_with_backoff ra);
    match r with
    | Ok (result, attempts_used) =>
      mret (mkRoutingOutcome result (ra_route ra) (as_u32 (total_attempts + attempts_used))
              routes_tried)
    | Err (e, attempts_used) =>
      fallback_loop alias attempts (as_u32 (total_attempts + attempts_used)) routes_tried (Some e)
    end
  end.
Definition execute_with_fallback (plan : ExecutionPlan) : IO Exec GatewayError RoutingOutcome :=
  fallback_loop (plan_model_alias plan) (plan_attempts plan) 0 0 None.

(** ** Reference: the sequences of events one route may produce *)

Definition ra_ok (ra : RouteAttempt) : Prop :=
  0 ≤ ra_max_retries ra < U32_MAX ∧ in_u64 (ra_backoff_base ra) ∧ in_u64 (ra_backoff_cap ra).

(** From the call number [attempt] on, [events] happen and [r] is answered. *)
Inductive route_run (ra : RouteAttempt) : Z → list (Event T) → result (GatewayError * Z) (T * Z) → Prop :=
  | rr_success attempt x :
      route_run ra attempt [Called (ra_route ra) (Success x)] (Ok (x, attempt + 1))
  | rr_fatal attempt e :
      route_run ra attempt [Called (ra_route ra) (Fatal e)] (Err (e, attempt + 1))
  | rr_exhausted attempt e :
      attempt = ra_max_retries ra →
      route_run ra attempt [Called (ra_route ra) (Retryable e)] (Err (e, attempt + 1))
  | rr_again attempt e ms events r :
      attempt < ra_max_retries ra →
      0 ≤ ms ≤ Z.min (ra_backoff_cap ra) (ra_backoff_base ra * 2 ^ attempt) →
      route_run ra (attempt + 1) events r →
      route_run ra attempt (Called (ra_route ra) (Retryable e) :: Slept ms :: events) r.

(** The calls of a sequence of events. *)
Definition calls (events : list (Event T)) : list ProviderRoute :=
  omap (λ ev, match ev with Called r _ => Some r | Slept _ => None end) events.
Definition slept (events : list (Event T)) : Z :=
  foldr (λ ev acc, match ev with Slept ms => ms + acc | Called _ _ => acc end) 0 events.

(** A whole run: every route before the last one failed. *)
Inductive plan_run : list RouteAttempt → list (Event T) → Z → Z → result GatewayError RoutingOutcome → Prop :=
  | pr_success ra rest events x n total tried :
      route_run ra 0 events (Ok (x, n)) →
      plan_run (ra :: rest) events total tried
        (Ok (mkRoutingOutcome x (ra_route ra) (total + n) (tried + 1)))
  | pr_last ra events e n total tried :
      route_run ra 0 events (Err (e, n)) → plan_run [ra] events total tried (Err e)
  | pr_next ra ra' rest events events' e n total tried r :
      route_run ra 0 events (Err (e, n)) →
      plan_run (ra' :: rest) events' (total + n) (tried + 1) r →
      plan_run (ra :: ra' :: rest) (events ++ events') total tried r.
End executor.
Arguments Exec {_} T C.

(** ** Lemmas *)

Lemma as_u64_small z : in_u64 z → as_u64 z = z.
Proof. unfold in_u64, U64_MAX, as_u64. intros. apply Z.mod_small. lia. Qed.
Lemma as_u32_small z : in_u32 z → as_u32 z = z.
Proof. unfold in_u32, U32_MAX, as_u32. intros. apply Z.mod_small. lia. Qed.

Lemma backoff_bound_range base cap attempt :
  in_u64 base → in_u64 cap → 0 ≤ attempt →
  0 ≤ backoff_bound base cap attempt ≤ Z.min cap (base * 2 ^ attempt).
Proof.
  intros [Hb _] [Hc _] Ha. unfold backoff_bound, saturating_mul_u64, MAX_BACKOFF_SHIFT.
  rewrite Z.shiftl_mul_pow2 by lia. rewrite Z.mul_1_l.
  assert (0 < 2 ^ Z.min attempt 32) as Hpos by (apply Z.pow_pos_nonneg; lia).
  assert (2 ^ Z.min attempt 32 ≤ 2 ^ attempt) as Hle by (apply Z.pow_le_mono_r; lia).
  assert (base * 2 ^ Z.min attempt 32 ≤ base * 2 ^ attempt) by (apply Z.mul_le_mono_nonneg_l; lia).
  assert (0 ≤ base * 2 ^ Z.min attempt 32) by (apply Z.mul_nonneg_nonneg; lia).
  unfold U64_MAX. lia.
Qed.

Lemma compute_backoff_range `{!Rng, !RngLaws} base cap attempt st :
  in_u64 base → in_u64 cap → 0 ≤ attempt →
  0 ≤ (compute_backoff base cap attempt st).1 ≤ Z.min cap (base * 2 ^ attempt).
Proof.
  intros Hb Hc Ha. unfold compute_backoff. rewrite !as_u64_small by done.
  pose proof (backoff_bound_range base cap attempt Hb Hc Ha) as Hr.
  destruct (_ || _); cbn; [|].
  - destruct Hb as [Hb _], Hc as [Hc _]. split; [done|]. apply Z.min_glb; [done|].
    apply Z.mul_nonneg_nonneg; [done|]. apply Z.pow_nonneg. lia.
  - pose proof (gen_range_bounds (backoff_bound base cap attempt) st ltac:(lia)). lia.
Qed.

Section runs.
Context `{!Rng, !RngLaws}.
Context {T C : Type} (call_fn : ProviderRoute → C → AttemptOutcome T * C).
Implicit Types (s : Exec T C) (ra : RouteAttempt).

Lemma total_calls_eq ra : ra_ok ra → total_calls ra = 1 + ra_max_retries ra.
Proof using. intros [Hr _]. unfold total_calls. apply as_u32_small. unfold in_u32. lia. Qed.

Lemma retry_loop_run ra todo attempt last s : ra_ok ra →
  0 ≤ attempt → Z.of_nat todo = 1 + ra_max_retries ra - attempt → (0 < todo)%nat →
  let '(r, s') := retry_loop call_fn ra todo attempt last s in
  ∃ events, trace s' = trace s ++ events ∧ route_run ra attempt events r.
Proof.
  intros Hra. revert attempt last s. induction todo as [|todo IH]; intros attempt last s Ha Htodo Hpos;
    [lia|].
  cbn [retry_loop]. unfold mbind, io_bind, call_provider.
  destruct (call_fn (ra_route ra) (provider s)) as [[x|e|e] c].
  - eexists. split; [done|]. constructor.
  - rewrite total_calls_eq by done. destruct (Z.ltb_spec 0 (1 + ra_max_retries ra - attempt - 1)).
    + unfold back_off at 1. cbn.
      pose proof (compute_backoff_range (ra_backoff_base ra) (ra_backoff_cap ra) attempt (rng s)
        ltac:(apply Hra) ltac:(apply Hra) Ha) as Hms.
      destruct (compute_backoff _ _ _ _) as [ms g]. cbn in Hms.
      match goal with |- context [retry_loop _ _ _ _ _ ?s1] =>
        specialize (IH (attempt + 1) (Some e) s1 ltac:(lia) ltac:(lia) ltac:(lia));
        destruct (retry_loop call_fn ra todo (attempt + 1) (Some e) s1) as [r s'] end.
      destruct IH as (events & Htr & Hrun). cbn in Htr. eexists. split.
      * rewrite Htr, <-!app_assoc. done.
      * cbn. apply rr_again; [lia|done|done].
    + assert (todo = O) as -> by lia. cbn. rewrite total_calls_eq by done.
      eexists. split; [done|]. assert (attempt = ra_max_retries ra) as -> by lia.
      rewrite Z.add_comm. by constructor.
  - eexists. split; [done|]. constructor.
Qed.

Lemma retry_run ra s : ra_ok ra →
  let '(r, s') := retry_with_backoff call_fn ra s in
  ∃ events, trace s' = trace s ++ events ∧ route_run ra 0 events r.
Proof.
  intros Hra. unfold retry_with_backoff. pose proof (total_calls_eq ra Hra) as Ht.
  assert (0 ≤ ra_max_retries ra) by apply Hra. apply retry_loop_run; [done|lia..].
Qed.

Lemma route_run_count ra attempt (events : list (Event T)) r : ra_ok ra → 0 ≤ attempt ≤ ra_max_retries ra →
  route_run ra attempt events r →
  let n := match r with Ok (_, n) | Err (_, n) => n end in
  attempt + 1 ≤ n ≤ 1 + ra_max_retries ra ∧
  calls events = replicate (Z.to_nat (n - attempt)) (ra_route ra) ∧
  0 ≤ slept events ≤ (n - attempt - 1) * ra_backoff_cap ra.
Proof using.
  intros (Hmax & _ & [Hcap _]) Ha Hrun. induction Hrun as
    [attempt x|attempt e|attempt e ->|attempt e ms events r Hlt Hms Hrun IH]; cbn.
  - replace (attempt + 1 - attempt) with 1 by lia. split_and!; try done; lia.
  - replace (attempt + 1 - attempt) with 1 by lia. split_and!; try done; lia.
  - replace (ra_max_retries ra + 1 - ra_max_retries ra) with 1 by lia. split_and!; try done; lia.
  - destruct (IH ltac:(lia)) as (Hn & Hcalls & Hslept). clear IH.
    set (n := match r with Ok (_, n) | Err (_, n) => n end) in *.
    fold (slept events) (calls events).
    split_and!; [lia|lia| |lia|nia].
    rewrite Hcalls. replace (Z.to_nat (n - attempt)) with (S (Z.to_nat (n - (attempt + 1)))) by lia.
    done.
Qed.
End runs.

(** The most calls a plan can make. *)
Definition call_budget (attempts : list RouteAttempt) : Z :=
  foldr (λ ra acc, 1 + ra_max_retries ra + acc) 0 attempts.

Section fallback.
Context `{!Rng, !RngLaws}.
Context {T C : Type} (call_fn : ProviderRoute → C → AttemptOutcome T * C).
Implicit Types (s : Exec T C) (ra : RouteAttempt).

Lemma call_budget_length attempts : Forall ra_ok attempts →
  Z.of_nat (length attempts) ≤ call_budget attempts.
Proof using.
  induction 1 as [|ra rest [Hr _] _ IH]; [done|]. cbn. fold (call_budget rest). lia.
Qed.

Lemma fallback_loop_run alias attempts total tried last s :
  attempts ≠ [] → Forall ra_ok attempts → 0 ≤ total → 0 ≤ tried →
  total + call_budget attempts ≤ U32_MAX → tried + call_budget attempts ≤ U32_MAX →
  let '(r, s') := fallback_loop call_fn alias attempts total tried last s in
  ∃ events, trace s' = trace s ++ events ∧ plan_run attempts events total tried r.
Proof.
  intros Hne Hall. revert total tried last s Hne.
  induction Hall as [|ra rest Hra Hrest IH]; intros total tried last s Hne Htot Htry Hb1 Hb2; [done|].
  cbn [fallback_loop]. unfold mbind, io_bind, io_try.
  pose proof (retry_run call_fn ra s Hra) as Hretry.
  pose proof (call_budget_length rest Hrest) as Hlen. cbn [call_budget foldr] in Hb1, Hb2.
  fold (call_budget rest) in Hb1, Hb2.
  destruct (retry_with_backoff call_fn ra s) as [r s1]. destruct Hretry as (events & Htr & Hrun).
  assert (0 ≤ 0 ≤ ra_max_retries ra) as Hz by (destruct Hra; lia).
  pose proof (route_run_count ra 0 events r Hra Hz Hrun) as (Hn & _).
  destruct r as [[x n]|[e n]]; cbn in Hn.
  - exists events. split; [done|]. rewrite !as_u32_small by (unfold in_u32; lia). by constructor.
  - rewrite !as_u32_small by (unfold in_u32; lia). destruct rest as [|ra' rest].
    + cbn. exists events. split; [done|]. by econstructor.
    + specialize (IH (total + n) (tried + 1) (Some e) s1 ltac:(done) ltac:(lia) ltac:(lia)
        ltac:(lia) ltac:(lia)).
      destruct (fallback_loop _ _ _ _ _ _ _) as [r' s2]. destruct IH as (events' & Htr' & Hrun').
      exists (events ++ events'). split; [by rewrite Htr', Htr, app_assoc|]. by eapply pr_next.
Qed.

Lemma calls_app (a b : list (Event T)) : calls (a ++ b) = calls a ++ calls b.
Proof using. apply omap_app. Qed.

Lemma route_run_nonempty ra a (es : list (Event T)) r : route_run ra a es r → es ≠ [].
Proof using. by destruct 1. Qed.
Lemma plan_run_nonempty attempts (es : list (Event T)) total tried r :
  plan_run attempts es total tried r → es ≠ [].
Proof using.
  destruct 1 as [ra rest es x n ? ? Hr|ra es e n ? ? Hr|ra ra' rest es es' e n ? ? r Hr _];
    apply route_run_nonempty in Hr; [done..|]. by intros [-> _]%app_eq_nil.
Qed.

Lemma route_run_last ra a (es : list (Event T)) r : route_run ra a es r →
  match r with
  | Ok (x, _) => last es = Some (Called (ra_route ra) (Success x))
  | Err (e, _) => last es = Some (Called (ra_route ra) (Retryable e)) ∨
                  last es = Some (Called (ra_route ra) (Fatal e))
  end.
Proof using.
  induction 1 as [| | |? ? ? es r _ _ Hr IH]; try by auto.
  apply route_run_nonempty in Hr. by destruct r as [[x n]|[e' n]], es.
Qed.
Lemma route_run_calls ra (es : list (Event T)) r : ra_ok ra → route_run ra 0 es r →
  let n := match r with Ok (_, n) | Err (_, n) => n end in
  1 ≤ n ≤ 1 + ra_max_retries ra ∧ Z.of_nat (length (calls es)) = n.
Proof using.
  intros Hra Hr. assert (0 ≤ 0 ≤ ra_max_retries ra) as Hz by (destruct Hra; lia).
  destruct (route_run_count ra 0 es r Hra Hz Hr) as (Hn & Hc & _). cbn zeta in *. rewrite Hc.
  rewrite length_replicate. split; lia.
Qed.

Lemma plan_run_count attempts (events : list (Event T)) total tried r : Forall ra_ok attempts →
  plan_run attempts events total tried r →
  Z.of_nat (length (calls events)) ≤ call_budget attempts ∧
  match r with
  | Ok out =>
    out_total_attempts out = total + Z.of_nat (length (calls events)) ∧
    ∃ k ra, attempts !! k = Some ra ∧ out_routes_tried out = tried + Z.of_nat k + 1 ∧
      out_route out = ra_route ra ∧ last events = Some (Called (ra_route ra) (Success (out_result out)))
  | Err e => ∃ ra, last attempts = Some ra ∧
      (last events = Some (Called (ra_route ra) (Retryable e)) ∨
       last events = Some (Called (ra_route ra) (Fatal e)))
  end.
Proof using.
  intros Hall Hrun. induction Hrun as [ra rest events x n total tried Hr|ra events e n total tried Hr
    |ra ra' rest events events' e n total tried r Hr Hrun IH].
  - apply Forall_cons in Hall as [Hra Hrest]. destruct (route_run_calls _ _ _ Hra Hr) as [Hn Hc].
    pose proof (call_budget_length rest Hrest). cbn. fold (call_budget rest).
    split; [lia|]. split; [lia|]. exists O, ra. split_and!; [done|lia|done|].
    exact (route_run_last _ _ _ _ Hr).
  - apply Forall_cons in Hall as [Hra _]. destruct (route_run_calls _ _ _ Hra Hr) as [Hn Hc]. cbn in *.
    split; [lia|]. exists ra. split; [done|]. exact (route_run_last _ _ _ _ Hr).
  - apply Forall_cons in Hall as [Hra Hrest]. destruct (route_run_calls _ _ _ Hra Hr) as [Hn Hc].
    destruct (IH Hrest) as [Hb Hres]. rewrite calls_app, length_app.
    assert (events' ≠ []) as Hne.
    { apply (plan_run_nonempty _ _ _ _ _ Hrun). }
    assert (last (events ++ events') = last events') as Hl.
    { destruct events' as [|ev es] using rev_ind; [done|]. by rewrite app_assoc, !last_snoc. }
    rewrite Hl. split; [cbn in Hb |- *; cbn in Hn; lia|].
    destruct r as [out|e'].
    + destruct Hres as [Ht (k & ra'' & Hk & Htried & ?)]. cbn in Hc. split; [lia|].
      exists (S k), ra''. split_and!; [done|lia|tauto..].
    + destruct Hres as (ra'' & Hra'' & ?). exists ra''. done.
Qed.
End fallback.

(** ** Properties *)

(** C33: one route is called at most [1 + max_retries] times,
    never again after a success or a fatal error; only a retryable failure is followed by
    a sleep, none follows the last call, and the sleep before retry [i + 1] is at most
    the cap and [base * 2^i]. The number reported is the number of calls made, and the
    error reported is the one of the last call. *)
Theorem retry_with_backoff_correct `{!Rng, !RngLaws} {T C}
    (call_fn : ProviderRoute → C → AttemptOutcome T * C) ra s :
  ra_ok ra →
  let '(r, s') := retry_with_backoff call_fn ra s in
  let n := match r with Ok (_, n) | Err (_, n) => n end in
  ∃ events, trace s' = trace s ++ events ∧ route_run ra 0 events r ∧
    1 ≤ n ≤ 1 + ra_max_retries ra ∧
    calls events = replicate (Z.to_nat n) (ra_route ra) ∧
    0 ≤ slept events ≤ (n - 1) * ra_backoff_cap ra.
Proof.
  intros Hra. pose proof (retry_run call_fn ra s Hra) as Hrun.
  destruct (retry_with_backoff call_fn ra s) as [r s']. destruct Hrun as (events & Htr & Hrun).
  exists events. split; [done|]. split; [done|].
  assert (0 ≤ 0 ≤ ra_max_retries ra) as Hz by (destruct Hra; lia).
  destruct (route_run_count ra 0 events r Hra Hz Hrun) as (Hn & Hc & Hs). cbn zeta in *.
  rewrite Z.sub_0_r in Hc, Hs. split; [lia|]. done.
Qed.

(** C13: the routes of a plan are tried in order, each with its
    retries, until one succeeds; the outcome names the route that answered, how many
    routes were tried and how many calls were made in all. When every route fails, the
    error is the last route's own error. No plan whose call budget fits in 32 bits makes
    a counter overflow. *)
Theorem execute_with_fallback_correct `{!Rng, !RngLaws} {T C}
    (call_fn : ProviderRoute → C → AttemptOutcome T * C) plan s :
  plan_attempts plan ≠ [] → Forall ra_ok (plan_attempts plan) →
  call_budget (plan_attempts plan) ≤ U32_MAX →
  let '(r, s') := execute_with_fallback call_fn plan s in
  ∃ events, trace s' = trace s ++ events ∧ plan_run (plan_attempts plan) events 0 0 r ∧
    Z.of_nat (length (calls events)) ≤ call_budget (plan_attempts plan) ∧
    match r with
    | Ok out =>
      out_total_attempts out = Z.of_nat (length (calls events)) ∧
      ∃ k ra, plan_attempts plan !! k = Some ra ∧ out_routes_tried out = Z.of_nat k + 1 ∧
        out_route out = ra_route ra ∧
        last events = Some (Called (ra_route ra) (Success (out_result out)))
    | Err e => ∃ ra, last (plan_attempts plan) = Some ra ∧
        (last events = Some (Called (ra_route ra) (Retryable e)) ∨
         last events = Some (Called (ra_route ra) (Fatal e)))
    end.
Proof.
  intros Hne Hall Hb. unfold execute_with_fallback.
  pose proof (fallback_loop_run call_fn (plan_model_alias plan) (plan_attempts plan) 0 0 None s
    Hne Hall ltac:(lia) ltac:(lia) ltac:(lia) ltac:(lia)) as Hrun.
  destruct (fallback_loop _ _ _ _ _ _ _) as [r s']. destruct Hrun as (events & Htr & Hrun).
  exists events. split; [done|]. split; [done|]. exact (plan_run_count _ _ _ _ _ Hall Hrun).
Qed.

(** ** Concrete runs *)

Section examples.
(** A generator that always draws the upper bound. *)
Definition max_rng : Rng := {| RngState := unit; gen_range bound st := (bound, st) |}.
Lemma max_rng_laws : @RngLaws max_rng.
Proof. split. intros bound st Hb. cbn. lia. Qed.
#[local] Existing Instance max_rng.

(** A provider that fails a number of times and then answers. *)
Definition flaky (route : ProviderRoute) (failures : Z) : AttemptOutcome string * Z :=
  if 0 <? failures then (Retryable (EProvider "upstream_error" "busy" 503), failures - 1)
  else (Success "ok", 0).
Definition sample_plan : ExecutionPlan :=
  mkExecutionPlan "fast" (attempt_of <$> [sample_route 3 None 1; sample_route 1 None 5]).

Lemma sample_plan_ok : Forall ra_ok (plan_attempts sample_plan).
Proof.
  cbn. rewrite !Forall_cons, Forall_nil. unfold ra_ok, in_u64. cbn. unfold U32_MAX, U64_MAX, DEFAULT_BACKOFF_CAP.
  lia.
Qed.

Lemma retry_with_backoff_correct_witness :
  let ra := attempt_of (sample_route 3 None 1) in
  let s := mkExec 1 tt [] in
  (retry_with_backoff flaky ra s).1 = Ok ("ok", 2) ∧
  ∃ events, trace (retry_with_backoff flaky ra s).2 = [] ++ events ∧
    route_run ra 0 events (Ok ("ok", 2)) ∧ 0 ≤ slept events ≤ (2 - 1) * ra_backoff_cap ra.
Proof.
  intros ra s. split; [reflexivity|]. pose proof max_rng_laws.
  assert (ra_ok ra) as Hra by (unfold ra_ok, in_u64; cbn; unfold U32_MAX, U64_MAX, DEFAULT_BACKOFF_CAP; lia).
  destruct (retry_with_backoff_correct flaky ra s Hra) as (events & Htr & Hrun & _ & _ & Hs).
  exists events. done.
Defined.

Lemma execute_with_fallback_correct_witness :
  let s := mkExec 3 tt [] in
  (execute_with_fallback flaky sample_plan s).1 =
    Ok (mkRoutingOutcome "ok" (sample_route 1 None 5) 4 2) ∧
  ∃ events, trace (execute_with_fallback flaky sample_plan s).2 = [] ++ events ∧
    4 = Z.of_nat (length (calls events)).
Proof.
  intros s. split; [reflexivity|]. pose proof max_rng_laws.
  destruct (execute_with_fallback_correct flaky sample_plan s ltac:(discriminate) sample_plan_ok
    ltac:(vm_compute; discriminate)) as (events & Htr & _ & _ & Ht & _).
  exists events. done.
Defined.
End examples.
