(* ===== verification/AdminValidation.v ===== *)
(** * Input validation of the admin API (src/gateway/crates/gateway/src/api/admin/mod.rs)

    The validators the admin handlers run before they touch the database, the mapping of
    storage errors, and what a validated policy or identifier guarantees to the
    components that use it later. *)

From Stdlib Require Import Ascii.
From stdpp Require Import options.
From S2P Require Import Prelude Rust Types Errors Json Models PolicyChecks PolicyMerge.

(** ** Validators *)

Definition invalid {A} (field message : string) : result GatewayError A :=
  Err (EValidation ("invalid_" +:+ field) message).

Definition parse_enum_str {T} `{!SerdeEnum T} (s field valid_values : string)
    : result GatewayError T :=
  ok_or (EValidation ("invalid_" +:+ field)
           (field +:+ " must be one of: " +:+ valid_values +:+ "; got: " +:+ s))
    (enum_parse s).

Definition map_storage_error (err : StorageError) : GatewayError :=
  match err with
  | SNotFound entity field value =>
    ENotFound "not_found" (entity +:+ " not found by " +:+ field +:+ " = " +:+ value)
  | SConflict entity detail => EConflict "conflict" ("duplicate " +:+ entity +:+ ": " +:+ detail)
  | SReferenceError detail => EConflict "reference_error" detail
  | SInvalidCursor detail => EValidation "invalid_cursor" detail
  | other => EStorage "database_error" (storage_display other)
  end.

Definition validate_limit (limit : option Z) : result GatewayError Z :=
  let limit := default 50 limit in
  if negb ((1 <=? limit) && (limit <=? 200))
  then invalid "limit" ("limit must be between 1 and 200, got " +:+ pretty limit)
  else mret limit.

Definition validate_name (name : string) : result GatewayError unit :=
  if String.eqb name "" then invalid "name" "name must not be empty"
  else if 128 <? str_len name
  then invalid "name" ("name must be 128 characters or fewer, got " +:+ pretty (str_len name))
  else if existsb is_control (chars name)
  then invalid "name" "name must not contain control characters"
  else mret tt.

Definition is_identifier_char (c : ascii) : bool :=
  is_ascii_alphanumeric c || Ascii.eqb c "-" || Ascii.eqb c "_" || Ascii.eqb c "."
  || Ascii.eqb c ":" || Ascii.eqb c "/".
Definition validate_model_identifier (value field : string) : result GatewayError unit :=
  if String.eqb value "" then invalid field (field +:+ " must not be empty")
  else if 128 <? str_len value
  then invalid field (field +:+ " must be 128 characters or fewer, got " +:+ pretty (str_len value))
  else if negb (str_all is_identifier_char value)
  then invalid field (field +:+ " must contain only alphanumeric characters, hyphens, " +:+
                      "underscores, dots, colons, and slashes")
  else mret tt.

Definition is_key_id_char (c : ascii) : bool :=
  is_ascii_alphanumeric c || Ascii.eqb c "-" || Ascii.eqb c "_".
Definition validate_key_id (key_id : string) : result GatewayError unit :=
  if String.eqb key_id "" then invalid "key_id" "key_id must not be empty"
  else if 128 <? str_len key_id
  then invalid "key_id" ("key_id must be 128 characters or fewer, got " +:+ pretty (str_len key_id))
  else if negb (str_all is_key_id_char key_id)
  then invalid "key_id" ("key_id must contain only alphanumeric characters, hyphens, " +:+
                         "and underscores")
  else mret tt.

Definition is_slug_char (c : ascii) : bool :=
  is_ascii_lowercase c || is_ascii_digit c || Ascii.eqb c "-".
(** [starts_with] with a predicate. *)
Definition starts_lowercase (s : string) : bool :=
  match s with String c _ => is_ascii_lowercase c | EmptyString => false end.
Definition validate_slug (slug : string) : result GatewayError unit :=
  let len := str_len slug in
  if negb ((3 <=? len) && (len <=? 63))
  then invalid "slug" ("slug must be 3-63 characters, got " +:+ pretty len)
  else if negb (str_all is_slug_char slug)
  then invalid "slug" "slug must contain only lowercase letters, digits, and hyphens"
  else if negb (starts_lowercase slug)
  then invalid "slug" "slug must start with a lowercase letter"
  else if ends_with_char "-" slug
  then invalid "slug" "slug must not end with a hyphen"
  else mret tt.

(** One item of the list, at index [i]. *)
Definition validate_pattern (field : string) (i : Z) (item : Value) : result GatewayError Z :=
  s ← ok_or (EValidation ("invalid_" +:+ field)
               (field +:+ "[" +:+ pretty i +:+ "] must be a string")) (as_str item);
  let base := default s (strip_suffix_char "*" s) in
  if negb (String.eqb base "")
  then _ ← validate_model_identifier base (field +:+ "[" +:+ pretty i +:+ "]"); mret (i + 1)
  else mret (i + 1).
Definition validate_models_json (value : Value) (field : string) : result GatewayError unit :=
  arr ← ok_or (EValidation ("invalid_" +:+ field) (field +:+ " must be a JSON array of strings"))
          (as_array value);
  _ ← for_each (validate_pattern field) 0 arr;
  mret tt.

Definition MAX_TOKEN_LIMIT : Z := 1000000.
Definition validate_token_limit (value : Z) (field : string) : result GatewayError unit :=
  if value <=? 0
  then invalid field (field +:+ " must be a positive integer, got " +:+ pretty value)
  else if MAX_TOKEN_LIMIT <? value
  then invalid field (field +:+ " must not exceed " +:+ pretty MAX_TOKEN_LIMIT +:+ ", got " +:+ pretty value)
  else mret tt.

Definition MAX_RPM_LIMIT : Z := 100000.
Definition MAX_CONCURRENCY_LIMIT : Z := 10000.
Definition validate_positive_limit (value : Z) (field : string) : result GatewayError unit :=
  if value <=? 0
  then invalid field (field +:+ " must be a positive integer, got " +:+ pretty value)
  else
    let max := if str_contains "concurrency" field then MAX_CONCURRENCY_LIMIT else MAX_RPM_LIMIT in
    if max <? value
    then invalid field (field +:+ " must not exceed " +:+ pretty max +:+ ", got " +:+ pretty value)
    else mret tt.

(** [if let Some(ref v) = ... { validate(v)?; }] *)
Definition validate_opt {A} (validate : A → result GatewayError unit) (o : option A)
    : result GatewayError unit :=
  match o with Some a => validate a | None => mret tt end.

(** ** Lemmas *)

Lemma validate_opt_ok {A} (validate : A → result GatewayError unit) o :
  validate_opt validate o = Ok tt ↔ ∀ a, o = Some a → validate a = Ok tt.
Proof. destruct o; cbn; naive_solver. Qed.

Lemma validate_token_limit_ok v field :
  validate_token_limit v field = Ok tt ↔ 0 < v ≤ MAX_TOKEN_LIMIT.
Proof.
  unfold validate_token_limit, invalid.
  destruct (Z.leb_spec v 0), (Z.ltb_spec MAX_TOKEN_LIMIT v); split; (done || lia).
Qed.

Lemma validate_positive_limit_ok v field :
  validate_positive_limit v field = Ok tt ↔
  0 < v ≤ if str_contains "concurrency" field then MAX_CONCURRENCY_LIMIT else MAX_RPM_LIMIT.
Proof.
  unfold validate_positive_limit, invalid.
  destruct (Z.leb_spec v 0); [split; [done|lia]|].
  destruct (Z.ltb_spec (if str_contains "concurrency" field then MAX_CONCURRENCY_LIMIT
    else MAX_RPM_LIMIT) v); split; (done || lia).
Qed.

Lemma validate_patterns_strings field i items j :
  for_each (validate_pattern field) i items = Ok j → is_Some (mapM as_str items).
Proof.
  revert i. induction items as [|item items IH]; intros i; cbn; [eauto|].
  intros (k & Hk & Hrest)%result_bind_ok. destruct (IH _ Hrest) as [ss Hss].
  unfold validate_pattern in Hk. destruct (as_str item) as [s|]; [|done]. cbn.
  rewrite Hss. eauto.
Qed.

(** A list that passes can be read by the policy engine. *)
Lemma validate_models_json_parses v field :
  validate_models_json v field = Ok tt → is_Some (vec_string_from_value v).
Proof.
  unfold validate_models_json, vec_string_from_value. destruct (as_array v) as [items|]; [|done].
  cbn. intros (j & Hj & _)%result_bind_ok. by eapply validate_patterns_strings.
Qed.

(** ** Properties *)

(** A slug is accepted exactly when it is 3 to 63 characters of
    [a-z0-9-], starts with a letter and does not end with a hyphen; every refusal is a
    422 under [invalid_slug]. *)
Lemma validate_slug_exact slug :
  match validate_slug slug with
  | Ok _ => 3 ≤ str_len slug ≤ 63 ∧ str_all is_slug_char slug = true ∧
            (∃ c rest, slug = String c rest ∧ is_ascii_lowercase c = true) ∧
            ¬ ∃ rest, slug = rest +:+ "-"
  | Err e => status_code e = 422 ∧ err_code e = "invalid_slug" ∧
             (str_len slug < 3 ∨ 63 < str_len slug ∨ str_all is_slug_char slug = false ∨
              starts_lowercase slug = false ∨ ∃ rest, slug = rest +:+ "-")
  end.
Proof.
  assert (ends_with_char "-" slug = true ↔ ∃ rest, slug = rest +:+ "-") as Hends.
  { unfold ends_with_char. destruct (strip_suffix_char "-" slug) as [r|] eqn:Hr.
    - apply strip_suffix_char_spec in Hr. split; [|done]. intros _. by exists r.
    - split; [done|]. intros [rest Hrest]. apply strip_suffix_char_spec in Hrest. congruence. }
  unfold validate_slug, invalid.
  destruct (Z.leb_spec 3 (str_len slug)); [|cbn; tauto].
  destruct (Z.leb_spec (str_len slug) 63); [|cbn; tauto]. cbn [andb negb].
  destruct (str_all is_slug_char slug) eqn:Hall; cbn [negb]; [|cbn; tauto].
  destruct (starts_lowercase slug) eqn:Hst; cbn [negb]; [|cbn; tauto].
  destruct (ends_with_char "-" slug) eqn:He; [cbn; tauto|]. cbn.
  split_and!; [lia|lia|done| |].
  - destruct slug as [|c rest]; [done|]. by exists c, rest.
  - intros Hx%Hends. congruence.
Qed.
