(* ===== verification/AdminAuth.v ===== *)
(** * Admin authentication (src/gateway/crates/gateway/src/api/admin/auth.rs)

    Bearer tokens checked against the bcrypt hashes of all active keys, in tasks that
    finish in any order; roles. bcrypt is the class [Bcrypt] (a task may also panic), the
    order in which the tasks finish the class [JoinOrder]. *)

From stdpp Require Import options.
From S2P Require Import Prelude Rust Types Errors Json Models PolicyMerge Backends Db World.
From S2P Require Import Repositories DbInvariant RateLimit AppState KeyStore Auth.
#[local] Set Default Proof Using "Type*".

(** What joining one verification task gives. *)
Inductive TaskResult : Type :=
  | Panicked
  | VerifyError (e : string)
  | Verified (is_match : bool).
Class Bcrypt : Type := { bcrypt_task : string → string → TaskResult }.
Class JoinOrder : Type := {
  join_order : nat → list nat;
  join_order_perm n : join_order n ≡ₚ seq 0 n
}.

Inductive AdminRole : Type := RoleAdmin | RoleViewer.
#[global] Instance AdminRole_eq_dec : EqDecision AdminRole.
Proof. solve_decision. Defined.

Definition role_from_db_str (s : string) : result GatewayError AdminRole :=
  if String.eqb s "admin" then Ok RoleAdmin
  else if String.eqb s "viewer" then Ok RoleViewer
  else Err (EAuth "invalid_role" "unrecognized admin role").

Record AdminContext : Type := mkAdminContext {
  admin_id : Uuid;
  admin_name : string;
  role : AdminRole
}.

Definition extract_bearer_token (header_value : option string) : result GatewayError string :=
  value ← ok_or (EAuth "missing_authorization" "Authorization header is required") header_value;
  _ ← throw_if (negb (to_str_ok value))
        (EAuth "invalid_authorization" "Authorization header is not valid UTF-8");
  token ← ok_or (EAuth "invalid_authorization" "Authorization header must use Bearer scheme")
            (strip_prefix "Bearer " value);
  _ ← throw_if (String.eqb token "") (EAuth "missing_token" "Bearer token must not be empty");
  mret token.

Definition require_admin_role (ctx : AdminContext) : result GatewayError unit :=
  throw_if (negb (bool_decide (role ctx = RoleAdmin)))
    (EPolicy "insufficient_permissions" "this operation requires admin role").

Definition verification_failed : GatewayError :=
  EAuth "internal_error" "authentication verification failed".

(** The drain loop over the finished tasks: first error, first match. *)
Record Drain : Type := mkDrain { matched_idx : option nat; auth_error : option GatewayError }.
Definition drain_step (d : Drain) (finished : nat * TaskResult) : Drain :=
  let error := mkDrain (matched_idx d) (Some (default verification_failed (auth_error d))) in
  match finished.2 with
  | Panicked => error
  | VerifyError _ => error
  | Verified is_match =>
    if is_match && bool_decide (matched_idx d = None)
    then mkDrain (Some finished.1) (auth_error d) else d
  end.

(** Spawn one task per key, drain them all, then pick the key. *)
Definition pick_key `{!Bcrypt, !JoinOrder} (keys : list AdminApiKey) (token : string)
    : result GatewayError AdminApiKey :=
  let tasks := imap (λ idx key, (idx, bcrypt_task token (ak_key_hash key))) keys in
  let finished := omap (λ idx, tasks !! idx) (join_order (length keys)) in
  let d := foldl drain_step (mkDrain None None) finished in
  match auth_error d with
  | Some err => Err err
  | None =>
    ok_or (EAuth "invalid_api_key" "invalid admin API key") (matched_idx d ≫= λ idx, keys !! idx)
  end.

Section middleware.
Context `{!Backends, !Bcrypt, !JoinOrder}.
Implicit Types (w : World).

Definition load_failed (_ : StorageError) : GatewayError :=
  EAuth "internal_error" "failed to load admin keys".

Definition admin_cache_get : IO World GatewayError (option (list AdminApiKey)) := λ w,
  let '(o, c) := moka_get (clock w) tt (admin_l1 w) in (Ok o, set_admin_l1 c w).
Definition admin_cache_insert (keys : list AdminApiKey) : IO World GatewayError unit :=
  io_modify (λ w, set_admin_l1 (moka_insert (clock w) tt keys (admin_l1 w)) w).

Definition load_admin_keys (state : AppState) : IO World GatewayError (list AdminApiKey) :=
  if has_admin_key_cache state
  then
    hit ← admin_cache_get;
    match hit with
    | Some keys => mret keys
    | None =>
      keys ← io_map_err load_failed AdminApiKeyRepo.list_active;
      _ ← admin_cache_insert keys;
      mret keys
    end
  else io_map_err load_failed AdminApiKeyRepo.list_active.

(** [authorization]: the raw value of the header. The last-used update runs in a task of
    its own. *)
Definition admin_authenticate (state : AppState) (authorization : option string)
    : IO World GatewayError AdminContext :=
  token ← lift (extract_bearer_token authorization);
  _ ← lift (require_db state);
  keys ← load_admin_keys state;
  _ ← lift (throw_if (bool_decide (keys = []))
        (EAuth "no_admin_keys" "no active admin API keys configured"));
  key ← lift (pick_key keys token);
  role ← lift (role_from_db_str (ak_role key));
  _ ← io_try (AdminApiKeyRepo.touch_last_used (ak_id key));
  mret (mkAdminContext (ak_id key) (ak_name key) role).
End middleware.

(** ** Draining the tasks *)

Section drain.
Context `{!Bcrypt, !JoinOrder}.

Definition task_failed (token : string) (k : AdminApiKey) : bool :=
  match bcrypt_task token (ak_key_hash k) with Verified _ => false | _ => true end.
Definition task_matched (token : string) (k : AdminApiKey) : bool :=
  match bcrypt_task token (ak_key_hash k) with Verified b => b | _ => false end.

Lemma drain_error d fs : auth_error (foldl drain_step d fs) = None ↔
  auth_error d = None ∧ Forall (λ f, match f.2 with Verified _ => True | _ => False end) fs.
Proof.
  revert d. induction fs as [|[i r] fs IH]; intros d; cbn; [rewrite Forall_nil; tauto|].
  rewrite IH, Forall_cons. unfold drain_step. cbn.
  destruct r as [| |b]; cbn; [naive_solver..|]. destruct (b && _); cbn; tauto.
Qed.
Lemma drain_error_value d fs e :
  (∀ e', auth_error d = Some e' → e' = verification_failed) →
  auth_error (foldl drain_step d fs) = Some e → e = verification_failed.
Proof.
  revert d. induction fs as [|[i r] fs IH]; intros d Hd; cbn; [apply Hd|]. apply IH.
  unfold drain_step. cbn. intros e'.
  destruct r as [| |b]; cbn; [destruct (auth_error d); cbn; naive_solver..|]. destruct (b && _); apply Hd.
Qed.
Lemma drain_match d fs i :
  matched_idx (foldl drain_step d fs) = Some i →
  matched_idx d = Some i ∨ (i, Verified true) ∈ fs.
Proof.
  revert d. induction fs as [|[j r] fs IH]; intros d; cbn; [auto|].
  intros [Hm|Hin]%IH; [|set_solver]. unfold drain_step in Hm. cbn in Hm.
  destruct r as [| |b]; cbn in Hm; [by left..|]. destruct b; [|by left].
  case_bool_decide; cbn in Hm; [|by left]. injection Hm as ->. right. set_solver.
Qed.
Lemma drain_no_match d fs :
  matched_idx (foldl drain_step d fs) = None ↔
  matched_idx d = None ∧ Forall (λ f, f.2 ≠ Verified true) fs.
Proof.
  revert d. induction fs as [|[j r] fs IH]; intros d; cbn; [rewrite Forall_nil; tauto|].
  rewrite IH, Forall_cons. unfold drain_step. cbn.
  destruct r as [| |[]]; cbn; [naive_solver..| |naive_solver].
  case_bool_decide; cbn; naive_solver.
Qed.

Lemma finished_elem keys token i r :
  (i, r) ∈ omap (λ idx, imap (λ idx key, (idx, bcrypt_task token (ak_key_hash key))) keys !! idx)
             (join_order (length keys)) ↔
  ∃ k, keys !! i = Some k ∧ r = bcrypt_task token (ak_key_hash k).
Proof.
  rewrite list_elem_of_omap. split.
  - intros (idx & _ & Hidx). rewrite list_lookup_imap in Hidx.
    apply fmap_Some in Hidx as (k & Hk & [= -> ->]). eauto.
  - intros (k & Hk & ->). exists i. split.
    + rewrite join_order_perm. apply elem_of_seq. apply lookup_lt_Some in Hk. lia.
    + by rewrite list_lookup_imap, Hk.
Qed.

(** What the choice of the key amounts to, whatever order the tasks finish in. *)
Lemma pick_key_spec keys token :
  match pick_key keys token with
  | Ok k => k ∈ keys ∧ task_matched token k = true ∧ Forall (λ k, task_failed token k = false) keys
  | Err e =>
    (e = verification_failed ∧ Exists (λ k, task_failed token k = true) keys) ∨
    (e = EAuth "invalid_api_key" "invalid admin API key" ∧
     Forall (λ k, task_failed token k = false ∧ task_matched token k = false) keys)
  end.
Proof.
  unfold pick_key. set (fs := omap _ _).
  assert (∀ i r, (i, r) ∈ fs ↔ ∃ k, keys !! i = Some k ∧ r = bcrypt_task token (ak_key_hash k))
    as Hfs by (intros; apply finished_elem). clearbody fs.
  assert (∀ (P : TaskResult → Prop), Forall (λ f, P f.2) fs ↔
    Forall (λ k, P (bcrypt_task token (ak_key_hash k))) keys) as Hall.
  { intros P. rewrite !Forall_forall. split.
    - intros HP k [i Hi]%list_elem_of_lookup. apply (HP (i, bcrypt_task token (ak_key_hash k))).
      apply Hfs. eauto.
    - intros HP [i r] (k & Hk & ->)%Hfs. cbn. by apply HP, (list_elem_of_lookup_2 _ i). }
  destruct (auth_error (foldl drain_step (mkDrain None None) fs)) as [e|] eqn:He.
  - left. split; [by eapply drain_error_value; [|exact He]|].
    destruct (decide (Exists (λ k, task_failed token k = true) keys)) as [Hx|Hx]; [done|].
    exfalso. apply not_Exists_Forall in Hx; [|solve_decision].
    assert (auth_error (foldl drain_step (mkDrain None None) fs) = None) as Hn; [|congruence].
    apply drain_error. split; [done|].
    apply (Hall (λ r, match r with Verified _ => True | _ => False end)).
    eapply Forall_impl; [exact Hx|]. intros k Hk. cbn in Hk. unfold task_failed in Hk.
    destruct (bcrypt_task token (ak_key_hash k)); [by destruct Hk..|done].
  - apply drain_error in He as [_ Hok].
    apply (Hall (λ r, match r with Verified _ => True | _ => False end)) in Hok.
    assert (Forall (λ k, task_failed token k = false) keys) as Hnf.
    { eapply Forall_impl; [exact Hok|]. intros k Hk. cbn in Hk. unfold task_failed.
      by destruct (bcrypt_task token (ak_key_hash k)). }
    destruct (matched_idx (foldl drain_step (mkDrain None None) fs)) as [i|] eqn:Hm; cbn.
    + apply drain_match in Hm as [?|(k & Hk & Hv)%Hfs]; [done|]. rewrite Hk. cbn.
      split_and!; [by eapply list_elem_of_lookup_2| |done]. unfold task_matched. by rewrite <-Hv.
    + apply drain_no_match in Hm as [_ Hm%(Hall (λ r, r ≠ Verified true))]. right. split; [done|].
      rewrite Forall_forall in Hm, Hnf |- *. intros k Hk. split; [by apply Hnf|].
      specialize (Hm k Hk). unfold task_matched. by destruct (bcrypt_task _ _) as [| |[]].
Qed.
End drain.

(** ** Where the keys come from *)

Section keys.
Context `{!Backends, !BackendsLaws, !Bcrypt, !JoinOrder}.
Implicit Types (w : World).

(** The list is the cached one, no older than its time to live, or what the database has
    as active. *)
Definition keys_source (w : World) (keys : list AdminApiKey) : Prop :=
  (∃ t0, latest (admin_l1 w) tt = Some (keys, t0) ∧
     clock w < t0 + time_to_live (admin_l1 w) * 1000) ∨
  (∀ k, k ∈ keys ↔ (∃ id, admin_api_keys (db w) !! id = Some k) ∧ ak_is_active k = true).

Lemma list_active_source w keys w' :
  AdminApiKeyRepo.list_active w = (Ok keys, w') →
  ∀ k, k ∈ keys ↔ (∃ id, admin_api_keys (db w) !! id = Some k) ∧ ak_is_active k = true.
Proof.
  intros (_ & [= <- _] & _)%io_map_err_ok%db_call_ok k.
  rewrite merge_sort_Permutation, list_elem_of_filter. unfold rows. rewrite list_elem_of_fmap.
  split.
  - intros [Ha ([id r] & -> & Hin%elem_of_map_to_list)]. eauto.
  - intros [[id Hid] Ha]. split; [done|]. exists (id, k). split; [done|].
    by apply elem_of_map_to_list.
Qed.

Lemma load_admin_keys_source state w keys w' :
  load_admin_keys state w = (Ok keys, w') → keys_source w keys.
Proof.
  unfold load_admin_keys. destruct (has_admin_key_cache state).
  - intros (hit & w1 & Hget & Hrest)%io_bind_ok. unfold admin_cache_get in Hget.
    pose proof (get_latest (clock w) tt (admin_l1 w)) as Hl.
    destruct (moka_get (clock w) tt (admin_l1 w)) as [o c]. injection Hget as <- <-.
    destruct o as [ks|]; [injection Hrest as <- <-; left; by apply Hl|].
    apply io_bind_ok in Hrest as (ks & w2 & Hks%io_map_err_ok & Hrest).
    apply io_bind_ok in Hrest as (? & w3 & _ & [= <- _]).
    right. exact (list_active_source _ _ _ Hks).
  - intros Hks%io_map_err_ok. right. exact (list_active_source _ _ _ Hks).
Qed.
End keys.

(** ** Properties *)

(** C29: an accepted admin request carried [Bearer] and a non-empty token
    that bcrypt matches with the hash of an active key (as the database has them, or as
    the cache had them at most one time to live ago), and no verification failed; the
    context is that key's, with its role. The order in which the verification tasks
    finish plays no part. *)
Theorem admin_auth_sound `{!Backends, !BackendsLaws, !Bcrypt, !JoinOrder}
    state authorization w ctx w' :
  admin_authenticate state authorization w = (Ok ctx, w') →
  ∃ token keys k,
    authorization = Some ("Bearer " +:+ token) ∧ token ≠ "" ∧
    keys_source w keys ∧ k ∈ keys ∧
    bcrypt_task token (ak_key_hash k) = Verified true ∧
    Forall (λ k, task_failed token k = false) keys ∧
    role_from_db_str (ak_role k) = Ok (role ctx) ∧
    admin_id ctx = ak_id k ∧ admin_name ctx = ak_name k.
Proof.
  unfold admin_authenticate. intros Hrun. inv_res.
  match goal with H : extract_bearer_token _ = Ok ?t |- _ => rename H into Htok; exists t end.
  match goal with H : load_admin_keys _ _ = (Ok ?ks, _) |- _ =>
    apply load_admin_keys_source in H as Hsrc; exists ks end.
  match goal with H : pick_key ?ks ?t = Ok ?k |- _ =>
    pose proof (pick_key_spec ks t) as Hspec; rewrite H in Hspec; exists k end.
  destruct Hspec as (Hin & Hm & Hnf). unfold extract_bearer_token in Htok. inv_res.
  match goal with H : strip_prefix _ _ = Some _ |- _ => apply strip_prefix_spec in H as -> end.
  match goal with H : String.eqb _ "" = false |- _ => apply String.eqb_neq in H end.
  unfold task_matched in Hm. destruct (bcrypt_task _ _) as [| |b] eqn:Hb; [done..|]. subst b.
  split_and!; done.
Qed.

(** ** Concrete runs *)

Section runs.
#[local] Existing Instances mem_backends decimal_uuid.

(** A hash that is the token with a prefix, and tasks that finish in reverse order. *)
Definition toy_bcrypt : Bcrypt :=
  {| bcrypt_task token hash := Verified (String.eqb hash ("$2b$" +:+ token)) |}.
Lemma reverse_seq_perm n : reverse (seq 0 n) ≡ₚ seq 0 n.
Proof. apply reverse_Permutation. Qed.
Definition last_first : JoinOrder :=
  {| join_order n := reverse (seq 0 n); join_order_perm := reverse_seq_perm |}.
#[local] Existing Instances toy_bcrypt last_first.

Definition sample_admin : AdminApiKey := mkAdminApiKey 31 "ops" "$2b$s3cret" "admin" true 0 None.
Definition admin_db : Db :=
  mkDb {[from_uuid 1 := sample_tenant]} {[from_uuid 7 := sample_account]} ∅ ∅ ∅ ∅
    {[31 := sample_admin; 32 := mkAdminApiKey 32 "audit" "$2b$other" "viewer" true 5 None;
      33 := mkAdminApiKey 33 "old" "$2b$s3cret" "admin" false 7 None]} ∅ ∅ ∅.

Lemma admin_auth_sound_witness :
  let w := mem_world 1000 [mkStep 3 None] ∅ admin_db in
  let state := mkAppState 300 true true (Some true) true true None true true in
  (admin_authenticate state (Some "Bearer s3cret") w).1 = Ok (mkAdminContext 31 "ops" RoleAdmin) ∧
  ∃ token, Some "Bearer s3cret" = Some ("Bearer " +:+ token) ∧ token ≠ "".
Proof.
  intros w state. pose proof mem_backends_laws.
  assert ((admin_authenticate state (Some "Bearer s3cret") w).1
    = Ok (mkAdminContext 31 "ops" RoleAdmin)) as Hrun by (vm_compute; reflexivity).
  split; [done|].
  destruct (admin_auth_sound state (Some "Bearer s3cret") w (mkAdminContext 31 "ops" RoleAdmin)
    (admin_authenticate state (Some "Bearer s3cret") w).2 (run_answer _ _ Hrun))
    as (token & _ & _ & Htok & Hne & _).
  exists token. split; assumption.
Defined.
End runs.
