(* ===== verification/CacheRaces.v ===== *)
(** * Keys, routes and admin keys from the caches, under races
      (src/gateway/crates/gateway/src/auth/key_store.rs, routing/router.rs, resolver.rs,
       api/admin/auth.rs)

    The lookups of the key store, of the route cache and of the admin key cache taken
    apart: a request reads, later fills what it read into a cache, and meanwhile keys are
    revoked, routes changed and administrators switched off, here or through another
    process. A fill that overlaps a change leaves a stale entry behind; the times to live
    bound for how long. *)

From stdpp Require Import options.
From S2P Require Import Prelude Rust Types Errors Json Models PolicyMerge Backends Db World.
From S2P Require Import Repositories DbInvariant RateLimit AppState KeyStore Auth Router.
From S2P Require Import AdminAuth Ages.
#[local] Set Default Proof Using "Type*".

(** ** Keys *)

(** A key a request holds, and when it read it. *)
Record Copy : Type := mkCopy { cp_id : string; cp_key : ServiceAccountKey; cp_at : Z }.

(** The world of one process; the keys any process has read from the database and this
    one from Redis, and not yet forgotten; the databases that were read. *)
Record KeyRaces `{!Backends} : Type := mkKeyRaces {
  gate : World;
  fetched : list Copy;
  copied : list Copy;
  seen : list (Z * Db)
}.

(** The operations of the key store; [D] bounds how long a request takes. *)
Inductive key_op `{!Backends, !KeyCodec} (D : Z) : KeyRaces → KeyRaces → Prop :=
  (** a request of any process reads the key from the database *)
  | kr_fetch key_id w key w' fs cs ds :
      KeyRepo.get_by_key_id key_id w = (Ok key, w') →
      key_op D (mkKeyRaces _ w fs cs ds)
        (mkKeyRaces _ w' (mkCopy key_id key (clock w) :: fs) cs ((clock w, db w) :: ds))
  | kr_unknown key_id w e w' fs cs ds :
      KeyRepo.get_by_key_id key_id w = (Err e, w') →
      key_op D (mkKeyRaces _ w fs cs ds) (mkKeyRaces _ w' fs cs ds)
  (** it writes it to Redis, *)
  | kr_share c w r w' fs cs ds :
      c ∈ fs → set_in_redis (cp_id c) (cp_key c) w = (r, w') → clock w' ≤ cp_at c + D →
      key_op D (mkKeyRaces _ w fs cs ds) (mkKeyRaces _ w' fs cs ds)
  (** and into its own cache *)
  | kr_fill c w r w' fs cs ds :
      c ∈ fs → l1_insert (cp_id c) (cp_key c) w = (r, w') → clock w ≤ cp_at c + D →
      key_op D (mkKeyRaces _ w fs cs ds) (mkKeyRaces _ w' fs cs ds)
  (** a request of this process reads the key from Redis *)
  | kr_copy key_id w key w' fs cs ds :
      get_from_redis key_id w = (Ok (Some key), w') →
      key_op D (mkKeyRaces _ w fs cs ds)
        (mkKeyRaces _ w' fs (mkCopy key_id key (clock w) :: cs) ds)
  | kr_miss key_id w r w' fs cs ds :
      get_from_redis key_id w = (r, w') →
      key_op D (mkKeyRaces _ w fs cs ds) (mkKeyRaces _ w' fs cs ds)
  (** and into its own cache *)
  | kr_keep c w r w' fs cs ds :
      c ∈ cs → l1_insert (cp_id c) (cp_key c) w = (r, w') → clock w ≤ cp_at c + D →
      key_op D (mkKeyRaces _ w fs cs ds) (mkKeyRaces _ w' fs cs ds)
  | kr_hit key_id w r w' fs cs ds :
      l1_get key_id w = (r, w') →
      key_op D (mkKeyRaces _ w fs cs ds) (mkKeyRaces _ w' fs cs ds)
  | kr_invalidate b key_id w r w' fs cs ds :
      invalidate b key_id w = (r, w') →
      key_op D (mkKeyRaces _ w fs cs ds) (mkKeyRaces _ w' fs cs ds).

Inductive key_step `{!Backends, !KeyCodec} (D : Z) : KeyRaces → KeyRaces → Prop :=
  | kr_own s s' : key_op D s s' → key_step D s s'
  (** anything else, changes of the database included *)
  | kr_other w w' fs cs ds :
      clock w ≤ clock w' → key_l1 w' = key_l1 w →
      (∀ key_id, peek (clock w') (redis w') (redis_key key_id)
         = peek (clock w') (redis w) (redis_key key_id)) →
      key_step D (mkKeyRaces _ w fs cs ds) (mkKeyRaces _ w' fs cs ds).

(** At [t], a request read [key] from the database. *)
Definition key_read (ds : list (Z * Db)) (key_id : string) (key : ServiceAccountKey) (t : Z) : Prop :=
  ∃ d, (t, d) ∈ ds ∧ KeyRepo.select_by_key_id key_id d = Some key.

Section keys.
Context `{!Backends, !BackendsLaws, !KeyCodec, !KeyCodecLaws}.
Context (D ttl : Z) (HD : 0 ≤ D).
Implicit Types (w : World).

Abbreviation L2 := (L2_TTL_SECS * 1000).

(** A key in Redis was written soon after it was read, and expires. *)
Definition shared_aged (ds : list (Z * Db)) w : Prop :=
  ∀ key_id json dl key, peek (clock w) (redis w) (redis_key key_id) = Some (json, dl) →
    key_from_json json = Some key →
    ∃ t0 d, key_read ds key_id key t0 ∧ dl = Some d ∧ d ≤ t0 + D + L2.

Record key_races_inv (s : KeyRaces) : Prop := mkKeyRacesInv {
  ki_ttl : time_to_live (key_l1 (gate s)) = ttl;
  ki_fetched : Forall (λ c, key_read (seen s) (cp_id c) (cp_key c) (cp_at c)) (fetched s);
  ki_copied : Forall (λ c, ∃ t0, key_read (seen s) (cp_id c) (cp_key c) t0 ∧
    cp_at c ≤ t0 + D + L2) (copied s);
  ki_shared : shared_aged (seen s) (gate s);
  ki_cached : aged (key_read (seen s)) (D + L2 + D) (key_l1 (gate s))
}.

Lemma key_read_later ds x key_id key t : key_read ds key_id key t → key_read (x :: ds) key_id key t.
Proof. intros (d & Hin & Hsel). exists d. split; [by apply elem_of_cons; right|done]. Qed.

(** Redis keeps what it had of the keys, or forgets some. *)
Lemma shared_keep ds w w' :
  clock w ≤ clock w' →
  (∀ key_id e, peek (clock w') (redis w') (redis_key key_id) = Some e →
     peek (clock w') (redis w) (redis_key key_id) = Some e) →
  shared_aged ds w → shared_aged ds w'.
Proof.
  intros Hc Hk Hs key_id json dl key Hp%Hk. apply (peek_earlier (clock w)) in Hp; [|done].
  by eapply Hs.
Qed.

(** A step that reads nothing from the database. *)
Lemma key_races_keep w w' fs cs ds :
  time_to_live (key_l1 w') = time_to_live (key_l1 w) →
  (aged (key_read ds) (D + L2 + D) (key_l1 w) → aged (key_read ds) (D + L2 + D) (key_l1 w')) →
  (shared_aged ds w → shared_aged ds w') →
  key_races_inv (mkKeyRaces _ w fs cs ds) → key_races_inv (mkKeyRaces _ w' fs cs ds).
Proof. intros Ht Ha Hs [A B C E F]. cbn in *. split; cbn; [congruence|auto..]. Qed.

Lemma key_races_seen w w' fs cs ds x :
  key_l1 w' = key_l1 w → clock w ≤ clock w' → redis w' = redis w →
  key_races_inv (mkKeyRaces _ w fs cs ds) → key_races_inv (mkKeyRaces _ w' fs cs (x :: ds)).
Proof.
  intros Hl Hc Hr [A B C E F]. cbn in *. split; cbn; [congruence|..].
  - eapply Forall_impl; [exact B|]. cbn. intros. by apply key_read_later.
  - eapply Forall_impl; [exact C|]. cbn. intros c (t0 & ? & ?). eauto using key_read_later.
  - apply (shared_keep _ w w') in E; [|done|by rewrite Hr].
    intros key_id json dl key Hp Hj. destruct (E _ _ _ _ Hp Hj) as (t0 & d & ? & ? & ?).
    eauto 10 using key_read_later.
  - rewrite Hl. eapply aged_mono; [|exact F]. intros. by apply key_read_later.
Qed.

(** The round trips. *)
Lemma fetch_effect key_id w key w' :
  KeyRepo.get_by_key_id key_id w = (Ok key, w') →
  KeyRepo.select_by_key_id key_id (db w) = Some key ∧
  key_l1 w' = key_l1 w ∧ clock w ≤ clock w' ∧ redis w' = redis w ∧ db w' = db w.
Proof.
  unfold KeyRepo.get_by_key_id. intros (row & w1 & Hq%io_map_err_ok & [->%ok_or_ok ->]%lift_eq)%io_bind_ok.
  apply db_call_ok in Hq as (Hc & [= Hsel] & Hdb & Hr & Hk & _). by rewrite Hsel.
Qed.

Lemma share_effect c w r w' t0 ds :
  set_in_redis (cp_id c) (cp_key c) w = (r, w') → clock w' ≤ t0 + D →
  key_read ds (cp_id c) (cp_key c) t0 → shared_aged ds w →
  key_l1 w' = key_l1 w ∧ shared_aged ds w'.
Proof.
  intros Hset Hc Hr Hs. unfold set_in_redis in Hset.
  destruct (key_to_json (cp_key c)) as [json|] eqn:Hjson; [|by injection Hset as _ <-].
  unfold mbind, io_bind, io_try, redis_set_ex, redis_call in Hset.
  pose proof (tick_clock w) as Hc1. pose proof (tick_frame redis w ltac:(done)) as Hr1.
  pose proof (tick_frame key_l1 w ltac:(done)) as Hk1.
  destruct (tick w) as [flt w1]. cbn [fst snd] in *.
  assert (∀ w2, clock w2 = clock w1 → redis w2 = redis w ∨
    redis w2 = cmd_set_ex (clock w1) (redis_key (cp_id c)) json L2_TTL_SECS (redis w1) →
    clock w1 ≤ t0 + D → shared_aged ds w2) as Hgoal.
  { intros w2 Hc2 Hr2 Hle. destruct Hr2 as [Hr2|Hr2].
    { apply (shared_keep _ w); [lia|by rewrite Hr2|done]. }
    intros key_id json' dl key. rewrite Hc2, Hr2, Hr1, peek_set_ex by done.
    case_decide as Heq.
    - apply redis_key_inj in Heq as ->. intros [= <- <-]. rewrite (key_json_roundtrip _ _ Hjson).
      intros [= <-]. exists t0. eexists. split; [done|]. split; [done|]. lia.
    - intros Hp%(peek_earlier (clock w)); [|done]. by eapply Hs. }
  destruct flt as [[]|]; injection Hset as _ <-; cbn in *; (split; [done|]);
    apply Hgoal; cbn; auto.
Qed.

Lemma copy_effect key_id w key w' ds :
  get_from_redis key_id w = (Ok (Some key), w') → shared_aged ds w →
  key_l1 w' = key_l1 w ∧ clock w ≤ clock w' ∧ redis w' = redis w ∧ db w' = db w ∧
  ∃ t0, key_read ds key_id key t0 ∧ clock w' ≤ t0 + D + L2.
Proof.
  unfold get_from_redis, mbind, io_bind, io_try. intros Hrun Hs.
  destruct (redis_get (redis_key key_id) w) as [x w1] eqn:Hg. injection Hrun as Hk <-.
  destruct x as [[json|]|e]; try done.
  unfold redis_get in Hg. apply redis_call_ok in Hg as (Hc & Hx & Hr & Hdb & Hl & _). cbn in Hx, Hr.
  split_and!; try done. rewrite get_peek in Hx. symmetry in Hx.
  apply fmap_Some in Hx as ([v dl] & Hp & ->).
  pose proof Hp as Hp0%(peek_earlier (clock w)); [|done].
  destruct (Hs _ _ _ _ Hp0 Hk) as (t0 & d & Hread & -> & Hd). exists t0. split; [done|].
  rewrite (peek_later (clock w) (clock w1)), Hp0 in Hp by done. cbn in Hp. unfold live in Hp.
  cbn in Hp. destruct (Z.ltb_spec (clock w1) d); [lia|done].
Qed.

Lemma invalidate_shared b key_id w r w' ds :
  invalidate b key_id w = (r, w') → shared_aged ds w →
  key_l1 w' = moka_invalidate key_id (key_l1 w) ∧ shared_aged ds w'.
Proof.
  unfold invalidate, io_modify, mbind, io_bind. intros Hrun Hs.
  destruct b; [|by injection Hrun as _ <-]. set (w1 := set_key_l1 _ w) in *.
  unfold io_try, redis_del, redis_call in Hrun.
  pose proof (tick_clock w1) as Hc1. pose proof (tick_frame redis w1 ltac:(done)) as Hr1.
  pose proof (tick_frame key_l1 w1 ltac:(done)) as Hk1.
  destruct (tick w1) as [flt w2]. cbn [fst snd] in *.
  destruct flt as [[]|]; injection Hrun as _ <-; cbn; (split; [done|]);
    (apply (shared_keep _ w); [done| |done]); cbn; rewrite Hr1; try done;
    intros kid e; rewrite peek_del; by case_decide.
Qed.

Lemma redis_read_quiet key_id w r w' :
  get_from_redis key_id w = (r, w') →
  clock w ≤ clock w' ∧ key_l1 w' = key_l1 w ∧ redis w' = redis w ∧ ∃ o, r = Ok o.
Proof.
  unfold get_from_redis, mbind, io_bind, io_try, redis_get, redis_call.
  pose proof (tick_clock w) as Hc. pose proof (tick_frame redis w ltac:(done)) as Hr.
  pose proof (tick_frame key_l1 w ltac:(done)) as Hk.
  destruct (tick w) as [[[]|] w1]; intros [= <- <-]; cbn in *; eauto 10.
Qed.
Lemma fetch_quiet key_id w r w' :
  KeyRepo.get_by_key_id key_id w = (r, w') →
  clock w ≤ clock w' ∧ key_l1 w' = key_l1 w ∧ redis w' = redis w.
Proof.
  unfold KeyRepo.get_by_key_id, query, mbind, io_bind, io_map_err, db_call, lift.
  pose proof (tick_clock w) as Hc. pose proof (tick_frame redis w ltac:(done)) as Hr.
  pose proof (tick_frame key_l1 w ltac:(done)) as Hk.
  destruct (tick w) as [[[]|] w1]; intros [= <- <-]; by cbn in *.
Qed.

Lemma key_step_inv s s' : key_step D s s' → key_races_inv s → key_races_inv s'.
Proof.
  assert (∀ w w' fs cs ds, clock w ≤ clock w' → key_l1 w' = key_l1 w →
    (∀ kid, peek (clock w') (redis w') (redis_key kid) = peek (clock w') (redis w) (redis_key kid)) →
    key_races_inv (mkKeyRaces _ w fs cs ds) → key_races_inv (mkKeyRaces _ w' fs cs ds)) as Hother.
  { intros w w' fs cs ds Hc Hl Hr. apply key_races_keep; [by rewrite Hl|by rewrite Hl|].
    apply shared_keep; [done|]. intros kid e. by rewrite Hr. }
  intros Hstep Hinv. destruct Hstep as [s1 s2 [key_id w key w' fs cs ds Hrun
    |key_id w e w' fs cs ds Hrun|c w r w' fs cs ds Hin Hrun Hc|c w r w' fs cs ds Hin [= <- <-] Hc
    |key_id w key w' fs cs ds Hrun|key_id w r w' fs cs ds Hrun|c w r w' fs cs ds Hin [= <- <-] Hc
    |key_id w r w' fs cs ds Hrun|b key_id w r w' fs cs ds Hrun]
    |w w' fs cs ds Hc Hl Hr]; [..|by eapply Hother].
  - apply fetch_effect in Hrun as (Hsel & Hl & Hc & Hr & _).
    pose proof (key_races_seen w w' fs cs ds (clock w, db w) Hl Hc Hr Hinv) as [A B C E F].
    split; cbn in *; try done. constructor; [|done]. exists (db w). cbn.
    split; [apply elem_of_cons; by left|done].
  - destruct (fetch_quiet _ _ _ _ Hrun) as (Hc & Hl & Hr). eapply Hother; [done..| |done].
    intros kid. by rewrite Hr.
  - pose proof Hinv as [A B C E F]. cbn in *. pose proof (proj1 (Forall_forall _ _) B c Hin) as Hread.
    destruct (share_effect c w r w' (cp_at c) ds Hrun Hc Hread E) as [Hl Hs].
    eapply key_races_keep; [by rewrite Hl|by rewrite Hl|done|done].
  - pose proof Hinv as [A B C E F]. cbn in *. pose proof (proj1 (Forall_forall _ _) B c Hin) as Hread.
    eapply key_races_keep; [apply ttl_insert| |done|done]. intros Ha. cbn.
    apply (aged_insert _ _ (cp_at c)); [done|unfold L2_TTL_SECS; lia|done].
  - pose proof Hinv as [A B C E F]. cbn in *.
    destruct (copy_effect _ _ _ _ _ Hrun E) as (Hl & Hc & Hr & _ & t0 & Hread & Hle).
    split; cbn; [by rewrite Hl|done| |by apply (shared_keep _ w); [|rewrite Hr|]|by rewrite Hl].
    constructor; [|done]. exists t0. cbn. split; [done|lia].
  - destruct (redis_read_quiet _ _ _ _ Hrun) as (Hc & Hl & Hr & _). eapply Hother; [done..| |done].
    intros kid. by rewrite Hr.
  - pose proof Hinv as [A B C E F]. cbn in *.
    destruct (proj1 (Forall_forall _ _) C c Hin) as (t0 & Hread & Hle).
    eapply key_races_keep; [apply ttl_insert| |done|done]. intros Ha. cbn.
    apply (aged_insert _ _ t0); [done|lia|done].
  - unfold l1_get in Hrun. pose proof (ttl_get (clock w) key_id (key_l1 w)) as Ht.
    pose proof (λ o, aged_get o (D + L2 + D) (clock w) key_id (key_l1 w)) as Ha.
    destruct (moka_get _ _ _) as [o c]. injection Hrun as <- <-. cbn [snd] in *.
    eapply key_races_keep; [done|apply Ha|done|done].
  - pose proof Hinv as [A B C E F]. cbn in *.
    destruct (invalidate_shared _ _ _ _ _ _ Hrun E) as [Hl Hs].
    eapply key_races_keep; [rewrite Hl; apply ttl_invalidate|rewrite Hl; by apply aged_invalidate|done|done].
Qed.
Lemma key_steps_inv s s' : rtc (key_step D) s s' → key_races_inv s → key_races_inv s'.
Proof. induction 1; eauto using key_step_inv. Qed.

Lemma key_races_start w :
  time_to_live (key_l1 w) = ttl → (∀ key_id, latest (key_l1 w) key_id = None) →
  (∀ key_id, peek (clock w) (redis w) (redis_key key_id) = None) →
  key_races_inv (mkKeyRaces _ w [] [] []).
Proof.
  intros Ht Hl Hr. split; cbn; [done|constructor|constructor| |by apply aged_empty].
  intros key_id json dl key. by rewrite Hr.
Qed.

(** What a lookup answers was in the database not too long ago. *)
Lemma lookup_age b key_id s key w' :
  0 ≤ ttl → key_races_inv s → get_by_key_id b key_id (gate s) = (Ok key, w') →
  KeyRepo.select_by_key_id key_id (db (gate s)) = Some key ∨
  ∃ t0, key_read (seen s) key_id key t0 ∧ clock (gate s) ≤ t0 + D + L2 + D + ttl * 1000.
Proof.
  intros Httl [<- B C E F] Hrun. set (w := gate s) in *. unfold get_by_key_id in Hrun.
  apply io_bind_ok in Hrun as ([k|] & w1 & Hhit & Hrest).
  { injection Hrest as <- _. right. unfold l1_get in Hhit.
    pose proof (aged_hit _ _ (clock w) key_id (key_l1 w) k F) as Hage.
    destruct (moka_get _ _ _) as [o c]. injection Hhit as -> _.
    destruct (Hage eq_refl) as (t0 & Hread & Hlt). exists t0. split; [done|lia]. }
  assert (clock w1 = clock w ∧ redis w1 = redis w ∧ db w1 = db w) as (Hc & Hr & Hd).
  { unfold l1_get in Hhit. destruct (moka_get _ _ _) as [o c]. by injection Hhit as _ <-. }
  assert (shared_aged (seen s) w1) as Hs1 by (apply (shared_keep _ w); [lia|by rewrite Hr|done]).
  apply io_bind_ok in Hrest as ([k|] & w2 & Hl2 & Hrest).
  - destruct b; [|done]. destruct (copy_effect _ _ _ _ _ Hl2 Hs1) as (_ & Hc2 & _ & _ & t0 & Hread & Hle).
    apply io_bind_ok in Hrest as (? & ? & _ & [= <- _]). right. exists t0. split; [done|].
    unfold L2_TTL_SECS in *. lia.
  - left. apply io_bind_ok in Hrest as (k & w3 & Hq%io_map_err_ok & Hpop).
    apply fetch_effect in Hq as (Hsel & _).
    assert (db w2 = db w) as Hd2.
    { rewrite <-Hd. destruct b; [|by injection Hl2 as <-].
      revert Hl2. unfold get_from_redis, mbind, io_bind, io_try. clear.
      pose proof (redis_call_db (λ t st, (cmd_get t (redis_key key_id) st, st)) w1) as Hdb.
      unfold redis_get. destruct (redis_call _ w1). by intros [= _ <-]. }
    rewrite Hd2 in Hsel. rewrite Hsel. f_equal.
    unfold populate in Hpop. by inv_res.
Qed.

Lemma set_in_redis_advances key_id key w r w' :
  set_in_redis key_id key w = (r, w') → clock w ≤ clock w'.
Proof.
  unfold set_in_redis. destruct (key_to_json key); [|by intros [= _ <-]].
  unfold mbind, io_bind, io_try, redis_set_ex, redis_call. pose proof (tick_clock w) as Hc.
  destruct (tick w) as [[[]|] w1]; by intros [= _ <-].
Qed.

(** The lookup of the code, run alone, is a run of the steps. *)
Lemma lookup_races b key_id w r w' fs cs ds :
  get_by_key_id b key_id w = (r, w') → clock w' ≤ clock w + D →
  ∃ fs' cs' ds', rtc (key_op D) (mkKeyRaces _ w fs cs ds) (mkKeyRaces _ w' fs' cs' ds').
Proof.
  intros Hrun Hdur. unfold get_by_key_id, mbind, io_bind at 1 in Hrun.
  destruct (l1_get key_id w) as [r1 w1] eqn:Hhit.
  assert (∃ o, r1 = Ok o ∧ clock w1 = clock w) as (o & -> & Hc1).
  { unfold l1_get in Hhit. destruct (moka_get _ _ _). injection Hhit as <- <-. by eexists. }
  assert (key_op D (mkKeyRaces _ w fs cs ds) (mkKeyRaces _ w1 fs cs ds)) as Hs1 by by eapply kr_hit.
  destruct o as [k|]; [injection Hrun as _ <-; eauto using rtc_once|].
  destruct ((if b then get_from_redis key_id else mret None : IO World GatewayError _) w1) as [r2 w2] eqn:Hl2.
  assert (rtc (key_op D) (mkKeyRaces _ w1 fs cs ds) (mkKeyRaces _ w2 fs cs ds) ∧
    clock w ≤ clock w2 ∧ ∃ o, r2 = Ok o) as (Hs2 & Hc2 & o & ->).
  { destruct b; [|injection Hl2 as <- <-; split_and!; [done|lia|by eexists]].
    destruct (redis_read_quiet key_id w1 r2 w2 Hl2) as (Hc & Hl & Hr & o & ->).
    split_and!; [|lia|by eexists]. by eapply rtc_once, kr_miss. }
  unfold io_bind at 1 in Hrun. rewrite Hl2 in Hrun.
  destruct o as [k|].
  { destruct b; [|done]. injection Hrun as _ <-. cbn in Hdur. do 3 eexists.
    eapply rtc_l; [exact Hs1|]. eapply rtc_l; [by eapply kr_copy|].
    apply rtc_once. eapply (kr_keep D (mkCopy key_id k (clock w1))); [apply elem_of_cons; by left|done|].
    cbn. lia. }
  unfold io_bind, io_map_err in Hrun.
  destruct (KeyRepo.get_by_key_id key_id w2) as [r3 w3] eqn:Hq. destruct r3 as [k|e].
  2:{ injection Hrun as _ <-. exists fs, cs, ds. eapply rtc_l; [exact Hs1|].
      eapply rtc_r; [exact Hs2|]. by eapply kr_unknown. }
  do 3 eexists. eapply rtc_l; [exact Hs1|]. etrans; [exact Hs2|].
  eapply rtc_l; [by eapply kr_fetch|]. destruct (fetch_quiet key_id w2 _ w3 Hq) as (Hc3 & _).
  unfold populate, mbind, io_bind in Hrun. cbn [map_err] in Hrun.
  destruct (l1_insert key_id k w3) as [r4 w4] eqn:Hins.
  assert (clock w4 = clock w3 ∧ r4 = Ok tt) as [Hc4 ->] by by injection Hins as <- <-.
  destruct ((if b then set_in_redis key_id k else mret tt : IO World GatewayError unit) w4) as [r5 w5] eqn:Hset.
  assert (w' = w5) as -> by (destruct r5; by injection Hrun).
  assert (clock w4 ≤ clock w5) as Hc5.
  { destruct b; [|by injection Hset as _ <-]. by apply (set_in_redis_advances key_id k w4 r5 w5). }
  eapply rtc_l; [eapply (kr_fill D (mkCopy key_id k (clock w2)));
    [apply elem_of_cons; by left|exact Hins|cbn; lia]|].
  destruct b; [|by injection Hset as _ <-].
  apply rtc_once. eapply (kr_share D (mkCopy key_id k (clock w2)));
    [apply elem_of_cons; by left|exact Hset|cbn; lia].
Qed.
End keys.

(** ** A cache of what one statement reads

    The route cache and the cache of admin keys are filled by a request with the answer of
    one statement. [cache_of] is the cache, [source k v d] says that [v] is what [d] holds
    for [k]. *)

Section filled.
Context `{!Backends} {K V : Type} `{!EqDecision K, !MokaCache K V}.
Context (cache_of : World → Moka K V) (source : K → V → Db → Prop) (D : Z).
Implicit Types (w : World).

(** The world, what requests hold with the time they read it, the databases read. *)
Record Filling : Type := mkFilling {
  fl_world : World;
  fl_held : list (K * V * Z);
  fl_reads : list (Z * Db)
}.
Inductive fill_step : Filling → Filling → Prop :=
  | fl_read k v w w' hs ds :
      source k v (db w) → clock w ≤ clock w' → cache_of w' = cache_of w →
      fill_step (mkFilling w hs ds) (mkFilling w' ((k, v, clock w) :: hs) ((clock w, db w) :: ds))
  | fl_fill k v t w w' hs ds :
      (k, v, t) ∈ hs → clock w ≤ t + D → clock w' = clock w →
      cache_of w' = moka_insert (clock w) k v (cache_of w) →
      fill_step (mkFilling w hs ds) (mkFilling w' hs ds)
  | fl_hit k w w' hs ds :
      clock w' = clock w → cache_of w' = (moka_get (clock w) k (cache_of w)).2 →
      fill_step (mkFilling w hs ds) (mkFilling w' hs ds)
  | fl_clear w w' hs ds :
      clock w' = clock w → cache_of w' = moka_invalidate_all (cache_of w) →
      fill_step (mkFilling w hs ds) (mkFilling w' hs ds)
  | fl_other w w' hs ds :
      clock w ≤ clock w' → cache_of w' = cache_of w →
      fill_step (mkFilling w hs ds) (mkFilling w' hs ds).

Definition was_read (ds : list (Z * Db)) (k : K) (v : V) (t : Z) : Prop :=
  ∃ d, (t, d) ∈ ds ∧ source k v d.

Context (ttl : Z) `{!MokaLaws K V}.

Record filling_inv (s : Filling) : Prop := mkFillingInv {
  fi_ttl : time_to_live (cache_of (fl_world s)) = ttl;
  fi_held : Forall (λ h, was_read (fl_reads s) h.1.1 h.1.2 h.2) (fl_held s);
  fi_cached : aged (was_read (fl_reads s)) D (cache_of (fl_world s))
}.

Lemma was_read_later ds x k v t : was_read ds k v t → was_read (x :: ds) k v t.
Proof. intros (d & Hin & Hs). exists d. split; [by apply elem_of_cons; right|done]. Qed.

Lemma fill_step_inv s s' : fill_step s s' → filling_inv s → filling_inv s'.
Proof.
  intros Hstep [Ht Hh Hc]. destruct Hstep as [k v w w' hs ds Hs Hck He|k v t w w' hs ds Hin Hle Hck He
    |k w w' hs ds Hck He|w w' hs ds Hck He|w w' hs ds Hck He]; cbn in *; split; cbn; rewrite ?He; try done.
  - constructor.
    + exists (db w). cbn. split; [apply elem_of_cons; by left|done].
    + eapply Forall_impl; [exact Hh|]. cbn. intros. by apply was_read_later.
  - eapply aged_mono; [|exact Hc]. intros. by apply was_read_later.
  - by rewrite ttl_insert.
  - apply (aged_insert _ _ t); [|done..]. exact (proj1 (Forall_forall _ _) Hh _ Hin).
  - by rewrite ttl_get.
  - by apply aged_get.
  - by rewrite ttl_invalidate_all.
  - apply aged_invalidate_all.
Qed.
Lemma fill_steps_inv w s :
  (∀ k, latest (cache_of w) k = None) → time_to_live (cache_of w) = ttl →
  rtc fill_step (mkFilling w [] []) s → filling_inv s.
Proof.
  intros He Ht Hsteps.
  assert (filling_inv (mkFilling w [] [])) as Hinv by (split; cbn; [done..|by apply aged_empty]).
  revert Hinv. clear He Ht. induction Hsteps; eauto using fill_step_inv.
Qed.
End filled.

Section instances.
Context `{!Backends, !BackendsLaws, !UuidLib, !UuidLaws, !Bcrypt, !JoinOrder}.
Context (D : Z) (HD : 0 ≤ D).
Implicit Types (w : World).

(** What the database holds for a key of the route cache. *)
Definition routes_of (key : string) (routes : list ProviderRoute) (d : Db) : Prop :=
  ∃ tenant alias, key = cache_key tenant alias ∧ database_routes tenant alias d = Ok routes.
(** What it holds for the cache of admin keys. *)
Definition admins_of (_ : unit) (keys : list AdminApiKey) (d : Db) : Prop :=
  ∀ k, k ∈ keys ↔ (∃ id, admin_api_keys d !! id = Some k) ∧ ak_is_active k = true.

Abbreviation route_fills := (fill_step route_l1 routes_of D).
Abbreviation admin_fills := (fill_step admin_l1 admins_of D).

(** A round trip that only reads the database. *)
Lemma select_quiet {A} (q : Z → Db → result SqlxError A) w r w' :
  query (λ t d, (q t d, d)) w = (r, w') →
  clock w ≤ clock w' ∧ route_l1 w' = route_l1 w ∧ admin_l1 w' = admin_l1 w.
Proof.
  unfold query, io_map_err, db_call. pose proof (tick_clock w) as Hc.
  pose proof (tick_frame route_l1 w ltac:(done)) as Hr.
  pose proof (tick_frame admin_l1 w ltac:(done)) as Ha.
  destruct (tick w) as [[[]|] w1]; intros [= <- <-]; by cbn in *.
Qed.

(** The resolver of the code is a run of these steps, *)
Lemma resolve_fills tenant alias w r w' hs ds :
  resolve tenant alias w = (r, w') → clock w' ≤ clock w + D →
  ∃ hs' ds', rtc route_fills (mkFilling w hs ds) (mkFilling w' hs' ds').
Proof.
  intros Hrun Hdur. unfold resolve, get_or_load, mbind, io_bind, lift, mret, io_ret, throw_if in Hrun.
  set (key := cache_key tenant alias) in *.
  destruct (route_cache_get key w) as [hit w1] eqn:Hhit.
  assert (∃ o, hit = Ok o ∧ clock w1 = clock w ∧ db w1 = db w ∧
    route_l1 w1 = (moka_get (clock w) key (route_l1 w)).2) as (o & -> & Hc1 & Hd1 & Hl1).
  { unfold route_cache_get in Hhit. destruct (moka_get _ _ _). injection Hhit as <- <-. by eexists. }
  assert (route_fills (mkFilling w hs ds) (mkFilling w1 hs ds)) as Hs1 by by eapply (fl_hit _ _ _ key).
  destruct o as [routes|].
  { assert (w' = w1) as -> by (case_bool_decide; by injection Hrun). eauto using rtc_once. }
  unfold io_map_err in Hrun. destruct (RouteRepo.resolve_routes tenant alias w1) as [x w2] eqn:Hsel.
  destruct (select_quiet _ _ _ _ Hsel) as (Hc2 & Hl2 & _).
  destruct x as [routes|e]; cbn in Hrun.
  2:{ injection Hrun as _ <-. exists hs, ds. eapply rtc_l; [exact Hs1|]. apply rtc_once.
      by apply fl_other. }
  assert (w' = set_route_l1 (moka_insert (clock w2) key routes (route_l1 w2)) w2) as ->
    by (case_bool_decide; by injection Hrun).
  apply io_map_err_ok, db_call_ok in Hsel as (_ & [= Hdec _] & _). cbn in Hdur.
  do 2 eexists. eapply rtc_l; [exact Hs1|]. eapply rtc_l.
  { apply (fl_read _ _ _ key routes w1 w2); [by exists tenant, alias|done|done]. }
  apply rtc_once. apply (fl_fill _ _ _ key routes (clock w1)); [apply elem_of_cons; by left|lia|done|done].
Qed.

(** and so is the loading of the admin keys. *)
Lemma load_admin_keys_fills state w r w' hs ds :
  load_admin_keys state w = (r, w') → clock w' ≤ clock w + D →
  ∃ hs' ds', rtc admin_fills (mkFilling w hs ds) (mkFilling w' hs' ds').
Proof.
  intros Hrun Hdur. unfold load_admin_keys in Hrun. destruct (has_admin_key_cache state).
  2:{ exists hs, ds. apply rtc_once. unfold io_map_err in Hrun.
      destruct (AdminApiKeyRepo.list_active w) as [x w1] eqn:Hsel. injection Hrun as _ <-.
      destruct (select_quiet _ _ _ _ Hsel) as (Hc & _ & Hl). by apply fl_other. }
  unfold mbind, io_bind in Hrun. destruct (admin_cache_get w) as [hit w1] eqn:Hhit.
  assert (∃ o, hit = Ok o ∧ clock w1 = clock w ∧
    admin_l1 w1 = (moka_get (clock w) tt (admin_l1 w)).2) as (o & -> & Hc1 & Hl1).
  { unfold admin_cache_get in Hhit. destruct (moka_get _ _ _). injection Hhit as <- <-. by eexists. }
  assert (admin_fills (mkFilling w hs ds) (mkFilling w1 hs ds)) as Hs1 by by eapply (fl_hit _ _ _ tt).
  destruct o as [keys|]; [injection Hrun as _ <-; eauto using rtc_once|].
  unfold io_map_err in Hrun. destruct (AdminApiKeyRepo.list_active w1) as [x w2] eqn:Hsel.
  destruct (select_quiet _ _ _ _ Hsel) as (Hc2 & _ & Hl2).
  destruct x as [keys|e]; cbn in Hrun; injection Hrun as _ <-.
  2:{ exists hs, ds. eapply rtc_l; [exact Hs1|]. apply rtc_once. by apply fl_other. }
  cbn in Hdur. do 2 eexists. eapply rtc_l; [exact Hs1|]. eapply rtc_l.
  { apply (fl_read _ _ _ tt keys w1 w2); [exact (list_active_source _ _ _ Hsel)|done|done]. }
  apply rtc_once. apply (fl_fill _ _ _ tt keys (clock w1)); [apply elem_of_cons; by left|lia|done|done].
Qed.
End instances.

(** ** Properties *)

(** Since [T], nobody has read the key as anything but revoked. *)
Definition revoked_since (T : Z) (key_id : string) (ds : list (Z * Db)) : Prop :=
  ∀ t d, (t, d) ∈ ds → T ≤ t → ∀ k, KeyRepo.select_by_key_id key_id d = Some k →
    key_status k = KeyRevoked.

(** C12: no race, failed invalidation or other process keeps a revoked
    key alive. Whatever lookups, fills of either cache and invalidations were under way or
    got lost: once the key has been revoked (or is gone) for the times to live of both
    caches and two of the slowest requests, it is denied everywhere. *)
Theorem revoked_key_expires `{!Backends, !BackendsLaws, !KeyCodec, !KeyCodecLaws}
    D w0 T key_id s b :
  0 ≤ D → 0 ≤ time_to_live (key_l1 w0) →
  (∀ kid, latest (key_l1 w0) kid = None) →
  (∀ kid, peek (clock w0) (redis w0) (redis_key kid) = None) →
  rtc (key_step D) (mkKeyRaces _ w0 [] [] []) s →
  revoked_since T key_id ((clock (gate s), db (gate s)) :: seen s) →
  T + 2 * D + (L2_TTL_SECS + time_to_live (key_l1 w0)) * 1000 < clock (gate s) →
  (verify_key b key_id (gate s)).1 = Err denied.
Proof.
  intros HD Httl Hl Hr Hsteps Hrev Hlate.
  pose proof (key_steps_inv D _ HD _ _ Hsteps (key_races_start D _ HD w0 eq_refl Hl Hr)) as Hinv.
  unfold verify_key, mbind, io_bind, io_map_err.
  destruct (get_by_key_id b key_id (gate s)) as [[k|e] w1] eqn:Hget; [|done].
  assert (key_status k = KeyRevoked) as Hk.
  { destruct (lookup_age D _ HD b key_id s k w1 Httl Hinv Hget) as [Hdb|(t0 & (d & Hin & Hsel) & Hage)].
    - eapply (Hrev (clock (gate s))); [apply elem_of_cons; by left|unfold L2_TTL_SECS in *; lia|done].
    - eapply (Hrev t0 d); [apply elem_of_cons; by right|lia|done]. }
  cbn. unfold lift, key_usable. by rewrite Hk.
Qed.

(** C24: the route cache of every process becomes consistent, whether or
    not anybody invalidated it: once the routes of an alias have been unchanged for the
    time to live and the slowest request, a resolution gives what the database holds. *)
Theorem route_changes_settle `{!Backends, !BackendsLaws, !UuidLib, !UuidLaws}
    D w0 T s tenant alias routes w' :
  (∀ key, latest (route_l1 w0) key = None) →
  rtc (fill_step route_l1 routes_of D) (mkFilling w0 [] []) s →
  (∀ t d, (t, d) ∈ fl_reads s → T ≤ t →
     database_routes tenant alias d = database_routes tenant alias (db (fl_world s))) →
  T + D + time_to_live (route_l1 w0) * 1000 ≤ clock (fl_world s) →
  resolve tenant alias (fl_world s) = (Ok routes, w') →
  database_routes tenant alias (db (fl_world s)) = Ok routes ∧ routes ≠ [].
Proof.
  intros Hl Hsteps Hset Hlate Hrun. set (w := fl_world s) in *.
  pose proof (fill_steps_inv _ _ D _ w0 s Hl eq_refl Hsteps) as [Htt _ Hage]. fold w in Hage, Htt.
  unfold resolve in Hrun. apply io_bind_ok in Hrun as (rs & w1 & Hload & Hrest).
  assert (rs = routes ∧ routes ≠ []) as [-> Hne].
  { unfold mbind, io_bind, lift, throw_if in Hrest. case_bool_decide; [done|]. by injection Hrest as <- <-. }
  split; [|done]. unfold get_or_load in Hload.
  apply io_bind_ok in Hload as ([hit|] & w2 & Hhit & Hrest2); unfold route_cache_get in Hhit.
  - injection Hrest2 as <- _.
    pose proof (aged_hit _ _ (clock w) (cache_key tenant alias) (route_l1 w) hit Hage) as Ha.
    destruct (moka_get _ _ _) as [o c]. injection Hhit as -> _.
    destruct (Ha eq_refl) as (t0 & (d & Hin & t & al & Heq & Hdec) & Hlt).
    apply cache_key_inj in Heq as [-> ->]. rewrite <-(Hset t0 d Hin) by lia. done.
  - destruct (moka_get _ _ _) as [o c]. injection Hhit as _ <-.
    apply io_map_err_ok in Hrest2. apply io_bind_ok in Hrest2 as (rs & w3 & Hq%io_map_err_ok & Hrest2).
    apply io_bind_ok in Hrest2 as (? & ? & _ & [= <- _]).
    by apply io_map_err_ok, db_call_ok in Hq as (_ & [= Hdec _] & _).
Qed.

(** C23: an administrator whose key was deactivated in the
    database is locked out of every process once the deactivation is as old as the time to
    live of the admin key cache and the slowest request. *)
Theorem deactivated_admin_locked_out `{!Backends, !BackendsLaws, !Bcrypt, !JoinOrder}
    D w0 T s id state authorization ctx w' :
  (∀ u, latest (admin_l1 w0) u = None) →
  rtc (fill_step admin_l1 admins_of D) (mkFilling w0 [] []) s →
  (∀ t d, (t, d) ∈ (clock (fl_world s), db (fl_world s)) :: fl_reads s → T ≤ t →
     ∀ i k, admin_api_keys d !! i = Some k → ak_id k = id → ak_is_active k = false) →
  T ≤ clock (fl_world s) → T + D + time_to_live (admin_l1 w0) * 1000 ≤ clock (fl_world s) →
  admin_authenticate state authorization (fl_world s) = (Ok ctx, w') → admin_id ctx ≠ id.
Proof.
  intros Hl Hsteps Hoff HT Hlate Hrun Hid. set (w := fl_world s) in *.
  pose proof (fill_steps_inv _ _ D _ w0 s Hl eq_refl Hsteps) as [Htt _ Hage]. fold w in Hage, Htt.
  unfold admin_authenticate in Hrun. inv_res.
  rename select (load_admin_keys _ _ = _) into Hload. rename select (pick_key _ _ = _) into Hpick.
  match type of Hpick with pick_key ?ks ?t = Ok ?k =>
    pose proof (pick_key_spec ks t) as Hspec; rewrite Hpick in Hspec end.
  destruct Hspec as (Hin & _).
  apply load_admin_keys_source in Hload as [(t1 & Hlat & Hlt)|Hact].
  - destruct (Hage _ _ _ Hlat) as (t0 & (d & Hd & Hact) & Hle). apply Hact in Hin as [[i Hi] Hon].
    rewrite (Hoff t0 d) with (i := i) in Hon; [done|apply elem_of_cons; by right|lia|done|done].
  - apply Hact in Hin as [[i Hi] Hon].
    rewrite (Hoff (clock (fl_world s)) (db (fl_world s))) with (i := i) in Hon; [done|apply elem_of_cons; by left|done..].
Qed.

(** ** Concrete runs *)

Section runs.
#[local] Existing Instances mem_backends mem_backends_laws decimal_uuid decimal_uuid_laws.
#[local] Existing Instances sample_codec sample_codec_laws.

(** A key is read, revoked and invalidated, then filled into both caches; ten minutes pass. *)
Definition key_start : World := mem_world 1000 [] ∅ sample_db.
Definition key_fetched : World := (KeyRepo.get_by_key_id "kid" key_start).2.
Definition key_revoked : World :=
  (KeyRepo.revoke_scoped (from_uuid 11) (from_uuid 7) key_fetched).2.
Definition key_invalidated : World := (invalidate true "kid" key_revoked).2.
Definition key_filled : World := (l1_insert "kid" sample_key key_invalidated).2.
Definition key_shared : World := (set_in_redis "kid" sample_key key_filled).2.
Definition passed (t : Z) (w : World) : World :=
  mkWorld _ t [] [] (redis w) (db w) (key_l1 w) (policy_l1 w) (route_l1 w) (admin_l1 w).

Lemma passed_peek t w k : peek t (redis (passed t w)) k = peek t (redis w) k.
Proof. done. Qed.

Lemma key_run : rtc (key_step 5000) (mkKeyRaces _ key_start [] [] [])
  (mkKeyRaces _ (passed 600000 key_shared) [mkCopy "kid" sample_key 1000] [] [(1000, sample_db)]).
Proof.
  eapply rtc_l; [eapply kr_own, (kr_fetch _ "kid" key_start sample_key key_fetched), run_answer; by vm_compute|].
  eapply rtc_l; [apply (kr_other _ key_fetched key_revoked); [by vm_compute|by vm_compute|done]|].
  eapply rtc_l; [by eapply kr_own, (kr_invalidate _ true "kid" key_revoked _ key_invalidated), surjective_pairing|].
  eapply rtc_l; [eapply kr_own, (kr_fill _ (mkCopy "kid" sample_key 1000) key_invalidated _ key_filled);
    [apply elem_of_cons; by left|apply surjective_pairing|by vm_compute]|].
  eapply rtc_l; [eapply kr_own, (kr_share _ (mkCopy "kid" sample_key 1000) key_filled _ key_shared);
    [apply elem_of_cons; by left|apply surjective_pairing|by vm_compute]|].
  apply rtc_once, kr_other; [by vm_compute|done|done].
Qed.

(** Right after the fill the revoked key is served; ten minutes later it is denied. *)
Lemma revoked_key_expires_witness :
  is_ok (verify_key true "kid" key_shared).1 = true ∧
  (verify_key true "kid" (passed 600000 key_shared)).1 = Err denied.
Proof.
  split; [by vm_compute|].
  apply (revoked_key_expires 5000 key_start 1001 "kid"
    (mkKeyRaces _ (passed 600000 key_shared) [mkCopy "kid" sample_key 1000] [] [(1000, sample_db)])).
  - lia.
  - by vm_compute.
  - intros kid. apply lookup_empty.
  - intros kid. done.
  - exact key_run.
  - intros t d Hin Ht k. cbn [seen gate] in Hin. apply elem_of_cons in Hin as [[= -> ->]|Hin].
    + intros Hk. assert (key_status <$> KeyRepo.select_by_key_id "kid" (db key_shared) = Some KeyRevoked)
        as Hs by (vm_compute; reflexivity).
      change (db (passed 600000 key_shared)) with (db key_shared) in Hk. rewrite Hk in Hs. by injection Hs.
    + apply elem_of_cons in Hin as [[= -> ->]|Hin]; [lia|by apply elem_of_nil in Hin].
  - by vm_compute.
Defined.

(** The routes are read and cached, another process deletes the preferred one. *)
Definition fewer_routes : Db :=
  mkDb ∅ ∅ ∅ ∅ ∅ {[from_uuid 1 := sample_route_row 1 None 5]} ∅ ∅ ∅ ∅.
Definition routes_start : World := mem_world 1000 [] ∅ route_db.
Definition routes_cached : World :=
  (route_cache_insert (cache_key (from_uuid 1) "fast") sample_routes routes_start).2.
Definition routes_later : World := passed 100000 (set_db fewer_routes routes_cached).

Lemma routes_run : rtc (fill_step route_l1 routes_of 5000) (mkFilling routes_start [] [])
  (mkFilling routes_later [(cache_key (from_uuid 1) "fast", sample_routes, 1000)] [(1000, route_db)]).
Proof.
  eapply rtc_l.
  { apply (fl_read _ _ _ (cache_key (from_uuid 1) "fast") sample_routes routes_start routes_start);
      [|done|done].
    exists (from_uuid 1), "fast". split; [done|by vm_compute]. }
  eapply rtc_l.
  { apply (fl_fill _ _ _ (cache_key (from_uuid 1) "fast") sample_routes 1000 routes_start routes_cached);
      [apply elem_of_cons; by left|by vm_compute|done|done]. }
  apply rtc_once, fl_other; [by vm_compute|done].
Qed.

Lemma route_changes_settle_witness :
  (resolve (from_uuid 1) "fast" routes_cached).1 = Ok sample_routes ∧
  (resolve (from_uuid 1) "fast" routes_later).1 = Ok [sample_route 1 None 5] ∧
  database_routes (from_uuid 1) "fast" fewer_routes = Ok [sample_route 1 None 5] ∧
  [sample_route 1 None 5] ≠ [].
Proof.
  assert ((resolve (from_uuid 1) "fast" routes_later).1 = Ok [sample_route 1 None 5]) as Hrun
    by by vm_compute.
  split; [by vm_compute|]. split; [exact Hrun|].
  apply (route_changes_settle 5000 routes_start 1001
    (mkFilling routes_later [(cache_key (from_uuid 1) "fast", sample_routes, 1000)] [(1000, route_db)])
    (from_uuid 1) "fast" [sample_route 1 None 5] (resolve (from_uuid 1) "fast" routes_later).2).
  - intros key. apply lookup_empty.
  - exact routes_run.
  - intros t d Hin Ht. exfalso. cbn [fl_reads] in Hin.
    apply elem_of_cons in Hin as [[= -> ->]|Hin]; [lia|by apply elem_of_nil in Hin].
  - by vm_compute.
  - exact (run_answer _ _ Hrun).
Defined.

(** The admin keys are read and cached, then one is switched off in the database. *)
#[local] Existing Instances toy_bcrypt last_first.
Definition active_admins : list AdminApiKey :=
  [sample_admin; mkAdminApiKey 32 "audit" "$2b$other" "viewer" true 5 None].
Definition one_admin_off : Db :=
  mkDb ∅ ∅ ∅ ∅ ∅ ∅
    {[31 := mkAdminApiKey 31 "ops" "$2b$s3cret" "admin" false 0 None;
      32 := mkAdminApiKey 32 "audit" "$2b$other" "viewer" true 5 None]} ∅ ∅ ∅.
Definition admins_start : World := mem_world 1000 [] ∅ admin_db.
Definition admins_cached : World := (admin_cache_insert active_admins admins_start).2.
Definition admins_later : World := passed 100000 (set_db one_admin_off admins_cached).

Lemma admins_run : rtc (fill_step admin_l1 admins_of 5000) (mkFilling admins_start [] [])
  (mkFilling admins_later [(tt, active_admins, 1000)] [(1000, admin_db)]).
Proof.
  assert ((AdminApiKeyRepo.list_active admins_start).1 = Ok active_admins) as Hlist by by vm_compute.
  eapply rtc_l; [apply (fl_read _ _ _ tt active_admins admins_start admins_start); [|done|done]|].
  { exact (list_active_source _ _ _ (run_answer _ _ Hlist)). }
  eapply rtc_l.
  { apply (fl_fill _ _ _ tt active_admins 1000 admins_start admins_cached);
      [apply elem_of_cons; by left|by vm_compute|done|done]. }
  apply rtc_once, fl_other; [by vm_compute|done].
Qed.

Lemma deactivated_admin_locked_out_witness :
  let state := mkAppState 300 true true (Some true) true true None true true in
  is_ok (admin_authenticate state (Some "Bearer s3cret") admins_cached).1 = true ∧
  (admin_authenticate state (Some "Bearer other") admins_later).1
    = Ok (mkAdminContext 32 "audit" RoleViewer) ∧
  admin_id (mkAdminContext 32 "audit" RoleViewer) ≠ 31.
Proof.
  intros state.
  assert ((admin_authenticate state (Some "Bearer other") admins_later).1
    = Ok (mkAdminContext 32 "audit" RoleViewer)) as Hrun by by vm_compute.
  split; [by vm_compute|]. split; [exact Hrun|].
  apply (deactivated_admin_locked_out 5000 admins_start 1001
    (mkFilling admins_later [(tt, active_admins, 1000)] [(1000, admin_db)]) 31 state
    (Some "Bearer other") (mkAdminContext 32 "audit" RoleViewer)
    (admin_authenticate state (Some "Bearer other") admins_later).2).
  - intros u. apply lookup_empty.
  - exact admins_run.
  - intros t d Hin Ht i k. cbn [fl_reads fl_world] in Hin.
    apply elem_of_cons in Hin as [[= -> ->]|Hin].
    + cbn. intros [[_ <-]|[_ [_ <-]%lookup_singleton_Some]]%lookup_insert_Some; done.
    + apply elem_of_cons in Hin as [[= -> ->]|Hin]; [lia|by apply elem_of_nil in Hin].
  - by vm_compute.
  - by vm_compute.
  - exact (run_answer _ _ Hrun).
Defined.
End runs.
