(* ===== verification/Nonces.v ===== *)
(** * Nonces in flight together
      (src/gateway/crates/gateway/src/auth/nonce.rs [check_nonce])

    Any number of requests, in any number of processes that share the Redis server, have
    their nonces checked at once, among everything else the gateway does. What was
    accepted is remembered, newest first. *)

From stdpp Require Import options.
From S2P Require Import Prelude Rust Types Errors Json Models PolicyMerge Backends Db World.
From S2P Require Import Repositories RateLimit Signing AppState KeyStore Auth.
#[local] Set Default Proof Using "Type*".

Record Accepted : Type := mkAccepted { na_account : string; na_nonce : string; na_at : Z }.
Record Nonces `{!Backends} : Type := mkNonces { nn_world : World; nn_accepted : list Accepted }.

(** The account, its nonce and the time of a check that accepted it. *)
Definition note (sa n : string) (t : Z) (r : result GatewayError unit) (ns : list Accepted)
    : list Accepted := if is_ok r then mkAccepted sa n t :: ns else ns.

Inductive nonce_step `{!Backends} (skew : Z) : Nonces → Nonces → Prop :=
  | nn_check sa n w r w' ns :
      check_nonce sa n skew w = (r, w') →
      nonce_step skew (mkNonces _ w ns) (mkNonces _ w' (note sa n (clock w') r ns))
  (** anything that leaves the nonces alone *)
  | nn_other w w' ns :
      clock w ≤ clock w' →
      (∀ sa n, peek (clock w') (redis w') (nonce_key sa n)
         = peek (clock w') (redis w) (nonce_key sa n)) →
      nonce_step skew (mkNonces _ w ns) (mkNonces _ w' ns).

(** [a] is not a replay of the older [b]. *)
Definition spaced (skew : Z) (a b : Accepted) : Prop :=
  na_account a = na_account b → na_nonce a = na_nonce b → na_at b + skew * 1000 ≤ na_at a.

Section nonces.
Context `{!Backends, !BackendsLaws}.
Context (skew : Z) (Hskew : 0 < skew).
Implicit Types (w : World).

(** While a nonce may not come again, its key is there. *)
Definition remembers w (a : Accepted) : Prop :=
  clock w < na_at a + skew * 1000 →
  ∃ v d, peek (clock w) (redis w) (nonce_key (na_account a) (na_nonce a)) = Some (v, Some d) ∧
    na_at a + skew * 1000 ≤ d.

Lemma remembers_keep w w' a :
  clock w ≤ clock w' →
  (∀ e, peek (clock w') (redis w) (nonce_key (na_account a) (na_nonce a)) = Some e →
     peek (clock w') (redis w') (nonce_key (na_account a) (na_nonce a)) = Some e) →
  remembers w a → remembers w' a.
Proof.
  intros Hc Hk Ha Hlt. destruct Ha as (v & d & Hp & Hd); [lia|]. exists v, d. split; [|done].
  apply Hk. rewrite (peek_later (clock w)), Hp by done. cbn. unfold live. cbn.
  destruct (Z.ltb_spec (clock w') d); [done|lia].
Qed.

(** Whatever its outcome, a check leaves what is there. *)
Lemma check_nonce_any sa n w r w' :
  check_nonce sa n skew w = (r, w') →
  clock w ≤ clock w' ∧ ∀ k, k ≠ nonce_key sa n ∨ is_Some (peek (clock w') (redis w) k) →
    peek (clock w') (redis w') k = peek (clock w') (redis w) k.
Proof.
  unfold check_nonce, redis_set_nx_ex, mbind, io_bind, io_map_err, redis_call, lift.
  pose proof (tick_clock w) as Hc. pose proof (tick_frame redis w ltac:(done)) as Hr.
  destruct (tick w) as [flt w1]. cbn [fst snd] in *. rewrite Hr.
  pose proof (λ k, peek_set_nx_ex (clock w1) (nonce_key sa n) "1" skew (redis w) k Hskew) as Hp.
  destruct (cmd_set_nx_ex _ _ _ _ _) as [b st]. cbn [snd] in Hp.
  assert (∀ k, k ≠ nonce_key sa n ∨ is_Some (peek (clock w1) (redis w) k) →
    peek (clock w1) st k = peek (clock w1) (redis w) k) as Hst.
  { intros k Hk. rewrite Hp. apply decide_False. intros [-> Hnone].
    destruct Hk as [?|[? Hs]]; [done|by rewrite Hs in Hnone]. }
  destruct flt as [[]|]; cbn; intros [= _ <-]; cbn; rewrite ?Hr; auto.
Qed.

Record nonces_inv (s : Nonces) : Prop := mkNoncesInv {
  ni_remembered : Forall (remembers (nn_world s)) (nn_accepted s);
  ni_spaced : ForallOrdPairs (spaced skew) (nn_accepted s)
}.

Lemma nonce_step_inv s s' : nonce_step skew s s' → nonces_inv s → nonces_inv s'.
Proof.
  intros Hstep [Hm Hs]. destruct Hstep as [sa n w r w' ns Hrun|w w' ns Hc Hk]; cbn in *.
  2:{ split; [|done]. eapply Forall_impl; [exact Hm|]. intros a.
      apply remembers_keep; [done|]. cbn. intros e. by rewrite Hk. }
  destruct (check_nonce_any _ _ _ _ _ Hrun) as [Hc Hk].
  assert (Forall (remembers w') ns) as Hm'.
  { eapply Forall_impl; [exact Hm|]. intros a. apply remembers_keep; [done|].
    intros e He. rewrite Hk; [done|right; eauto]. }
  destruct r as [[]|e]; cbn; [|by split].
  destruct (check_nonce_ok sa n skew w w' Hskew Hrun) as (_ & Hnone & Hset).
  split; cbn; constructor; try done.
  - intros _. cbn. rewrite Hset. by do 2 eexists.
  - apply List.Forall_forall. intros b Hb Heq1 Heq2. cbn in *. subst.
    destruct (decide (na_at b + skew * 1000 ≤ clock w')) as [|Hlt]; [done|exfalso].
    pose proof (proj1 (List.Forall_forall _ _) Hm b Hb) as Hin.
    destruct Hin as (v & d & Hp & Hd); [lia|].
    rewrite (peek_later (clock w)), Hp in Hnone by done. cbn in Hnone. unfold live in Hnone. cbn in Hnone.
    destruct (Z.ltb_spec (clock w') d); [done|lia].
Qed.
Lemma nonce_steps_inv w s : rtc (nonce_step skew) (mkNonces _ w []) s → nonces_inv s.
Proof.
  assert (nonces_inv (mkNonces _ w [])) as Hstart by (split; constructor).
  intros Hsteps. revert Hstart. induction Hsteps; eauto using nonce_step_inv.
Qed.
End nonces.
