(* ===== verification/Admin.v ===== *)
(** * The admin API (src/gateway/crates/gateway/src/api/admin/{tenants,service_accounts,
      policies,routes}.rs, the admin routes of server.rs)

    One definition per handler, whole: role check, validation, the repository call, cache
    invalidation, audit event, reply. [AdminRequest] and [handle] are the routing table. *)

From stdpp Require Import options.
From S2P Require Import Prelude Rust Types Errors Json Models PolicyMerge Backends Db World.
From S2P Require Import Repositories DbInvariant RateLimit Signing AppState KeyStore Auth.
From S2P Require Import PolicyEngine Router AdminValidation AdminAuth.
#[local] Set Default Proof Using "Type*".

(** ** Bodies and queries *)

Record CreateTenantRequest : Type := mkCreateTenantRequest {
  ctr_name : string; ctr_slug : string; ctr_metadata : option Value }.
Record UpdateTenantRequest : Type := mkUpdateTenantRequest {
  utr_name : option string; utr_metadata : option Value }.
Record ListTenantsQuery : Type := mkListTenantsQuery {
  ltq_cursor : option string; ltq_limit : option Z; ltq_status : option string }.
Record CreateServiceAccountRequest : Type := mkCreateServiceAccountRequest {
  csr_tenant_id : Uuid; csr_name : string; csr_slug : string; csr_environment : string;
  csr_description : option string }.
Record UpdateServiceAccountRequest : Type := mkUpdateServiceAccountRequest {
  usr_name : option string; usr_description : option string }.
(** A tenant with a page position: accounts, policies. *)
Record ListScopedQuery : Type := mkListScopedQuery {
  lsq_tenant_id : Uuid; lsq_cursor : option string; lsq_limit : option Z }.
Record RegisterKeyRequest : Type := mkRegisterKeyRequest {
  rkr_key_id : string; rkr_public_key_pem : string; rkr_expires_at : option DateTime }.
Record ListKeysQuery : Type := mkListKeysQuery {
  lkq_cursor : option string; lkq_limit : option Z }.
Record CreatePolicyRequest : Type := mkCreatePolicyRequest {
  cpr_tenant_id : Uuid; cpr_name : string; cpr_description : option string;
  cpr_allowed_models_json : option Value; cpr_denied_models_json : option Value;
  cpr_max_input_tokens : option Z; cpr_max_output_tokens : option Z;
  cpr_allow_streaming : option bool; cpr_allow_tools : option bool; cpr_allow_files : option bool;
  cpr_rpm_limit : option Z; cpr_concurrency_limit : option Z }.
(** [UpdatePolicyRequest] has the fields of [UpdatePolicy] and is copied into it, as
    [UpdateRouteRequest] into [UpdateRoute]. *)
Record ListRoutesQuery : Type := mkListRoutesQuery {
  lrq_tenant_id : option Uuid; lrq_cursor : option string; lrq_limit : option Z }.
Record CreateRouteRequest : Type := mkCreateRouteRequest {
  crr_tenant_id : option Uuid; crr_model_alias : string; crr_provider : string;
  crr_provider_model_name : string; crr_priority : option Z; crr_enabled : option bool;
  crr_timeout_ms : option Z; crr_max_retries : option Z; crr_retry_backoff_ms : option Z;
  crr_config : option Value }.

(** Keys as they are shown: without the PEM. *)
Record KeyRegistrationResponse : Type := mkKeyRegistrationResponse {
  krr_id : Uuid; krr_key_id : string; krr_fingerprint : string; krr_algorithm : string;
  krr_status : string; krr_expires_at : option DateTime; krr_created_at : DateTime }.
Record KeySummaryResponse : Type := mkKeySummaryResponse {
  ksr_id : Uuid; ksr_key_id : string; ksr_fingerprint : string; ksr_algorithm : string;
  ksr_status : string; ksr_expires_at : option DateTime; ksr_created_at : DateTime;
  ksr_last_used_at : option DateTime }.
Definition key_summary (k : ServiceAccountKey) : KeySummaryResponse :=
  mkKeySummaryResponse (uuid_of (key_uuid k)) (key_key_id k) (key_fingerprint k) (key_algorithm k)
    (enum_name (key_status k)) (key_expires_at k) (key_created_at k) (key_last_used_at k).

Inductive AdminReply : Type :=
  | TenantReply (status : StatusCode) (tenant : Tenant)
  | TenantPage (page : Page Tenant)
  | AccountReply (status : StatusCode) (sa : ServiceAccount)
  | AccountPage (page : Page ServiceAccount)
  | KeyRegistered (status : StatusCode) (response : KeyRegistrationResponse)
  | KeyReply (status : StatusCode) (key : ServiceAccountKey)
  | KeyPage (page : Page KeySummaryResponse)
  | PolicyReply (status : StatusCode) (policy : Policy)
  | PolicyPage (page : Page Policy)
  | BindingReply (status : StatusCode) (binding : ServiceAccountPolicyBinding)
  | RouteReply (status : StatusCode) (route : ProviderRoute)
  | RoutePage (page : Page ProviderRoute)
  | NoContent.

Definition OK : StatusCode := 200.
Definition CREATED : StatusCode := 201.

Section handlers.
Context `{!Backends, !UuidLib, !CursorCodec, !Crypto, !KeyCodec}.
Implicit Types (w : World).

(** The insert runs in a task of its own and its failure is only logged. *)
Definition emit_audit (tenant_id : option TenantId) (admin : Uuid)
    (action target_type target_id : string) (metadata : Value) : IO World GatewayError unit :=
  _ ← io_try (AuditRepo.insert_event
        (AuditRepo.mkCreateAuditEvent tenant_id "admin_user" (uuid_to_string admin) action
           target_type target_id metadata));
  mret tt.

Definition storage {A} (m : IO World StorageError A) : IO World GatewayError A :=
  io_map_err map_storage_error m.

(** ** Tenants *)

Definition create_tenant (state : AppState) (ctx : AdminContext) (body : CreateTenantRequest)
    : IO World GatewayError AdminReply :=
  _ ← lift (require_admin_role ctx);
  _ ← lift (validate_name (ctr_name body));
  _ ← lift (validate_slug (ctr_slug body));
  _ ← lift (require_db state);
  id ← new_uuid;
  let input := mkCreateTenant (from_uuid id) (ctr_name body) (ctr_slug body) TenantActive
                 (default (JObject []) (ctr_metadata body)) in
  tenant ← storage (TenantRepo.create input);
  _ ← emit_audit (Some (tenant_id tenant)) (admin_id ctx) "tenant.created" "tenant"
        (id_display (tenant_id tenant)) (JObject []);
  mret (TenantReply CREATED tenant).

Definition list_tenants (state : AppState) (query : ListTenantsQuery)
    : IO World GatewayError AdminReply :=
  _ ← lift (require_db state);
  let cursor := mkCursor <$> ltq_cursor query in
  limit ← lift (validate_limit (ltq_limit query));
  status ← lift match ltq_status query with
                | Some s => Some <$> parse_enum_str (T:=TenantStatus) s "status" "active, suspended, deleted"
                | None => mret None
                end;
  page ← storage (TenantRepo.list cursor limit status);
  mret (TenantPage page).

Definition get_tenant (state : AppState) (id : Uuid) : IO World GatewayError AdminReply :=
  _ ← lift (require_db state);
  tenant ← storage (TenantRepo.get_by_id (from_uuid id));
  mret (TenantReply OK tenant).

Definition update_tenant (state : AppState) (ctx : AdminContext) (id : Uuid)
    (body : UpdateTenantRequest) : IO World GatewayError AdminReply :=
  _ ← lift (require_admin_role ctx);
  _ ← lift (validate_opt validate_name (utr_name body));
  _ ← lift (require_db state);
  let input := mkUpdateTenant (utr_name body) None None (utr_metadata body) in
  tenant ← storage (TenantRepo.update (from_uuid id) input);
  _ ← emit_audit (Some (tenant_id tenant)) (admin_id ctx) "tenant.updated" "tenant"
        (id_display (tenant_id tenant)) (JObject []);
  mret (TenantReply OK tenant).

Definition delete_tenant (state : AppState) (ctx : AdminContext) (id : Uuid)
    : IO World GatewayError AdminReply :=
  _ ← lift (require_admin_role ctx);
  _ ← lift (require_db state);
  tenant ← storage (TenantRepo.soft_delete (from_uuid id));
  _ ← emit_audit (Some (tenant_id tenant)) (admin_id ctx) "tenant.deleted" "tenant"
        (id_display (tenant_id tenant)) (JObject []);
  mret (TenantReply OK tenant).

(** ** Service accounts *)

Definition parse_environment (env : string) : result GatewayError Environment :=
  parse_enum_str env "environment" "dev, staging, prod".

Definition create_service_account (state : AppState) (ctx : AdminContext)
    (body : CreateServiceAccountRequest) : IO World GatewayError AdminReply :=
  _ ← lift (require_admin_role ctx);
  _ ← lift (validate_name (csr_name body));
  _ ← lift (validate_slug (csr_slug body));
  environment ← lift (parse_environment (csr_environment body));
  _ ← lift (require_db state);
  id ← new_uuid;
  let input := mkCreateServiceAccount (from_uuid id) (from_uuid (csr_tenant_id body))
                 (csr_name body) (csr_slug body) environment (csr_description body) SaActive None in
  sa ← storage (ServiceAccountRepo.create input);
  _ ← emit_audit (Some (sa_tenant_id sa)) (admin_id ctx) "service_account.created"
        "service_account" (id_display (sa_id sa)) (JObject []);
  mret (AccountReply CREATED sa).

Definition list_service_accounts (state : AppState) (query : ListScopedQuery)
    : IO World GatewayError AdminReply :=
  _ ← lift (require_db state);
  let cursor := mkCursor <$> lsq_cursor query in
  limit ← lift (validate_limit (lsq_limit query));
  page ← storage (ServiceAccountRepo.list_by_tenant (from_uuid (lsq_tenant_id query)) cursor limit);
  mret (AccountPage page).

Definition get_service_account (state : AppState) (id tenant : Uuid)
    : IO World GatewayError AdminReply :=
  _ ← lift (require_db state);
  sa ← storage (ServiceAccountRepo.get_by_id (from_uuid tenant) (from_uuid id));
  mret (AccountReply OK sa).

Definition update_service_account (state : AppState) (ctx : AdminContext) (id tenant : Uuid)
    (body : UpdateServiceAccountRequest) : IO World GatewayError AdminReply :=
  _ ← lift (require_admin_role ctx);
  _ ← lift (validate_opt validate_name (usr_name body));
  _ ← lift (require_db state);
  let input := mkUpdateServiceAccount (usr_name body) None None (usr_description body) None None in
  sa ← storage (ServiceAccountRepo.update (from_uuid tenant) (from_uuid id) input);
  _ ← emit_audit (Some (sa_tenant_id sa)) (admin_id ctx) "service_account.updated"
        "service_account" (id_display (sa_id sa)) (JObject []);
  mret (AccountReply OK sa).

Definition suspend_service_account (state : AppState) (ctx : AdminContext) (id tenant : Uuid)
    : IO World GatewayError AdminReply :=
  _ ← lift (require_admin_role ctx);
  _ ← lift (require_db state);
  sa ← storage (ServiceAccountRepo.suspend (from_uuid tenant) (from_uuid id));
  _ ← emit_audit (Some (sa_tenant_id sa)) (admin_id ctx) "service_account.suspended"
        "service_account" (id_display (sa_id sa)) (JObject []);
  mret (AccountReply OK sa).

Definition activate_service_account (state : AppState) (ctx : AdminContext) (id tenant : Uuid)
    : IO World GatewayError AdminReply :=
  _ ← lift (require_admin_role ctx);
  _ ← lift (require_db state);
  sa ← storage (ServiceAccountRepo.activate (from_uuid tenant) (from_uuid id));
  _ ← emit_audit (Some (sa_tenant_id sa)) (admin_id ctx) "service_account.activated"
        "service_account" (id_display (sa_id sa)) (JObject []);
  mret (AccountReply OK sa).

(** ** Keys *)

Definition compute_key_fingerprint (key_bytes : string) : string := compute_body_hash key_bytes.

Definition register_key (state : AppState) (ctx : AdminContext) (id : Uuid)
    (body : RegisterKeyRequest) : IO World GatewayError AdminReply :=
  _ ← lift (require_admin_role ctx);
  _ ← lift (validate_key_id (rkr_key_id body));
  verifying_key ← lift (map_err
    (λ _, EValidation "invalid_public_key"
            "public_key_pem is not a valid Ed25519 public key in PEM format")
    (parse_public_key (rkr_public_key_pem body)));
  let fingerprint := compute_key_fingerprint (key_as_bytes verifying_key) in
  _ ← lift (require_db state);
  let input := mkRegisterKey (from_uuid id) (rkr_key_id body) "ed25519" (rkr_public_key_pem body)
                 fingerprint (rkr_expires_at body) in
  key ← storage (KeyRepo.register_key input);
  let response :=
    mkKeyRegistrationResponse (uuid_of (key_uuid key)) (key_key_id key) (key_fingerprint key)
      (key_algorithm key) (enum_name (key_status key)) (key_expires_at key) (key_created_at key) in
  _ ← emit_audit None (admin_id ctx) "key.registered" "key" (id_display (key_uuid key))
        (JObject [("service_account_id", JString (uuid_to_string id))]);
  mret (KeyRegistered CREATED response).

Definition revoke_key (state : AppState) (ctx : AdminContext) (sa key : Uuid)
    : IO World GatewayError AdminReply :=
  _ ← lift (require_admin_role ctx);
  _ ← lift (require_db state);
  row ← storage (KeyRepo.revoke_scoped (from_uuid key) (from_uuid sa));
  _ ← match key_store state with
      | Some with_redis => invalidate with_redis (key_key_id row)
      | None => mret tt
      end;
  _ ← emit_audit None (admin_id ctx) "key.revoked" "key" (uuid_to_string key)
        (JObject [("service_account_id", JString (uuid_to_string sa))]);
  mret (KeyReply OK row).

Definition list_keys (state : AppState) (id : Uuid) (query : ListKeysQuery)
    : IO World GatewayError AdminReply :=
  _ ← lift (require_db state);
  let cursor := mkCursor <$> lkq_cursor query in
  limit ← lift (validate_limit (lkq_limit query));
  page ← storage (KeyRepo.list_by_service_account (from_uuid id) cursor limit);
  mret (KeyPage (mkPage (key_summary <$> items page) (next_cursor page) (has_more page))).

(** ** Policies and bindings *)

(** The checks shared by creation and update. *)
Definition validate_policy_fields (allowed denied : option Value)
    (max_input max_output rpm concurrency : option Z) : result GatewayError unit :=
  _ ← validate_opt (λ v, validate_models_json v "allowed_models_json") allowed;
  _ ← validate_opt (λ v, validate_models_json v "denied_models_json") denied;
  _ ← validate_opt (λ v, validate_token_limit v "max_input_tokens") max_input;
  _ ← validate_opt (λ v, validate_token_limit v "max_output_tokens") max_output;
  _ ← validate_opt (λ v, validate_positive_limit v "rpm_limit") rpm;
  validate_opt (λ v, validate_positive_limit v "concurrency_limit") concurrency.

Definition invalidate_policies (state : AppState) : IO World GatewayError unit :=
  if has_policy_cache state then invalidate_all_policies else mret tt.
Definition invalidate_account_policy (state : AppState) (sa : ServiceAccountId)
    : IO World GatewayError unit :=
  if has_policy_cache state then invalidate_policy sa else mret tt.

Definition create_policy (state : AppState) (ctx : AdminContext) (body : CreatePolicyRequest)
    : IO World GatewayError AdminReply :=
  _ ← lift (require_admin_role ctx);
  _ ← lift (validate_name (cpr_name body));
  _ ← lift (validate_policy_fields (cpr_allowed_models_json body) (cpr_denied_models_json body)
        (cpr_max_input_tokens body) (cpr_max_output_tokens body) (cpr_rpm_limit body)
        (cpr_concurrency_limit body));
  _ ← lift (require_db state);
  id ← new_uuid;
  let input := mkCreatePolicy (from_uuid id) (from_uuid (cpr_tenant_id body)) (cpr_name body)
      (cpr_description body) (default (JArray []) (cpr_allowed_models_json body))
      (default (JArray []) (cpr_denied_models_json body)) (cpr_max_input_tokens body)
      (cpr_max_output_tokens body) (default true (cpr_allow_streaming body))
      (default true (cpr_allow_tools body)) (default true (cpr_allow_files body))
      (cpr_rpm_limit body) (cpr_concurrency_limit body) in
  policy ← storage (PolicyRepo.create input);
  _ ← invalidate_policies state;
  _ ← emit_audit (Some (policy_tenant_id policy)) (admin_id ctx) "policy.created" "policy"
        (id_display (policy_id policy))
        (JObject [("name", JString (policy_name policy));
                  ("tenant_id", JString (id_display (policy_tenant_id policy)))]);
  mret (PolicyReply CREATED policy).

Definition list_policies (state : AppState) (query : ListScopedQuery)
    : IO World GatewayError AdminReply :=
  _ ← lift (require_db state);
  let cursor := mkCursor <$> lsq_cursor query in
  limit ← lift (validate_limit (lsq_limit query));
  page ← storage (PolicyRepo.list_by_tenant (from_uuid (lsq_tenant_id query)) cursor limit);
  mret (PolicyPage page).

Definition get_policy (state : AppState) (id tenant : Uuid) : IO World GatewayError AdminReply :=
  _ ← lift (require_db state);
  policy ← storage (PolicyRepo.get_by_id (from_uuid tenant) (from_uuid id));
  mret (PolicyReply OK policy).

Definition update_policy (state : AppState) (ctx : AdminContext) (id tenant : Uuid)
    (input : UpdatePolicy) : IO World GatewayError AdminReply :=
  _ ← lift (require_admin_role ctx);
  _ ← lift (validate_opt validate_name (up_name input));
  _ ← lift (validate_policy_fields (up_allowed_models_json input) (up_denied_models_json input)
        (up_max_input_tokens input) (up_max_output_tokens input) (up_rpm_limit input)
        (up_concurrency_limit input));
  _ ← lift (require_db state);
  policy ← storage (PolicyRepo.update (from_uuid tenant) (from_uuid id) input);
  _ ← invalidate_policies state;
  _ ← emit_audit (Some (policy_tenant_id policy)) (admin_id ctx) "policy.updated" "policy"
        (id_display (policy_id policy)) (JObject [("name", JString (policy_name policy))]);
  mret (PolicyReply OK policy).

Definition delete_policy (state : AppState) (ctx : AdminContext) (id tenant : Uuid)
    : IO World GatewayError AdminReply :=
  _ ← lift (require_admin_role ctx);
  _ ← lift (require_db state);
  _ ← io_map_err (λ e,
        match e with
        | SReferenceError _ =>
          EConflict "conflict" "cannot delete policy: it still has active bindings"
        | _ => map_storage_error e
        end) (PolicyRepo.delete_policy (from_uuid tenant) (from_uuid id));
  _ ← invalidate_policies state;
  _ ← emit_audit (Some (from_uuid tenant)) (admin_id ctx) "policy.deleted" "policy"
        (uuid_to_string id) (JObject [("tenant_id", JString (uuid_to_string tenant))]);
  mret NoContent.

Definition binding_metadata (sa policy : Uuid) : Value :=
  JObject [("service_account_id", JString (uuid_to_string sa));
           ("policy_id", JString (uuid_to_string policy))].

Definition create_binding (state : AppState) (ctx : AdminContext) (sa policy : Uuid)
    : IO World GatewayError AdminReply :=
  _ ← lift (require_admin_role ctx);
  _ ← lift (require_db state);
  binding ← storage (PolicyRepo.create_binding (from_uuid sa) (from_uuid policy));
  _ ← invalidate_account_policy state (from_uuid sa);
  _ ← emit_audit None (admin_id ctx) "policy_binding.created" "policy_binding"
        (uuid_to_string sa +:+ "/" +:+ uuid_to_string policy) (binding_metadata sa policy);
  mret (BindingReply CREATED binding).

Definition delete_binding (state : AppState) (ctx : AdminContext) (sa policy : Uuid)
    : IO World GatewayError AdminReply :=
  _ ← lift (require_admin_role ctx);
  _ ← lift (require_db state);
  _ ← storage (PolicyRepo.delete_binding (from_uuid sa) (from_uuid policy));
  _ ← invalidate_account_policy state (from_uuid sa);
  _ ← emit_audit None (admin_id ctx) "policy_binding.deleted" "policy_binding"
        (uuid_to_string sa +:+ "/" +:+ uuid_to_string policy) (binding_metadata sa policy);
  mret NoContent.

(** ** Routes *)

Definition validate_provider (provider : string) : result GatewayError unit :=
  _ ← parse_enum_str (T:=Provider) provider "provider" "openai, anthropic, gemini, azure_openai, vllm";
  mret tt.
Definition invalidate_routes (state : AppState) : IO World GatewayError unit :=
  if has_route_cache state then invalidate_all_routes else mret tt.

Definition create_route (state : AppState) (ctx : AdminContext) (body : CreateRouteRequest)
    : IO World GatewayError AdminReply :=
  _ ← lift (require_admin_role ctx);
  _ ← lift (validate_provider (crr_provider body));
  _ ← lift (validate_model_identifier (crr_model_alias body) "model_alias");
  _ ← lift (validate_model_identifier (crr_provider_model_name body) "provider_model_name");
  _ ← lift (require_db state);
  let input := mkCreateRoute (from_uuid <$> crr_tenant_id body) (crr_model_alias body)
      (crr_provider body) (crr_provider_model_name body) (crr_priority body) (crr_enabled body)
      (crr_timeout_ms body) (crr_max_retries body) (crr_retry_backoff_ms body)
      (crr_config body) in
  route ← storage (RouteRepo.create input);
  _ ← invalidate_routes state;
  _ ← emit_audit (route_tenant_id route) (admin_id ctx) "route.created" "route"
        (id_display (route_id route)) (JObject []);
  mret (RouteReply CREATED route).

Definition list_routes (state : AppState) (query : ListRoutesQuery)
    : IO World GatewayError AdminReply :=
  _ ← lift (require_db state);
  let cursor := mkCursor <$> lrq_cursor query in
  limit ← lift (validate_limit (lrq_limit query));
  page ← match lrq_tenant_id query with
         | Some tid => storage (RouteRepo.list_by_tenant (from_uuid tid) cursor limit)
         | None => storage (RouteRepo.list_global cursor limit)
         end;
  mret (RoutePage page).

Definition get_route (state : AppState) (id : Uuid) : IO World GatewayError AdminReply :=
  _ ← lift (require_db state);
  route ← storage (RouteRepo.get_by_id (from_uuid id));
  mret (RouteReply OK route).

Definition update_route (state : AppState) (ctx : AdminContext) (id : Uuid) (input : UpdateRoute)
    : IO World GatewayError AdminReply :=
  _ ← lift (require_admin_role ctx);
  _ ← lift (validate_opt validate_provider (ur_provider input));
  _ ← lift (validate_opt (λ v, validate_model_identifier v "model_alias") (ur_model_alias input));
  _ ← lift (validate_opt (λ v, validate_model_identifier v "provider_model_name")
        (ur_provider_model_name input));
  _ ← lift (require_db state);
  route ← storage (RouteRepo.update (from_uuid id) input);
  _ ← invalidate_routes state;
  _ ← emit_audit (route_tenant_id route) (admin_id ctx) "route.updated" "route"
        (id_display (route_id route)) (JObject []);
  mret (RouteReply OK route).

Definition delete_route (state : AppState) (ctx : AdminContext) (id : Uuid)
    : IO World GatewayError AdminReply :=
  _ ← lift (require_admin_role ctx);
  _ ← lift (require_db state);
  _ ← storage (RouteRepo.delete_route (from_uuid id));
  _ ← invalidate_routes state;
  _ ← emit_audit None (admin_id ctx) "route.deleted" "route" (uuid_to_string id) (JObject []);
  mret NoContent.
End handlers.

(** ** The routing table *)

Inductive AdminRequest : Type :=
  | GetTenants (query : ListTenantsQuery)
  | PostTenant (body : CreateTenantRequest)
  | GetTenant (id : Uuid)
  | PatchTenant (id : Uuid) (body : UpdateTenantRequest)
  | DeleteTenant (id : Uuid)
  | GetAccounts (query : ListScopedQuery)
  | PostAccount (body : CreateServiceAccountRequest)
  | GetAccount (id tenant : Uuid)
  | PatchAccount (id tenant : Uuid) (body : UpdateServiceAccountRequest)
  | PostSuspend (id tenant : Uuid)
  | PostActivate (id tenant : Uuid)
  | GetKeys (id : Uuid) (query : ListKeysQuery)
  | PostKey (id : Uuid) (body : RegisterKeyRequest)
  | DeleteKey (sa key : Uuid)
  | GetPolicies (query : ListScopedQuery)
  | PostPolicy (body : CreatePolicyRequest)
  | GetPolicy (id tenant : Uuid)
  | PatchPolicy (id tenant : Uuid) (body : UpdatePolicy)
  | DeletePolicy (id tenant : Uuid)
  | PostBinding (sa policy : Uuid)
  | DeleteBinding (sa policy : Uuid)
  | GetRoutes (query : ListRoutesQuery)
  | PostRoute (body : CreateRouteRequest)
  | GetRoute (id : Uuid)
  | PatchRoute (id : Uuid) (body : UpdateRoute)
  | DeleteRoute (id : Uuid).

Definition is_read (req : AdminRequest) : bool :=
  match req with
  | GetTenants _ | GetTenant _ | GetAccounts _ | GetAccount _ _ | GetKeys _ _
  | GetPolicies _ | GetPolicy _ _ | GetRoutes _ | GetRoute _ => true
  | _ => false
  end.

Definition handle `{!Backends, !UuidLib, !CursorCodec, !Crypto, !KeyCodec} (state : AppState)
    (ctx : AdminContext) (req : AdminRequest) : IO World GatewayError AdminReply :=
  match req with
  | GetTenants q => list_tenants state q
  | PostTenant body => create_tenant state ctx body
  | GetTenant id => get_tenant state id
  | PatchTenant id body => update_tenant state ctx id body
  | DeleteTenant id => delete_tenant state ctx id
  | GetAccounts q => list_service_accounts state q
  | PostAccount body => create_service_account state ctx body
  | GetAccount id tenant => get_service_account state id tenant
  | PatchAccount id tenant body => update_service_account state ctx id tenant body
  | PostSuspend id tenant => suspend_service_account state ctx id tenant
  | PostActivate id tenant => activate_service_account state ctx id tenant
  | GetKeys id q => list_keys state id q
  | PostKey id body => register_key state ctx id body
  | DeleteKey sa key => revoke_key state ctx sa key
  | GetPolicies q => list_policies state q
  | PostPolicy body => create_policy state ctx body
  | GetPolicy id tenant => get_policy state id tenant
  | PatchPolicy id tenant body => update_policy state ctx id tenant body
  | DeletePolicy id tenant => delete_policy state ctx id tenant
  | PostBinding sa policy => create_binding state ctx sa policy
  | DeleteBinding sa policy => delete_binding state ctx sa policy
  | GetRoutes q => list_routes state q
  | PostRoute body => create_route state ctx body
  | GetRoute id => get_route state id
  | PatchRoute id body => update_route state ctx id body
  | DeleteRoute id => delete_route state ctx id
  end.

(** A request through [admin_auth_middleware] to its handler. *)
Definition serve_admin `{!Backends, !UuidLib, !CursorCodec, !Crypto, !KeyCodec, !Bcrypt, !JoinOrder}
    (state : AppState) (authorization : option string) (req : AdminRequest)
    : IO World GatewayError AdminReply :=
  ctx ← admin_authenticate state authorization;
  handle state ctx req.
