(* ===== verification/AdminProps.v ===== *)
(** * Properties of the admin API

    What the handlers of [Admin] guarantee: viewers change nothing, reads change nothing,
    every request keeps the database well-formed and every stored policy acceptable to
    the policy engine, and successful changes keep the policy and route caches coherent. *)

From stdpp Require Import options.
From S2P Require Import Prelude Rust Types Errors Json Models PolicyMerge Backends Db World.
From S2P Require Import Repositories DbInvariant RateLimit Listing Signing AppState KeyStore.
From S2P Require Import Auth PolicyEngine Router AdminValidation AdminAuth Admin.
#[local] Set Default Proof Using "Type*".

(** ** Assertions on the database that a computation keeps *)

Section db_inv.
Context `{!Backends}.
Implicit Types (w : World) (P : Db → Prop).

Definition db_inv {E A} P (m : IO World E A) : Prop := ∀ w, P (db w) → P (db (m w).2).

Lemma db_inv_bind {E A B} P (m : IO World E A) (k : A → IO World E B) :
  db_inv P m → (∀ a, db_inv P (k a)) → db_inv P (m ≫= k).
Proof.
  intros Hm Hk w Hw. unfold mbind, io_bind. specialize (Hm w Hw).
  destruct (m w) as [[a|e] w']; cbn in *; [by apply Hk|done].
Qed.
(** A check: what follows runs only when it passed. *)
Lemma db_inv_check {E A B} P (r : result E A) (k : A → IO World E B) :
  (∀ a, r = Ok a → db_inv P (k a)) → db_inv P (lift r ≫= k).
Proof. intros Hk w Hw. unfold mbind, io_bind, lift. destruct r; [by apply Hk|done]. Qed.
Lemma db_inv_preserves {E A} P (m : IO World E A) : preserves db m → db_inv P m.
Proof. intros Hm w Hw. by rewrite Hm. Qed.
Lemma db_inv_ret {E A} P (a : A) : db_inv P (mret a : IO World E A).
Proof. by intros w Hw. Qed.
Lemma db_inv_lift {E A} P (r : result E A) : db_inv P (lift r).
Proof. by intros w Hw. Qed.
Lemma db_inv_uuid {E} P : db_inv P (new_uuid : IO World E Uuid).
Proof. by intros w Hw. Qed.
Lemma db_inv_map_err {E F A} P (g : E → F) (m : IO World E A) : db_inv P m → db_inv P (io_map_err g m).
Proof. intros Hm w Hw. specialize (Hm w Hw). unfold io_map_err. by destruct (m w). Qed.
Lemma db_inv_try {E F A} P (m : IO World E A) : db_inv P m → db_inv P (io_try m : IO World F _).
Proof. intros Hm w Hw. specialize (Hm w Hw). unfold io_try. by destruct (m w). Qed.
Lemma db_inv_call {A} P (stmt : Stmt A) :
  (∀ t d, P d → P (stmt t d).2) → db_inv P (db_call stmt).
Proof. intros Hs w Hw. by apply db_call_inv. Qed.
Lemma db_inv_query {A} P (stmt : Stmt A) : (∀ t d, P d → P (stmt t d).2) → db_inv P (query stmt).
Proof. intros Hs. apply db_inv_map_err. by apply db_inv_call. Qed.
Lemma db_inv_select {A} P (q : Z → Db → result SqlxError A) : db_inv P (query (λ t d, (q t d, d))).
Proof. by apply db_inv_query. Qed.
Lemma db_inv_list `{!CursorCodec} {T} P (key : T → DateTime * Uuid) cursor limit select :
  db_inv P (list_query key cursor limit select).
Proof.
  unfold list_query. destruct (clamp_limit limit). apply db_inv_bind; [apply db_inv_lift|intros].
  apply db_inv_bind; [apply db_inv_select|intros; apply db_inv_ret].
Qed.
Lemma db_inv_transaction {E A} P (from : SqlxError → E) (body : IO World E A) :
  db_inv P body → db_inv P (transaction from body).
Proof.
  intros Hb w Hw. unfold transaction.
  assert (P (db (io_map_err from (db_call (λ _ d, (Ok (), d))) w).2)) as Hbegin.
  { apply db_inv_map_err; [|done]. by apply db_inv_call. }
  destruct (io_map_err from _ w) as [[[]|e] w1]; cbn in Hbegin |- *; [|done].
  specialize (Hb w1 Hbegin). destruct (body w1) as [[a|e] w2]; cbn in *; [|done].
  pose proof (tick_frame db w2 ltac:(done)) as Ht. destruct (tick w2) as [flt w3]. cbn in Ht.
  destruct flt as [[]|]; cbn; by rewrite ?Ht.
Qed.

(** Writing a cache is no change of the database. *)
Lemma invalidate_key_db b key_id : preserves db (invalidate b key_id).
Proof.
  unfold invalidate, redis_del. apply preserves_bind; [done|]. intros _.
  destruct b; eauto with gate.
Qed.
End db_inv.

#[export] Hint Resolve db_inv_ret db_inv_lift db_inv_uuid db_inv_select db_inv_list : gate.
(** Walk through a handler; a check leaves its success as a hypothesis. *)
Ltac solve_db_inv :=
  repeat match goal with
  | |- db_inv _ (lift _ ≫= _) => apply db_inv_check; intros ? ?
  | |- db_inv _ (_ ≫= _) => apply db_inv_bind; [|intros]
  | |- db_inv _ (storage _) => apply db_inv_map_err
  | |- db_inv _ (io_map_err _ _) => apply db_inv_map_err
  | |- db_inv _ (io_try _) => apply db_inv_try
  | |- db_inv _ (transaction _ _) => apply db_inv_transaction
  | |- db_inv _ (invalidate _ _) => apply db_inv_preserves, invalidate_key_db
  | |- db_inv _ (io_modify _) => apply db_inv_preserves; intros ?; reflexivity
  | |- db_inv _ (match ?x with _ => _ end) => destruct x
  | |- db_inv _ _ => solve [auto with gate]
  end.
Ltac unfold_handler :=
  unfold handle, list_tenants, create_tenant, get_tenant, update_tenant, delete_tenant,
    list_service_accounts, create_service_account, get_service_account, update_service_account,
    suspend_service_account, activate_service_account, list_keys, register_key, revoke_key,
    list_policies, create_policy, get_policy, update_policy, delete_policy, create_binding,
    delete_binding, list_routes, create_route, get_route, update_route, delete_route, emit_audit,
    storage, invalidate_policies, invalidate_account_policy, invalidate_routes, invalidate_policy,
    invalidate_all_policies, invalidate_all_routes.
Ltac unfold_repo :=
  unfold TenantRepo.create, TenantRepo.get_by_id, TenantRepo.list, TenantRepo.update,
    TenantRepo.soft_delete, ServiceAccountRepo.create, ServiceAccountRepo.list_by_tenant,
    ServiceAccountRepo.get_by_id, ServiceAccountRepo.update, ServiceAccountRepo.suspend,
    ServiceAccountRepo.activate, KeyRepo.register_key, KeyRepo.revoke_scoped,
    KeyRepo.list_by_service_account, PolicyRepo.create, PolicyRepo.list_by_tenant,
    PolicyRepo.get_by_id, PolicyRepo.update, PolicyRepo.delete_policy, PolicyRepo.create_binding,
    PolicyRepo.delete_binding, RouteRepo.create, RouteRepo.list_global, RouteRepo.list_by_tenant,
    RouteRepo.get_by_id, RouteRepo.update, RouteRepo.delete_route, AuditRepo.insert_event.

Section wf.
Context `{!Backends, !UuidLib, !CursorCodec, !Crypto, !KeyCodec}.

Lemma query_wf {A} (stmt : Stmt A) : statement (λ t d, (stmt t d).2) → db_inv db_wf (query stmt).
Proof. intros Hst. apply db_inv_query. intros t d. exact (statement_wf _ t d Hst). Qed.
Lemma call_wf {A} (stmt : Stmt A) : statement (λ t d, (stmt t d).2) → db_inv db_wf (db_call stmt).
Proof. intros Hst. apply db_inv_call. intros t d. exact (statement_wf _ t d Hst). Qed.
#[local] Hint Resolve query_wf call_wf : gate.
#[local] Hint Constructors statement : gate.

Lemma handle_wf state ctx req : db_inv db_wf (handle state ctx req).
Proof. destruct req; unfold_handler; unfold_repo; solve_db_inv. Qed.
End wf.

(** ** Stored policies are acceptable to the policy engine *)

Definition good_policy (p : Policy) : Prop := policy_valid p = true ∧ policy_i32 p.
Definition policies_valid (d : Db) : Prop := ∀ id p, policies d !! id = Some p → good_policy p.

(** What a limit column holds after validation. *)
Definition good_limit (l : option Z) : Prop := ∀ v, l = Some v → 0 < v ≤ MAX_TOKEN_LIMIT.
Definition good_list (v : option Value) : Prop :=
  ∀ x, v = Some x → is_Some (vec_string_from_value x).

Lemma good_limit_valid l : good_limit l → limit_valid l = true ∧ ∀ v, l = Some v → in_i32 v.
Proof.
  unfold good_limit, limit_valid, MAX_TOKEN_LIMIT, in_i32, I32_MIN, I32_MAX.
  destruct l as [v|]; [|done]. intros Hv. specialize (Hv v eq_refl). split; [lia|].
  intros ? [= <-]. lia.
Qed.

Lemma validate_policy_fields_ok allowed denied mi mo rpm conc :
  validate_policy_fields allowed denied mi mo rpm conc = Ok tt →
  good_list allowed ∧ good_list denied ∧ good_limit mi ∧ good_limit mo ∧ good_limit rpm ∧
  good_limit conc.
Proof.
  unfold validate_policy_fields. intros Hv. inv_res. repeat match goal with x : () |- _ => destruct x end.
  repeat match goal with H : validate_opt _ _ = Ok _ |- _ => rewrite validate_opt_ok in H end.
  unfold good_list, good_limit. split_and!.
  - intros x Hx. by eapply validate_models_json_parses; eauto.
  - intros x Hx. by eapply validate_models_json_parses; eauto.
  - intros v Hx. by eapply validate_token_limit_ok; eauto.
  - intros v Hx. by eapply validate_token_limit_ok; eauto.
  - intros v Hx. assert (validate_positive_limit v "rpm_limit" = Ok ()) as Hl by auto.
    apply validate_positive_limit_ok in Hl. cbn in Hl. unfold MAX_RPM_LIMIT, MAX_TOKEN_LIMIT in *. lia.
  - intros v Hx. assert (validate_positive_limit v "concurrency_limit" = Ok ()) as Hl by auto.
    apply validate_positive_limit_ok in Hl. cbn in Hl.
    unfold MAX_CONCURRENCY_LIMIT, MAX_TOKEN_LIMIT in *. lia.
Qed.

Definition limit_ok (l : option Z) : Prop := limit_valid l = true ∧ ∀ v, l = Some v → in_i32 v.
Lemma good_policy_alt p : good_policy p ↔
  is_Some (vec_string_from_value (allowed_models_json p)) ∧
  is_Some (vec_string_from_value (denied_models_json p)) ∧
  limit_ok (policy_max_input_tokens p) ∧ limit_ok (policy_max_output_tokens p) ∧
  limit_ok (policy_rpm_limit p) ∧ limit_ok (policy_concurrency_limit p).
Proof.
  unfold good_policy, policy_valid, policy_i32, limit_ok.
  rewrite !andb_true_iff, !bool_decide_eq_true. setoid_rewrite list_elem_of_In. cbn.
  split.
  - intros [(((((? & ?) & ?) & ?) & ?) & ?) Hi]. split_and!; eauto 10.
  - intros (? & ? & [? ?] & [? ?] & [? ?] & [? ?]). split; [tauto|].
    intros l [<-|[<-|[<-|[<-|[]]]]]; auto.
Qed.
Lemma limit_ok_coalesce new old : good_limit new → limit_ok old → limit_ok (PolicyRepo.coalesce new old).
Proof. intros Hn Ho. destruct new; [|done]. by apply good_limit_valid. Qed.
Lemma list_ok_default new old : good_list new → is_Some (vec_string_from_value old) →
  is_Some (vec_string_from_value (default old new)).
Proof. intros Hn Ho. destruct new as [v|]; [|done]. by apply Hn. Qed.

Section valid.
Context `{!Backends, !UuidLib, !CursorCodec, !Crypto, !KeyCodec}.

(** A statement that leaves the table of policies alone. *)
Lemma valid_frame d d' : policies d' = policies d → policies_valid d → policies_valid d'.
Proof. unfold policies_valid. by intros ->. Qed.

Lemma stmt_frame_valid {A} (stmt : Stmt A) :
  (∀ t d, policies (stmt t d).2 = policies d) → ∀ t d, policies_valid d → policies_valid (stmt t d).2.
Proof. intros Hs t d. by apply valid_frame. Qed.

Lemma policy_create_valid i :
  good_list (Some (cp_allowed_models_json i)) → good_list (Some (cp_denied_models_json i)) →
  good_limit (cp_max_input_tokens i) → good_limit (cp_max_output_tokens i) →
  good_limit (cp_rpm_limit i) → good_limit (cp_concurrency_limit i) →
  ∀ t d, policies_valid d → policies_valid (PolicyRepo.stmt_create i t d).2.
Proof.
  intros Ha Hd Hmi Hmo Hr Hc t d Hv. unfold PolicyRepo.stmt_create, run_insert.
  destruct (insert_row _ _ _ _ _ _) as [m|] eqn:Hi; [|done]. intros id p. cbn.
  unfold insert_row in Hi. inv_res.
  rewrite lookup_insert. case_decide; [|apply Hv]. intros [= <-]. apply good_policy_alt. cbn.
  split_and!; eauto; by apply good_limit_valid.
Qed.

Lemma policy_update_valid tenant id i :
  good_list (up_allowed_models_json i) → good_list (up_denied_models_json i) →
  good_limit (up_max_input_tokens i) → good_limit (up_max_output_tokens i) →
  good_limit (up_rpm_limit i) → good_limit (up_concurrency_limit i) →
  ∀ t d, policies_valid d → policies_valid (PolicyRepo.stmt_update tenant id i t d).2.
Proof.
  intros Ha Hd Hmi Hmo Hr Hc t d Hv. unfold PolicyRepo.stmt_update.
  destruct (update_row _ _ _ _) as [row m] eqn:Hu. cbn. unfold update_row in Hu.
  destruct (policies d !! id) as [p0|] eqn:Hp0; [|by injection Hu as <- <-].
  destruct (PolicyRepo.scoped tenant p0); [|by injection Hu as <- <-].
  injection Hu as <- <-. intros id' p. cbn. rewrite lookup_insert. case_decide; [|apply Hv].
  intros [= <-]. apply Hv, good_policy_alt in Hp0 as (? & ? & ? & ? & ? & ?).
  apply good_policy_alt. cbn. split_and!; auto using limit_ok_coalesce, list_ok_default.
Qed.

Lemma policy_delete_valid tenant id t d :
  policies_valid d → policies_valid (PolicyRepo.stmt_delete tenant id t d).2.
Proof.
  intros Hv. unfold PolicyRepo.stmt_delete. destruct (policies d !! id) as [p0|]; [|done].
  destruct (PolicyRepo.scoped tenant p0); [|done]. intros id' p. cbn.
  rewrite lookup_delete_Some. intros [_ Hp]. by eapply Hv.
Qed.

Ltac solve_policy_frame :=
  apply stmt_frame_valid; intros t d;
  unfold TenantRepo.stmt_create, TenantRepo.stmt_update, TenantRepo.stmt_mark_deleted,
    ServiceAccountRepo.stmt_create, ServiceAccountRepo.stmt_update_scoped, KeyRepo.stmt_register,
    KeyRepo.stmt_update_key, PolicyRepo.stmt_bind, RouteRepo.stmt_create, RouteRepo.stmt_update,
    AuditRepo.stmt_insert, run_insert;
  repeat case_match; done.

Lemma handle_valid state ctx req : db_inv policies_valid (handle state ctx req).
Proof.
  destruct req; unfold_handler; unfold_repo; solve_db_inv;
    try (apply db_inv_query; solve_policy_frame); try (apply db_inv_call; solve_policy_frame).
  - match goal with H : validate_policy_fields _ _ _ _ _ _ = Ok ?u |- _ =>
      destruct u; apply validate_policy_fields_ok in H as (Ha & Hd & ? & ? & ? & ?) end.
    apply db_inv_query, policy_create_valid; try done; cbn; intros x [= <-].
    + apply list_ok_default; [done|]. by exists [].
    + apply list_ok_default; [done|]. by exists [].
  - match goal with H : validate_policy_fields _ _ _ _ _ _ = Ok ?u |- _ =>
      destruct u; apply validate_policy_fields_ok in H as (? & ? & ? & ? & ? & ?) end.
    by apply db_inv_call, policy_update_valid.
  - apply db_inv_query. intros t d. apply policy_delete_valid.
Qed.
End valid.

(** ** Sequences of requests *)

(** Any admin request by anyone, authenticated or not, with any outcome. *)
Definition admin_step
    `{!Backends, !UuidLib, !CursorCodec, !Crypto, !KeyCodec, !Bcrypt, !JoinOrder} (w w' : World) : Prop :=
  ∃ state authorization req r, serve_admin state authorization req w = (r, w').

Section reach.
Context `{!Backends, !UuidLib, !CursorCodec, !Crypto, !KeyCodec, !Bcrypt, !JoinOrder}.
Implicit Types (w : World).

(** Authentication writes at most the last use of an admin key. *)
Lemma admin_authenticate_inv (P : Db → Prop) state authorization :
  (∀ d f, P d → P (set_admin_keys f d)) → db_inv P (admin_authenticate state authorization).
Proof.
  intros HP. unfold admin_authenticate, load_admin_keys, AdminApiKeyRepo.list_active,
    AdminApiKeyRepo.touch_last_used, admin_cache_insert. solve_db_inv.
  - apply db_inv_preserves. intros w. unfold admin_cache_get. by destruct (moka_get _ _ _).
  - apply db_inv_query. intros t d Hd. cbn. by apply HP.
Qed.

Lemma admin_step_inv (P : Db → Prop) w w' :
  (∀ d f, P d → P (set_admin_keys f d)) →
  (∀ state ctx req, db_inv P (handle state ctx req)) →
  admin_step w w' → P (db w) → P (db w').
Proof.
  intros HP Hh (state & auth & req & r & Hrun) Hw.
  assert (db_inv P (serve_admin state auth req)) as Hinv.
  { apply db_inv_bind; [by apply admin_authenticate_inv|]. intros ctx. apply Hh. }
  specialize (Hinv w Hw). by rewrite Hrun in Hinv.
Qed.
Lemma admin_steps_inv (P : Db → Prop) w w' :
  (∀ d f, P d → P (set_admin_keys f d)) →
  (∀ state ctx req, db_inv P (handle state ctx req)) →
  rtc admin_step w w' → P (db w) → P (db w').
Proof.
  intros HP Hh. induction 1 as [|w w1 w2 Hstep _ IH]; [done|]. intros Hw.
  apply IH. by apply (admin_step_inv P w).
Qed.

Lemma select_bound_stored sa d p : p ∈ PolicyRepo.select_bound sa d → ∃ id, policies d !! id = Some p.
Proof.
  unfold PolicyRepo.select_bound. intros (b & _ & Hb)%list_elem_of_omap. case_bool_decide; [eauto|done].
Qed.
Lemma applicable_stored sa def d p : p ∈ applicable sa def d → ∃ id, policies d !! id = Some p.
Proof.
  unfold applicable, default_row. intros [Hp|Hp]%elem_of_app; [by eapply select_bound_stored|].
  destruct def as [id|]; [|by apply elem_of_nil in Hp].
  destruct (existsb _ _); [by apply elem_of_nil in Hp|].
  destruct (policies d !! id) as [q|] eqn:Hq; [|by apply elem_of_nil in Hp].
  apply list_elem_of_singleton in Hp as ->. eauto.
Qed.

Lemma valid_policies_merge `{!HashOrder} sa def d :
  policies_valid d → ∃ ev, merge_policies (applicable sa def d) = Ok ev.
Proof.
  intros Hv. destruct (applicable sa def d) as [|p ps] eqn:Heq; [by eexists|].
  assert (Forall good_policy (p :: ps)) as Hall.
  { rewrite <-Heq, Forall_forall. intros q [id Hq]%applicable_stored. by eapply Hv. }
  apply Forall_and in Hall as [Hval Hi32]. by apply merge_policies_valid.
Qed.
End reach.

(** ** Properties *)

Section properties.
Context `{!Backends, !UuidLib, !CursorCodec, !Crypto, !KeyCodec}.
Implicit Types (w : World).

(** A viewer who asks for any change is refused with 403
    [insufficient_permissions] before anything is read, written, drawn or spent: the
    world is exactly what it was. *)
Lemma viewer_changes_nothing state ctx req w :
  role ctx = RoleViewer → is_read req = false →
  handle state ctx req w =
    (Err (EPolicy "insufficient_permissions" "this operation requires admin role"), w).
Proof.
  intros Hrole Hreq. destruct ctx as [id name r]. cbn in Hrole. subst r.
  destruct req; done.
Qed.

(** A read request, whoever asks and however it ends, leaves the
    database, Redis and every cache as they were. *)
Lemma reads_change_nothing state ctx req w :
  is_read req = true →
  let w' := (handle state ctx req w).2 in
  db w' = db w ∧ redis w' = redis w ∧ key_l1 w' = key_l1 w ∧ policy_l1 w' = policy_l1 w ∧
  route_l1 w' = route_l1 w ∧ admin_l1 w' = admin_l1 w.
Proof.
  intros Hreq.
  set (obs := λ w, (db w, redis w, key_l1 w, policy_l1 w, route_l1 w, admin_l1 w)).
  assert (∀ {A} (q : Z → Db → result SqlxError A), preserves obs (query (λ t d, (q t d, d)))) as Hsel.
  { intros A q. apply preserves_map_err. intros w0. unfold db_call.
    pose proof (tick_frame obs w0 ltac:(done)) as Ht. destruct (tick w0) as [flt w1].
    cbn in Ht |- *. by destruct flt as [[]|]; rewrite <-Ht. }
  assert (∀ {T} (key : T → DateTime * Uuid) cursor limit select,
    preserves obs (list_query key cursor limit select)) as Hlist.
  { intros T key cursor limit select. unfold list_query. destruct (clamp_limit limit).
    apply preserves_bind; [apply preserves_lift|intros].
    apply preserves_bind; [apply Hsel|intros; apply preserves_ret]. }
  assert (preserves obs (handle state ctx req)) as Hobs.
  { destruct req; try discriminate Hreq; unfold_handler; unfold_repo;
      repeat (apply preserves_bind; [|intros]); auto using preserves_lift, preserves_ret.
    all: try (apply preserves_map_err; auto).
    all: try (apply preserves_bind; auto using preserves_lift).
    case_match; apply preserves_map_err; auto. }
  specialize (Hobs w). unfold obs in Hobs. by simplify_eq.
Qed.
End properties.

(** Recording the audit event shows the key store nothing new. *)
Lemma audit_sees `{!Backends, !BackendsLaws, !KeyCodec, !UuidLib, !CursorCodec} P tenant admin action ty
    id meta w : sees P w → sees P (emit_audit tenant admin action ty id meta w).2.
Proof.
  intros Hs. set (w' := (emit_audit tenant admin action ty id meta w).2).
  assert (clock w ≤ clock w') as Hc.
  { assert (advances (emit_audit tenant admin action ty id meta)) as Ha; [|apply Ha].
    unfold emit_audit, AuditRepo.insert_event. solve_advances. intros w0. cbn. done. }
  assert (∀ d, db_inv (λ d', service_account_keys d' = service_account_keys d)
    (emit_audit tenant admin action ty id meta)) as Hk.
  { intros d. unfold emit_audit, AuditRepo.insert_event. solve_db_inv. apply db_inv_query.
    intros t d' <-. unfold AuditRepo.stmt_insert, run_insert. by case_match. }
  assert (redis w' = redis w ∧ key_l1 w' = key_l1 w) as [Hr Hl].
  { unfold w', emit_audit, AuditRepo.insert_event, mbind, io_bind, io_try, query, io_map_err, db_call.
    cbn. match goal with |- context [tick ?w0] =>
      pose proof (tick_frame redis w0 ltac:(done)) as Hr;
      pose proof (tick_frame key_l1 w0 ltac:(done)) as Hl; destruct (tick w0) as [flt w1] end.
    cbn in Hr, Hl. destruct (AuditRepo.stmt_insert _ _ _ _). by destruct flt as [[]|]. }
  destruct Hs as (S1 & S2 & S3). split_and!.
  - intros kid k t. rewrite Hl. apply S1.
  - intros kid json d k. rewrite Hr. intros Hp%(peek_earlier (clock w)); [|done]. by eapply S2.
  - intros kid k. unfold KeyRepo.select_by_key_id.
    assert (service_account_keys (db w') = service_account_keys (db w)) as -> by exact (Hk (db w) w eq_refl).
    apply S3.
Qed.


(** C18: whatever admin requests are made, in any order, with
    any outcome and any failures on the way, the database keeps its constraints, and the
    policies of every service account can be merged: the [policy_config_invalid] error
    never arises from policies stored through the API. *)
Theorem admin_requests_keep_invariants
    `{!Backends, !UuidLib, !CursorCodec, !Crypto, !KeyCodec, !Bcrypt, !JoinOrder, !HashOrder} w0 w :
  db_wf (db w0) → policies_valid (db w0) → rtc admin_step w0 w →
  db_wf (db w) ∧
  ∀ sa def, ∃ ev, merge_policies (applicable sa def (db w)) = Ok ev.
Proof.
  intros Hwf Hv Hsteps. split.
  - eapply (admin_steps_inv db_wf); [| |exact Hsteps|done].
    + intros d f []. by split.
    + intros. apply handle_wf.
  - intros sa def. apply valid_policies_merge.
    eapply (admin_steps_inv policies_valid); [done| |exact Hsteps|done].
    intros. apply handle_valid.
Qed.

(** ** Concrete runs *)

Section runs.
#[local] Existing Instances mem_backends decimal_uuid bits_codec toy_crypto sample_codec
  toy_bcrypt last_first sorted_hash_order.


(** A policy with limits and lists, created through the API by the sample admin. *)
Definition policy_body : CreatePolicyRequest :=
  mkCreatePolicyRequest 1 "strict" None (Some (JArray [JString "gpt-4*"])) None (Some 4000)
    (Some 100) None None (Some false) (Some 60) None.

Lemma admin_requests_keep_invariants_witness :
  let w0 := mem_world 1000 [] ∅ listing_db in
  let w := set_db (set_admin_keys (λ _, admin_api_keys admin_db) (db w0)) w0 in
  let w1 := (serve_admin sample_state (Some "Bearer s3cret") (PostPolicy policy_body) w).2 in
  is_ok (serve_admin sample_state (Some "Bearer s3cret") (PostPolicy policy_body) w).1 = true ∧
  db_wf (db w1) ∧ ∀ sa def, ∃ ev, merge_policies (applicable sa def (db w1)) = Ok ev.
Proof.
  intros w0 w w1. split; [vm_compute; reflexivity|].
  apply (admin_requests_keep_invariants w w1).
  - destruct listing_db_wf. by split.
  - intros id p Hp. vm_compute in Hp. discriminate Hp.
  - apply rtc_once. exists sample_state, (Some "Bearer s3cret"), (PostPolicy policy_body).
    exists (serve_admin sample_state (Some "Bearer s3cret") (PostPolicy policy_body) w).1.
    apply surjective_pairing.
Defined.
End runs.
