(* ===== verification/AdminCoherence.v ===== *)
(** * The admin handlers and the caches

    The policy and route caches are coherent as long as each change is followed by its
    invalidation ([PolicyEngine], [Router]); here the handlers are shown to do that: a
    successful request is a sequence of the steps those theorems speak of. *)

From stdpp Require Import options.
From S2P Require Import Prelude Rust Types Errors Json Models PolicyMerge Backends Db World.
From S2P Require Import Repositories DbInvariant RateLimit Listing Signing AppState KeyStore.
From S2P Require Import Auth PolicyEngine Router AdminValidation AdminAuth Admin AdminProps.
#[local] Set Default Proof Using "Type*".

(** ** Computations that move the database along a preorder and leave a cache alone *)

Inductive Cache : Type := PolicyCache | RouteCache.
Definition same_cache `{!Backends} (c : Cache) (w w' : World) : Prop :=
  match c with
  | PolicyCache => policy_l1 w' = policy_l1 w
  | RouteCache => route_l1 w' = route_l1 w
  end.

Section respects.
Context `{!Backends}.
Context (c : Cache) (D : relation Db) `{!PreOrder D}.
Implicit Types (w : World).

Definition world_rel (w w' : World) : Prop :=
  same_cache c w w' ∧ D (db w) (db w').
#[global] Instance world_rel_preorder : PreOrder world_rel.
Proof.
  split; [intros w; split; [by destruct c|done]|]. intros w1 w2 w3 [Hc Hd] [Hc' Hd'].
  split; [destruct c; cbn in *; congruence|]. by etrans.
Qed.
Definition respects {E A} (m : IO World E A) : Prop := ∀ w, world_rel w (m w).2.

Lemma respects_bind {E A B} (m : IO World E A) (k : A → IO World E B) :
  respects m → (∀ a, respects (k a)) → respects (m ≫= k).
Proof.
  intros Hm Hk w. unfold mbind, io_bind. specialize (Hm w).
  destruct (m w) as [[a|e] w']; cbn in *; [|done]. etrans; [done|]. apply Hk.
Qed.
Lemma respects_ret {E A} (a : A) : respects (mret a : IO World E A).
Proof. by intros w. Qed.
Lemma respects_lift {E A} (r : result E A) : respects (lift r).
Proof. by intros w. Qed.
Lemma respects_uuid {E} : respects (new_uuid : IO World E Uuid).
Proof. intros w. split; [by destruct c|done]. Qed.
Lemma respects_map_err {E F A} (g : E → F) (m : IO World E A) :
  respects m → respects (io_map_err g m).
Proof. intros Hm w. specialize (Hm w). unfold io_map_err. by destruct (m w). Qed.
Lemma respects_try {E F A} (m : IO World E A) : respects m → respects (io_try m : IO World F _).
Proof. intros Hm w. specialize (Hm w). unfold io_try. by destruct (m w). Qed.

Lemma respects_tick w : world_rel w (tick w).2.
Proof. unfold tick. destruct (script w); [done|]. split; [by destruct c|done]. Qed.
Lemma respects_call {A} (stmt : Stmt A) : (∀ t d, D d (stmt t d).2) → respects (db_call stmt).
Proof.
  intros Hs w. unfold db_call. pose proof (respects_tick w) as [Hc Hd].
  destruct (tick w) as [flt w1]. cbn in *. specialize (Hs (clock w1) (db w1)).
  destruct (stmt (clock w1) (db w1)) as [r d]. cbn in Hs.
  destruct flt as [[]|]; (split; [by destruct c|]); cbn; try done; by etrans.
Qed.
Lemma respects_query {A} (stmt : Stmt A) : (∀ t d, D d (stmt t d).2) → respects (query stmt).
Proof. intros Hs. by apply respects_map_err, respects_call. Qed.
Lemma respects_select {A} (q : Z → Db → result SqlxError A) : respects (query (λ t d, (q t d, d))).
Proof. by apply respects_query. Qed.
Lemma respects_list `{!CursorCodec} {T} (key : T → DateTime * Uuid) cursor limit select :
  respects (list_query key cursor limit select).
Proof.
  unfold list_query. destruct (clamp_limit limit). apply respects_bind; [apply respects_lift|intros].
  apply respects_bind; [apply respects_select|intros; apply respects_ret].
Qed.
Lemma respects_transaction {E A} (from : SqlxError → E) (body : IO World E A) :
  respects body → respects (transaction from body).
Proof.
  intros Hb w. unfold transaction.
  assert (respects (io_map_err from (db_call (λ _ d, (Ok (), d))))) as Hbegin.
  { apply respects_map_err. by apply respects_call. }
  specialize (Hbegin w). destruct (io_map_err from _ w) as [[[]|e] w1]; cbn in Hbegin |- *; [|done].
  specialize (Hb w1). destruct (body w1) as [[a|e] w2]; cbn in *.
  - etrans; [exact Hbegin|]. pose proof (respects_tick w2) as Ht. destruct (tick w2) as [flt w3].
    cbn in Ht. assert (world_rel w1 w3) as H13 by by etrans.
    destruct flt as [[]|]; cbn; try done. destruct H13 as [Hc _]. split; [by destruct c|done].
  - etrans; [exact Hbegin|]. destruct Hb as [Hc _]. split; [by destruct c|done].
Qed.
Lemma respects_invalidate `{!KeyCodec} b key_id : respects (invalidate b key_id).
Proof.
  unfold invalidate, redis_del.
  apply respects_bind; [intros w; split; [by destruct c|done]|]. intros _.
  destruct b; [|apply respects_ret]. apply respects_bind; [|intros; apply respects_ret].
  apply respects_try. intros w. unfold redis_call. pose proof (respects_tick w) as Ht.
  destruct (tick w) as [flt w1]. destruct flt as [[]|]; try done; (etrans; [exact Ht|]);
    (split; [by destruct c|done]).
Qed.
(** The other cache's invalidation. *)
Lemma respects_invalidate_other {E} (m : IO World E unit) :
  (∀ w, db (m w).2 = db w ∧ same_cache c w (m w).2) → respects m.
Proof. intros Hm w. destruct (Hm w) as [Hd Hc]. split; [done|]. by rewrite Hd. Qed.
End respects.

#[export] Hint Resolve respects_ret respects_lift respects_uuid respects_select respects_list
  respects_invalidate : gate.
Ltac solve_respects :=
  repeat match goal with
  | |- respects _ _ (_ ≫= _) => apply respects_bind; [apply _| |intros]
  | |- respects _ _ (io_map_err _ _) => apply respects_map_err; [apply _|]
  | |- respects _ _ (io_try _) => apply respects_try; [apply _|]
  | |- respects _ _ (transaction _ _) => apply respects_transaction; [apply _|]
  | |- respects _ _ (match ?x with _ => _ end) => destruct x
  | |- respects _ _ _ => solve [auto with gate typeclass_instances]
  end.

(** ** What each statement does to the policies of an account *)

(** The accounts in [S] keep their policies. *)
Definition same_policies (S : ServiceAccountId → Prop) (d d' : Db) : Prop :=
  ∀ sa, S sa → account_policies sa d' ≡ₚ account_policies sa d.
#[global] Instance same_policies_preorder S : PreOrder (same_policies S).
Proof.
  split; [by intros d sa|]. intros d1 d2 d3 H12 H23 sa HS. etrans; [by apply H23|by apply H12].
Qed.
Definition same_routes (d d' : Db) : Prop := provider_routes d' = provider_routes d.
#[global] Instance same_routes_preorder : PreOrder same_routes.
Proof. split; [by intros d|]. unfold same_routes. intros ???. congruence. Qed.

Definition default_of (d : Db) (sa : ServiceAccountId) : option PolicyId :=
  service_accounts d !! sa ≫= sa_default_policy_id.

Lemma same_policies_frame S d d' :
  policies d' = policies d → bindings d' = bindings d → (∀ sa, default_of d' sa = default_of d sa) →
  same_policies S d d'.
Proof.
  intros Hp Hb Hd sa _. specialize (Hd sa). unfold default_of in Hd.
  unfold account_policies, applicable, default_row, PolicyRepo.select_bound. by rewrite Hd, Hp, Hb.
Qed.

Lemma default_of_fmap f d : (∀ r, sa_default_policy_id (f r) = sa_default_policy_id r) →
  ∀ sa, default_of (set_service_accounts (fmap f) d) sa = default_of d sa.
Proof.
  intros Hf sa. unfold default_of. cbn. rewrite lookup_fmap.
  destruct (service_accounts d !! sa); cbn; [by rewrite Hf|done].
Qed.
Lemma default_of_update id p f d : (∀ r, sa_default_policy_id (f r) = sa_default_policy_id r) →
  ∀ sa, default_of (set_service_accounts (λ _, (update_row id p f (service_accounts d)).2) d) sa
    = default_of d sa.
Proof.
  intros Hf sa. unfold default_of, update_row. cbn.
  destruct (service_accounts d !! id) as [r|] eqn:Hr; [|done]. destruct (p r); [|done]. cbn.
  rewrite lookup_insert. case_decide; [subst id; by rewrite Hr; cbn; rewrite Hf|done].
Qed.

Section statements.
Context `{!UuidLib} (S : ServiceAccountId → Prop).

Lemma same_sa_create i t d : csa_default_policy_id i = None →
  same_policies S d (ServiceAccountRepo.stmt_create i t d).2.
Proof.
  intros Hdef. unfold ServiceAccountRepo.stmt_create, run_insert.
  destruct (insert_row _ _ _ _ _ _) as [m|] eqn:Hi; [|reflexivity].
  unfold insert_row in Hi. inv_res. apply same_policies_frame; [done..|].
  intros sa. unfold default_of. cbn. rewrite lookup_insert. case_decide; [|done]. subst sa. cbn.
  match goal with H : bool_decide (is_Some _) = false |- _ =>
    apply bool_decide_eq_false, eq_None_not_Some in H as -> end. done.
Qed.
Lemma same_sa_update f tenant id t d :
  (∀ r, sa_default_policy_id (f t r) = sa_default_policy_id r) →
  same_policies S d (ServiceAccountRepo.stmt_update_scoped f tenant id t d).2.
Proof.
  intros Hf. unfold ServiceAccountRepo.stmt_update_scoped.
  pose proof (default_of_update id (ServiceAccountRepo.scoped tenant) (f t) d Hf) as Hd.
  destruct (update_row _ _ _ _) as [row m]. by apply same_policies_frame.
Qed.
Lemma same_suspend id t d : same_policies S d (TenantRepo.stmt_suspend_accounts id t d).2.
Proof.
  apply same_policies_frame; [done..|]. cbn. apply default_of_fmap. intros r.
  unfold TenantRepo.suspend_account. by destruct (_ && _).
Qed.

Lemma same_bound sa d d' :
  policies d' = policies d → service_accounts d' = service_accounts d →
  PolicyRepo.select_bound sa d' ≡ₚ PolicyRepo.select_bound sa d →
  account_policies sa d' ≡ₚ account_policies sa d.
Proof.
  intros Hp Hs Hb. unfold account_policies, applicable, default_row. rewrite Hs, Hb, Hp.
  destruct (service_accounts d !! sa ≫= sa_default_policy_id) as [id|]; [|done].
  assert (∀ (f : Policy → bool), existsb f (PolicyRepo.select_bound sa d')
    = existsb f (PolicyRepo.select_bound sa d)) as ->; [|done].
  intros f. apply eq_true_iff_eq. rewrite !existsb_exists. setoid_rewrite <-list_elem_of_In.
  by setoid_rewrite Hb.
Qed.
Lemma same_bind id sa policy t d :
  same_policies (λ sa', sa' ≠ sa) d (PolicyRepo.stmt_bind id sa policy t d).2.
Proof.
  intros sa' Hne. unfold PolicyRepo.stmt_bind, run_insert.
  destruct (insert_row _ _ _ _ _ _) as [m|] eqn:Hi; [|done]. unfold insert_row in Hi. inv_res.
  match goal with H : bool_decide (is_Some (bindings d !! id)) = false |- _ =>
    apply bool_decide_eq_false, eq_None_not_Some in H as Hnone end.
  apply same_bound; [done..|]. unfold PolicyRepo.select_bound, rows. cbn.
  rewrite map_to_list_insert by done. cbn. by rewrite bool_decide_false by congruence.
Qed.
Lemma omap_filter_irrelevant {A B} (f : A → option B) (P : A → Prop) `{!∀ x, Decision (P x)} (l : list A) :
  (∀ x, ¬ P x → f x = None) → omap f (filter P l) = omap f l.
Proof.
  intros Hf. induction l as [|x l IH]; [done|]. rewrite filter_cons. case_decide as Hx; cbn.
  - by rewrite IH.
  - by rewrite Hf, IH.
Qed.
Lemma omap_rows {A B C} (f : A → option B) (l : list (C * A)) :
  omap f (snd <$> l) = omap (λ x, f x.2) l.
Proof using. induction l as [|x l IH]; [done|]. cbn. by rewrite IH. Qed.
Lemma rows_filter {K R} `{Countable K} (P : K * R → Prop) `{!∀ x, Decision (P x)} (m : gmap K R) :
  map_to_list (filter P m) ≡ₚ filter P (map_to_list m).
Proof using.
  rewrite map_filter_alt. apply map_to_list_to_map.
  eapply sublist_NoDup; [apply (NoDup_fst_map_to_list m)|]. apply fmap_sublist, sublist_filter.
Qed.
Lemma same_unbind sa policy t d :
  same_policies (λ sa', sa' ≠ sa) d (PolicyRepo.stmt_unbind sa policy t d).2.
Proof.
  intros sa' Hne. apply same_bound; [done..|]. unfold PolicyRepo.select_bound, rows. cbn.
  rewrite !omap_rows, rows_filter.
  rewrite omap_filter_irrelevant; [done|]. intros [k b] Hb. cbn in *.
  apply not_false_iff_true in Hb. unfold PolicyRepo.is_binding in Hb.
  apply andb_true_iff in Hb as [Hb%bool_decide_eq_true _]. by rewrite bool_decide_false by congruence.
Qed.
End statements.

(** ** The handlers *)

Definition changes_policies (req : AdminRequest) : bool :=
  match req with
  | PostPolicy _ | PatchPolicy _ _ _ | DeletePolicy _ _ | PostBinding _ _ | DeleteBinding _ _ => true
  | _ => false
  end.
Definition changes_routes (req : AdminRequest) : bool :=
  match req with PostRoute _ | PatchRoute _ _ | DeleteRoute _ => true | _ => false end.

Section handlers.
Context `{!Backends, !BackendsLaws, !UuidLib, !CursorCodec, !Crypto, !KeyCodec, !HashOrder}.
Implicit Types (w : World).

Definition everyone (_ : ServiceAccountId) : Prop := True.

(** A statement on tables that do not matter to policies. *)
Ltac solve_same_frame :=
  intros t d; apply same_policies_frame;
  unfold TenantRepo.stmt_create, TenantRepo.stmt_update, TenantRepo.stmt_mark_deleted,
    KeyRepo.stmt_register, KeyRepo.stmt_update_key, RouteRepo.stmt_create, RouteRepo.stmt_update,
    AuditRepo.stmt_insert, run_insert; intros; repeat case_match; done.
Ltac solve_same_statement :=
  first [ solve [intros t d; by apply same_sa_create]
        | solve [intros t d; by apply same_sa_update]
        | solve [intros t d; apply same_suspend]
        | solve_same_frame ].

Lemma audit_respects_policies S tenant admin action ty id meta :
  respects PolicyCache (same_policies S) (emit_audit tenant admin action ty id meta).
Proof.
  unfold emit_audit, AuditRepo.insert_event. solve_respects.
  apply respects_query; [apply _|]. solve_same_frame.
Qed.

Lemma other_handlers_respect_policies state ctx req :
  changes_policies req = false →
  respects PolicyCache (same_policies everyone) (handle state ctx req).
Proof.
  intros Hreq. destruct req; try discriminate Hreq; unfold_handler; unfold_repo; solve_respects;
    try (apply respects_query; [apply _|]; solve_same_statement);
    try (apply respects_call; [apply _|]; solve_same_statement).
  all: by apply respects_invalidate_other; [apply _|].
Qed.

Definition any_db (_ _ : Db) : Prop := True.
#[local] Instance any_db_preorder : PreOrder any_db.
Proof. by split. Qed.

(** From the change to the reply: the change, the invalidation, the audit event. *)
Lemma change_all_steps {E A B} (m : IO World E A) w a w1 u w2 (k : IO World GatewayError B) :
  respects PolicyCache any_db m → m w = (Ok a, w1) →
  invalidate_all_policies (E:=GatewayError) w1 = (Ok u, w2) →
  respects PolicyCache (same_policies everyone) k → rtc policy_step w (k w2).2.
Proof.
  intros Hm Hrun Hinv Hk. specialize (Hm w). rewrite Hrun in Hm. destruct Hm as [Hc _].
  eapply rtc_l; [by eapply ps_change_all|]. apply rtc_once.
  destruct (Hk w2) as [Hc2 Hd]. apply ps_other; [done|]. intros sa. by apply Hd.
Qed.
Lemma change_one_steps {E A B} sa (m : IO World E A) w a w1 u w2 (k : IO World GatewayError B) :
  respects PolicyCache (same_policies (λ sa', sa' ≠ sa)) m → m w = (Ok a, w1) →
  invalidate_policy (E:=GatewayError) sa w1 = (Ok u, w2) →
  respects PolicyCache (same_policies everyone) k → rtc policy_step w (k w2).2.
Proof.
  intros Hm Hrun Hinv Hk. specialize (Hm w). rewrite Hrun in Hm. destruct Hm as [Hc Hd].
  eapply rtc_l; [by eapply (ps_change_one sa)|]. apply rtc_once.
  destruct (Hk w2) as [Hc2 Hd2]. apply ps_other; [done|]. intros sa'. by apply Hd2.
Qed.

Lemma policy_change_respects_any {A} (m : IO World StorageError A) :
  (∃ stmt, m = query stmt) ∨ (∃ (stmt : Stmt A) g, m = io_map_err g (db_call stmt)) →
  respects PolicyCache any_db m.
Proof.
  intros [[stmt ->]|(stmt & g & ->)]; [by apply respects_query; [apply _|]|].
  apply respects_map_err; [apply _|]. by apply respects_call; [apply _|].
Qed.

(** A successful request, seen by the policy cache. *)
Lemma handle_policy_steps state ctx req w reply w' :
  has_policy_cache state = true → handle state ctx req w = (Ok reply, w') → rtc policy_step w w'.
Proof.
  intros Hcache Hrun. destruct (changes_policies req) eqn:Hreq.
  2:{ apply rtc_once. destruct (other_handlers_respect_policies state ctx req Hreq w) as [Hc Hd].
      rewrite Hrun in Hc, Hd. apply ps_other; [done|]. intros sa. by apply Hd. }
  destruct req; try discriminate Hreq; cbn [handle] in Hrun;
    unfold create_policy, update_policy, delete_policy, create_binding, delete_binding, storage,
      invalidate_policies, invalidate_account_policy in Hrun; rewrite Hcache in Hrun; inv_res;
    match goal with
    | H : emit_audit ?tn ?ad ?ac ?ty ?id ?md ?w0 = (_, ?w1) |- rtc policy_step _ ?w1 =>
      replace w1 with (emit_audit tn ad ac ty id md w0).2 by (by rewrite H)
    end.
  - rename select (PolicyRepo.create _ _ = _) into Hm. rename select (new_uuid _ = _) into Hu.
    injection Hu as <- <-. eapply rtc_l;
      [|eapply change_all_steps; [|exact Hm|eassumption|apply audit_respects_policies]].
    + apply ps_other; [done|by intros].
    + apply policy_change_respects_any. left. by eexists.
  - rename select (PolicyRepo.update _ _ _ _ = _) into Hm.
    eapply change_all_steps; [|exact Hm|eassumption|apply audit_respects_policies].
    apply policy_change_respects_any. right. by do 2 eexists.
  - rename select (PolicyRepo.delete_policy _ _ _ = _) into Hm.
    eapply change_all_steps; [|exact Hm|eassumption|apply audit_respects_policies].
    unfold PolicyRepo.delete_policy. solve_respects.
    apply policy_change_respects_any. left. by eexists.
  - rename select (PolicyRepo.create_binding _ _ _ = _) into Hm.
    eapply change_one_steps; [|exact Hm|eassumption|apply audit_respects_policies].
    unfold PolicyRepo.create_binding. solve_respects.
    apply respects_query; [apply _|]. intros t d. apply same_bind.
  - rename select (PolicyRepo.delete_binding _ _ _ = _) into Hm.
    eapply change_one_steps; [|exact Hm|eassumption|apply audit_respects_policies].
    unfold PolicyRepo.delete_binding. solve_respects.
    apply respects_query; [apply _|]. intros t d. apply same_unbind.
Qed.
End handlers.

Section routes.
Context `{!Backends, !BackendsLaws, !UuidLib, !UuidLaws, !CursorCodec, !Crypto, !KeyCodec}.
Implicit Types (w : World).

#[local] Existing Instance any_db_preorder.

Ltac solve_route_frame :=
  intros t d; unfold same_routes, TenantRepo.stmt_create, TenantRepo.stmt_update,
    TenantRepo.stmt_mark_deleted, ServiceAccountRepo.stmt_create,
    ServiceAccountRepo.stmt_update_scoped, KeyRepo.stmt_register, KeyRepo.stmt_update_key,
    PolicyRepo.stmt_create, PolicyRepo.stmt_update, PolicyRepo.stmt_delete, PolicyRepo.stmt_bind,
    AuditRepo.stmt_insert, run_insert; repeat case_match; done.

Lemma audit_respects_routes tenant admin action ty id meta :
  respects RouteCache same_routes (emit_audit tenant admin action ty id meta).
Proof.
  unfold emit_audit, AuditRepo.insert_event. solve_respects.
  apply respects_query; [apply _|]. solve_route_frame.
Qed.

Lemma other_handlers_respect_routes state ctx req :
  changes_routes req = false → respects RouteCache same_routes (handle state ctx req).
Proof.
  intros Hreq. destruct req; try discriminate Hreq; unfold_handler; unfold_repo; solve_respects;
    try (apply respects_query; [apply _|]; solve_route_frame);
    try (apply respects_call; [apply _|]; solve_route_frame).
  all: by apply respects_invalidate_other; [apply _|].
Qed.

Lemma route_change_steps {E A B} (m : IO World E A) w a w1 u w2 (k : IO World GatewayError B) :
  respects RouteCache any_db m → m w = (Ok a, w1) →
  invalidate_all_routes (E:=GatewayError) w1 = (Ok u, w2) →
  respects RouteCache same_routes k → rtc route_step w (k w2).2.
Proof.
  intros Hm Hrun Hinv Hk. specialize (Hm w). rewrite Hrun in Hm. destruct Hm as [Hc _].
  eapply rtc_l; [by eapply rs_change|]. apply rtc_once.
  destruct (Hk w2) as [Hc2 Hd]. by apply rs_other.
Qed.

(** A successful request, seen by the route cache. *)
Lemma handle_route_steps state ctx req w reply w' :
  has_route_cache state = true → handle state ctx req w = (Ok reply, w') → rtc route_step w w'.
Proof.
  intros Hcache Hrun. destruct (changes_routes req) eqn:Hreq.
  2:{ apply rtc_once. destruct (other_handlers_respect_routes state ctx req Hreq w) as [Hc Hd].
      rewrite Hrun in Hc, Hd. by apply rs_other. }
  destruct req; try discriminate Hreq; cbn [handle] in Hrun;
    unfold create_route, update_route, delete_route, storage, invalidate_routes in Hrun;
    rewrite Hcache in Hrun; inv_res;
    match goal with
    | H : emit_audit ?tn ?ad ?ac ?ty ?id ?md ?w0 = (_, ?w1) |- rtc route_step _ ?w1 =>
      replace w1 with (emit_audit tn ad ac ty id md w0).2 by (by rewrite H)
    end.
  - rename select (RouteRepo.create _ _ = _) into Hm.
    eapply route_change_steps; [|exact Hm|eassumption|apply audit_respects_routes].
    unfold RouteRepo.create. solve_respects. by apply respects_query; [apply _|].
  - rename select (RouteRepo.update _ _ _ = _) into Hm.
    eapply route_change_steps; [|exact Hm|eassumption|apply audit_respects_routes].
    unfold RouteRepo.update. solve_respects. by apply respects_call; [apply _|].
  - rename select (RouteRepo.delete_route _ _ = _) into Hm.
    eapply route_change_steps; [|exact Hm|eassumption|apply audit_respects_routes].
    unfold RouteRepo.delete_route. solve_respects. by apply respects_query; [apply _|].
Qed.
End routes.

(** ** Properties *)

(** A process that serves admin requests, all successful, and data plane requests. *)
Inductive gateway_step
    `{!Backends, !UuidLib, !CursorCodec, !Crypto, !KeyCodec, !HashOrder} (state : AppState)
    : World → World → Prop :=
  | gs_admin ctx req w reply w' :
      handle state ctx req w = (Ok reply, w') → gateway_step state w w'
  | gs_evaluate auth w r w' :
      context_current auth (db w) → get_or_evaluate auth w = (r, w') → gateway_step state w w'
  | gs_resolve tenant alias w r w' : resolve tenant alias w = (r, w') → gateway_step state w w'.

Section effect.
Context `{!Backends, !BackendsLaws, !UuidLib, !UuidLaws, !CursorCodec, !Crypto, !KeyCodec, !HashOrder}.
Implicit Types (w : World).

(** Each kind of lookup leaves the other cache and the database alone. *)
Lemma evaluate_other_cache auth w : let w' := (get_or_evaluate auth w).2 in
  route_l1 w' = route_l1 w ∧ db w' = db w.
Proof.
  assert (respects RouteCache (=) (get_or_evaluate auth)) as Hr.
  { unfold get_or_evaluate, load_policies, PolicyRepo.list_policies_for_service_account.
    apply respects_bind; [apply _| |].
    { intros w0. unfold policy_cache_get. by destruct (moka_get _ _ _). }
    intros [ev|]; [by apply respects_ret; apply _|]. solve_respects; by intros w0. }
  destruct (Hr w) as [Hc Hd]. by split.
Qed.
Lemma resolve_other_cache tenant alias w : let w' := (resolve tenant alias w).2 in
  policy_l1 w' = policy_l1 w ∧ db w' = db w.
Proof.
  assert (respects PolicyCache (=) (resolve tenant alias)) as Hr.
  { unfold resolve, get_or_load, RouteRepo.resolve_routes. solve_respects.
    all: intros w0; unfold route_cache_get; by try destruct (moka_get _ _ _). }
  destruct (Hr w) as [Hc Hd]. by split.
Qed.

Lemma gateway_coherent state w w' :
  has_policy_cache state = true → has_route_cache state = true →
  rtc (gateway_step state) w w' →
  coherent w ∧ routes_coherent w → coherent w' ∧ routes_coherent w'.
Proof.
  intros Hpc Hrc. induction 1 as [|w w1 w2 Hstep _ IH]; [done|]. intros [Hp Hr]. apply IH.
  destruct Hstep as [ctx req w reply w' Hrun|auth w r w' Hctx Hrun|tenant alias w r w' Hrun].
  - split.
    + eapply policy_steps_coherent; [by eapply handle_policy_steps|done].
    + eapply route_steps_coherent; [by eapply handle_route_steps|done].
  - pose proof (evaluate_other_cache auth w) as [Hl Hd]. rewrite Hrun in Hl, Hd. cbn in Hl, Hd. split.
    + by eapply policy_step_coherent; [eapply ps_lookup|].
    + eapply route_steps_coherent; [|done]. apply rtc_once, rs_other; [done|by rewrite Hd].
  - pose proof (resolve_other_cache tenant alias w) as [Hl Hd]. rewrite Hrun in Hl, Hd. cbn in Hl, Hd. split.
    + eapply policy_step_coherent; [|done]. apply ps_other; [done|]. by rewrite Hd.
    + eapply route_steps_coherent; [|done]. by eapply rtc_once, rs_resolve.
Qed.

(** C20: an admin change of a policy or a binding holds for
    the next request. In a process that starts with empty caches, after any sequence of
    successful admin requests and data plane lookups, a cached evaluation decides by the
    policies that are in the database at that moment. *)
Theorem admin_policy_changes_take_effect state w0 w auth model rf est req decision w' :
  has_policy_cache state = true → has_route_cache state = true →
  (∀ sa, latest (policy_l1 w0) sa = None) → (∀ key, latest (route_l1 w0) key = None) →
  rtc (gateway_step state) w0 w → context_current auth (db w) →
  evaluate_cached auth model rf est req w = (Ok decision, w') →
  merge_of (applicable (ac_service_account_id auth) (ac_default_policy_id auth) (db w))
    (evaluated decision) ∧
  apply_policy_checks (evaluated decision) model rf est req = Ok (token_check decision).
Proof.
  intros Hpc Hrc Hep Her Hsteps Hctx Hrun. eapply coherent_evaluation; [|done..].
  eapply (gateway_coherent state); eauto using empty_coherent, empty_routes_coherent.
Qed.

(** C21: an admin change of a route holds for the next
    resolution. After any sequence of successful admin requests and data plane lookups, a
    resolution, cached or not, gives exactly the enabled routes of the alias that are the
    tenant's own or global in the database at that moment: at least one, the tenant's
    before the global ones, then by ascending priority, and no other tenant's. *)
Theorem admin_route_changes_take_effect state w0 w tenant alias routes w' :
  has_policy_cache state = true → has_route_cache state = true →
  (∀ sa, latest (policy_l1 w0) sa = None) → (∀ key, latest (route_l1 w0) key = None) →
  rtc (gateway_step state) w0 w →
  resolve tenant alias w = (Ok routes, w') →
  routes ≠ [] ∧ StronglySorted preferred routes ∧
  (∀ x, x ∈ routes ↔ ∃ id row, provider_routes (db w) !! id = Some row ∧
     rr_model_alias row = alias ∧ rr_enabled row = true ∧
     (rr_tenant_id row = Some tenant ∨ rr_tenant_id row = None) ∧
     RouteRepo.decode_route row = Ok x) ∧
  Forall (λ x, route_tenant_id x = Some tenant ∨ route_tenant_id x = None) routes.
Proof.
  intros Hpc Hrc Hep Her Hsteps Hrun.
  destruct (gateway_coherent state w0 w) as [_ Hco]; eauto using empty_coherent, empty_routes_coherent.
  exact (coherent_resolution _ _ _ _ _ Hco Hrun).
Qed.
End effect.

(** ** Concrete runs *)

Section runs.
#[local] Existing Instances mem_backends decimal_uuid bits_codec toy_crypto sample_codec
  toy_bcrypt last_first sorted_hash_order.

Definition full_state : AppState :=
  mkAppState 300 true true (Some true) true true (Some (mkRateLimitEvaluator 60 100)) true true.
Definition ops : AdminContext := mkAdminContext 31 "ops" RoleAdmin.

(** Binding the sample policy to the account: the next evaluation obeys it. *)
Definition unbound_db : Db :=
  mkDb {[from_uuid 1 := sample_tenant]} {[from_uuid 7 := sample_account]} ∅
    {[from_uuid 1 := bound_policy]} ∅ ∅ ∅ ∅ ∅ ∅.

Lemma admin_policy_changes_take_effect_witness :
  let w0 := mem_world 1000 [] ∅ unbound_db in
  let w1 := (get_or_evaluate sample_context w0).2 in
  let w2 := (handle full_state ops (PostBinding 7 1) w1).2 in
  let run := evaluate_cached sample_context "gpt-4-turbo" streaming (Some 12) (Some 500) in
  let reply := BindingReply CREATED (mkBinding 0 (from_uuid 7) (from_uuid 1) 1000000) in
  (handle full_state ops (PostBinding 7 1) w1).1 = Ok reply ∧
  (run w2).1 = Ok sample_decision ∧
  merge_of (applicable (from_uuid 7) None (db w2)) (evaluated sample_decision).
Proof.
  intros w0 w1 w2 run reply. pose proof mem_backends_laws. pose proof decimal_uuid_laws.
  assert ((handle full_state ops (PostBinding 7 1) w1).1 = Ok reply) as Hbind
    by (vm_compute; reflexivity).
  assert ((run w2).1 = Ok sample_decision) as Hrun by (vm_compute; reflexivity).
  split; [exact Hbind|]. split; [exact Hrun|].
  refine (proj1 (admin_policy_changes_take_effect full_state w0 w2 sample_context "gpt-4-turbo"
    streaming (Some 12) (Some 500) sample_decision (run w2).2 eq_refl eq_refl _ _ _ _ _)).
  - intros sa. reflexivity.
  - intros key. reflexivity.
  - eapply rtc_l; [|eapply rtc_l; [|apply rtc_refl]].
    + eapply (gs_evaluate full_state sample_context w0).
      * exists sample_account. split; reflexivity.
      * apply surjective_pairing.
    + eapply (gs_admin full_state ops (PostBinding 7 1)). exact (run_answer _ _ Hbind).
  - exists sample_account. split; [vm_compute; reflexivity|reflexivity].
  - exact (run_answer _ _ Hrun).
Defined.

(** Deleting the preferred route of an alias: the next resolution goes without it. *)
Lemma admin_route_changes_take_effect_witness :
  let w0 := mem_world 1000 [] ∅ route_db in
  let w1 := (resolve (from_uuid 1) "fast" w0).2 in
  let w2 := (handle full_state ops (DeleteRoute 3) w1).2 in
  let left := [sample_route 2 (Some (from_uuid 1)) 90; sample_route 1 None 5] in
  (resolve (from_uuid 1) "fast" w0).1 = Ok sample_routes ∧
  (resolve (from_uuid 1) "fast" w2).1 = Ok left ∧ StronglySorted preferred left.
Proof.
  intros w0 w1 w2 left. pose proof mem_backends_laws. pose proof decimal_uuid_laws.
  split; [vm_compute; reflexivity|].
  assert ((handle full_state ops (DeleteRoute 3) w1).1 = Ok NoContent) as Hdel
    by (vm_compute; reflexivity).
  assert ((resolve (from_uuid 1) "fast" w2).1 = Ok left) as Hrun by (vm_compute; reflexivity).
  split; [exact Hrun|].
  destruct (admin_route_changes_take_effect full_state w0 w2 (from_uuid 1) "fast" left
    (resolve (from_uuid 1) "fast" w2).2) as (_ & Hs & _).
  - reflexivity.
  - reflexivity.
  - intros sa. reflexivity.
  - intros key. reflexivity.
  - eapply rtc_l; [|eapply rtc_l; [|apply rtc_refl]].
    + eapply (gs_resolve full_state (from_uuid 1) "fast" w0). apply surjective_pairing.
    + eapply (gs_admin full_state ops (DeleteRoute 3)). exact (run_answer _ _ Hdel).
  - exact (run_answer _ _ Hrun).
  - exact Hs.
Defined.

(** The route handlers do not check the numbers the plan
    builder insists on. A route with [max_retries = -1] is accepted for an alias that
    works, and from then on no plan can be built for that alias, although its other
    routes are fine. *)
Lemma negative_route_breaks_alias :
  let body := mkCreateRouteRequest (Some 1) "fast" "openai" "gpt-4o" (Some 50) None None
                (Some (-1)) None None in
  let state := full_state in
  let w0 := set_db (mkDb {[from_uuid 1 := sample_tenant]} ∅ ∅ ∅ ∅ (provider_routes route_db)
                      ∅ ∅ ∅ ∅)
              (mem_world 1000 [] ∅ empty_db) in
  let plan w := (resolve (from_uuid 1) "fast" w).1 ≫= build_plan "fast" in
  let '(created, w1) := create_route state ops body w0 in
  is_ok (plan w0) = true ∧ is_ok created = true ∧
  plan w1 = Err (ERouting "invalid_route_config"
    "route 0 has invalid configuration (negative values)").
Proof. vm_compute. done. Qed.
End runs.
