(* ===== verification/AdminAudit.v ===== *)
(** * The audit trail of the admin API

    Every change an administrator makes through the API leaves one event that says who
    did what to what; reads and failed requests leave none. Emission is best effort, so
    the event may be missing when the database cannot be reached; it is there whenever
    the round trips go through. *)

From stdpp Require Import options.
From S2P Require Import Prelude Rust Types Errors Json Models PolicyMerge Backends Db World.
From S2P Require Import Repositories DbInvariant RateLimit Listing Signing AppState KeyStore.
From S2P Require Import Auth PolicyEngine Router AdminValidation AdminAuth Admin AdminProps.
#[local] Set Default Proof Using "Type*".

(** ** The events that should be there *)

(** Action and target type, per request; reads have none. *)
Definition action_of (req : AdminRequest) : option (string * string) :=
  match req with
  | PostTenant _ => Some ("tenant.created", "tenant")
  | PatchTenant _ _ => Some ("tenant.updated", "tenant")
  | DeleteTenant _ => Some ("tenant.deleted", "tenant")
  | PostAccount _ => Some ("service_account.created", "service_account")
  | PatchAccount _ _ _ => Some ("service_account.updated", "service_account")
  | PostSuspend _ _ => Some ("service_account.suspended", "service_account")
  | PostActivate _ _ => Some ("service_account.activated", "service_account")
  | PostKey _ _ => Some ("key.registered", "key")
  | DeleteKey _ _ => Some ("key.revoked", "key")
  | PostPolicy _ => Some ("policy.created", "policy")
  | PatchPolicy _ _ _ => Some ("policy.updated", "policy")
  | DeletePolicy _ _ => Some ("policy.deleted", "policy")
  | PostBinding _ _ => Some ("policy_binding.created", "policy_binding")
  | DeleteBinding _ _ => Some ("policy_binding.deleted", "policy_binding")
  | PostRoute _ => Some ("route.created", "route")
  | PatchRoute _ _ => Some ("route.updated", "route")
  | DeleteRoute _ => Some ("route.deleted", "route")
  | _ => None
  end.

Definition AuditTable : Type := gmap AuditEventId AuditEvent.

(** The event says who did what. *)
Definition describes `{!UuidLib} (ctx : AdminContext) (req : AdminRequest) (ev : AuditEvent) : Prop :=
  ae_actor_type ev = "admin_user" ∧ ae_actor_id ev = uuid_to_string (admin_id ctx) ∧
  action_of req = Some (ae_action ev, ae_target_type ev).
(** One new event that satisfies [P]. *)
Definition one_more (P : AuditEvent → Prop) (m m' : AuditTable) : Prop :=
  ∃ ev, m !! ae_id ev = None ∧ P ev ∧ m' = <[ae_id ev := ev]> m.

Section trail.
Context `{!Backends, !UuidLib, !CursorCodec, !Crypto, !KeyCodec}.
Implicit Types (w : World) (M : AuditTable).

(** From [P], a success ends in [Q] and a failure in [P]. *)
Definition ends {E A} (P Q : Db → Prop) (m : IO World E A) : Prop :=
  ∀ w r w', P (db w) → m w = (r, w') → match r with Ok _ => Q (db w') | Err _ => P (db w') end.

Lemma ends_bind {E A B} (P Q : Db → Prop) (m : IO World E A) (k : A → IO World E B) :
  db_inv P m → (∀ a, ends P Q (k a)) → ends P Q (m ≫= k).
Proof.
  intros Hm Hk w r w' Hw. specialize (Hm w Hw). unfold mbind, io_bind.
  destruct (m w) as [[a|e] w1]; cbn in Hm; [by apply Hk|]. by intros [= <- <-].
Qed.
Lemma ends_ret {E A B} (P Q : Db → Prop) (m : IO World E A) (b : B) :
  ends P Q m → ends P Q (m ≫= λ _, mret b).
Proof.
  intros Hm w r w' Hw. unfold mbind, io_bind. destruct (m w) as [[a|e] w1] eqn:Hrun;
    intros [= <- <-]; apply (Hm _ _ _ Hw Hrun).
Qed.

Definition same_audit M (d : Db) : Prop := audit_events d = M.

(** The event [emit_audit] tries to insert. *)
Definition event_of w (tenant : option TenantId) (admin : Uuid) (action target id : string)
    (meta : Value) (t : Z) : AuditEvent :=
  mkAuditEvent (from_uuid (default 0 (head (uuids w)))) tenant "admin_user"
    (uuid_to_string admin) action target id meta (sql_now t).

Lemma stmt_insert_event w tenant admin action target id meta t :
  let ev := event_of w tenant admin action target id meta t in
  AuditRepo.stmt_insert (ae_id ev) (AuditRepo.mkCreateAuditEvent tenant "admin_user"
    (uuid_to_string admin) action target id meta) t (db w) =
  run_insert ev (insert_row "audit_events" (ae_id ev) ev []
    [(ref_ok tenant (tenants (db w)), "audit_events_tenant_id_fkey")] (audit_events (db w)))
    set_audit (db w).
Proof. done. Qed.

Lemma emit_sound tenant admin action target id meta w r w' :
  emit_audit tenant admin action target id meta w = (r, w') →
  r = Ok tt ∧
  (db w' = db w ∨
   ∃ t, let ev := event_of w tenant admin action target id meta t in
     audit_events (db w) !! ae_id ev = None ∧
     db w' = set_audit (λ _, <[ae_id ev := ev]> (audit_events (db w))) (db w)).
Proof.
  unfold emit_audit, AuditRepo.insert_event, query, io_try, mbind, io_bind, new_uuid, io_map_err.
  cbn. match goal with |- context [db_call ?s ?w1] => destruct (db_call s w1) as [r1 w2] eqn:Hcall end.
  intros [= <- <-]. split; [done|]. apply db_call_any in Hcall as (t & _ & Hcases).
  cbn [db] in Hcases. pose proof (stmt_insert_event w tenant admin action target id meta t) as Hst.
  cbn [ae_id event_of] in Hst. rewrite Hst in Hcases. clear Hst.
  set (ev := event_of w tenant admin action target id meta t) in *.
  destruct (insert_row _ _ _ _ _ _) as [m|] eqn:Hins; cbn in Hcases.
  2: { left. by destruct Hcases as [[= _ Hd]|(msg & _ & [Hd|Hd])]. }
  apply insert_row_ok in Hins as (Hfresh & _ & _ & ->).
  destruct Hcases as [[= _ Hd]|(msg & _ & [Hd|Hd])]; [right|by left|right]; by exists t.
Qed.

Lemma emit_complete tenant admin action target id meta w r w' :
  emit_audit tenant admin action target id meta w = (r, w') →
  script w = [] → audit_events (db w) !! from_uuid (default 0 (head (uuids w))) = None →
  ref_ok tenant (tenants (db w)) = true →
  let ev := event_of w tenant admin action target id meta (clock w) in
  db w' = set_audit (λ _, <[ae_id ev := ev]> (audit_events (db w))) (db w).
Proof.
  unfold emit_audit, AuditRepo.insert_event, query, io_try, mbind, io_bind, new_uuid, io_map_err.
  cbn. intros Hrun Hs Hfresh Href. revert Hrun. unfold db_call. rewrite tick_idle by done. cbn [db clock].
  pose proof (stmt_insert_event w tenant admin action target id meta (clock w)) as Hst.
  cbn [ae_id event_of] in Hst. rewrite Hst. clear Hst.
  set (ev := event_of w tenant admin action target id meta (clock w)) in *.
  rewrite (proj2 (insert_row_ok _ _ _ _ _ _ (<[ae_id ev := ev]> (audit_events (db w))))).
  - by intros [= <- <-].
  - split_and!; [done|constructor|by constructor|done].
Qed.

Lemma emit_ends M ctx req tenant action target id meta :
  action_of req = Some (action, target) →
  ends (same_audit M) (λ d, audit_events d = M ∨ one_more (describes ctx req) M (audit_events d))
    (emit_audit tenant (admin_id ctx) action target id meta).
Proof.
  intros Hact w r w' <- [-> Hcases]%emit_sound. destruct Hcases as [->|(t & Hfresh & ->)]; [by left|].
  right. eexists. by split_and!.
Qed.

Ltac solve_audit_frame :=
  intros t d Hd; unfold same_audit in *;
  unfold TenantRepo.stmt_create, TenantRepo.stmt_update, TenantRepo.stmt_mark_deleted,
    TenantRepo.stmt_suspend_accounts, ServiceAccountRepo.stmt_create,
    ServiceAccountRepo.stmt_update_scoped, KeyRepo.stmt_register, KeyRepo.stmt_update_key,
    PolicyRepo.stmt_create, PolicyRepo.stmt_update, PolicyRepo.stmt_delete, PolicyRepo.stmt_bind,
    PolicyRepo.stmt_unbind, RouteRepo.stmt_create, RouteRepo.stmt_update, RouteRepo.stmt_delete,
    run_insert;
  repeat case_match; done.
Ltac solve_audit_inv :=
  solve_db_inv; try (apply db_inv_query; solve_audit_frame); try (apply db_inv_call; solve_audit_frame).

(** Whatever the schedule of faults: at most one event, and only for a success. *)
Lemma handle_ends M state ctx req :
  ends (same_audit M)
    (λ d, audit_events d = M ∨ one_more (describes ctx req) M (audit_events d))
    (handle state ctx req).
Proof.
  destruct req; cbn [handle];
    unfold list_tenants, create_tenant, get_tenant, update_tenant, delete_tenant,
    list_service_accounts, create_service_account, get_service_account, update_service_account,
    suspend_service_account, activate_service_account, list_keys, register_key, revoke_key,
    list_policies, create_policy, get_policy, update_policy, delete_policy, create_binding,
    delete_binding, list_routes, create_route, get_route, update_route, delete_route, storage,
    invalidate_policies, invalidate_account_policy, invalidate_routes, invalidate_policy,
    invalidate_all_policies, invalidate_all_routes; unfold_repo;
  repeat match goal with
  | |- ends _ _ (emit_audit _ _ _ _ _ _ ≫= _) => apply ends_ret; by apply emit_ends
  | |- ends _ _ (_ ≫= _) => apply ends_bind; [by solve_audit_inv|intros]
  | |- ends _ _ (mret _) => by intros ? ? ? ? [= <- <-]; left
  end.
Qed.
End trail.

(** ** The tenant an event refers to exists *)

Section tenants.
Context `{!UuidLib}.
Implicit Types (d : Db).

Definition tenant_known (o : option TenantId) (d : Db) : Prop := ref_ok o (tenants d) = true.

Lemma known_references {K R} `{Countable K} (f : R → option TenantId) (m : gmap K R) d k r :
  references f m (tenants d) → m !! k = Some r → tenant_known (f r) d.
Proof.
  intros Href Hk. unfold tenant_known, ref_ok. destruct (f r) as [t|] eqn:Hf; [|done].
  apply bool_decide_eq_true. by eapply Href.
Qed.

Lemma tenant_create_known i t d a d' :
  TenantRepo.stmt_create i t d = (Ok a, d') → tenant_known (Some (tenant_id a)) d'.
Proof.
  unfold TenantRepo.stmt_create, run_insert. destruct (insert_row _ _ _ _ _ _) as [m|] eqn:Hi; [|done].
  apply insert_row_ok in Hi as (_ & _ & _ & ->). intros [= <- <-].
  apply bool_decide_eq_true. cbn. rewrite lookup_insert_eq. by eexists.
Qed.
Lemma tenant_row_known id (f : Tenant → Tenant) d r m :
  db_wf d → (∀ r, tenant_id (f r) = tenant_id r) →
  update_row id (λ _, true) f (tenants d) = (Some r, m) →
  tenant_known (Some (tenant_id r)) (set_tenants (λ _, m) d).
Proof.
  intros Hwf Hf (r0 & Hr0 & _ & -> & ->)%update_row_some. apply bool_decide_eq_true. cbn.
  rewrite Hf, (wf_tenants _ Hwf _ _ Hr0), lookup_insert_eq. by eexists.
Qed.
Lemma tenant_update_known id i t d a d' :
  db_wf d → TenantRepo.stmt_update id i t d = (Ok a, d') → tenant_known (Some (tenant_id a)) d'.
Proof.
  intros Hwf. unfold TenantRepo.stmt_update, fetch_one.
  destruct (update_row _ _ _ _) as [[r|] m] eqn:Hu; [|done]. intros [= <- <-].
  by apply (tenant_row_known id (TenantRepo.apply_update t i)).
Qed.
Lemma tenant_delete_known id t d a d' :
  db_wf d → TenantRepo.stmt_mark_deleted id t d = (Ok (Some a), d') →
  tenant_known (Some (tenant_id a)) d'.
Proof.
  intros Hwf. unfold TenantRepo.stmt_mark_deleted, fetch_optional.
  destruct (update_row _ _ _ _) as [row m] eqn:Hu. intros [= -> <-].
  by apply (tenant_row_known id (TenantRepo.mark_deleted t)).
Qed.

Lemma sa_create_known i t d a d' :
  ServiceAccountRepo.stmt_create i t d = (Ok a, d') → tenant_known (Some (sa_tenant_id a)) d'.
Proof.
  unfold ServiceAccountRepo.stmt_create, run_insert.
  destruct (insert_row _ _ _ _ _ _) as [m|] eqn:Hi; [|done].
  apply insert_row_ok in Hi as (_ & _ & [Ht _]%Forall_cons & ->). by intros [= <- <-].
Qed.
Lemma sa_update_known f tenant id t d a d' :
  db_wf d → (∀ r, sa_tenant_id (f t r) = sa_tenant_id r) →
  ServiceAccountRepo.stmt_update_scoped f tenant id t d = (Ok (Some a), d') →
  tenant_known (Some (sa_tenant_id a)) d'.
Proof.
  intros Hwf Hf. unfold ServiceAccountRepo.stmt_update_scoped, fetch_optional.
  destruct (update_row _ _ _ _) as [row m] eqn:Hu. intros [= -> <-].
  apply update_row_some in Hu as (r0 & Hr0 & _ & -> & ->). rewrite Hf.
  by apply (known_references (λ s, Some (sa_tenant_id s)) (service_accounts d) d id r0 (wf_sa_tenant _ Hwf)).
Qed.

Lemma policy_create_known i t d a d' :
  PolicyRepo.stmt_create i t d = (Ok a, d') → tenant_known (Some (policy_tenant_id a)) d'.
Proof.
  unfold PolicyRepo.stmt_create, run_insert.
  destruct (insert_row _ _ _ _ _ _) as [m|] eqn:Hi; [|done].
  apply insert_row_ok in Hi as (_ & _ & [Ht _]%Forall_cons & ->). by intros [= <- <-].
Qed.
Lemma policy_update_known tenant id i t d a d' :
  db_wf d → PolicyRepo.stmt_update tenant id i t d = (Ok a, d') →
  tenant_known (Some (policy_tenant_id a)) d'.
Proof.
  intros Hwf. unfold PolicyRepo.stmt_update, fetch_one.
  destruct (update_row _ _ _ _) as [[r|] m] eqn:Hu; [|done]. intros [= <- <-].
  apply update_row_some in Hu as (r0 & Hr0 & _ & -> & ->).
  by apply (known_references (λ p, Some (policy_tenant_id p)) (policies d) d id r0 (wf_policy_tenant _ Hwf)).
Qed.
Lemma policy_delete_known tenant id t d n d' :
  db_wf d → PolicyRepo.stmt_delete tenant id t d = (Ok n, d') → (n =? 0) = false →
  tenant_known (Some tenant) d'.
Proof.
  intros Hwf. unfold PolicyRepo.stmt_delete. destruct (policies d !! id) as [p|] eqn:Hp.
  2: { by intros [= <- _]. }
  unfold PolicyRepo.scoped. case_bool_decide as Hsc; [|by intros [= <- _]].
  intros [= _ <-] _. rewrite <-Hsc.
  by apply (known_references (λ p, Some (policy_tenant_id p)) (policies d) d id p (wf_policy_tenant _ Hwf)).
Qed.

Lemma decode_route_tenant row r : RouteRepo.decode_route row = Ok r → route_tenant_id r = rr_tenant_id row.
Proof. unfold RouteRepo.decode_route. destruct (enum_parse _); [|done]. by intros [= <-]. Qed.
Lemma route_create_known id i t d a d' :
  RouteRepo.stmt_create id i t d = (Ok a, d') → tenant_known (route_tenant_id a) d'.
Proof.
  unfold RouteRepo.stmt_create. destruct (insert_row _ _ _ _ _ _) as [m|] eqn:Hi; [|done].
  apply insert_row_ok in Hi as (_ & _ & [Ht _]%Forall_cons & ->).
  intros [= ->%decode_route_tenant <-]. done.
Qed.
Lemma route_update_known id i t d a d' :
  db_wf d → RouteRepo.stmt_update id i t d = (Ok a, d') → tenant_known (route_tenant_id a) d'.
Proof.
  intros Hwf. unfold RouteRepo.stmt_update. destruct (update_row _ _ _ _) as [[r|] m] eqn:Hu; [|done].
  intros [= ->%decode_route_tenant <-]. apply update_row_some in Hu as (r0 & Hr0 & _ & -> & ->).
  by apply (known_references rr_tenant_id (provider_routes d) d id r0 (wf_route_tenant _ Hwf)).
Qed.
End tenants.

(** ** When the round trips go through *)

Section calm.
Context `{!Backends, !UuidLib, !CursorCodec, !Crypto, !KeyCodec}.
Implicit Types (w : World) (M : AuditTable) (n : nat) (R : Db → Prop).

(** No delay or fault is scheduled, the tables satisfy their constraints, and the supply
    of identifiers holds [n] more, none of an event already there. *)
Record calm n M w : Prop := mkCalm {
  calm_script : script w = [];
  calm_wf : db_wf (db w);
  calm_audit : audit_events (db w) = M;
  calm_supply : (n ≤ length (uuids w))%nat;
  calm_fresh : Forall (λ u, M !! from_uuid u = None) (uuids w)
}.

(** A step that succeeds keeps the world calm, using up identifiers, and ends in [Q]. *)
Definition runs {E A} n n' M (Q : A → Db → Prop) (m : IO World E A) : Prop :=
  ∀ w a w', calm n M w → m w = (Ok a, w') → calm n' M w' ∧ Q a (db w').
(** A handler that succeeds leaves one more event. *)
Definition writes {E A} n M R (P : AuditEvent → Prop) (m : IO World E A) : Prop :=
  ∀ w a w', calm n M w → R (db w) → m w = (Ok a, w') → one_more P M (audit_events (db w')).

Lemma runs_bind {E A B} n1 n2 n3 M Q Q' (m : IO World E A) (k : A → IO World E B) :
  runs n1 n2 M Q m → (∀ a, runs n2 n3 M Q' (k a)) → runs n1 n3 M Q' (m ≫= k).
Proof.
  intros Hm Hk w b w' Hw (a & w1 & Hrun & Hrest)%io_bind_ok.
  destruct (Hm _ _ _ Hw Hrun) as [Hw1 _]. by apply (Hk a w1 b w').
Qed.
Lemma runs_map_err {E F A} n n' M Q (g : E → F) (m : IO World E A) :
  runs n n' M Q m → runs n n' M Q (io_map_err g m).
Proof. intros Hm w a w' Hw Hrun%io_map_err_ok. by eapply Hm. Qed.
Lemma runs_uuid {E} n M : runs (S n) n M (λ _ _, True) (new_uuid : IO World E Uuid).
Proof.
  intros w a w' [Hs Hwf Ha Hl Hf] [= _ <-]. split; [|done].
  destruct (uuids w) eqn:Hu; cbn in *; [lia|]. apply Forall_cons in Hf as [_ Hf].
  split; cbn; rewrite ?Hu; cbn; first [done|lia].
Qed.
Lemma runs_call {A} n M Q (stmt : Stmt A) :
  statement (λ t d, (stmt t d).2) → (∀ t d, audit_events (stmt t d).2 = audit_events d) →
  (∀ t d a d', db_wf d → stmt t d = (Ok a, d') → Q a d') → runs n n M Q (db_call stmt).
Proof.
  intros Hst Hau HQ w a w' [Hs Hwf Ha Hl Hf]. unfold db_call. rewrite tick_idle by done.
  pose proof (statement_wf _ (clock w) (db w) Hst Hwf) as Hwf'. specialize (Hau (clock w) (db w)).
  destruct (stmt (clock w) (db w)) as [r d] eqn:Hrun. intros [= -> <-]. split; [|exact (HQ _ _ _ _ Hwf Hrun)].
  cbv beta in Hwf'. rewrite Hrun in Hwf'.
  split; cbn in *; congruence.
Qed.

(** A statement whose result is checked. *)
Lemma runs_check {A B} n M Q (stmt : Stmt A) (check : A → result StorageError B) :
  statement (λ t d, (stmt t d).2) → (∀ t d, audit_events (stmt t d).2 = audit_events d) →
  (∀ t d a d' b, db_wf d → stmt t d = (Ok a, d') → check a = Ok b → Q b d') →
  runs n n M Q (a ← query stmt; lift (check a)).
Proof.
  intros Hst Hau HQ w b w' Hw (a & w1 & Hrun%io_map_err_ok & [Hb <-]%lift_eq)%io_bind_ok.
  assert (runs n n M (λ a d', ∀ b, check a = Ok b → Q b d') (db_call stmt)) as Hcall.
  { apply runs_call; try done. intros t d a0 d' Hwf Hs b0. by apply (HQ t d a0 d' b0). }
  destruct (Hcall _ _ _ Hw Hrun) as [Hw1 HQb]. auto.
Qed.
Lemma runs_transaction {E A} n n' M Q (from : SqlxError → E) (body : IO World E A) :
  runs n n' M Q body → runs n n' M Q (transaction from body).
Proof.
  intros Hbody w a w' Hw. unfold transaction, io_map_err, db_call.
  rewrite tick_idle by apply Hw. cbn.
  assert (set_db (db w) w = w) as -> by (by destruct w).
  destruct (body w) as [[a1|e] w1] eqn:Hrun; [|done].
  destruct (Hbody _ _ _ Hw Hrun) as [Hw1 HQ]. rewrite tick_idle by apply Hw1.
  by intros [= <- <-].
Qed.

Lemma writes_op {E A B} n n' M R Q P (m : IO World E A) (k : A → IO World E B) :
  runs n n' M Q m → (∀ a, writes n' M (Q a) P (k a)) → writes n M R P (m ≫= k).
Proof.
  intros Hm Hk w b w' Hw _ (a & w1 & Hrun & Hrest)%io_bind_ok.
  destruct (Hm _ _ _ Hw Hrun) as [Hw1 HQ]. by eapply Hk.
Qed.
Lemma writes_lift {E A B} n M R P (r : result E A) (k : A → IO World E B) :
  (∀ a, writes n M R P (k a)) → writes n M R P (lift r ≫= k).
Proof.
  intros Hk w b w' Hw HR (a & w1 & [_ <-]%lift_eq & Hrest)%io_bind_ok. by eapply Hk.
Qed.
(** Work on the caches. *)
Lemma writes_cache {E A B} n M R P (m : IO World E A) (k : A → IO World E B) :
  preserves db m → preserves uuids m → (∀ w, script w = [] → script (m w).2 = []) →
  (∀ a, writes n M R P (k a)) → writes n M R P (m ≫= k).
Proof.
  intros Hd Hu Hs Hk w b w' [Hsc Hwf Ha Hl Hf] HR (a & w1 & Hrun & Hrest)%io_bind_ok.
  specialize (Hd w). specialize (Hu w). specialize (Hs w Hsc). rewrite Hrun in Hd, Hu, Hs.
  cbn [snd] in *. eapply Hk; [split|..|exact Hrest]; rewrite ?Hd, ?Hu; done.
Qed.
Lemma writes_emit {B} n M ctx req tenant action target id meta (b : B) :
  action_of req = Some (action, target) →
  writes (S n) M (tenant_known tenant) (describes ctx req)
    (emit_audit tenant (admin_id ctx) action target id meta ≫= λ _, mret b).
Proof.
  intros Hact w a w' [Hs Hwf Ha Hl Hf] HR (u & w1 & Hrun & [= <- <-])%io_bind_ok.
  assert (M !! from_uuid (default 0 (head (uuids w))) = None) as Hfresh.
  { destruct (uuids w); cbn in *; [lia|]. by apply Forall_cons in Hf as [? _]. }
  apply emit_complete in Hrun as Hd; [|done| |done].
  - rewrite Hd. exists (event_of w tenant (admin_id ctx) action target id meta (clock w)).
    split_and!; [exact Hfresh|done..|by cbn; rewrite Ha].
  - by rewrite Ha.
Qed.
End calm.

(** The repository calls of the handlers. *)
Section operations.
Context `{!Backends, !UuidLib, !CursorCodec}.
Variables (n : nat) (M : AuditTable).
#[local] Set Default Proof Using "All".
#[local] Hint Constructors statement : gate.

Ltac frame_audit :=
  intros; unfold TenantRepo.stmt_create, TenantRepo.stmt_update, TenantRepo.stmt_mark_deleted,
    TenantRepo.stmt_suspend_accounts, ServiceAccountRepo.stmt_create,
    ServiceAccountRepo.stmt_update_scoped, KeyRepo.stmt_register, KeyRepo.stmt_update_key,
    PolicyRepo.stmt_create, PolicyRepo.stmt_update, PolicyRepo.stmt_delete, PolicyRepo.stmt_bind,
    PolicyRepo.stmt_unbind, RouteRepo.stmt_create, RouteRepo.stmt_update, RouteRepo.stmt_delete,
    run_insert; repeat case_match; done.
Ltac call known := apply runs_call; [eauto with gate|frame_audit|eauto using known].
Ltac check := apply runs_check; [eauto with gate|frame_audit|].

Lemma tenant_create_runs i :
  runs n n M (λ a, tenant_known (Some (tenant_id a))) (TenantRepo.create i).
Proof. apply runs_map_err. call tenant_create_known. Qed.
Lemma tenant_update_runs id i :
  runs n n M (λ a, tenant_known (Some (tenant_id a))) (TenantRepo.update id i).
Proof. apply runs_map_err. call tenant_update_known. Qed.
Lemma sa_create_runs i :
  runs n n M (λ a, tenant_known (Some (sa_tenant_id a))) (ServiceAccountRepo.create i).
Proof. apply runs_map_err. call sa_create_known. Qed.
Lemma policy_create_runs i :
  runs n n M (λ a, tenant_known (Some (policy_tenant_id a))) (PolicyRepo.create i).
Proof. apply runs_map_err. call policy_create_known. Qed.
Lemma policy_update_runs tenant id i :
  runs n n M (λ a, tenant_known (Some (policy_tenant_id a))) (PolicyRepo.update tenant id i).
Proof. apply runs_map_err. call policy_update_known. Qed.
Lemma route_create_runs i :
  runs (S n) n M (λ a, tenant_known (route_tenant_id a)) (RouteRepo.create i).
Proof. eapply runs_bind; [apply runs_uuid|intros id]. apply runs_map_err. call route_create_known. Qed.
Lemma route_update_runs id i :
  runs n n M (λ a, tenant_known (route_tenant_id a)) (RouteRepo.update id i).
Proof. apply runs_map_err. call route_update_known. Qed.

Lemma tenant_delete_runs id :
  runs n n M (λ a, tenant_known (Some (tenant_id a))) (TenantRepo.soft_delete id).
Proof.
  apply runs_transaction. eapply (runs_bind _ n _ _ (λ _ _, True)).
  - apply runs_map_err. by call I.
  - intros _. check. intros t d a d' b Hwf Hst [= ->]%ok_or_ok. by eapply tenant_delete_known.
Qed.
Lemma sa_row_runs f tenant id :
  (∀ t r, sa_tenant_id (f t r) = sa_tenant_id r) →
  statement (λ t d, (ServiceAccountRepo.stmt_update_scoped f tenant id t d).2) →
  runs n n M (λ a, tenant_known (Some (sa_tenant_id a)))
    (row ← query (ServiceAccountRepo.stmt_update_scoped f tenant id);
     lift (ok_or (ServiceAccountRepo.sa_not_found id) row)).
Proof.
  intros Hf Hst. check. intros t d a d' b Hwf Hrun [= ->]%ok_or_ok. by eapply sa_update_known.
Qed.
Lemma policy_delete_runs tenant id :
  runs n n M (λ _, tenant_known (Some tenant)) (PolicyRepo.delete_policy tenant id).
Proof.
  check. intros t d a d' [] Hwf Hrun Hz%throw_if_ok. by eapply policy_delete_known.
Qed.
Lemma key_register_runs i : runs (S n) n M (λ _, tenant_known None) (KeyRepo.register_key i).
Proof. eapply runs_bind; [apply runs_uuid|intros id]. apply runs_map_err. by call I. Qed.
Lemma key_revoke_runs id sa : runs n n M (λ _, tenant_known None) (KeyRepo.revoke_scoped id sa).
Proof. by check. Qed.
Lemma bind_runs sa policy : runs (S n) n M (λ _, tenant_known None) (PolicyRepo.create_binding sa policy).
Proof. eapply runs_bind; [apply runs_uuid|intros id]. apply runs_map_err. by call I. Qed.
Lemma unbind_runs sa policy : runs n n M (λ _, tenant_known None) (PolicyRepo.delete_binding sa policy).
Proof. by check. Qed.
Lemma route_delete_runs id : runs n n M (λ _, tenant_known None) (RouteRepo.delete_route id).
Proof. by check. Qed.
End operations.

Section complete.
Context `{!Backends, !UuidLib, !CursorCodec, !Crypto, !KeyCodec}.
Implicit Types (w : World) (M : AuditTable).

Lemma redis_call_uuids {A} (f : Z → Redis → A * Redis) : preserves uuids (redis_call f).
Proof.
  intros w. unfold redis_call. pose proof (tick_frame uuids w ltac:(done)) as Ht.
  destruct (tick w) as [flt w']. cbn in Ht.
  destruct (f (clock w') (redis w')) as [a r]. by destruct flt as [[]|].
Qed.
Lemma redis_call_idle {A} (f : Z → Redis → A * Redis) w :
  script w = [] → script (redis_call f w).2 = [].
Proof.
  intros Hs. unfold redis_call. rewrite tick_idle by done. by destruct (f _ _).
Qed.
Lemma invalidate_uuids b key_id : preserves uuids (invalidate b key_id).
Proof.
  unfold invalidate, redis_del. apply preserves_bind; [done|]. intros _.
  destruct b; [|done]. apply preserves_bind; [|done].
  apply preserves_try, redis_call_uuids.
Qed.
Lemma invalidate_without_delay b key_id w : script w = [] → script (invalidate b key_id w).2 = [].
Proof.
  intros Hs. unfold invalidate, redis_del, mbind, io_bind, io_modify, io_try. destruct b; [|done].
  match goal with |- context [redis_call ?f ?w1] =>
    pose proof (redis_call_idle f w1 Hs) as Hr; by destruct (redis_call f w1) end.
Qed.

Ltac solve_cache :=
  apply writes_cache;
  [intros ?; repeat case_match; try done; apply invalidate_key_db
  |intros ?; repeat case_match; try done; apply invalidate_uuids
  |intros ? ?; repeat case_match; try done; by apply invalidate_without_delay|intros].
Ltac solve_op :=
  eapply writes_op; [apply runs_map_err|intros];
  [first [apply tenant_create_runs|apply tenant_update_runs|apply tenant_delete_runs
         |apply sa_create_runs|apply sa_row_runs; [done|constructor]|apply key_register_runs
         |apply key_revoke_runs|apply policy_create_runs|apply policy_update_runs
         |apply policy_delete_runs|apply bind_runs|apply unbind_runs|apply route_create_runs
         |apply route_update_runs|apply route_delete_runs]|].

Lemma handle_writes M state ctx req :
  is_Some (action_of req) → writes 2 M (λ _, True) (describes ctx req) (handle state ctx req).
Proof.
  intros [[action target] Hact].
  destruct req; try done; cbn [handle];
    unfold create_tenant, update_tenant, delete_tenant, create_service_account,
    update_service_account, suspend_service_account, activate_service_account, register_key,
    revoke_key, create_policy, update_policy, delete_policy, create_binding, delete_binding,
    create_route, update_route, delete_route, storage, invalidate_policies,
    invalidate_account_policy, invalidate_routes, invalidate_policy, invalidate_all_policies,
    invalidate_all_routes;
  repeat match goal with
  | |- writes _ _ _ _ (lift _ ≫= _) => apply writes_lift; intros
  | |- writes _ _ _ _ (new_uuid ≫= _) => eapply writes_op; [apply runs_uuid|intros]
  | |- writes _ _ _ _ (io_map_err _ _ ≫= _) => solve_op
  | |- writes _ _ _ _ (emit_audit _ _ _ _ _ _ ≫= _) => by apply writes_emit
  | |- writes _ _ _ _ (_ ≫= _) => solve_cache
  end.
Qed.

(** C19: the audit trail is complete and truthful. Whatever faults
    occur, a request that reads or that fails adds no event, and one that changes
    something adds at most one, which names the acting administrator, the action and the
    kind of target; when its round trips go through, it adds exactly one. No event is ever
    altered or removed. *)
Theorem admin_changes_are_audited state ctx req w r w' :
  handle state ctx req w = (r, w') →
  let before := audit_events (db w) in
  let after := audit_events (db w') in
  (after = before ∨ one_more (describes ctx req) before after) ∧
  (is_ok r = false → after = before) ∧
  (is_read req = true → after = before) ∧
  (is_ok r = true → is_read req = false → calm 2 before w →
   one_more (describes ctx req) before after).
Proof.
  intros Hrun before after.
  pose proof (handle_ends before state ctx req w r w' eq_refl Hrun) as Hends.
  assert (is_read req = true → action_of req = None) as Hread by (by destruct req).
  split_and!.
  - destruct r; [done|by left].
  - by destruct r.
  - intros Hr%Hread. destruct r; [|done].
    destruct Hends as [?|(ev & _ & (_ & _ & Hact) & _)]; [done|]. by rewrite Hr in Hact.
  - destruct r as [a|]; [|done]. intros _ Hw Hcalm.
    apply (handle_writes before state ctx req) in Hrun; try done. by destruct req.
Qed.
End complete.

(** ** Concrete runs *)

Section runs_audit.
#[local] Existing Instances mem_backends decimal_uuid bits_codec toy_crypto sample_codec.

Definition audited_world : @World mem_backends :=
  @mkWorld mem_backends 1000 [] [201; 202] ∅ sample_db
    (@moka_new _ _ (@be_keys mem_backends) 60) (@moka_new _ _ (@be_policies mem_backends) 30)
    (@moka_new _ _ (@be_routes mem_backends) 60) (@moka_new _ _ (@be_admins mem_backends) 30).
Definition rename_acme : AdminRequest :=
  PatchTenant 1 (mkUpdateTenantRequest (Some "Acme Corp") None).
Definition by_ops : AdminContext := mkAdminContext 31 "ops" RoleAdmin.
Definition audited_state : AppState := mkAppState 300 true true (Some true) true true None true true.
#[local] Abbreviation renamed := (handle audited_state by_ops rename_acme audited_world).

Lemma admin_changes_are_audited_witness :
  is_ok renamed.1 = true ∧
  ∃ ev, audit_events (db renamed.2) = {[ae_id ev := ev]} ∧
    ae_actor_id ev = "31" ∧ ae_action ev = "tenant.updated".
Proof.
  assert (is_ok renamed.1 = true) as Hok by (vm_compute; reflexivity). split; [exact Hok|].
  destruct (admin_changes_are_audited audited_state by_ops rename_acme audited_world
    renamed.1 renamed.2 (run_answer _ _ eq_refl)) as (_ & _ & _ & Hone).
  destruct (Hone Hok eq_refl) as (ev & _ & (_ & Hactor & Hact) & Hafter).
  - split; [reflexivity|exact sample_db_wf|reflexivity|cbn; lia|].
    repeat constructor; reflexivity.
  - exists ev. split; [exact Hafter|]. injection Hact as Ha _. split; [exact Hactor|].
    symmetry. exact Ha.
Defined.
End runs_audit.
