(* ===== verification/Server.v ===== *)
(** * The data plane pipeline
      (src/gateway/crates/gateway/src/server.rs, [build_router] and the placeholder handlers)

    The four data plane endpoints behind their two layers: authentication, then the rate
    limit middleware, then the placeholder handler; errors become responses at the layer
    that returns them. Unauthenticated traffic costs the accounts nothing, and a client
    that is turned away for its rate is told when to come back. *)

From stdpp Require Import options.
From S2P Require Import Prelude Rust Types Errors Json Models PolicyMerge Backends Db World.
From S2P Require Import Repositories RateLimit Concurrency Signing AppState KeyStore Auth.
From S2P Require Import PolicyEngine PolicyMiddleware.
#[local] Set Default Proof Using "Type*".

(** The routes of the data plane. *)
Inductive Endpoint : Type := ChatCompletions | Responses | Embeddings | ListModels.

(** What the pipeline uses of axum and serde: the [Bytes] extractor, which may reject a
    body with a response of its own, and the serialisation of the error envelope. *)
Class Web : Type := {
  extract_bytes : string → result Response string;
  json_to_vec : ErrorResponse → result string string
}.
Class WebLaws `{!Web} : Prop := {
  (** the rejections of the extractor are 400, 413 and 415 *)
  extract_bytes_status body r : extract_bytes body = Err r → resp_status r ∈ [400; 413; 415];
  (** serialising a struct of strings does not fail *)
  json_to_vec_total r : is_ok (json_to_vec r) = true
}.

Section pipeline.
Context `{!Backends, !UuidLib, !HashOrder, !KeyCodec, !Crypto, !Web}.

Definition data_plane_get_placeholder : Response := mkResponse 200 ∅ "".
Definition data_plane_post_placeholder (body : string) : Response :=
  match extract_bytes body with
  | Ok _ => mkResponse 200 ∅ ""
  | Err rejection => rejection
  end.

(** The handler of a route. The body is the one the authentication layer collected; it
    does not pass a request on whose body could not be read. *)
Definition endpoint_handler (ep : Endpoint) (req : Request) : Handler := λ _ w,
  match ep with
  | ChatCompletions | Responses | Embeddings =>
    (data_plane_post_placeholder (match req_body req with Ok b => b | Err _ => "" end), w)
  | ListModels => (data_plane_get_placeholder, w)
  end.

(** A layer that returns [Result<Response, GatewayError>], as a service. *)
Definition respond (m : IO World GatewayError (option Response)) (w : World)
    : option Response * World :=
  match m w with
  | (Ok r, w') => (r, w')
  | (Err e, w') => (Some (into_response json_to_vec e), w')
  end.

Definition limited (state : AppState) (ep : Endpoint) (ctx : AuthContext) (req : Request)
    : IO World GatewayError (option Response) := λ w,
  let '(r, w') := respond (rate_limit_middleware state (Some ctx) (endpoint_handler ep req)) w in
  (Ok r, w').

(** [data_plane] of [build_router]: the layer added last runs first. *)
Definition data_plane (state : AppState) (ep : Endpoint) (req : Request)
    : World → option Response * World :=
  respond (auth_middleware state (limited state ep) req).
End pipeline.

(** ** What a refused authentication leaves alone *)

Definition limiter_key (k : string) : bool := starts_with k "rl:" || starts_with k "concurrency:".

Section frame.
Context `{!Backends, !BackendsLaws}.
Implicit Types (w : World).

Record untouched w w' : Prop := mkUntouched {
  ut_clock : clock w ≤ clock w';
  ut_db : db w' = db w;
  ut_policies : policy_l1 w' = policy_l1 w;
  ut_routes : route_l1 w' = route_l1 w;
  ut_admins : admin_l1 w' = admin_l1 w;
  ut_limits k : limiter_key k = true →
    peek (clock w') (redis w') k = peek (clock w) (redis w) k ≫= live (clock w')
}.

#[global] Instance untouched_preorder : PreOrder untouched.
Proof.
  split.
  - intros w. split; try done. intros k _. by apply peek_later.
  - intros w1 w2 w3 [Hc Hd Hp Hr Ha Hk] [Hc' Hd' Hp' Hr' Ha' Hk'].
    split; try congruence; [lia|]. intros k Hl. rewrite Hk', Hk by done.
    destruct (peek (clock w1) (redis w1) k); cbn; [by apply live_live|done].
Qed.

Lemma tick_untouched w : untouched w (tick w).2.
Proof.
  split; try by apply tick_frame.
  - apply tick_clock.
  - intros k _. rewrite (tick_frame redis w) by done. apply peek_later, tick_clock.
Qed.

(** [m] leaves the world untouched, whatever its outcome. *)
Definition leaves {E A} (m : IO World E A) : Prop := ∀ w, untouched w (m w).2.
(** The same, only of the runs that fail. *)
Definition leaves_failing {E A} (m : IO World E A) : Prop :=
  ∀ w e w', m w = (Err e, w') → untouched w w'.

Lemma leaves_bind {E A B} (m : IO World E A) (f : A → IO World E B) :
  leaves m → (∀ a, leaves (f a)) → leaves (m ≫= f).
Proof.
  intros Hm Hf w. unfold mbind, io_bind. specialize (Hm w).
  destruct (m w) as [[a|e] w1]; cbn in *; [|done]. etrans; [exact Hm|]. apply Hf.
Qed.
Lemma leaves_failing_bind {E A B} (m : IO World E A) (f : A → IO World E B) :
  leaves m → (∀ a, leaves_failing (f a)) → leaves_failing (m ≫= f).
Proof.
  intros Hm Hf w e w' [Hrun|(a & w1 & Hrun & Hrest)]%io_bind_err; specialize (Hm w);
    rewrite Hrun in Hm; [done|]. etrans; [exact Hm|]. by eapply Hf.
Qed.
Lemma leaves_ret {E A} (a : A) : leaves (mret a : IO World E A).
Proof. by intros w. Qed.
Lemma leaves_lift {E A} (r : result E A) : leaves (lift r).
Proof. by intros w. Qed.
Lemma leaves_reads {E A} (f : World → A) : leaves (io_reads f : IO World E A).
Proof. by intros w. Qed.
Lemma leaves_map_err {E F A} (g : E → F) (m : IO World E A) : leaves m → leaves (io_map_err g m).
Proof. intros Hm w. specialize (Hm w). unfold io_map_err. by destruct (m w). Qed.
Lemma leaves_try {E F A} (m : IO World E A) : leaves m → leaves (io_try m : IO World F _).
Proof. intros Hm w. specialize (Hm w). unfold io_try. by destruct (m w). Qed.

Lemma set_redis_untouched r w :
  (∀ k, limiter_key k = true → peek (clock w) r k = peek (clock w) (redis w) k) →
  untouched w (set_redis r w).
Proof.
  intros Hr. split; try done. intros k Hk. cbn. rewrite Hr by done. by apply peek_later.
Qed.
Lemma leaves_redis_call {A} (f : Z → Redis → A * Redis) :
  (∀ t st k, limiter_key k = true → peek t (f t st).2 k = peek t st k) → leaves (redis_call f).
Proof.
  intros Hf w. unfold redis_call. pose proof (tick_untouched w) as Ht.
  destruct (tick w) as [flt w1]. cbn [snd] in Ht. specialize (Hf (clock w1) (redis w1)).
  destruct (f (clock w1) (redis w1)) as [a r].
  destruct flt as [[]|]; cbn [snd]; [done| |]; (etrans; [exact Ht|]); by apply set_redis_untouched.
Qed.
Lemma leaves_select {A} (q : Z → Db → result SqlxError A) : leaves (query (λ t d, (q t d, d))).
Proof.
  apply leaves_map_err. intros w. unfold db_call. pose proof (tick_untouched w) as Ht.
  destruct (tick w) as [flt w1]. cbn [snd] in Ht.
  destruct flt as [[]|]; cbn [snd]; [done| |]; (etrans; [exact Ht|]);
    (split; try done; intros k _; by apply peek_later).
Qed.
End frame.

#[export] Hint Resolve leaves_ret leaves_lift leaves_reads leaves_select : gate.
Ltac solve_leaves :=
  repeat match goal with
  | |- leaves (_ ≫= _) => apply leaves_bind; [|intros]
  | |- leaves (io_map_err _ _) => apply leaves_map_err
  | |- leaves (io_try _) => apply leaves_try
  | |- leaves (match ?x with _ => _ end) => destruct x
  | |- leaves _ => solve [eauto with gate]
  end.

Section unauthenticated.
Context `{!Backends, !BackendsLaws, !UuidLib, !HashOrder, !KeyCodec, !Crypto, !Web}.
Implicit Types (w : World).

Lemma cached_not_limiter key_id k : limiter_key k = true → k ≠ redis_key key_id.
Proof. intros Hk ->. discriminate Hk. Qed.
Lemma nonce_not_limiter sa n k : limiter_key k = true → k ≠ nonce_key sa n.
Proof. intros Hk ->. discriminate Hk. Qed.

Lemma set_key_l1_untouched c w : untouched w (set_key_l1 c w).
Proof. split; try done. intros k _. by apply peek_later. Qed.
Lemma l1_get_leaves key_id : leaves (l1_get key_id).
Proof.
  intros w. unfold l1_get. destruct (moka_get _ _ _) as [o c]. apply set_key_l1_untouched.
Qed.
Lemma l1_insert_leaves key_id key : leaves (l1_insert key_id key).
Proof. intros w. apply set_key_l1_untouched. Qed.
Lemma redis_get_leaves key : leaves (redis_get key).
Proof. by apply leaves_redis_call. Qed.
Lemma set_in_redis_leaves key_id key : leaves (set_in_redis key_id key).
Proof.
  unfold set_in_redis, redis_set_ex. solve_leaves; apply leaves_redis_call; intros t st k Hk; cbn.
  by rewrite peek_set_ex, decide_False by (try done; by apply cached_not_limiter).
Qed.
#[local] Hint Resolve l1_get_leaves l1_insert_leaves redis_get_leaves set_in_redis_leaves : gate.

Lemma lookup_leaves b key_id : leaves (get_by_key_id b key_id).
Proof. unfold get_by_key_id, populate, get_from_redis, KeyRepo.get_by_key_id. solve_leaves. Qed.
Lemma verify_key_leaves b key_id : leaves (verify_key b key_id).
Proof. unfold verify_key. solve_leaves. apply lookup_leaves. Qed.
Lemma verify_sa_leaves key : leaves (verify_service_account key).
Proof. unfold verify_service_account, ServiceAccountRepo.get_with_tenant_status. solve_leaves. Qed.
Lemma check_nonce_leaves sa n ttl : 0 < ttl → leaves (check_nonce sa n ttl).
Proof.
  intros Httl. unfold check_nonce, redis_set_nx_ex. solve_leaves.
  apply leaves_redis_call. intros t st k Hk. rewrite peek_set_nx_ex by done.
  apply decide_False. intros [Heq _]. by eapply nonce_not_limiter.
Qed.

Lemma authenticate_leaves_failing state req :
  0 < timestamp_skew_secs state → leaves_failing (authenticate state req).
Proof.
  intros Hskew. unfold authenticate, validate_timestamp, now_secs.
  repeat match goal with
  | |- leaves_failing (io_try _ ≫= _) => fail 1
  | |- leaves_failing _ => apply leaves_failing_bind; [|intros]
  end; auto using leaves_lift, verify_key_leaves, verify_sa_leaves, check_nonce_leaves.
  - solve_leaves.
  - intros w e w'. unfold mbind, io_bind, io_try. by destruct (KeyRepo.update_last_used _ w).
Qed.

(** A request that fails authentication is answered with
    that error and gets no further. It leaves the database, the policy, route and admin
    caches as they were, and every rate limit and concurrency counter, of any account and
    of the gateway as a whole, at its value (an entry may at most expire): traffic without
    a valid signature cannot use up anybody's quota. *)
Lemma unauthenticated_spends_nothing state ep req w e w' :
  0 < timestamp_skew_secs state →
  authenticate state req w = (Err e, w') →
  data_plane state ep req w = (Some (into_response json_to_vec e), w') ∧
  db w' = db w ∧ policy_l1 w' = policy_l1 w ∧ route_l1 w' = route_l1 w ∧
  admin_l1 w' = admin_l1 w ∧
  ∀ sa W k, k ∈ [window_key (sa_prefix sa) W; window_key "rl:global" W; concurrency_key sa] →
    peek (clock w') (redis w') k = peek (clock w') (redis w) k.
Proof.
  intros Hskew Hrun.
  destruct (authenticate_leaves_failing state req Hskew w e w' Hrun) as [Hc Hd Hp Hr Ha Hk].
  split_and!; try done.
  - unfold data_plane, respond, auth_middleware, mbind, io_bind. rewrite Hrun. reflexivity.
  - intros sa W k Hin. rewrite Hk; [symmetry; by apply peek_later|].
    repeat (apply elem_of_cons in Hin as [->|Hin]; [done|]). by apply elem_of_nil in Hin.
Qed.
End unauthenticated.

(** ** Who is told to come back, and when *)

(** A 429 carries a delay of at most [max 1 win] seconds. *)
Definition told (win : Z) (e : GatewayError) : Prop :=
  status_code e = 429 →
  ∃ code message s, e = ERateLimit code message (Some s) ∧ 0 ≤ s ≤ Z.max 1 win.

Section told.
Context `{!Backends}.
Implicit Types (w : World).

Definition fails_with {E A} (Q : E → Prop) (m : IO World E A) : Prop :=
  ∀ w e w', m w = (Err e, w') → Q e.

Lemma fails_with_bind {E A B} Q (m : IO World E A) (f : A → IO World E B) :
  fails_with Q m → (∀ a, fails_with Q (f a)) → fails_with Q (m ≫= f).
Proof.
  intros Hm Hf w e w' [Hrun|(a & w1 & _ & Hrest)]%io_bind_err; [by eapply Hm|by eapply Hf].
Qed.
Lemma fails_with_ret {E A} Q (a : A) : fails_with Q (mret a : IO World E A).
Proof. by intros w e w'. Qed.
Lemma fails_with_lift {E A} (Q : E → Prop) (r : result E A) :
  (∀ e, r = Err e → Q e) → fails_with Q (lift r).
Proof. intros HQ w e w' [Hr _]%lift_eq. by apply HQ. Qed.
Lemma fails_with_map_err {E F A} (Q : F → Prop) (g : E → F) (m : IO World E A) :
  (∀ e, Q (g e)) → fails_with Q (io_map_err g m).
Proof. intros HQ w e w' (e0 & _ & ->)%io_map_err_err. apply HQ. Qed.
Lemma fails_with_try {E F A} (Q : F → Prop) (m : IO World E A) :
  fails_with Q (io_try m : IO World F _).
Proof. intros w e w'. unfold io_try. by destruct (m w). Qed.
Lemma fails_with_reads {E A} (Q : E → Prop) (f : World → A) :
  fails_with Q (io_reads f : IO World E A).
Proof. by intros w e w'. Qed.

(** A pure step whose errors all have another status. *)
Definition quiet {A} (r : result GatewayError A) : Prop :=
  ∀ e, r = Err e → status_code e ≠ 429.
Lemma quiet_told {A} win (r : result GatewayError A) : quiet r → fails_with (told win) (lift r).
Proof. intros Hq. apply fails_with_lift. intros e He Hs. by destruct (Hq e He). Qed.
Lemma quiet_bind {A B} (r : result GatewayError A) (f : A → result GatewayError B) :
  quiet r → (∀ a, quiet (f a)) → quiet (r ≫= f).
Proof. intros Hr Hf. destruct r as [a|e]; [apply Hf|]. intros e' [= <-]. by apply Hr. Qed.
Lemma quiet_ok {A} (a : A) : quiet (Ok a).
Proof. by intros e. Qed.
Lemma quiet_err {A} e : status_code e ≠ 429 → quiet (Err e : result GatewayError A).
Proof. by intros He e' [= <-]. Qed.
Lemma quiet_throw b e : status_code e ≠ 429 → quiet (throw_if b e).
Proof. intros He e' [_ ->]%throw_if_err. done. Qed.
Lemma quiet_ok_or {A} e (o : option A) : status_code e ≠ 429 → quiet (ok_or e o).
Proof. intros He. by destruct o; [apply quiet_ok|apply quiet_err]. Qed.
Lemma quiet_map_err {E A} (g : E → GatewayError) (r : result E A) :
  (∀ e, status_code (g e) ≠ 429) → quiet (map_err g r).
Proof. intros Hg. destruct r; [by apply quiet_ok|by apply quiet_err]. Qed.
End told.

#[export] Hint Resolve fails_with_ret fails_with_try fails_with_reads quiet_told quiet_ok
  quiet_err quiet_throw quiet_ok_or quiet_map_err : gate.
#[export] Hint Extern 4 (status_code _ ≠ 429) => discriminate : gate.
Ltac solve_quiet :=
  repeat match goal with
  | |- fails_with _ (_ ≫= _) => apply fails_with_bind; [|intros]
  | |- fails_with _ (lift _) => apply quiet_told
  | |- fails_with _ (io_map_err _ _) => apply fails_with_map_err; intros; discriminate
  | |- fails_with _ (match ?x with _ => _ end) => destruct x
  | |- quiet (_ ≫= _) => apply quiet_bind; [|intros]
  | |- quiet (match ?x with _ => _ end) => destruct x
  | |- _ => solve [eauto with gate]
  end.

Section answers.
Context `{!Backends, !BackendsLaws, !UuidLib, !HashOrder, !KeyCodec, !Crypto, !Web}.
Implicit Types (w : World).

Lemma authenticate_told win state req : fails_with (told win) (authenticate state req).
Proof.
  unfold authenticate, extract_auth_headers, extract_header, verify_body_hash, validate_timestamp,
    now_secs, validate_timestamp_at, validate_nonce_length, require_key_store, verify_key,
    require_db, verify_service_account, parse_public_key, verify_signature, require_redis,
    check_nonce, denied, unavailable.
  solve_quiet.
Qed.
Lemma get_or_evaluate_told win auth : fails_with (told win) (get_or_evaluate auth).
Proof.
  unfold get_or_evaluate. apply fails_with_bind; [|intros []; solve_quiet].
  intros w e w'. unfold policy_cache_get. by destruct (moka_get _ _ _).
Qed.
Lemma take_permit_told win state sa ev : fails_with (told win) (take_permit state sa ev).
Proof.
  unfold take_permit, require_concurrency_limiter, unavailable. destruct (concurrency_limit ev) as [limit|];
    [|solve_quiet].
  apply fails_with_bind; [solve_quiet|intros _]. apply fails_with_bind; [|intros; solve_quiet].
  unfold acquire, concurrency_unavailable. do 2 (apply fails_with_bind; [solve_quiet|intros]).
  case_match. destruct (_ =? 0); [|solve_quiet]. apply fails_with_lift. intros e [= <-] _.
  do 3 eexists. split; [reflexivity|]. lia.
Qed.

(** A window ends at most one window after any instant in it. *)
Lemma reset_at_bound current previous now win limit : 0 ≤ now → 0 < win →
  wc_reset_at (build_check_result current previous now win limit) ≤ now + win.
Proof.
  intros Hn Hw. cbn. unfold as_u64. pose proof (Z.div_pos now win Hn Hw).
  etrans; [apply Z.mod_le; [nia|done]|].
  pose proof (Z.mul_div_le now win Hw). lia.
Qed.

Lemma reject_told {A} win prefix limit msg res w0 w1 w e w' :
  0 < win → check_and_increment win prefix limit w0 = (Ok res, w1) → clock w1 ≤ clock w →
  reject (A:=A) msg res w = (Err e, w') → told win e.
Proof.
  intros Hwin ([Hc0 Hc1] & c & p & _ & _ & ->)%check_ok Hc (_ & s & [= ->] & Hs & Hretry)%reject_err _.
  do 3 eexists. split; [reflexivity|]. split; [done|]. rewrite Hretry by lia.
  pose proof (reset_at_bound c p (clock w0 / 1000) win limit
    (Z.div_pos _ 1000 Hc0 ltac:(lia)) Hwin).
  assert (clock w0 / 1000 ≤ clock w / 1000) by (apply Z.div_le_mono; lia). lia.
Qed.

Lemma rollback_advances ev sa : advances (rollback_sa_counter ev sa).
Proof.
  unfold rollback_sa_counter. apply advances_bind.
  - apply advances_try. intros w. unfold now_unix_secs. by destruct (_ <=? _).
  - intros []; solve_advances.
Qed.

Lemma evaluate_limits_told ev sa evaluated :
  0 < window_secs ev → fails_with (told (window_secs ev)) (evaluate_limits ev sa evaluated).
Proof.
  intros Hwin. unfold evaluate_limits. apply fails_with_bind.
  { destruct (rpm_limit evaluated) as [rpm|]; [|solve_quiet].
    intros w e w' [(? & _ & ->)%io_map_err_err|(res & w1 & Hok%io_map_err_ok & Hrest)]%io_bind_err;
      [done|].
    destruct (wc_allowed res); [done|]. eapply reject_told; [done|exact Hok| |exact Hrest]. done. }
  intros sa_result w e w'
    [(? & _ & ->)%io_map_err_err|(res & w1 & Hok%io_map_err_ok & Hrest)]%io_bind_err; [done|].
  destruct (wc_allowed res); [done|].
  apply io_bind_err in Hrest as [Herr|([] & w2 & Hroll & Hrej)];
    [exfalso; revert Herr; apply rollback_no_err|].
  eapply reject_told; [done|exact Hok| |exact Hrej].
  destruct (bool_decide _); [|by injection Hroll as <-].
  pose proof (rollback_advances ev sa w1) as Ha. by rewrite Hroll in Ha.
Qed.

Lemma handler_told Q next ev : fails_with Q (run_handler next ev).
Proof. intros w e w'. unfold run_handler. by destruct (next ev w). Qed.
Lemma give_back_told Q permit : fails_with Q (give_back permit).
Proof. unfold give_back, release_inner. solve_quiet. Qed.

Lemma middleware_told state auth next ev :
  rate_limit_evaluator state = Some ev → 0 < window_secs ev →
  fails_with (told (window_secs ev)) (rate_limit_middleware state auth next).
Proof.
  intros Hev Hwin. unfold rate_limit_middleware, require_rate_limit_evaluator. rewrite Hev.
  cbn [ok_or]. unfold require_redis, require_policy_cache, require_db, unavailable.
  repeat first
    [ apply get_or_evaluate_told | by apply evaluate_limits_told | apply take_permit_told
    | apply handler_told | apply give_back_told
    | match goal with |- fails_with ?Q (lift (Ok ?x) ≫= ?f) => change (fails_with Q (f x)) end
    | apply fails_with_bind; [|intros ?] ]; solve_quiet.
Qed.
End answers.

Section told_answers.
Context `{!Backends, !BackendsLaws, !UuidLib, !HashOrder, !KeyCodec, !Crypto, !Web, !WebLaws}.
Implicit Types (w : World).

(** The response to a 429 says when. *)
Definition says_when (win : Z) (r : Response) : Prop :=
  resp_headers r !! "content-type" = Some "application/json" ∧
  ∃ s, resp_headers r !! "retry-after" = Some (pretty s) ∧ 0 ≤ s ≤ Z.max 1 win.

Lemma into_response_says_when win e :
  told win e → resp_status (into_response json_to_vec e) = 429 →
  says_when win (into_response json_to_vec e).
Proof.
  intros Htold. unfold into_response.
  pose proof (json_to_vec_total (to_error_response e)) as Htot.
  destruct (json_to_vec (to_error_response e)) as [bytes|]; [clear Htot|discriminate Htot].
  intros Hs. destruct (Htold ltac:(destruct e as [| |? ? []| | | | | | | |]; by repeat case_match))
    as (code & message & s & -> & Hb).
  rewrite pretty_header_ok by lia. split; cbn.
  - by rewrite lookup_insert_ne, lookup_singleton_eq.
  - exists s. by rewrite lookup_insert_eq.
Qed.

(** The handlers answer with no 429 of their own, and neither do the headers make one. *)
Lemma endpoint_status ep req ev w : resp_status (endpoint_handler ep req ev w).1 ≠ 429.
Proof.
  assert (∀ b, resp_status (data_plane_post_placeholder b) ≠ 429) as Hpost.
  { intros b. unfold data_plane_post_placeholder. destruct (extract_bytes b) as [|r] eqn:Hx; [done|].
    apply extract_bytes_status in Hx. intros Hr. rewrite Hr in Hx. set_solver by lia. }
  destruct ep; [apply Hpost..|done].
Qed.
Lemma inject_status response outcome r :
  inject_rate_limit_headers response outcome = Some r → resp_status r = resp_status response.
Proof.
  unfold inject_rate_limit_headers, header_from_u64, mbind, option_bind.
  repeat case_match; try done. by intros [= <-].
Qed.

(** An answer of the middleware has the status of some run of the handler. *)
Lemma middleware_status state auth next w r w' :
  rate_limit_middleware state auth next w = (Ok (Some r), w') →
  ∃ ev w1, resp_status r = resp_status (next ev w1).1.
Proof.
  intros Hrun. unfold rate_limit_middleware, run_handler in Hrun. inv_res.
  match goal with H : (let '(r, w) := next ?ev ?w2 in _) = _ |- _ =>
    exists ev, w2; destruct (next ev w2) as [response w3]; injection H as <- <- end.
  by eapply inject_status.
Qed.

(** Whenever the data plane answers 429, the answer is the
    JSON error envelope with a Retry-After header whose value is at most the length of the
    rate limit window (one second for a concurrency limit). *)
Lemma rate_limited_client_told_when state ev ep req w r w' :
  rate_limit_evaluator state = Some ev → 0 < window_secs ev →
  data_plane state ep req w = (Some r, w') → resp_status r = 429 →
  says_when (window_secs ev) r.
Proof.
  intros Hev Hwin. unfold data_plane, respond at 1, auth_middleware, mbind, io_bind.
  destruct (authenticate state req w) as [[ctx|e] w1] eqn:Hauth.
  - unfold limited, respond.
    destruct (rate_limit_middleware _ _ _ w1) as [[[answer|]|e] w2] eqn:Hrun; [|done|];
      intros [= <- <-]; intros Hs.
    + apply middleware_status in Hrun as (evaluated & w3 & Heq).
      rewrite Heq in Hs. by apply endpoint_status in Hs.
    + apply into_response_says_when; [|done]. eapply (middleware_told state (Some ctx)); eauto.
  - intros [= <- <-]. apply into_response_says_when. by eapply authenticate_told.
Qed.
End told_answers.

(** ** Concrete runs *)

Section runs.
#[local] Existing Instances mem_backends decimal_uuid sorted_hash_order sample_codec toy_crypto.

Definition plain_web : Web := {|
  extract_bytes body := Ok body;
  json_to_vec r := Ok (ed_message (er_error r))
|}.
Lemma plain_web_laws : @WebLaws plain_web.
Proof. by split. Qed.
#[local] Existing Instance plain_web.

(** The sample key's account with a policy of five requests per minute. *)
Definition served_db : Db :=
  mkDb (tenants sample_db) (service_accounts sample_db) (service_account_keys sample_db)
    (policies limited_db) (bindings limited_db) ∅ ∅ ∅ ∅ ∅.
End runs.
