(* ===== verification/Pipeline.v ===== *)
(** * Requests in flight together
      (src/gateway/crates/gateway/src/policy/middleware.rs, rate_limit.rs, concurrency.rs)

    Any number of requests, of any accounts and in any number of processes, on their way
    through the rate limit middleware at once. Each is in one phase; a step takes one of
    them over its next clock reading or its next round trip to Redis, or something else
    happens. The limits of the parts, each proved for its own operations, hold for the
    whole under every interleaving, up to the late rollbacks the code makes. *)

From Stdlib Require Import Ascii.
From stdpp Require Import options.
From S2P Require Import Prelude Rust Types Errors Json Models PolicyMerge Backends Db World.
From S2P Require Import RateLimit Concurrency Recovery AppState KeyStore Auth PolicyEngine.
From S2P Require Import PolicyMiddleware Server.
#[local] Set Default Proof Using "Type*".

(** ** Phases

    The windows a request was granted in are remembered: [c] for its account, if the
    policy limits it, [g] for the whole gateway. A request carries the policy it was
    evaluated to: policies change while requests are under way. *)
Inductive Phase : Type :=
  | Arrived
  | AccountTimed (t : Z)
  | Counted (c : option Z)
  | GlobalTimed (c : option Z) (t : Z)
  | Exceeded (c : Z)
  | RollbackTimed (c t : Z)
  | RolledBack (c V : Z)
  | Granted (c : option Z) (g : Z)
  | Running (c : option Z) (g : Z) (permit : bool)
  | Finished (c : option Z) (g : Z)
  | Refused.
Record Flight : Type := mkFlight {
  fl_account : ServiceAccountId;
  fl_policy : EvaluatedPolicy;
  fl_phase : Phase
}.

Definition account_grant (p : Phase) : option Z :=
  match p with
  | Counted c | GlobalTimed c _ | Granted c _ | Running c _ _ | Finished c _ => c
  | Exceeded c | RollbackTimed c _ => Some c
  | _ => None
  end.
Definition global_grant (p : Phase) : option Z :=
  match p with Granted _ g | Running _ g _ | Finished _ g => Some g | _ => None end.
(** The last clock reading, while a round trip that uses it is due. *)
Definition timed (p : Phase) : option Z :=
  match p with AccountTimed t | GlobalTimed _ t | RollbackTimed _ t => Some t | _ => None end.
(** The window a rollback took a request from that was counted in another one. *)
Definition late_rollback (p : Phase) : option Z :=
  match p with RolledBack c V => if c =? V then None else Some V | _ => None end.

Definition passes (r : result StorageError WindowCheckResult) : bool :=
  match r with Ok res => wc_allowed res | Err _ => false end.

(** ** One request's next step *)

Section steps.
Context `{!Backends, !UuidLib}.
Context (ev : RateLimitEvaluator).

Abbreviation win := (window_secs ev).

Inductive advance (sa : ServiceAccountId) (pol : EvaluatedPolicy)
    : World → Phase → World → Phase → Prop :=
  | ad_unlimited w :
      rpm_limit pol = None → advance sa pol w Arrived w (Counted None)
  | ad_account_time w :
      is_Some (rpm_limit pol) → advance sa pol w Arrived w (AccountTimed (clock w))
  | ad_account w t rpm r w' :
      rpm_limit pol = Some rpm →
      window_script win (sa_prefix sa) rpm (t / 1000) w = (r, w') →
      clock w' ≤ t + win * 1000 →
      advance sa pol w (AccountTimed t) w'
        (if passes r then Counted (Some (t / 1000 / win)) else Refused)
  | ad_global_time c w : advance sa pol w (Counted c) w (GlobalTimed c (clock w))
  | ad_global c w t r w' :
      window_script win "rl:global" (global_rpm ev) (t / 1000) w = (r, w') →
      clock w' ≤ t + win * 1000 →
      advance sa pol w (GlobalTimed c t) w'
        (if passes r then Granted c (t / 1000 / win)
         else match r, c with Ok _, Some V => Exceeded V | _, _ => Refused end)
  | ad_rollback_time c w : advance sa pol w (Exceeded c) w (RollbackTimed c (clock w))
  | ad_rollback c w t r w' :
      redis_call (λ t', cmd_incrby t' (window_key (sa_prefix sa) (t / 1000 / win)) (-1)) w
        = (r, w') →
      advance sa pol w (RollbackTimed c t) w' (RolledBack c (t / 1000 / win))
  | ad_no_permit c g w :
      concurrency_limit pol = None →
      advance sa pol w (Granted c g) w (Running c g false)
  | ad_acquire c g w limit r w' :
      concurrency_limit pol = Some limit → acquire sa limit w = (r, w') →
      advance sa pol w (Granted c g) w' (if is_ok r then Running c g true else Refused)
  | ad_done c g w : advance sa pol w (Running c g false) w (Finished c g)
  | ad_release c g w (p : ConcurrencyPermit) w' :
      release_inner (E:=GatewayError) (mkPermit (concurrency_key sa) false) w = (Ok p, w') →
      advance sa pol w (Running c g true) w' (Finished c g).

(** ** The whole *)

Record Pipeline : Type := mkPipeline { world : World; flights : gmap nat Flight }.

(** The policies an account's requests may come with: [in_force]. *)
Inductive flight_step (in_force : ServiceAccountId → EvaluatedPolicy → Prop)
    : Pipeline → Pipeline → Prop :=
  | fly_arrive i sa pol w fs :
      fs !! i = None → in_force sa pol →
      flight_step in_force (mkPipeline w fs) (mkPipeline w (<[i := mkFlight sa pol Arrived]> fs))
  | fly_advance i sa pol p q w w' fs :
      fs !! i = Some (mkFlight sa pol p) → advance sa pol w p w' q →
      flight_step in_force (mkPipeline w fs) (mkPipeline w' (<[i := mkFlight sa pol q]> fs)).

Inductive pstep (in_force : ServiceAccountId → EvaluatedPolicy → Prop)
    : Pipeline → Pipeline → Prop :=
  | fly_own s s' : flight_step in_force s s' → pstep in_force s s'
  (** handlers, other requests' authentication, administrators, time *)
  | fly_other w w' fs :
      clock w ≤ clock w' →
      (∀ k, limiter_key k = true →
         peek (clock w') (redis w') k = peek (clock w') (redis w) k) →
      pstep in_force (mkPipeline w fs) (mkPipeline w' fs).
End steps.

(** ** Counting flights *)

Definition tally (f : Flight → Z) (fs : gmap nat Flight) : Z := map_fold (λ _ x n, f x + n) 0 fs.

Lemma tally_empty f : tally f ∅ = 0.
Proof. apply map_fold_empty. Qed.
Lemma tally_insert f i x fs : fs !! i = None → tally f (<[i := x]> fs) = f x + tally f fs.
Proof. intros Hi. unfold tally.
  apply (map_fold_insert_L (λ _ x n, f x + n) 0 i x fs); [intros; lia|done]. Qed.
Lemma tally_update f i x y fs :
  fs !! i = Some x → tally f (<[i := y]> fs) = tally f fs - f x + f y.
Proof.
  intros Hi. rewrite <-insert_delete_eq, tally_insert by apply lookup_delete_eq.
  rewrite <-(insert_id fs i x) at 2 by done.
  rewrite <-(insert_delete_eq _ i x), tally_insert by apply lookup_delete_eq. lia.
Qed.
Lemma tally_le_on f g fs : (∀ i x, fs !! i = Some x → f x ≤ g x) → tally f fs ≤ tally g fs.
Proof.
  induction fs as [|i x fs Hi IH] using map_ind; intros Hfg; [by rewrite !tally_empty|].
  rewrite !tally_insert by done. pose proof (Hfg i x ltac:(apply lookup_insert_eq)).
  assert (tally f fs ≤ tally g fs); [|lia]. apply IH. intros j y Hj. apply (Hfg j).
  rewrite lookup_insert_ne; [done|congruence].
Qed.
Lemma tally_le f g fs : (∀ x, f x ≤ g x) → tally f fs ≤ tally g fs.
Proof. intros Hfg. by apply tally_le_on. Qed.
Lemma tally_sub f g fs : tally (λ x, f x - g x) fs = tally f fs - tally g fs.
Proof.
  induction fs as [|i x fs Hi IH] using map_ind; [by rewrite !tally_empty|].
  rewrite !tally_insert by done. lia.
Qed.

Definition ind (P : Prop) `{!Decision P} : Z := if decide P then 1 else 0.

(** ** The counters *)

Lemma win_53 win : 0 < win ≤ U32_MAX → 0 < win < 2 ^ 53.
Proof. unfold U32_MAX. lia. Qed.

Section counters.
Context `{!Backends, !BackendsLaws}.
Context (win : Z) (prefix : string) (W : Z) (Hwin : 0 < win ≤ U32_MAX).
Context (limit : Z) (Hlimit : 0 ≤ limit < U32_MAX).
Implicit Types (w : World).
#[local] Set Default Proof Using "All".

Abbreviation key := (window_key prefix W).
Abbreviation inv := (counter_inv win prefix W limit).

Lemma counter_at_le a b fuel t st :
  b ≤ a → counter_at win prefix W a fuel t st → counter_at win prefix W b fuel t st.
Proof.
  intros Hb [[Ha Hp]|(n & d & Hp & Hn & Hf & Hd)]; [left; split; [lia|done]|].
  right. exists n, d. split_and!; try done; [lia|]. destruct Hd; [left; lia|by right].
Qed.

(** A step that takes nothing from this counter. *)
Lemma inv_other a b fuel w w' :
  b ≤ a → clock w ≤ clock w' → peek (clock w') (redis w') key = peek (clock w') (redis w) key →
  inv a (fuel + 1) w → inv b fuel w'.
Proof.
  intros Hb Hc Hp Hinv.
  apply (counter_inv_frame win prefix W (win_53 _ Hwin) limit Hlimit _ _ w w') in Hinv; [|done..].
  apply (counter_inv_weaken win prefix W (win_53 _ Hwin) limit Hlimit) in Hinv.
  destruct Hinv as (? & ? & Hat). split_and!; [done|lia|]. intros Hl. by apply (counter_at_le a), Hat.
Qed.
Lemma inv_same a b fuel w : b ≤ a → inv a (fuel + 1) w → inv b fuel w.
Proof. intros Hb. by apply inv_other. Qed.

(** A decrement of the counter that goes with a request less. *)
Lemma counter_at_decr a fuel t st :
  0 ≤ fuel < 2 ^ 52 → counter_at win prefix W a (fuel + 1) t st →
  counter_at win prefix W (a - 1) fuel t (cmd_incrby t key (-1) st).2.
Proof.
  intros Hfuel Hat. pose proof (peek_incrby t key (-1) st key) as Hp. rewrite decide_True in Hp by done.
  unfold counter_at. rewrite Hp. right.
  destruct Hat as [[Ha ->]|(n & d & -> & Hn & Hb & Hd)]; cbn.
  - exists (-1), None. split_and!; [done|lia|lia|left; lia].
  - rewrite parse_i64_pretty by (unfold in_i64, I64_MIN, I64_MAX; lia).
    destruct (_ && _) eqn:Hr; [|unfold I64_MIN, I64_MAX in Hr; lia]. cbn.
    exists (n + -1), d. split_and!; [done|lia|lia|]. destruct Hd; [left; lia|by right].
Qed.

Lemma inv_decr a b fuel w V (r : result StorageError (option Z)) w' :
  0 ≤ fuel < 2 ^ 52 → b ≤ (if V =? W then a - 1 else a) →
  redis_call (λ t, cmd_incrby t (window_key prefix V) (-1)) w = (r, w') →
  inv a (fuel + 1) w → inv b fuel w'.
Proof.
  intros Hf Hb Hcall Hinv. unfold redis_call in Hcall.
  pose proof (tick_clock w) as Hc. pose proof (tick_frame redis w ltac:(done)) as Hr.
  destruct (tick w) as [flt w1]. cbn [fst snd] in *. rewrite Hr in Hcall.
  assert (b ≤ a) as Hba by (destruct (V =? W); lia).
  assert (redis w' = redis w ∧ clock w' = clock w1 ∨ clock w' = clock w1 ∧
    redis w' = (cmd_incrby (clock w1) (window_key prefix V) (-1) (redis w)).2) as Hcases.
  { destruct (cmd_incrby _ _ _ _) as [x st']. destruct flt as [[]|]; injection Hcall as _ <-;
      cbn; auto. }
  destruct Hcases as [[Hr' Hc']|[Hc' Hr']].
  { apply (inv_other a b fuel w w'); [done|lia|by rewrite Hr'|done]. }
  destruct (Z.eqb_spec V W) as [->|Hne].
  - pose proof Hinv as (Hck & Ha & Hat). split_and!; [lia|lia|]. intros Hl. rewrite Hc', Hr'.
    apply (counter_at_le (a - 1)); [lia|]. apply counter_at_decr; [done|].
    apply (counter_at_later win prefix W (win_53 _ Hwin) _ _ (clock w)); [lia|]. apply Hat. lia.
  - apply (inv_other a b fuel w w'); [done|lia| |done]. rewrite Hr', Hc', peek_incrby, decide_False; [done|].
    intros Heq. by apply Hne, (window_key_inj prefix W).
Qed.
End counters.

(** ** What each operation leaves alone *)

Section frames.
Context `{!Backends, !BackendsLaws, !UuidLib, !UuidLaws}.
Implicit Types (w : World).

Lemma redis_call_frame {A} (f : Z → Redis → A * Redis) w r w' k :
  redis_call f w = (r, w') → (∀ t st, peek t (f t st).2 k = peek t st k) →
  clock w ≤ clock w' ∧ peek (clock w') (redis w') k = peek (clock w') (redis w) k.
Proof.
  unfold redis_call. intros Hcall Hf. pose proof (tick_clock w) as Hc.
  pose proof (tick_frame redis w ltac:(done)) as Hr.
  destruct (tick w) as [flt w1]. cbn [fst snd] in *. rewrite Hr in Hcall.
  specialize (Hf (clock w1) (redis w)). destruct (f (clock w1) (redis w)) as [a st'].
  destruct flt as [[]|]; injection Hcall as _ <-; cbn; rewrite ?Hr; done.
Qed.

Lemma incrby_frame k n k' : k' ≠ k → ∀ t st, peek t (cmd_incrby t k n st).2 k' = peek t st k'.
Proof. intros Hk t st. by rewrite peek_incrby, decide_False. Qed.

Lemma window_script_frame win prefix limit now w r w' k :
  0 < win ≤ U32_MAX → window_script win prefix limit now w = (r, w') →
  k ≠ window_key prefix (now / win) →
  clock w ≤ clock w' ∧ peek (clock w') (redis w') k = peek (clock w') (redis w) k.
Proof.
  intros Hwin Hrun Hk. unfold window_script in Hrun.
  assert (as_u64 (win * 2) = win * 2) as Htt
    by (unfold as_u64, U32_MAX in *; apply Z.mod_small; lia).
  rewrite Htt in Hrun. unfold mbind, io_bind, lift in Hrun.
  destruct (redis_call _ w) as [x w1] eqn:Hcall.
  assert (w' = w1) as ->
    by (destruct x as [reply|]; [destruct (u64_pair reply)|]; by injection Hrun).
  eapply redis_call_frame; [exact Hcall|]. intros t st. by apply lua_sliding_window_frame; [lia|].
Qed.

Lemma lua_acquire_frame key limit ttl k : 0 < ttl → k ≠ key →
  ∀ t st, peek t (lua_concurrency_acquire key limit ttl t st).2 k = peek t st k.
Proof.
  intros Httl Hk t st. unfold lua_concurrency_acquire.
  pose proof (incrby_frame key 1 k Hk t st) as Hq1.
  destruct (cmd_incrby t key 1 st) as [[c|] st1]; cbn in *; [|done].
  assert (peek t (cmd_expire t key ttl st1) k = peek t st k) as Hq2
    by (by rewrite peek_expire, decide_False by done).
  destruct (limit <? c); [|done].
  pose proof (incrby_frame key (-1) k Hk t (cmd_expire t key ttl st1)) as Hq3.
  destruct (cmd_incrby t key (-1) _) as [[?|] st3]; cbn in *; congruence.
Qed.

Lemma acquire_frame sa limit w r w' k :
  acquire sa limit w = (r, w') → k ≠ concurrency_key sa →
  clock w ≤ clock w' ∧ peek (clock w') (redis w') k = peek (clock w') (redis w) k.
Proof.
  intros [Hc Hr]%acquire_effect Hk. split; [done|]. destruct Hr as [->| ->]; [done|].
  by apply lua_acquire_frame.
Qed.

Lemma release_frame sa w (p : ConcurrencyPermit) w' k :
  release_inner (E:=GatewayError) (mkPermit (concurrency_key sa) false) w = (Ok p, w') →
  k ≠ concurrency_key sa →
  clock w ≤ clock w' ∧ peek (clock w') (redis w') k = peek (clock w') (redis w) k.
Proof.
  unfold release_inner, mbind, io_bind, io_try. cbn [released permit_key]. intros Hrel Hk.
  destruct (redis_call _ w) as [x w1] eqn:Hcall. injection Hrel as _ <-.
  eapply redis_call_frame; [exact Hcall|]. by apply incrby_frame.
Qed.

(** The keys of the limiter. *)
Lemma sa_prefix_inj sa sa' V V' :
  window_key (sa_prefix sa) V = window_key (sa_prefix sa') V' → sa = sa'.
Proof.
  unfold window_key, sa_prefix. rewrite <-!str_app_assoc. intros Heq%str_app_inj_l.
  assert (∀ s, ":" +:+ s = String ":"%char s) as Hcons by done. rewrite !Hcons in Heq.
  apply str_sep_inj in Heq as [Ht _]; [|by apply id_display_free..].
  by apply (inj id_display) in Ht.
Qed.
Lemma window_not_slot prefix V sa :
  starts_with prefix "rl:" = true → window_key prefix V ≠ concurrency_key sa.
Proof.
  intros [rest ->]%starts_with_spec Heq. unfold window_key, concurrency_key in Heq.
  rewrite <-str_app_assoc in Heq. by injection Heq.
Qed.
Lemma window_limiter_key prefix V :
  starts_with prefix "rl:" = true → limiter_key (window_key prefix V) = true.
Proof using.
  intros [rest ->]%starts_with_spec. unfold limiter_key. apply orb_true_intro. left.
  apply starts_with_spec. unfold window_key. rewrite <-str_app_assoc. by eexists.
Qed.
Lemma slot_limiter_key sa : limiter_key (concurrency_key sa) = true.
Proof using. apply orb_true_intro. right. apply starts_with_spec. by eexists. Qed.
Lemma sa_prefix_rl sa : starts_with (sa_prefix sa) "rl:" = true.
Proof using. apply starts_with_spec. unfold sa_prefix. by exists ("sa:" +:+ id_display sa). Qed.
Lemma concurrency_key_inj sa sa' : concurrency_key sa = concurrency_key sa' → sa = sa'.
Proof. unfold concurrency_key. intros Heq%str_app_inj_l. by apply (inj id_display). Qed.
End frames.

(** ** Grants against counters *)

Definition granted_to (sa : ServiceAccountId) (W : Z) (x : Flight) : Z :=
  ind (fl_account x = sa ∧ account_grant (fl_phase x) = Some W).
Definition taken_back (sa : ServiceAccountId) (W : Z) (x : Flight) : Z :=
  ind (fl_account x = sa ∧ late_rollback (fl_phase x) = Some W).
Definition account_net (sa : ServiceAccountId) (W : Z) (x : Flight) : Z :=
  granted_to sa W x - taken_back sa W x.
Definition global_net (W : Z) (x : Flight) : Z := ind (global_grant (fl_phase x) = Some W).

Ltac solve_net :=
  unfold account_net, granted_to, taken_back, global_net, ind; cbn [fl_account fl_phase];
  repeat case_decide; cbn in *; simplify_eq; try lia; exfalso; naive_solver.

Section grants.
Context `{!Backends, !BackendsLaws, !UuidLib, !UuidLaws}.
Context (ev : RateLimitEvaluator).
Context (Hwin : 0 < window_secs ev ≤ U32_MAX) (W : Z).
Implicit Types (w : World).
#[local] Set Default Proof Using "All".

(** A check of the counter's own prefix, with a limit no larger, counts what it grants. *)
Lemma inv_check prefix limit l a b fuel w t r w' :
  0 ≤ limit < U32_MAX → l ≤ limit → 0 ≤ fuel < 2 ^ 52 → t ≤ clock w →
  window_script (window_secs ev) prefix l (t / 1000) w = (r, w') →
  clock w' ≤ t + window_secs ev * 1000 →
  b ≤ a + (if passes r then ind (t / 1000 / window_secs ev = W) else 0) →
  counter_inv (window_secs ev) prefix W limit a (fuel + 1) w →
  counter_inv (window_secs ev) prefix W limit b fuel w'.
Proof.
  intros Hlim Hle Hf Ht Hrun Hc Hb Hinv.
  destruct (script_step (window_secs ev) prefix W (win_53 _ Hwin) limit Hlim l a fuel w t r w')
    as (_ & Hinv'); try done; [lia|].
  destruct Hinv' as (Hck & Ha & Hat).
  assert (b ≤ a + allowed_in W (t / 1000 / window_secs ev, r)) as Hb'.
  { unfold allowed_in, ind in *. cbn in *. destruct r as [res|e]; cbn in *; [|lia].
    destruct (wc_allowed res); repeat case_decide; destruct (Z.eqb_spec (t / 1000 / window_secs ev) W);
      cbn; lia. }
  split_and!; [done|lia|]. intros Hl.
  eapply (counter_at_le (window_secs ev) prefix W Hwin limit Hlim); [exact Hb'|by apply Hat].
Qed.

(** One request's step, seen by the gateway's counter. *)
Lemma advance_global a fuel sa pol w p w' q :
  0 ≤ global_rpm ev < U32_MAX → 0 ≤ fuel < 2 ^ 52 → (∀ t, timed p = Some t → t ≤ clock w) →
  advance ev sa pol w p w' q →
  counter_inv (window_secs ev) "rl:global" W (global_rpm ev) a (fuel + 1) w →
  counter_inv (window_secs ev) "rl:global" W (global_rpm ev)
    (a - global_net W (mkFlight sa pol p) + global_net W (mkFlight sa pol q)) fuel w'.
Proof.
  intros Hlim Hf Htime Hstep Hinv.
  assert (∀ b w2, b ≤ a → clock w ≤ clock w2 ∧
    peek (clock w2) (redis w2) (window_key "rl:global" W)
    = peek (clock w2) (redis w) (window_key "rl:global" W) →
    counter_inv (window_secs ev) "rl:global" W (global_rpm ev) b fuel w2) as Hother.
  { intros b w2 Hb [Hc Hp]. by apply (inv_other _ _ W Hwin (global_rpm ev) Hlim a b fuel w). }
  destruct Hstep as [w Hn|w Hn|w t rpm r w' Hrpm Hrun Hc|c w|c w t r w' Hrun Hc|c w
    |c w t r w' Hcall|c g w Hn|c g w limit r w' Hl Hacq|c g w|c g w pm w' Hrel].
  - apply Hother; [solve_net|done].
  - apply Hother; [solve_net|done].
  - apply Hother; [destruct (passes r); solve_net|].
    eapply window_script_frame; [done..|]. intros Heq. by eapply (global_sa_keys_differ sa).
  - apply Hother; [solve_net|done].
  - eapply (inv_check "rl:global" (global_rpm ev) (global_rpm ev) a _ fuel w t r w'); try done; [by apply Htime|].
    destruct (passes r); [solve_net|]. destruct r as [res|], c as [V|]; solve_net.
  - apply Hother; [solve_net|done].
  - apply Hother; [solve_net|]. eapply redis_call_frame; [exact Hcall|].
    apply incrby_frame. intros Heq. by eapply (global_sa_keys_differ sa).
  - apply Hother; [solve_net|done].
  - apply Hother; [destruct (is_ok r); solve_net|]. eapply acquire_frame; [exact Hacq|].
    by apply window_not_slot.
  - apply Hother; [solve_net|done].
  - apply Hother; [solve_net|]. eapply release_frame; [exact Hrel|]. by apply window_not_slot.
Qed.
(** The same, seen by the counter of one account. *)
Lemma advance_account sa0 rpm0 a fuel sa pol w p w' q :
  (sa = sa0 → ∀ rpm, rpm_limit pol = Some rpm → rpm ≤ rpm0) →
  0 ≤ rpm0 < U32_MAX → 0 ≤ fuel < 2 ^ 52 →
  (∀ t, timed p = Some t → t ≤ clock w) → advance ev sa pol w p w' q →
  counter_inv (window_secs ev) (sa_prefix sa0) W rpm0 a (fuel + 1) w →
  counter_inv (window_secs ev) (sa_prefix sa0) W rpm0
    (a - account_net sa0 W (mkFlight sa pol p) + account_net sa0 W (mkFlight sa pol q)) fuel w'.
Proof.
  intros Hrpm0 Hlim Hf Htime Hstep Hinv.
  assert (∀ b w2, b ≤ a → clock w ≤ clock w2 ∧
    peek (clock w2) (redis w2) (window_key (sa_prefix sa0) W)
    = peek (clock w2) (redis w) (window_key (sa_prefix sa0) W) →
    counter_inv (window_secs ev) (sa_prefix sa0) W rpm0 b fuel w2) as Hother.
  { intros b w2 Hb [Hc Hp]. by apply (inv_other _ _ W Hwin rpm0 Hlim a b fuel w). }
  destruct Hstep as [w Hn|w Hn|w t rpm r w' Hrpm Hrun Hc|c w|c w t r w' Hrun Hc|c w
    |c w t r w' Hcall|c g w Hn|c g w limit r w' Hl Hacq|c g w|c g w pm w' Hrel].
  - apply Hother; [solve_net|done].
  - apply Hother; [solve_net|done].
  - destruct (decide (sa = sa0)) as [->|Hne].
    + eapply (inv_check (sa_prefix sa0) rpm0 rpm a _ fuel w t r w'); try done;
        [by apply Hrpm0|by apply Htime|].
      destruct (passes r); solve_net.
    + apply Hother; [destruct (passes r); solve_net|].
      eapply window_script_frame; [done..|]. by intros ?%sa_prefix_inj.
  - apply Hother; [solve_net|done].
  - apply Hother; [destruct (passes r); [|destruct r, c as [V|]]; solve_net|].
    eapply window_script_frame; [done..|]. by apply global_sa_keys_differ.
  - apply Hother; [solve_net|done].
  - destruct (decide (sa = sa0)) as [->|Hne].
    + eapply (inv_decr (window_secs ev) (sa_prefix sa0) W Hwin rpm0 Hlim a _ fuel w
        (t / 1000 / window_secs ev) r w'); [done| |done..].
      unfold account_net, granted_to, taken_back, ind. cbn [fl_account fl_phase account_grant late_rollback].
      destruct (Z.eqb_spec c (t / 1000 / window_secs ev));
        destruct (Z.eqb_spec (t / 1000 / window_secs ev) W); solve_net.
    + apply Hother; [solve_net|]. eapply redis_call_frame; [exact Hcall|].
      apply incrby_frame. by intros ?%sa_prefix_inj.
  - apply Hother; [solve_net|done].
  - apply Hother; [destruct (is_ok r); solve_net|]. eapply acquire_frame; [exact Hacq|].
    apply window_not_slot, sa_prefix_rl.
  - apply Hother; [solve_net|done].
  - apply Hother; [solve_net|]. eapply release_frame; [exact Hrel|].
    apply window_not_slot, sa_prefix_rl.
Qed.

Lemma advance_clock sa pol w p w' q :
  advance ev sa pol w p w' q →
  clock w ≤ clock w' ∧ ∀ t, timed q = Some t → t ≤ clock w'.
Proof.
  intros Hstep. assert (∀ k, ∃ k', k' ≠ (k : string)) as Hfresh.
  { intros k. exists (String "x" k). intros Heq. apply (f_equal String.length) in Heq. cbn in Heq. lia. }
  destruct Hstep as [w Hn|w Hn|w t rpm r w' Hrpm Hrun Hc|c w|c w t r w' Hrun Hc|c w
    |c w t r w' Hcall|c g w Hn|c g w limit r w' Hl Hacq|c g w|c g w pm w' Hrel]; cbn.
  1, 2, 4, 6, 8, 10: split; [lia|]; intros ? [=]; lia.
  - destruct (Hfresh (window_key (sa_prefix sa) (t / 1000 / window_secs ev))) as [k Hk].
    split; [by eapply window_script_frame|]. by destruct (passes r).
  - destruct (Hfresh (window_key "rl:global" (t / 1000 / window_secs ev))) as [k Hk].
    split; [by eapply window_script_frame|]. by destruct (passes r); [|destruct r, c].
  - split; [|done]. by pose proof (redis_call_advances
      (λ t', cmd_incrby t' (window_key (sa_prefix sa) (t / 1000 / window_secs ev)) (-1)) w) as Ha;
      rewrite Hcall in Ha.
  - destruct (Hfresh (concurrency_key sa)) as [k Hk].
    split; [by eapply acquire_frame|]. by destruct (is_ok r).
  - destruct (Hfresh (concurrency_key sa)) as [k Hk]. split; [by eapply release_frame|done].
Qed.
End grants.

(** ** The invariant of the whole *)

Section whole.
Context `{!Backends, !BackendsLaws, !UuidLib, !UuidLaws}.
Context (ev : RateLimitEvaluator) (in_force : ServiceAccountId → EvaluatedPolicy → Prop).
Context (Hwin : 0 < window_secs ev ≤ U32_MAX).
#[local] Set Default Proof Using "All".

(** Clock readings are in the past, policies are in force. *)
Definition flights_wf (s : Pipeline) : Prop := ∀ i x, flights s !! i = Some x →
  in_force (fl_account x) (fl_policy x) ∧
  ∀ t, timed (fl_phase x) = Some t → t ≤ clock (world s).

Lemma flights_step s s' : pstep ev in_force s s' → flights_wf s → flights_wf s'.
Proof.
  intros [s1 s2 [i sa pol w fs Hi Hpol|i sa pol p q w w' fs Hi Hadv]|w w' fs Hc Hk] Hwf j x; cbn.
  - intros [[<- <-]|[_ Hj]]%lookup_insert_Some; [done|]. by apply (Hwf j x).
  - pose proof (advance_clock ev Hwin 0 sa pol w p w' q Hadv) as [Hc Ht].
    destruct (Hwf i _ Hi) as [Hpol _]. intros [[<- <-]|[_ Hj]]%lookup_insert_Some; [done|].
    destruct (Hwf j x Hj) as [? Hpast]. split; [done|]. intros t Htm%Hpast. cbn in Htm. lia.
  - intros Hj. destruct (Hwf j x Hj) as [? Hpast]. split; [done|]. intros t Htm%Hpast. cbn in Htm. lia.
Qed.
Lemma flights_start w : flights_wf (mkPipeline w ∅).
Proof. intros i x. cbn. by rewrite lookup_empty. Qed.
Lemma nsteps_flights_wf k w s : nsteps (pstep ev in_force) k (mkPipeline w ∅) s → flights_wf s.
Proof.
  intros Hsteps. pose proof (flights_start w) as Hwf. revert Hwf.
  induction Hsteps; eauto using flights_step.
Qed.

(** A counter whose value follows a weight of the flights. *)
Lemma pstep_counter prefix W limit (net : Flight → Z) fuel s s' :
  0 ≤ limit < U32_MAX → starts_with prefix "rl:" = true →
  (∀ sa pol, net (mkFlight sa pol Arrived) = 0) →
  (∀ a fuel sa pol w p w' q, in_force sa pol → 0 ≤ fuel < 2 ^ 52 →
     (∀ t, timed p = Some t → t ≤ clock w) → advance ev sa pol w p w' q → counter_inv (window_secs ev) prefix W limit a (fuel + 1) w →
     counter_inv (window_secs ev) prefix W limit
       (a - net (mkFlight sa pol p) + net (mkFlight sa pol q)) fuel w') →
  0 ≤ fuel < 2 ^ 52 → flights_wf s → pstep ev in_force s s' →
  counter_inv (window_secs ev) prefix W limit (tally net (flights s)) (fuel + 1) (world s) →
  counter_inv (window_secs ev) prefix W limit (tally net (flights s')) fuel (world s').
Proof.
  intros Hlim Hrl Hnew Hadv Hf Hpast Hstep Hinv.
  destruct Hstep as [s1 s2 [i sa pol w fs Hi Hpol|i sa pol p q w w' fs Hi Ha]|w w' fs Hc Hk]; cbn in *.
  - rewrite tally_insert, Hnew, Z.add_0_l by done. by apply (inv_same _ _ W Hwin limit Hlim (tally net fs)).
  - destruct (Hpast _ _ Hi) as [Hpol Ht].
    rewrite (tally_update _ _ _ _ _ Hi). by apply (Hadv _ _ _ _ w).
  - apply (inv_other _ _ W Hwin limit Hlim (tally net fs) _ fuel w w'); [done|done| |done].
    apply Hk. by apply window_limiter_key.
Qed.

Lemma nsteps_counter prefix W limit (net : Flight → Z) k s s' :
  0 ≤ limit < U32_MAX → starts_with prefix "rl:" = true →
  (∀ sa pol, net (mkFlight sa pol Arrived) = 0) →
  (∀ a fuel sa pol w p w' q, in_force sa pol → 0 ≤ fuel < 2 ^ 52 →
     (∀ t, timed p = Some t → t ≤ clock w) → advance ev sa pol w p w' q → counter_inv (window_secs ev) prefix W limit a (fuel + 1) w →
     counter_inv (window_secs ev) prefix W limit
       (a - net (mkFlight sa pol p) + net (mkFlight sa pol q)) fuel w') →
  Z.of_nat k < 2 ^ 52 → nsteps (pstep ev in_force) k s s' → flights_wf s →
  counter_inv (window_secs ev) prefix W limit (tally net (flights s)) (Z.of_nat k) (world s) →
  tally net (flights s') ≤ limit.
Proof.
  intros Hlim Hrl Hnew Hadv Hk Hsteps. induction Hsteps as [s|k s s1 s2 Hstep _ IH]; intros Hpast Hinv.
  - by destruct Hinv as (_ & ? & _).
  - apply IH; [lia|by eapply flights_step|]. eapply pstep_counter; try done; [lia|].
    by rewrite Nat2Z.inj_succ in Hinv.
Qed.
End whole.

(** ** Permits against slots *)

Definition holds_permit (p : Phase) : bool :=
  match p with Running _ _ permit => permit | _ => false end.
Definition running (sa : ServiceAccountId) (x : Flight) : Z :=
  ind (fl_account x = sa ∧ holds_permit (fl_phase x) = true).

Section slots.
Context `{!Backends, !BackendsLaws, !UuidLib, !UuidLaws}.
Context (ev : RateLimitEvaluator) (in_force : ServiceAccountId → EvaluatedPolicy → Prop).
Context (Hwin : 0 < window_secs ev ≤ U32_MAX).
Context (sa : ServiceAccountId) (limit : Z).
Context (Hlimit : ∀ pol l, in_force sa pol → concurrency_limit pol = Some l → l ≤ limit).
#[local] Set Default Proof Using "All".

Definition slots (s : Pipeline) : nat := Z.to_nat (tally (running sa) (flights s)).

Lemma running_tally fs : 0 ≤ tally (running sa) fs.
Proof.
  rewrite <-(Z.sub_diag (tally (running sa) fs)), <-tally_sub. apply tally_le.
  intros x. unfold running, ind. case_decide; lia.
Qed.

Lemma slots_update i x y w w' fs :
  fs !! i = Some x →
  slots (mkPipeline w' (<[i := y]> fs))
  = Z.to_nat (Z.of_nat (slots (mkPipeline w fs)) - running sa x + running sa y).
Proof.
  intros Hi. unfold slots. cbn. rewrite (tally_update _ _ _ _ _ Hi).
  pose proof (running_tally fs). f_equal. lia.
Qed.

(** One request's step, seen by the slots of the account. *)
Lemma advance_slot sa' pol w p w' q :
  in_force sa' pol → advance ev sa' pol w p w' q →
  (running sa (mkFlight sa' pol q) = running sa (mkFlight sa' pol p) ∧ clock w ≤ clock w' ∧
   peek (clock w') (redis w') (concurrency_key sa) = peek (clock w') (redis w) (concurrency_key sa)) ∨
  (sa' = sa ∧ ∃ c g l r, p = Granted c g ∧ l ≤ limit ∧ acquire sa l w = (r, w') ∧
   q = if is_ok r then Running c g true else Refused) ∨
  (sa' = sa ∧ ∃ c g (pm : ConcurrencyPermit), p = Running c g true ∧ q = Finished c g ∧
   release_inner (E:=GatewayError) (mkPermit (concurrency_key sa) false) w = (Ok pm, w')).
Proof.
  assert (∀ prefix V, starts_with prefix "rl:" = true → concurrency_key sa ≠ window_key prefix V)
    as Hkey by (intros prefix V Hrl Heq; by apply (window_not_slot prefix V sa)).
  intros Hpol Ha. destruct Ha as [w Hn|w Hn|w t rpm r w' Hrpm Hrun Hc|c w|c w t r w' Hrun Hc|c w
    |c w t r w' Hcall|c g w Hn|c g w l r w' Hl Hacq|c g w|c g w pm w' Hrel].
  1, 2, 4, 6, 8, 10: by left.
  - left. split; [by destruct (passes r)|].
    eapply window_script_frame; [done..|]. apply Hkey, sa_prefix_rl.
  - left. split; [by destruct (passes r); [|destruct r, c]|].
    eapply window_script_frame; [done..|]. by apply Hkey.
  - left. split; [done|]. eapply redis_call_frame; [exact Hcall|].
    apply incrby_frame, Hkey, sa_prefix_rl.
  - destruct (decide (sa' = sa)) as [->|Hne].
    + right; left. split; [done|]. specialize (Hlimit _ _ Hpol Hl). eauto 10.
    + left. split; [unfold running, ind; by rewrite !decide_False by naive_solver|].
      eapply acquire_frame; [exact Hacq|]. by intros ?%concurrency_key_inj.
  - destruct (decide (sa' = sa)) as [->|Hne]; [right; right; eauto 10|].
    left. split; [unfold running, ind; by rewrite !decide_False by naive_solver|].
    eapply release_frame; [exact Hrel|]. by intros ?%concurrency_key_inj.
Qed.

Lemma running_slots i pol c g w fs :
  fs !! i = Some (mkFlight sa pol (Running c g true)) → ∃ out, slots (mkPipeline w fs) = S out.
Proof.
  intros Hi. assert (1 ≤ tally (running sa) fs) as Hpos.
  { rewrite <-(insert_id fs i _ Hi), <-insert_delete_eq, tally_insert by apply lookup_delete_eq.
    unfold running at 1, ind. rewrite decide_True by done.
    pose proof (running_tally (delete i fs)). lia. }
  exists (Nat.pred (slots (mkPipeline w fs))). unfold slots. cbn. lia.
Qed.

(** A step is a step of the account's slots: someone takes or frees one, or is refused, or
    the slots are not concerned. *)
Lemma pstep_cstep s s' :
  flights_wf in_force s → pstep ev in_force s s' → in_time sa (world s) (slots s) (world s') →
  cstep sa limit (world s, slots s) (world s', slots s').
Proof.
  intros Hwf Hstep Hin.
  assert (∀ pol p, holds_permit p = false → running sa (mkFlight sa pol p) = 0) as Hidle
    by (intros pol p Hp; unfold running, ind; cbn; rewrite Hp; by rewrite decide_False by naive_solver).
  assert (∀ pol c g, running sa (mkFlight sa pol (Running c g true)) = 1) as Hbusy
    by (intros; unfold running, ind; by rewrite decide_True).
  destruct Hstep as [s1 s2 [i sa' pol w fs Hi Hpol|i sa' pol p q w w' fs Hi Ha]|w w' fs Hc Hk]; cbn [world] in *.
  - replace (slots (mkPipeline w (<[i := mkFlight sa' pol Arrived]> fs))) with (slots (mkPipeline w fs));
      [by apply cs_other|].
    unfold slots. cbn. rewrite tally_insert by done. unfold running at 2, ind.
    by rewrite decide_False by naive_solver.
  - rewrite (slots_update i _ _ w w' fs Hi).
    pose proof (proj1 (Hwf _ _ Hi)) as Hpol. cbn [fl_account fl_policy] in Hpol.
    destruct (advance_slot _ _ _ _ _ _ Hpol Ha) as [(Hr & Hc & Hp)|
      [(-> & c & g & l & r & -> & Hl & Hacq & ->)|(-> & c & g & pm & -> & -> & Hrel)]].
    + rewrite Hr. replace (Z.to_nat _) with (slots (mkPipeline w fs)) by lia. by apply cs_other.
    + rewrite (Hidle pol (Granted c g)) by done. destruct r as [permit|e]; cbn [is_ok].
      * rewrite Hbusy. replace (Z.to_nat _) with (S (slots (mkPipeline w fs))) by lia.
        by eapply cs_acquired.
      * rewrite Hidle by done. replace (Z.to_nat _) with (slots (mkPipeline w fs)) by lia.
        by eapply cs_refused.
    + rewrite Hbusy, Hidle by done. destruct (running_slots i pol c g w fs Hi) as [out Hout].
      rewrite Hout in Hin |- *. replace (Z.to_nat _) with out by lia. by eapply cs_released.
  - apply cs_other; [done| |done]. apply Hk, slot_limiter_key.
Qed.

(** A step during which no permit outlives the slot counter. *)
Definition timely_step (s s' : Pipeline) : Prop :=
  pstep ev in_force s s' ∧ in_time sa (world s) (slots s) (world s').

Lemma timely_steps_cstep s s' :
  flights_wf in_force s → rtc timely_step s s' → rtc (cstep sa limit) (world s, slots s) (world s', slots s').
Proof.
  intros Hwf Hsteps. revert Hwf. induction Hsteps as [|s s1 s2 [Hs Ht] _ IH]; intros Hwf; [done|].
  eapply rtc_l; [by apply pstep_cstep|]. apply IH. by apply (flights_step ev in_force Hwin s).
Qed.
End slots.
