(* ===== verification/PipelineProps.v ===== *)
(** * The gateway's limits under every interleaving
      (src/gateway/crates/gateway/src/policy/middleware.rs)

    The steps of Pipeline.v are those of the middleware; with its invariants they bound what
    the whole gateway admits and what runs at once. *)

From stdpp Require Import options.
From S2P Require Import Prelude Rust Types Errors Json Models PolicyMerge Backends Db World.
From S2P Require Import RateLimit Concurrency Recovery AppState KeyStore Auth PolicyEngine.
From S2P Require Import Repositories PolicyMiddleware Server Pipeline.
#[local] Set Default Proof Using "Type*".

(** ** The middleware flies

    A run of the middleware, alone, is a run of the steps above: the phases are the code's
    own control flow. *)

Section adequacy.
Context `{!Backends, !BackendsLaws, !UuidLib, !HashOrder}.
Context (ev : RateLimitEvaluator) (in_force : ServiceAccountId → EvaluatedPolicy → Prop).
Context (Hwin : 0 < window_secs ev ≤ U32_MAX).
Implicit Types (w : World) (fs : gmap nat Flight).
#[local] Set Default Proof Using "All".

Abbreviation flies := (rtc (flight_step ev in_force)).

Lemma advances i sa pol w p w' q fs :
  advance ev sa pol w p w' q →
  flies (mkPipeline w (<[i := mkFlight sa pol p]> fs)) (mkPipeline w' (<[i := mkFlight sa pol q]> fs)).
Proof.
  intros Hadv. apply rtc_once. rewrite <-(insert_insert_eq fs i (mkFlight sa pol q) (mkFlight sa pol p)).
  apply (fly_advance _ _ i sa pol p q); [apply lookup_insert_eq|done].
Qed.

Lemma check_flies prefix limit w r w' :
  prompt (window_secs ev) w → 0 ≤ clock w →
  check_and_increment (window_secs ev) prefix limit w = (r, w') →
  window_script (window_secs ev) prefix limit (clock w / 1000) w = (r, w') ∧
  prompt (window_secs ev) w' ∧ clock w ≤ clock w' ≤ clock w + window_secs ev * 1000.
Proof. intros. by apply (check_split _ _ 0 (win_53 _ Hwin)). Qed.

(** The rejection of a level reads the clock and touches nothing. *)
Lemma reject_world {A} msg res w (r : result GatewayError A) w' :
  reject msg res w = (r, w') → w' = w ∧ is_ok r = false.
Proof.
  unfold reject, now_unix_secs, mbind, io_bind, io_try, lift.
  by destruct (0 <=? clock w); intros [= <- <-].
Qed.

(** The account's level. *)
Lemma account_flies i sa pol w r w' fs :
  prompt (window_secs ev) w → 0 ≤ clock w →
  (match rpm_limit pol with
  | Some sa_rpm =>
    result ← io_map_err limiter_unavailable
      (check_and_increment (window_secs ev) (sa_prefix sa) sa_rpm);
    if negb (wc_allowed result)
    then reject "service account rate limit exceeded" result
    else mret (Some result)
  | None => mret None
  end : IO World GatewayError (option WindowCheckResult)) w = (r, w') →
  ∃ p, flies (mkPipeline w (<[i := mkFlight sa pol Arrived]> fs))
         (mkPipeline w' (<[i := mkFlight sa pol p]> fs)) ∧
    prompt (window_secs ev) w' ∧ 0 ≤ clock w' ∧
    match r with
    | Ok _ => ∃ c, p = Counted c ∧ (is_Some c ↔ is_Some (rpm_limit pol))
    | Err _ => p = Refused
    end.
Proof.
  intros Hp Hc Hrun. destruct (rpm_limit pol) as [rpm|] eqn:Hrpm.
  2:{ injection Hrun as <- <-. exists (Counted None). split_and!; [|done..|by exists None].
      apply advances. by constructor. }
  unfold mbind, io_bind, io_map_err in Hrun.
  destruct (check_and_increment _ _ _ w) as [x w1] eqn:Hcheck.
  destruct (check_flies _ _ _ _ _ Hp Hc Hcheck) as (Hscr & Hp1 & Hc1 & Hc2).
  pose proof (ad_account ev sa pol w (clock w) rpm x w1 Hrpm Hscr Hc2) as Hadv.
  assert (w' = w1 ∧ is_ok r = passes x) as [-> Hr].
  { destruct x as [res|e]; cbn in Hrun |- *; [|by injection Hrun as <- <-].
    destruct (wc_allowed res); [by injection Hrun as <- <-|]. by apply reject_world in Hrun. }
  eexists. split.
  { etrans; apply advances; [apply ad_account_time; by rewrite Hrpm|exact Hadv]. }
  split_and!; [done|lia|]. rewrite <-Hr. destruct r; cbn; [|done]. by eexists.
Qed.

Lemma rollback_flies i sa pol c w w' fs :
  0 ≤ clock w → rollback_sa_counter ev sa w = (Ok tt, w') →
  ∃ V, flies (mkPipeline w (<[i := mkFlight sa pol (Exceeded c)]> fs))
    (mkPipeline w' (<[i := mkFlight sa pol (RolledBack c V)]> fs)).
Proof.
  intros Hc. unfold rollback_sa_counter, now_unix_secs, mbind, io_bind, io_try.
  destruct (Z.leb_spec 0 (clock w)); [|lia]. cbn.
  destruct (redis_call _ w) as [x w1] eqn:Hcall. intros [= <-].
  eexists. etrans; apply advances; [apply ad_rollback_time|]. by eapply ad_rollback.
Qed.

(** Both levels: the request ends up admitted, refused or rolled back. *)
Lemma limits_flies i sa pol w r w' fs :
  prompt (window_secs ev) w → 0 ≤ clock w →
  evaluate_limits ev sa pol w = (r, w') →
  ∃ p, flies (mkPipeline w (<[i := mkFlight sa pol Arrived]> fs))
         (mkPipeline w' (<[i := mkFlight sa pol p]> fs)) ∧
    match r with
    | Ok _ => ∃ c g, p = Granted c g
    | Err _ => p = Refused ∨ ∃ c V, p = RolledBack c V
    end.
Proof.
  intros Hp Hc Hrun. unfold evaluate_limits, mbind, io_bind at 1 in Hrun.
  match type of Hrun with (let (_, _) := ?m in _) = _ => destruct m as [x w1] eqn:Hacc end.
  destruct (account_flies i sa pol w x w1 fs Hp Hc Hacc) as (p & Hfly & Hp1 & Hc1 & Hx).
  destruct x as [sa_result|e]; [|injection Hrun as <- <-; exists p; subst; by auto].
  destruct Hx as (c & -> & Hsome). unfold io_bind, io_map_err in Hrun.
  destruct (check_and_increment _ "rl:global" _ w1) as [y w2] eqn:Hcheck.
  destruct (check_flies _ _ _ _ _ Hp1 Hc1 Hcheck) as (Hscr & Hp2 & Hc2 & Hc3).
  pose proof (ad_global ev sa pol c w1 (clock w1) y w2 Hscr Hc3) as Hadv.
  assert (∀ q, advance ev sa pol w1 (GlobalTimed c (clock w1)) w2 q →
    flies (mkPipeline w (<[i := mkFlight sa pol Arrived]> fs))
      (mkPipeline w2 (<[i := mkFlight sa pol q]> fs))) as Hto.
  { intros q Hq. etrans; [exact Hfly|]. etrans; apply advances; [apply ad_global_time|done]. }
  destruct y as [global|e]; cbn in Hadv, Hrun; [|injection Hrun as <- <-; eauto 10].
  destruct (wc_allowed global); cbn in Hrun; [injection Hrun as <- <-; eauto 10|].
  destruct c as [V|].
  - rewrite bool_decide_true in Hrun by (apply Hsome; eauto).
    destruct (rollback_ok ev sa w2) as [w3 Hback]. rewrite Hback in Hrun.
    apply reject_world in Hrun as [-> Hr]. destruct r; [done|].
    destruct (rollback_flies i sa pol V w2 w3 fs ltac:(lia) Hback) as [U HU].
    exists (RolledBack V U). split; [|eauto]. etrans; [by apply Hto|done].
  - rewrite bool_decide_false in Hrun by (by intros [? ?]%Hsome).
    apply reject_world in Hrun as [-> Hr]. destruct r; [done|]. eauto.
Qed.

(** The permit and its release. *)
Lemma give_back_ok permit w : ∃ w', give_back permit w = (Ok tt, w').
Proof.
  destruct permit as [[k []]|]; [by eexists| |by eexists].
  unfold give_back, release_inner, mbind, io_bind, io_try. cbn. destruct (redis_call _ w). by eexists.
Qed.
Lemma permit_flies i state sa pol c g w r w' fs :
  take_permit state sa pol w = (r, w') →
  ∃ p, flies (mkPipeline w (<[i := mkFlight sa pol (Granted c g)]> fs))
         (mkPipeline w' (<[i := mkFlight sa pol p]> fs)) ∧
    match r with
    | Ok permit => p = Running c g (bool_decide (is_Some permit)) ∧
        ∀ pm, permit = Some pm → pm = mkPermit (concurrency_key sa) false
    | Err _ => ∀ c g, p ≠ Finished c g
    end.
Proof.
  unfold take_permit. destruct (concurrency_limit pol) as [limit|] eqn:Hl.
  2:{ intros [= <- <-]. eexists. split; [apply advances; by constructor|]. by split. }
  unfold mbind, io_bind, lift. destruct (require_concurrency_limiter state) as [[]|e].
  2:{ intros [= <- <-]. by eexists. }
  destruct (acquire sa limit w) as [x w1] eqn:Hacq.
  pose proof (advances i sa pol w _ w1 _ fs (ad_acquire ev sa pol c g w limit x w1 Hl Hacq)) as Hfly.
  destruct x as [pm|e]; intros [= <- <-]; (eexists; split; [exact Hfly|]); [|done].
  split; [done|]. intros ? [= <-]. revert Hacq. clear. unfold acquire. intros Hacq. inv_res.
  case_match. inv_res. destruct (_ =? 0); by inv_res.
Qed.
Lemma release_flies i sa pol c g (permit : option ConcurrencyPermit) w w' fs :
  (∀ pm, permit = Some pm → pm = mkPermit (concurrency_key sa) false) →
  give_back permit w = (Ok tt, w') →
  flies (mkPipeline w (<[i := mkFlight sa pol (Running c g (bool_decide (is_Some permit)))]> fs))
    (mkPipeline w' (<[i := mkFlight sa pol (Finished c g)]> fs)).
Proof.
  intros Hpm Hback. apply advances. destruct permit as [pm|]; cbn in *.
  - rewrite (Hpm pm eq_refl) in Hback. inv_res. by eapply ad_release.
  - injection Hback as <-. constructor.
Qed.
End adequacy.

(** How a request's way through the middleware ends: finished if it was let through, else
    gone before it arrived, refused or rolled back. *)
Definition landed (i : nat) (sa : ServiceAccountId) (fs : gmap nat Flight) (ok : bool)
    (fs' : gmap nat Flight) : Prop :=
  if ok then ∃ pol c g, fs' = <[i := mkFlight sa pol (Finished c g)]> fs
  else fs' = fs ∨ ∃ pol p, (∀ c g, p ≠ Finished c g) ∧ fs' = <[i := mkFlight sa pol p]> fs.

(** ** Bounds *)

Section bounds.
Context `{!Backends, !BackendsLaws, !UuidLib, !UuidLaws}.
Context (ev : RateLimitEvaluator) (in_force : ServiceAccountId → EvaluatedPolicy → Prop).
Context (Hwin : 0 < window_secs ev ≤ U32_MAX).
#[local] Set Default Proof Using "All".

Lemma pipeline_global W k w0 s :
  0 ≤ global_rpm ev < U32_MAX → 0 ≤ clock w0 →
  peek (clock w0) (redis w0) (window_key "rl:global" W) = None →
  nsteps (pstep ev in_force) k (mkPipeline w0 ∅) s → Z.of_nat k < 2 ^ 52 →
  tally (global_net W) (flights s) ≤ global_rpm ev.
Proof.
  intros Hglob Hc Hg Hsteps Hk.
  eapply (nsteps_counter ev in_force Hwin "rl:global" W (global_rpm ev)); try done.
  - intros. by eapply (advance_global ev Hwin).
  - cbn. rewrite tally_empty. split_and!; [done|lia|]. intros _. by left.
Qed.

Lemma pipeline_account sa rpm W k w0 s :
  (∀ pol l, in_force sa pol → rpm_limit pol = Some l → l ≤ rpm) → 0 ≤ rpm < U32_MAX →
  0 ≤ clock w0 → peek (clock w0) (redis w0) (window_key (sa_prefix sa) W) = None →
  nsteps (pstep ev in_force) k (mkPipeline w0 ∅) s → Z.of_nat k < 2 ^ 52 →
  tally (granted_to sa W) (flights s) ≤ rpm + tally (taken_back sa W) (flights s).
Proof.
  intros Hrpm Hr Hc Ha Hsteps Hk.
  assert (tally (account_net sa W) (flights s) ≤ rpm) as Hnet.
  { eapply (nsteps_counter ev in_force Hwin (sa_prefix sa) W rpm); try done.
    - intros. solve_net.
    - intros a fuel sa' pol w p w' q Hpol. intros. eapply (advance_account ev Hwin); try done.
      intros -> l. by apply Hrpm.
      - cbn. rewrite tally_empty. split_and!; [done|lia|]. intros _. by left. }
  unfold account_net in Hnet. rewrite tally_sub in Hnet. lia.
Qed.

(** The slots of a state the account's own transition system reaches. *)
Lemma slots_covered sa limit w0 s :
  0 ≤ limit ≤ U32_MAX → peek (clock w0) (redis w0) (concurrency_key sa) = None →
  rtc (cstep sa limit) (w0, O) (world s, slots sa s) → tally (running sa) (flights s) ≤ limit.
Proof.
  intros Hl Hnone Hcs. apply rtc_cstep_inv in Hcs; [|done|by left].
  assert (Z.of_nat (slots sa s) ≤ limit) as Hs.
  { unfold conc_inv, counter_covers in Hcs. cbn [fst snd] in Hcs.
    destruct Hcs as [[_ ->]|(n & d & _ & Hn)]; lia. }
  unfold slots in Hs. lia.
Qed.
(** In every interleaving in which no permit outlives its account's counter, at most
    [limit] requests of the account are past the limiter and not yet finished, [limit] being
    the largest any policy of the account has had: the limiter's own system does the same. *)
Lemma pipeline_slots_bounded sa limit w0 s :
  (∀ pol l, in_force sa pol → concurrency_limit pol = Some l → l ≤ limit) →
  0 ≤ limit ≤ U32_MAX →
  peek (clock w0) (redis w0) (concurrency_key sa) = None →
  rtc (timely_step ev in_force sa) (mkPipeline w0 ∅) s →
  rtc (cstep sa limit) (w0, O) (world s, slots sa s) ∧
  tally (running sa) (flights s) ≤ limit.
Proof.
  intros Hlim Hl Hnone Hsteps.
  assert (rtc (cstep sa limit) (w0, O) (world s, slots sa s)) as Hcs.
  { replace O with (slots sa (mkPipeline w0 ∅)) by (unfold slots; cbn; by rewrite tally_empty).
    apply (timely_steps_cstep ev in_force Hwin sa limit Hlim) in Hsteps; [done|].
    apply (flights_start ev in_force Hwin). }
  split; [done|]. by eapply slots_covered.
Qed.
End bounds.

(** ** Properties *)

(** C6: the limits of the whole gateway. However many requests of
    however many accounts and processes are in the middleware at once, however their clock
    readings and round trips interleave, lost and failed ones included, and however their
    policies change, as long as each check's round trip ends within a window of its clock
    reading: at most [global_rpm] requests are admitted in a window, and at most [rpm] of an
    account hold a grant of its own, plus one for each rollback that came after the window
    it was counted in. [rpm] is the largest limit any policy of the account has had. *)
Theorem pipeline_within_limits `{!Backends, !BackendsLaws, !UuidLib, !UuidLaws}
    ev in_force sa rpm W k w0 s :
  0 < window_secs ev ≤ U32_MAX → 0 ≤ global_rpm ev < U32_MAX →
  (∀ pol l, in_force sa pol → rpm_limit pol = Some l → l ≤ rpm) → 0 ≤ rpm < U32_MAX →
  0 ≤ clock w0 →
  peek (clock w0) (redis w0) (window_key "rl:global" W) = None →
  peek (clock w0) (redis w0) (window_key (sa_prefix sa) W) = None →
  nsteps (pstep ev in_force) k (mkPipeline w0 ∅) s → Z.of_nat k < 2 ^ 52 →
  tally (global_net W) (flights s) ≤ global_rpm ev ∧
  tally (granted_to sa W) (flights s) ≤ rpm + tally (taken_back sa W) (flights s).
Proof.
  intros Hwin Hglob Hrpm Hr Hc Hg Ha Hsteps Hk.
  split.
  - by eapply (pipeline_global ev in_force).
  - by eapply (pipeline_account ev in_force).
Qed.

(** ** Concrete runs *)

Section runs.
#[local] Existing Instances mem_backends mem_backends_laws decimal_uuid decimal_uuid_laws.

Definition one_a_minute : RateLimitEvaluator := mkRateLimitEvaluator 60 1.
Definition one_slot : EvaluatedPolicy := rpm_policy (Some 1) (Some 1).
Definition only_slot (_ : ServiceAccountId) (pol : EvaluatedPolicy) : Prop := pol = one_slot.
Definition traveller : ServiceAccountId := from_uuid 7.
Definition takeoff : World := mem_world 120000 [] ∅ empty_db.
Definition counted_once : World := (window_script 60 (sa_prefix traveller) 1 120 takeoff).2.
Definition admitted_once : World := (window_script 60 "rl:global" 1 120 counted_once).2.

Lemma account_passed : ∃ r, window_script 60 (sa_prefix traveller) 1 120 takeoff = (r, counted_once) ∧
  passes r = true.
Proof.
  exists (window_script 60 (sa_prefix traveller) 1 120 takeoff).1.
  split; [unfold counted_once; by destruct (window_script _ _ _ _ _)|by vm_compute].
Qed.
Lemma global_passed : ∃ r, window_script 60 "rl:global" 1 120 counted_once = (r, admitted_once) ∧
  passes r = true.
Proof.
  exists (window_script 60 "rl:global" 1 120 counted_once).1.
  split; [unfold admitted_once; by destruct (window_script _ _ _ _ _)|by vm_compute].
Qed.

Ltac fly_on :=
  eapply nsteps_l; [eapply fly_own, (fly_advance _ _ 0%nat); [apply lookup_insert_eq|]|].

(** One request on its way to the slots: arrival, two clock readings, two checks. *)
Lemma flight_admitted : ∃ fs,
  nsteps (pstep one_a_minute only_slot) 5
    (mkPipeline takeoff ∅) (mkPipeline admitted_once fs) ∧
  fs !! 0%nat = Some (mkFlight traveller one_slot (Granted (Some 2) 2)) ∧
  tally (global_net 2) fs = 1 ∧ tally (granted_to traveller 2) fs = 1.
Proof.
  destruct account_passed as (r & Hr & Hpr). destruct global_passed as (g & Hg & Hpg).
  eexists. split.
  { eapply nsteps_l; [by apply fly_own, (fly_arrive _ _ 0%nat traveller one_slot)|].
    fly_on; [by apply ad_account_time|].
    fly_on.
    { eapply (ad_account _ _ _ takeoff (clock takeoff) 1 r counted_once); [done|exact Hr|].
      by vm_compute. }
    rewrite Hpr. fly_on; [by apply ad_global_time|]. fly_on; [|apply nsteps_O].
    eapply (ad_global _ _ _ (Some 2) counted_once (clock counted_once) g admitted_once); [exact Hg|].
    by vm_compute. }
  rewrite Hpg, !insert_insert_eq. split_and!; [apply lookup_insert_eq|by vm_compute..].
Qed.
End runs.

(** ** Witnesses *)

Lemma pipeline_within_limits_witness :
  let B := mem_backends in let U := decimal_uuid in
  ∃ fs, nsteps (pstep one_a_minute only_slot) 5 (mkPipeline takeoff ∅) (mkPipeline admitted_once fs) ∧
    tally (global_net 2) fs = 1 ∧
    (tally (global_net 2) fs ≤ 1 ∧
     tally (granted_to traveller 2) fs ≤ 1 + tally (taken_back traveller 2) fs).
Proof.
  intros B U. pose proof mem_backends_laws. pose proof decimal_uuid_laws.
  destruct flight_admitted as (fs & Hsteps & _ & Hone & _). exists fs.
  split; [exact Hsteps|]. split; [exact Hone|].
  apply (pipeline_within_limits one_a_minute only_slot traveller 1 2 5 takeoff
    (mkPipeline admitted_once fs)); try done.
  by intros ? l -> [= <-].
Defined.
