(* ===== verification/Gateway.v ===== *)
(** * The gateway as a whole
      (src/gateway/crates/gateway/src/server.rs [AppState], [build_router])

    Everything that happens at once: requests on their way through authentication and
    the rate limit middleware, administrators at work, caches being filled and emptied,
    statements of this process and of others, time. A step is one operation of one
    component on the world they all share. The components' keys in Redis have prefixes of
    their own, and each in-process cache belongs to one component: seen from any
    component, a step of another one is something else that happened. *)

From stdpp Require Import options.
From S2P Require Import Prelude Rust Types Errors Json Models PolicyMerge Backends Db World.
From S2P Require Import Repositories RateLimit Concurrency Recovery Signing AppState KeyStore Auth.
From S2P Require Import PolicyEngine Ages Staleness PolicyMiddleware Router AdminAuth CacheRaces.
From S2P Require Import Nonces Server Pipeline.
#[local] Set Default Proof Using "Type*".

(** ** Who owns what *)

Inductive Part : Type := PLimits | PKeys | PNonces | PPolicies | PRoutes | PAdmins.
#[global] Instance part_eq_dec : EqDecision Part.
Proof. solve_decision. Defined.

(** The owner of a key in Redis. *)
Definition redis_part (k : string) : option Part :=
  if limiter_key k then Some PLimits
  else if starts_with k "keycache:" then Some PKeys
  else if starts_with k "nonce:" then Some PNonces
  else None.

Section parts.
Context `{!Backends, !BackendsLaws}.
Implicit Types (w : World) (p q : Part).

Definition cache_kept p w w' : Prop :=
  match p with
  | PKeys => key_l1 w' = key_l1 w
  | PPolicies => policy_l1 w' = policy_l1 w
  | PRoutes => route_l1 w' = route_l1 w
  | PAdmins => admin_l1 w' = admin_l1 w
  | PLimits | PNonces => True
  end.

(** What [p] owns is as it was, but for what expired. *)
Record calm p w w' : Prop := mkCalm {
  qt_clock : clock w ≤ clock w';
  qt_redis k : redis_part k = Some p →
    peek (clock w') (redis w') k = peek (clock w') (redis w) k;
  qt_cache : cache_kept p w w'
}.
#[global] Instance calm_preorder p : PreOrder (calm p).
Proof.
  split.
  - intros w. split; [done..|]. by destruct p.
  - intros w1 w2 w3 [Hc Hr Hl] [Hc' Hr' Hl']. split; [lia| |].
    + intros k Hk. rewrite Hr', (peek_later (clock w2) (clock w3)), Hr, <-peek_later by done. done.
    + destruct p; cbn in *; congruence.
Qed.

(** At most what [p] owns has changed. *)
Definition only p w w' : Prop := ∀ q, q ≠ p → calm q w w'.
#[global] Instance only_preorder p : PreOrder (only p).
Proof.
  split; [intros w q _; reflexivity|]. intros w1 w2 w3 H12 H23 q Hq. etrans; eauto.
Qed.

Definition touches {E A} p (m : IO World E A) : Prop := ∀ w, only p w (m w).2.

Lemma touches_bind {E A B} p (m : IO World E A) (k : A → IO World E B) :
  touches p m → (∀ a, touches p (k a)) → touches p (m ≫= k).
Proof.
  intros Hm Hk w. unfold mbind, io_bind. specialize (Hm w).
  destruct (m w) as [[a|e] w']; cbn in *; [|done]. etrans; [exact Hm|apply Hk].
Qed.
Lemma touches_map_err {E F A} p (g : E → F) (m : IO World E A) :
  touches p m → touches p (io_map_err g m).
Proof. intros Hm w. specialize (Hm w). unfold io_map_err. by destruct (m w). Qed.
Lemma touches_try {E F A} p (m : IO World E A) : touches p m → touches p (io_try m : IO World F _).
Proof. intros Hm w. specialize (Hm w). unfold io_try. by destruct (m w). Qed.
Lemma elsewhere_only p w w' : elsewhere w w' → only p w w'.
Proof. intros [] q _. split; [done|by intros k _; f_equal|by destruct q]. Qed.
Lemma touches_db {E A} p (m : IO World E A) : calls_db m → touches p m.
Proof. intros Hm w. apply elsewhere_only, Hm. Qed.
Lemma touches_ret {E A} p (a : A) : touches p (mret a : IO World E A).
Proof. by apply touches_db, calls_db_ret. Qed.
Lemma touches_lift {E A} p (r : result E A) : touches p (lift r).
Proof. apply touches_db, calls_db_lift. Qed.
Lemma touches_redis {A} p (f : Z → Redis → A * Redis) :
  (∀ k, redis_part k ≠ Some p → ∀ t st, peek t (f t st).2 k = peek t st k) →
  touches p (redis_call f).
Proof.
  intros Hf w. unfold redis_call. pose proof (tick_elsewhere w) as Ht.
  destruct (tick w) as [flt w1]. cbn [snd] in Ht.
  destruct (f (clock w1) (redis w1)) as [a st] eqn:Hst.
  assert (only p w1 (set_redis st w1)) as Hset.
  { intros q Hq. split; [done| |by destruct q]. intros k Hk. cbn.
    replace st with (f (clock w1) (redis w1)).2 by (by rewrite Hst). apply Hf. congruence. }
  destruct flt as [[]|]; cbn [snd]; [by apply elsewhere_only|..];
    (etrans; [by apply elsewhere_only|done]).
Qed.

(** The world with another state of one cache. *)
Lemma only_keys c w : only PKeys w (set_key_l1 c w).
Proof. intros q Hq. split; [done..|]. by destruct q. Qed.
Lemma only_policies c w : only PPolicies w (set_policy_l1 c w).
Proof. intros q Hq. split; [done..|]. by destruct q. Qed.
Lemma only_routes c w : only PRoutes w (set_route_l1 c w).
Proof. intros q Hq. split; [done..|]. by destruct q. Qed.
Lemma only_admins c w : only PAdmins w (set_admin_l1 c w).
Proof. intros q Hq. split; [done..|]. by destruct q. Qed.
End parts.

#[export] Hint Resolve touches_ret touches_lift only_keys only_policies only_routes only_admins : gate.
Ltac solve_touches :=
  repeat match goal with
  | |- touches _ (_ ≫= _) => apply touches_bind; [|intros]
  | |- touches _ (io_map_err _ _) => apply touches_map_err
  | |- touches _ (io_try _) => apply touches_try
  | |- touches _ (match ?x with _ => _ end) => destruct x
  | |- touches _ _ => solve [eauto with gate]
  end.

(** ** The operations stay in their parts *)

Section footprints.
Context `{!Backends, !BackendsLaws, !UuidLib, !HashOrder, !KeyCodec, !Crypto}.
Implicit Types (w : World).

Lemma window_part prefix V :
  starts_with prefix "rl:" = true → redis_part (window_key prefix V) = Some PLimits.
Proof. intros Hp. unfold redis_part. by rewrite window_limiter_key. Qed.
Lemma window_script_touches win prefix limit now :
  0 < win ≤ U32_MAX → starts_with prefix "rl:" = true →
  touches PLimits (window_script win prefix limit now).
Proof.
  intros Hwin Hp. unfold window_script. solve_touches. apply touches_redis. intros k Hk t st.
  apply lua_sliding_window_frame.
  - unfold as_u64, U32_MAX in *. rewrite Z.mod_small; lia.
  - intros ->. by rewrite window_part in Hk.
Qed.
Lemma decrement_touches key : redis_part key = Some PLimits →
  touches PLimits (redis_call (λ t, cmd_incrby t key (-1))).
Proof. intros Hkey. apply touches_redis. intros k Hk. apply incrby_frame. congruence. Qed.
Lemma acquire_touches sa limit : touches PLimits (acquire sa limit).
Proof.
  unfold acquire. solve_touches. apply touches_redis. intros k Hk.
  apply lua_acquire_frame; [done|]. by intros ->.
Qed.
Lemma release_touches {E} sa : touches PLimits
  (release_inner (mkPermit (concurrency_key sa) false) : IO World E ConcurrencyPermit).
Proof. unfold release_inner. cbn [released permit_key]. solve_touches. by apply decrement_touches. Qed.

Lemma ran_only {E A} p (m : IO World E A) w r w' : touches p m → m w = (r, w') → only p w w'.
Proof. intros Hm Hrun. specialize (Hm w). by rewrite Hrun in Hm. Qed.

Lemma advance_only ev sa pol w p w' q :
  0 < window_secs ev ≤ U32_MAX → advance ev sa pol w p w' q → only PLimits w w'.
Proof.
  intros Hwin Hadv. destruct Hadv; try reflexivity.
  - eapply ran_only; [apply window_script_touches|eassumption]; [done|apply sa_prefix_rl].
  - by eapply ran_only; [apply window_script_touches|eassumption].
  - eapply ran_only; [apply decrement_touches|eassumption]. apply window_part, sa_prefix_rl.
  - eapply ran_only; [apply acquire_touches|eassumption].
  - eapply ran_only; [apply (release_touches sa)|eassumption].
Qed.

Lemma key_part key_id : redis_part (redis_key key_id) = Some PKeys.
Proof. done. Qed.
Lemma read_key_touches key_id : touches PKeys (get_from_redis key_id).
Proof. unfold get_from_redis, redis_get. solve_touches. by apply touches_redis. Qed.
Lemma set_key_touches key_id key : touches PKeys (set_in_redis key_id key).
Proof.
  unfold set_in_redis, redis_set_ex. solve_touches. apply touches_redis. intros k Hk t st. cbn.
  rewrite peek_set_ex by done. apply decide_False. by intros ->.
Qed.
Lemma invalidate_touches b key_id : touches PKeys (invalidate b key_id).
Proof.
  unfold invalidate, redis_del. solve_touches; [intros w; apply only_keys|].
  apply touches_redis. intros k Hk t st. cbn. rewrite peek_del. apply decide_False. by intros ->.
Qed.
Lemma fetch_db key_id : calls_db (KeyRepo.get_by_key_id key_id).
Proof. unfold KeyRepo.get_by_key_id. solve_calls_db. Qed.

Lemma key_op_only D s s' : key_op D s s' → only PKeys (gate s) (gate s').
Proof.
  destruct 1 as [key_id w key w' fs cs ds Hrun|key_id w e w' fs cs ds Hrun|c w r w' fs cs ds _ Hrun _
    |c w r w' fs cs ds _ [= <- <-] _|key_id w key w' fs cs ds Hrun|key_id w r w' fs cs ds Hrun
    |c w r w' fs cs ds _ [= <- <-] _|key_id w r w' fs cs ds Hrun|b key_id w r w' fs cs ds Hrun]; cbn [gate].
  - eapply ran_only; [apply touches_db, fetch_db|done].
  - eapply ran_only; [apply touches_db, fetch_db|done].
  - eapply ran_only; [apply set_key_touches|done].
  - apply only_keys.
  - eapply ran_only; [apply read_key_touches|done].
  - eapply ran_only; [apply read_key_touches|done].
  - apply only_keys.
  - unfold l1_get in Hrun. destruct (moka_get _ _ _). injection Hrun as _ <-. apply only_keys.
  - eapply ran_only; [apply invalidate_touches|done].
Qed.

Lemma policy_op_only D s s' : policy_op D s s' → only PPolicies (here s) (here s').
Proof.
  destruct 1 as [w ls ps|auth d0 t0 w policies ev w' ls ps _ _ _ Hrun _|auth w r w' ls ps Hrun
    |l w r w' ls ps _ _ [= <- <-]|sa w r w' ls ps Hrun|sa w r w' ls ps [= <- <-]
    |w r w' ls ps [= <- <-]]; cbn [here]; try apply only_policies; [reflexivity|..].
  - by apply elsewhere_only, (load_quiet auth w (Ok policies)).
  - by apply elsewhere_only, (load_quiet auth w r).
  - unfold policy_cache_get in Hrun. destruct (moka_get _ _ _). injection Hrun as _ <-.
    apply only_policies.
Qed.

Lemma policy_op_reads D s s' : policy_op D s s' → past s' = past s ∨ ∃ x, past s' = x :: past s.
Proof. destruct 1; cbn; eauto. Qed.

Lemma nonce_part sa n : redis_part (nonce_key sa n) = Some PNonces.
Proof. done. Qed.
Lemma check_nonce_only sa n skew w r w' :
  0 < skew → check_nonce sa n skew w = (r, w') → only PNonces w w'.
Proof.
  intros Hskew. apply ran_only. unfold check_nonce, redis_set_nx_ex. solve_touches.
  apply touches_redis. intros k Hk t st. rewrite peek_set_nx_ex by done. apply decide_False.
  by intros [-> _].
Qed.
End footprints.

(** ** The whole

    The shared world and what each component remembers of its operations: the requests
    in the middleware; the keys in flight between database, Redis and cache; the policies
    loaded, and those requests were given; routes and admin keys on their way to a cache;
    the nonces accepted. *)

Record KeyBook : Type := mkKeyBook {
  kb_fetched : list Copy;
  kb_copied : list Copy;
  kb_reads : list (Z * Db)
}.
Record PolicyBook : Type := mkPolicyBook {
  pb_loads : list Load;
  pb_reads : list (Z * Db);
  pb_answers : list (ServiceAccountId * EvaluatedPolicy)
}.
Record Book (K V : Type) : Type := mkBook { bk_held : list (K * V * Z); bk_reads : list (Z * Db) }.
Arguments mkBook {K V} _ _.
Arguments bk_held {K V} _.
Arguments bk_reads {K V} _.

Record Gateway `{!Backends} : Type := mkGateway {
  g_world : World;
  g_flights : gmap nat Flight;
  g_keys : KeyBook;
  g_policies : PolicyBook;
  g_routes : Book string (list ProviderRoute);
  g_admins : Book unit (list AdminApiKey);
  g_nonces : list Accepted
}.
Arguments mkGateway {_} _ _ _ _ _ _ _.

(** Each component's view. *)
Section views.
Context `{!Backends}.
Definition key_view (w : World) (K : KeyBook) : KeyRaces :=
  mkKeyRaces _ w (kb_fetched K) (kb_copied K) (kb_reads K).
Definition policy_view (w : World) (P : PolicyBook) : Races :=
  mkRaces _ w (pb_loads P) (pb_reads P).
Definition book_view {K V} (w : World) (B : Book K V) : Filling (K:=K) (V:=V) :=
  mkFilling w (bk_held B) (bk_reads B).
Definition pipeline_view (s : Gateway) : Pipeline := mkPipeline (g_world s) (g_flights s).
Definition nonce_view (s : Gateway) : Nonces := mkNonces _ (g_world s) (g_nonces s).

(** A request was given this policy, out of the cache or freshly loaded. *)
Definition answered (P : PolicyBook) (sa : ServiceAccountId) (pol : EvaluatedPolicy) : Prop :=
  (sa, pol) ∈ pb_answers P ∨ ∃ l, l ∈ pb_loads P ∧ ld_account l = sa ∧ ld_value l = pol.

Definition opening (w : World) : Gateway :=
  mkGateway w ∅ (mkKeyBook [] [] []) (mkPolicyBook [] [] []) (mkBook [] []) (mkBook [] []) [].
End views.

Section system.
Context `{!Backends, !UuidLib, !HashOrder, !KeyCodec}.
Context (ev : RateLimitEvaluator) (D skew : Z).

Inductive gstep : Gateway → Gateway → Prop :=
  | gw_flight w w' F F' K P R A N :
      flight_step ev (answered P) (mkPipeline w F) (mkPipeline w' F') →
      gstep (mkGateway w F K P R A N) (mkGateway w' F' K P R A N)
  | gw_key w w' F K K' P R A N :
      key_op D (key_view w K) (key_view w' K') →
      gstep (mkGateway w F K P R A N) (mkGateway w' F K' P R A N)
  | gw_policy w w' F K P P' R A N :
      policy_op D (policy_view w P) (policy_view w' P') → pb_answers P' = pb_answers P →
      gstep (mkGateway w F K P R A N) (mkGateway w' F K P' R A N)
  (** a request is given a policy out of the cache *)
  | gw_cached sa pol w w' F K P R A N :
      policy_cache_get sa w = (Ok (Some pol), w') →
      gstep (mkGateway w F K P R A N)
        (mkGateway w' F K (mkPolicyBook (pb_loads P) (pb_reads P) ((sa, pol) :: pb_answers P)) R A N)
  (** routes: read from the database, cached at most [D] later, looked up, dropped *)
  | gw_routes_read tenant alias routes w w' F K P R A N :
      RouteRepo.resolve_routes tenant alias w = (Ok routes, w') →
      gstep (mkGateway w F K P R A N) (mkGateway w' F K P
        (mkBook ((cache_key tenant alias, routes, clock w) :: bk_held R) ((clock w, db w) :: bk_reads R)) A N)
  | gw_routes_fill key routes t w r w' F K P R A N :
      (key, routes, t) ∈ bk_held R → clock w ≤ t + D → route_cache_insert key routes w = (r, w') →
      gstep (mkGateway w F K P R A N) (mkGateway w' F K P R A N)
  | gw_routes_hit key w r w' F K P R A N :
      route_cache_get key w = (r, w') →
      gstep (mkGateway w F K P R A N) (mkGateway w' F K P R A N)
  | gw_routes_clear w (r : result GatewayError unit) w' F K P R A N :
      invalidate_all_routes w = (r, w') →
      gstep (mkGateway w F K P R A N) (mkGateway w' F K P R A N)
  (** admin keys, likewise *)
  | gw_admins_read keys w w' F K P R A N :
      AdminApiKeyRepo.list_active w = (Ok keys, w') →
      gstep (mkGateway w F K P R A N) (mkGateway w' F K P R
        (mkBook ((tt, keys, clock w) :: bk_held A) ((clock w, db w) :: bk_reads A)) N)
  | gw_admins_fill keys t w r w' F K P R A N :
      (tt, keys, t) ∈ bk_held A → clock w ≤ t + D → admin_cache_insert keys w = (r, w') →
      gstep (mkGateway w F K P R A N) (mkGateway w' F K P R A N)
  | gw_admins_hit w r w' F K P R A N :
      admin_cache_get w = (r, w') →
      gstep (mkGateway w F K P R A N) (mkGateway w' F K P R A N)
  | gw_nonce sa n w r w' F K P R A N :
      check_nonce sa n skew w = (r, w') →
      gstep (mkGateway w F K P R A N) (mkGateway w' F K P R A (note sa n (clock w') r N))
  (** statements and transactions, of this process or another; time *)
  | gw_elsewhere w w' F K P R A N :
      elsewhere w w' → gstep (mkGateway w F K P R A N) (mkGateway w' F K P R A N).
End system.

(** ** A step, seen by each component *)

Section projections.
Context `{!Backends, !BackendsLaws, !UuidLib, !UuidLaws, !HashOrder, !KeyCodec, !Crypto}.
Context (ev : RateLimitEvaluator) (D skew : Z).
Context (Hwin : 0 < window_secs ev ≤ U32_MAX) (Hskew : 0 < skew).
Implicit Types (w : World) (s : Gateway).
#[local] Set Default Proof Using "All".

Abbreviation step := (gstep ev D skew).

Lemma calm_flights I w w' F : calm PLimits w w' → pstep ev I (mkPipeline w F) (mkPipeline w' F).
Proof. intros [Hc Hr _]. apply fly_other; [done|]. intros k Hk. apply Hr. unfold redis_part. by rewrite Hk. Qed.
Lemma calm_keys w w' K : calm PKeys w w' → key_step D (key_view w K) (key_view w' K).
Proof. intros [Hc Hr Hl]. apply kr_other; [done..|]. intros kid. by apply Hr, key_part. Qed.
Lemma calm_policies w w' P : calm PPolicies w w' → race_step D (policy_view w P) (policy_view w' P).
Proof. intros [Hc _ Hl]. by apply rc_other. Qed.
Lemma calm_routes w w' R :
  calm PRoutes w w' → fill_step route_l1 routes_of D (book_view w R) (book_view w' R).
Proof. intros [Hc _ Hl]. by apply fl_other. Qed.
Lemma calm_admins w w' A :
  calm PAdmins w w' → fill_step admin_l1 admins_of D (book_view w A) (book_view w' A).
Proof. intros [Hc _ Hl]. by apply fl_other. Qed.
Lemma calm_nonces w w' N : calm PNonces w w' → nonce_step skew (mkNonces _ w N) (mkNonces _ w' N).
Proof. intros [Hc Hr _]. apply nn_other; [done|]. intros sa n. by apply Hr. Qed.

(** The part a step belongs to; none for what happens elsewhere. *)
Inductive of_part : Part → Gateway → Gateway → Prop :=
  | of_limits w w' F F' K P R A N :
      flight_step ev (answered P) (mkPipeline w F) (mkPipeline w' F') →
      of_part PLimits (mkGateway w F K P R A N) (mkGateway w' F' K P R A N)
  | of_keys w w' F K K' P R A N :
      key_op D (key_view w K) (key_view w' K') →
      of_part PKeys (mkGateway w F K P R A N) (mkGateway w' F K' P R A N)
  | of_policies w w' F K P P' R A N :
      policy_op D (policy_view w P) (policy_view w' P') →
      of_part PPolicies (mkGateway w F K P R A N) (mkGateway w' F K P' R A N)
  | of_routes w w' F K P R R' A N :
      fill_step route_l1 routes_of D (book_view w R) (book_view w' R') → only PRoutes w w' →
      of_part PRoutes (mkGateway w F K P R A N) (mkGateway w' F K P R' A N)
  | of_admins w w' F K P R A A' N :
      fill_step admin_l1 admins_of D (book_view w A) (book_view w' A') → only PAdmins w w' →
      of_part PAdmins (mkGateway w F K P R A N) (mkGateway w' F K P R A' N)
  | of_nonces w w' F K P R A N N' :
      nonce_step skew (mkNonces _ w N) (mkNonces _ w' N') → only PNonces w w' →
      of_part PNonces (mkGateway w F K P R A N) (mkGateway w' F K P R A N').

Lemma step_of_part s s' : step s s' → ∃ p, of_part p s s'.
Proof.
  destruct 1 as [w w' F F' K P R A N Hf|w w' F K K' P R A N Hk|w w' F K P P' R A N Hp _
    |sa pol w w' F K P R A N Hrun|tenant alias routes w w' F K P R A N Hrun
    |key routes t w r w' F K P R A N Hin Hc [= <- <-]|key w r w' F K P R A N Hrun
    |w r w' F K P R A N [= <- <-]|keys w w' F K P R A N Hrun
    |keys t w r w' F K P R A N Hin Hc [= <- <-]|w r w' F K P R A N Hrun|sa n w r w' F K P R A N Hrun
    |w w' F K P R A N He].
  - exists PLimits. by constructor.
  - exists PKeys. by constructor.
  - exists PPolicies. by constructor.
  - exists PPolicies. constructor. by eapply rc_hit.
  - exists PRoutes. assert (calls_db (RouteRepo.resolve_routes tenant alias)) as Hdb
      by (unfold RouteRepo.resolve_routes; solve_calls_db).
    constructor; [|eapply ran_only; [by apply touches_db|done]].
    specialize (Hdb w). rewrite Hrun in Hdb. destruct Hdb as [Hc _ _ _ Hl _].
    apply fl_read; [|done..]. exists tenant, alias. split; [done|].
    by apply io_map_err_ok, db_call_ok in Hrun as (_ & [= ?] & _).
  - exists PRoutes. constructor; [by eapply fl_fill|apply only_routes].
  - exists PRoutes. unfold route_cache_get in Hrun. destruct (moka_get _ _ _) as [o c] eqn:Hget.
    injection Hrun as _ <-. constructor; [|apply only_routes]. apply (fl_hit _ _ _ key); [done|].
    cbn. by rewrite Hget.
  - exists PRoutes. constructor; [by apply fl_clear|apply only_routes].
  - exists PAdmins. assert (calls_db AdminApiKeyRepo.list_active) as Hdb
      by (unfold AdminApiKeyRepo.list_active; solve_calls_db).
    constructor; [|eapply ran_only; [by apply touches_db|done]].
    specialize (Hdb w). rewrite Hrun in Hdb. destruct Hdb as [Hc _ _ _ _ Hl].
    apply fl_read; [|done..]. exact (list_active_source _ _ _ Hrun).
  - exists PAdmins. constructor; [by eapply fl_fill|apply only_admins].
  - exists PAdmins. unfold admin_cache_get in Hrun. destruct (moka_get _ _ _) as [o c] eqn:Hget.
    injection Hrun as _ <-. constructor; [|apply only_admins]. apply (fl_hit _ _ _ tt); [done|].
    cbn. by rewrite Hget.
  - exists PNonces. constructor; [by apply nn_check|by eapply check_nonce_only].
  - exists PNonces. constructor; [apply calm_nonces|by apply elsewhere_only].
    by apply (elsewhere_only PLimits).
Qed.

Lemma of_part_only p s s' : of_part p s s' → only p (g_world s) (g_world s').
Proof.
  destruct 1 as [w w' F F' K P R A N Hf|w w' F K K' P R A N Hk|w w' F K P P' R A N Hp
    |w w' F K P R R' A N _ Ho|w w' F K P R A A' N _ Ho|w w' F K P R A N N' _ Ho]; cbn; try done.
  - inversion Hf; subst; [reflexivity|]. by eapply advance_only.
  - exact (key_op_only D _ _ Hk).
  - exact (policy_op_only D _ _ Hp).
Qed.

Ltac see own calm_lemma :=
  intros [p Hp]%step_of_part; pose proof (of_part_only p _ _ Hp) as Ho;
  destruct Hp; cbn in *; first [by own|by apply calm_lemma, Ho].

Lemma step_flights I s s' :
  (∀ sa pol, answered (g_policies s) sa pol → I sa pol) →
  step s s' → pstep ev I (pipeline_view s) (pipeline_view s').
Proof.
  intros HI [p Hp]%step_of_part. pose proof (of_part_only p _ _ Hp) as Ho. unfold pipeline_view.
  destruct Hp as [w w' F F' K P R A N Hf| | | | |]; cbn in *; try (by apply calm_flights, Ho).
  apply fly_own. inversion Hf; subst; by econstructor; eauto.
Qed.
Lemma step_keys s s' :
  step s s' → key_step D (key_view (g_world s) (g_keys s)) (key_view (g_world s') (g_keys s')).
Proof. see ltac:(by apply kr_own) calm_keys. Qed.
Lemma step_policies s s' :
  step s s' → race_step D (policy_view (g_world s) (g_policies s)) (policy_view (g_world s') (g_policies s')).
Proof. see ltac:(by apply rc_own) calm_policies. Qed.
Lemma step_routes s s' : step s s' → fill_step route_l1 routes_of D
  (book_view (g_world s) (g_routes s)) (book_view (g_world s') (g_routes s')).
Proof. see ltac:(assumption) calm_routes. Qed.
Lemma step_admins s s' : step s s' → fill_step admin_l1 admins_of D
  (book_view (g_world s) (g_admins s)) (book_view (g_world s') (g_admins s')).
Proof. see ltac:(assumption) calm_admins. Qed.
Lemma step_nonces s s' : step s s' → nonce_step skew (nonce_view s) (nonce_view s').
Proof. unfold nonce_view. see ltac:(assumption) calm_nonces. Qed.

(** ** Runs *)

(** Merged from what the database held for the account when requests read it. *)
Definition issued (ps : list (Z * Db)) (sa : ServiceAccountId) (pol : EvaluatedPolicy) : Prop :=
  ∃ t, read_at ps t sa pol.

Lemma step_reads s s' : step s s' →
  pb_reads (g_policies s') = pb_reads (g_policies s) ∨
  ∃ x, pb_reads (g_policies s') = x :: pb_reads (g_policies s).
Proof.
  intros [p Hp]%step_of_part. destruct Hp as [| |w w' F K P P' R A N Hp| | |]; try by left.
  apply policy_op_reads in Hp. exact Hp.
Qed.
Lemma issued_later s s' sa pol :
  rtc step s s' → issued (pb_reads (g_policies s)) sa pol → issued (pb_reads (g_policies s')) sa pol.
Proof.
  induction 1 as [|s s1 s2 Hstep _ IH]; [done|]. intros [t Hr]. apply IH. exists t.
  destruct (step_reads _ _ Hstep) as [->|[x ->]]; [done|by apply read_at_later].
Qed.

(** Whatever policy a request was given came out of the database. *)
Definition policies_inv (ttl : Z) (s : Gateway) : Prop :=
  races_inv D ttl (policy_view (g_world s) (g_policies s)) ∧
  ∀ sa pol, (sa, pol) ∈ pb_answers (g_policies s) → issued (pb_reads (g_policies s)) sa pol.

Lemma answered_issued ttl s sa pol :
  policies_inv ttl s → answered (g_policies s) sa pol → issued (pb_reads (g_policies s)) sa pol.
Proof.
  intros [[_ Hp _] Ha] [Hin|(l & Hl & <- & <-)]; [by apply Ha|].
  exists (ld_read l). exact (proj1 (Forall_forall _ _) Hp l Hl).
Qed.
Lemma policies_step ttl s s' : step s s' → policies_inv ttl s → policies_inv ttl s'.
Proof.
  intros Hstep [Hr Ha]. split; [exact (race_step_inv D ttl _ _ (step_policies _ _ Hstep) Hr)|].
  assert (∀ sa pol, (sa, pol) ∈ pb_answers (g_policies s) →
    issued (pb_reads (g_policies s')) sa pol) as Hold.
  { intros sa pol Hin%Ha. by eapply issued_later; [apply rtc_once|]. }
  destruct Hstep as [| |w w' F K P P' R A N _ Heq|sa pol w w' F K P R A N Hrun| | | | | | | | |];
    cbn in *; try done.
  - by rewrite Heq.
  - intros sa' pol' [[= -> ->]|Hin]%elem_of_cons; [|by apply Ha].
    destruct (hit_read D ttl _ sa pol w' Hr Hrun) as (t & Ht & _). by exists t.
Qed.
Lemma policies_start w :
  (∀ sa, latest (policy_l1 w) sa = None) → policies_inv (time_to_live (policy_l1 w)) (opening w).
Proof.
  intros He. split; [by apply (races_start D _ w)|]. intros sa pol Hin. by apply elem_of_nil in Hin.
Qed.

(** [T]: what is asked of each step besides. *)
Lemma runs_flights (T : Pipeline → Pipeline → Prop) k w0 s :
  (∀ sa, latest (policy_l1 w0) sa = None) →
  nsteps (λ s s', step s s' ∧ T (pipeline_view s) (pipeline_view s')) k (opening w0) s →
  nsteps (λ x y, pstep ev (issued (pb_reads (g_policies s))) x y ∧ T x y) k
    (mkPipeline w0 ∅) (pipeline_view s).
Proof.
  intros He Hsteps. change (mkPipeline w0 ∅) with (pipeline_view (opening w0)).
  pose proof (policies_start w0 He) as Hinv. revert Hinv. clear He.
  generalize (time_to_live (policy_l1 w0)) as ttl. intros ttl.
  induction Hsteps as [s|k s1 s2 s [Hstep HT] Hsteps IH]; intros Hinv; [constructor|].
  econstructor; [|by apply IH, (policies_step ttl s1)]. split; [|done]. apply step_flights; [|done].
  intros sa pol Hans%(answered_issued ttl); [|done].
  eapply issued_later; [|exact Hans]. eapply rtc_l; [exact Hstep|].
  eapply rtc_subrel; [|by eapply rtc_nsteps_2]. by intros x y [? _].
Qed.
(** Nothing. *)
Lemma runs_fly k w0 s :
  (∀ sa, latest (policy_l1 w0) sa = None) → nsteps step k (opening w0) s →
  nsteps (pstep ev (issued (pb_reads (g_policies s)))) k (mkPipeline w0 ∅) (pipeline_view s).
Proof.
  intros He Hsteps. eapply (nsteps_congruence id); [|apply (runs_flights (λ _ _, True)); [done|]].
  - by intros x y [? _].
  - revert Hsteps. by apply (nsteps_congruence id).
Qed.

Lemma runs_project {X} (view : Gateway → X) (R : relation X) s s' :
  (∀ s s', step s s' → R (view s) (view s')) → rtc step s s' → rtc R (view s) (view s').
Proof. intros Hv. induction 1; [done|]. eapply rtc_l; eauto. Qed.
End projections.
