(* ===== verification/Config.v ===== *)
(** * Configuration (src/gateway/crates/gateway/src/config.rs)

    Loading the gateway's configuration from a source of named values: required and
    optional values, parsed numbers with their defaults, the two range checks. What loads
    satisfies the bounds the limiter relies on; every failure names a variable that is at
    fault. *)

From Stdlib Require Import Ascii.
From stdpp Require Import options.
From S2P Require Import Prelude Rust Types Errors Json Models PolicyMerge Backends Db World.
From S2P Require Import RateLimit.

(** ** [IpAddr::from_str]

    The reader of the Rust library: each function consumes a prefix of the text or fails
    and consumes nothing. *)

Inductive IpAddr : Type :=
  | V4 (octets : list Z)
  | V6 (groups : list Z).
#[global] Instance IpAddr_eq_dec : EqDecision IpAddr.
Proof. solve_decision. Defined.

Module Ip.
(** [char::to_digit] for radix 10 and 16. *)
Definition to_digit (radix : Z) (c : ascii) : option Z :=
  let b := byte_of c in
  let d := if is_ascii_digit c then b - 48
           else if (97 <=? b) && (b <=? 122) then b - 87
           else if (65 <=? b) && (b <=? 90) then b - 55 else radix in
  if d <? radix then Some d else None.

(** The digits at the front: their value and number, and the rest. *)
Fixpoint read_digits (radix : Z) (s : string) (acc count : Z) : Z * Z * string :=
  match s with
  | EmptyString => (acc, count, s)
  | String c s' =>
    match to_digit radix c with
    | Some d => read_digits radix s' (acc * radix + d) (count + 1)
    | None => (acc, count, s)
    end
  end.

Definition read_number (radix max_digits max : Z) (allow_zero_prefix : bool) (s : string)
    : option (Z * string) :=
  let has_leading_zero := match s with String c _ => Ascii.eqb c "0" | _ => false end in
  let '(value, count, rest) := read_digits radix s 0 0 in
  if (max_digits <? count) || (count =? 0) ||
     (negb allow_zero_prefix && has_leading_zero && (1 <? count)) || (max <? value)
  then None else Some (value, rest).

Definition read_given_char (x : ascii) (s : string) : option string :=
  match s with
  | String c s' => if Ascii.eqb c x then Some s' else None
  | EmptyString => None
  end.

Definition read_separator {A} (sep : ascii) (index : nat) (inner : string → option (A * string))
    (s : string) : option (A * string) :=
  match index with
  | O => inner s
  | S _ => read_given_char sep s ≫= inner
  end.

Definition read_ipv4_addr (s : string) : option (list Z * string) :=
  '(a, s) ← read_separator "." 0 (read_number 10 3 255 false) s;
  '(b, s) ← read_separator "." 1 (read_number 10 3 255 false) s;
  '(c, s) ← read_separator "." 2 (read_number 10 3 255 false) s;
  '(d, s) ← read_separator "." 3 (read_number 10 3 255 false) s;
  Some ([a; b; c; d], s).

(** [read_groups], with [left] of [limit] slots still to fill: the groups read, whether
    the last two are an embedded IPv4 address, and the rest. *)
Fixpoint read_groups (limit left : nat) (s : string) : list Z * bool * string :=
  match left with
  | O => ([], false, s)
  | S left' =>
    let i := (limit - left)%nat in
    let ipv4 := match left' with
      | O => None
      | S _ => read_separator ":" i read_ipv4_addr s
      end in
    match ipv4 with
    | Some (octets, s') =>
      let o k := nth k octets 0 in
      ([o 0%nat * 256 + o 1%nat; o 2%nat * 256 + o 3%nat], true, s')
    | None =>
      match read_separator ":" i (read_number 16 4 65535 true) s with
      | Some (g, s') =>
        let '(gs, embedded, rest) := read_groups limit left' s' in (g :: gs, embedded, rest)
      | None => ([], false, s)
      end
    end
  end.

Definition read_ipv6_addr (s : string) : option (list Z * string) :=
  let '(front, front_ipv4, s) := read_groups 8 8 s in
  if (length front =? 8)%nat then Some (front, s)
  else if front_ipv4 then None
  else
    s ← read_given_char ":" s;
    s ← read_given_char ":" s;
    let limit := (8 - (length front + 1))%nat in
    let '(back, _, s) := read_groups limit limit s in
    Some (front ++ replicate (8 - length front - length back) 0 ++ back, s).

Definition read_ip_addr (s : string) : option (IpAddr * string) :=
  match read_ipv4_addr s with
  | Some (octets, rest) => Some (V4 octets, rest)
  | None => '(groups, rest) ← read_ipv6_addr s; Some (V6 groups, rest)
  end.

Definition parse (s : string) : option IpAddr :=
  '(addr, rest) ← read_ip_addr s;
  match rest with EmptyString => Some addr | _ => None end.
End Ip.

(** [impl fmt::Display for AddrParseError], kind [Ip]. *)
Definition addr_parse_error : string := "invalid IP address syntax".

(** ** The configuration *)

(** [Secret]: the text, shown as [[REDACTED]] by [Debug] and [Display] alike. *)
Record Secret : Type := mkSecret { expose : string }.
Definition secret_display (_ : Secret) : string := "[REDACTED]".

Inductive ConfigError : Type :=
  | MissingRequired (name : string)
  | InvalidValue (name reason : string).
Definition config_error_display (e : ConfigError) : string :=
  match e with
  | MissingRequired name => "required environment variable `" +:+ name +:+ "` is not set"
  | InvalidValue name reason => "invalid value for `" +:+ name +:+ "`: " +:+ reason
  end.

Record ServerConfig : Type := mkServerConfig { sc_host : IpAddr; sc_port : Z }.
Record DatabaseConfig : Type := mkDatabaseConfig { dc_url : Secret; dc_pool_size : Z }.
Record RedisConfig : Type := mkRedisConfig { rc_url : Secret; rc_pool_size : Z }.
Record AuthConfig : Type := mkAuthConfig {
  au_timestamp_skew_secs : Z;
  au_admin_key_cache_ttl_secs : Z
}.
Record PolicyConfig : Type := mkPolicyConfig { pc_cache_ttl_secs : Z }.
Record RoutingConfig : Type := mkRoutingConfig { roc_cache_ttl_secs : Z }.
Record RateLimitConfig : Type := mkRateLimitConfig { rl_global_rpm : Z; rl_window_secs : Z }.
Record ProviderConfig : Type := mkProviderConfig { pr_timeout_ms : Z }.
Record ObservabilityConfig : Type := mkObservabilityConfig {
  ob_log_level : string;
  ob_otel_endpoint : option string;
  ob_service_name : string
}.
Record GatewayConfig : Type := mkGatewayConfig {
  gc_server : ServerConfig;
  gc_database : DatabaseConfig;
  gc_redis : RedisConfig;
  gc_auth : AuthConfig;
  gc_policy : PolicyConfig;
  gc_routing : RoutingConfig;
  gc_rate_limit : RateLimitConfig;
  gc_provider : ProviderConfig;
  gc_observability : ObservabilityConfig
}.

Definition DEFAULT_HOST : string := "0.0.0.0".
Definition DEFAULT_PORT : Z := 8080.
Definition DEFAULT_PG_POOL_SIZE : Z := 20.
Definition DEFAULT_VALKEY_POOL_SIZE : Z := 10.
Definition DEFAULT_TIMESTAMP_SKEW_SECS : Z := 300.
Definition DEFAULT_PROVIDER_TIMEOUT_MS : Z := 30000.
Definition DEFAULT_POLICY_CACHE_TTL_SECS : Z := 30.
Definition DEFAULT_ADMIN_KEY_CACHE_TTL_SECS : Z := 30.
Definition DEFAULT_ROUTING_CACHE_TTL_SECS : Z := 60.
Definition DEFAULT_GLOBAL_RPM : Z := 1000.
Definition DEFAULT_RATE_LIMIT_WINDOW_SECS : Z := 60.
Definition DEFAULT_LOG_LEVEL : string := "info".
Definition DEFAULT_SERVICE_NAME : string := "llmsmartgate".

Definition GatewayConfig_default : GatewayConfig :=
  mkGatewayConfig
    (mkServerConfig (V4 [127; 0; 0; 1]) DEFAULT_PORT)
    (mkDatabaseConfig (mkSecret "postgres://localhost/test") DEFAULT_PG_POOL_SIZE)
    (mkRedisConfig (mkSecret "redis://localhost:6379") DEFAULT_VALKEY_POOL_SIZE)
    (mkAuthConfig DEFAULT_TIMESTAMP_SKEW_SECS DEFAULT_ADMIN_KEY_CACHE_TTL_SECS)
    (mkPolicyConfig DEFAULT_POLICY_CACHE_TTL_SECS)
    (mkRoutingConfig DEFAULT_ROUTING_CACHE_TTL_SECS)
    (mkRateLimitConfig DEFAULT_GLOBAL_RPM DEFAULT_RATE_LIMIT_WINDOW_SECS)
    (mkProviderConfig DEFAULT_PROVIDER_TIMEOUT_MS)
    (mkObservabilityConfig DEFAULT_LOG_LEVEL None DEFAULT_SERVICE_NAME).

(** ** Reading values

    [ConfigSource::get]: the environment, or a map in tests. *)
Definition ConfigSource : Type := string → option string.

Definition required (source : ConfigSource) (name : string) : result ConfigError string :=
  ok_or (MissingRequired name) (source name).
Definition optional (source : ConfigSource) (name dflt : string) : string :=
  default dflt (source name).
Definition parse_val (parse : string → result IntErrorKind Z) (source : ConfigSource)
    (name : string) (dflt : Z) : result ConfigError Z :=
  match source name with
  | Some val => map_err (λ e, InvalidValue name (int_error_display e)) (parse val)
  | None => Ok dflt
  end.

Definition load_from (source : ConfigSource) : result ConfigError GatewayConfig :=
  database_url ← required source "DATABASE_URL";
  valkey_url ← required source "VALKEY_URL";
  let host_str := optional source "LLMSMARTGATE_HOST" DEFAULT_HOST in
  host ← ok_or (InvalidValue "LLMSMARTGATE_HOST" addr_parse_error) (Ip.parse host_str);
  port ← parse_val parse_u16 source "LLMSMARTGATE_PORT" DEFAULT_PORT;
  pg_pool_size ← parse_val parse_u32 source "LLMSMARTGATE_PG_POOL_SIZE" DEFAULT_PG_POOL_SIZE;
  valkey_pool_size ← parse_val parse_u32 source "LLMSMARTGATE_VALKEY_POOL_SIZE"
    DEFAULT_VALKEY_POOL_SIZE;
  timestamp_skew_secs ← parse_val parse_u64 source "LLMSMARTGATE_TIMESTAMP_SKEW_SECS"
    DEFAULT_TIMESTAMP_SKEW_SECS;
  provider_timeout_ms ← parse_val parse_u64 source "LLMSMARTGATE_PROVIDER_TIMEOUT_MS"
    DEFAULT_PROVIDER_TIMEOUT_MS;
  policy_cache_ttl_secs ← parse_val parse_u64 source "LLMSMARTGATE_POLICY_CACHE_TTL_SECS"
    DEFAULT_POLICY_CACHE_TTL_SECS;
  admin_key_cache_ttl_secs ← parse_val parse_u64 source "LLMSMARTGATE_ADMIN_KEY_CACHE_TTL_SECS"
    DEFAULT_ADMIN_KEY_CACHE_TTL_SECS;
  routing_cache_ttl_secs ← parse_val parse_u64 source "LLMSMARTGATE_ROUTING_CACHE_TTL_SECS"
    DEFAULT_ROUTING_CACHE_TTL_SECS;
  global_rpm ← parse_val parse_u32 source "LLMSMARTGATE_GLOBAL_RPM" DEFAULT_GLOBAL_RPM;
  rate_limit_window_secs ← parse_val parse_u64 source "LLMSMARTGATE_RATE_LIMIT_WINDOW_SECS"
    DEFAULT_RATE_LIMIT_WINDOW_SECS;
  _ ← throw_if (global_rpm =? 0)
    (InvalidValue "LLMSMARTGATE_GLOBAL_RPM" "global_rpm must be > 0");
  _ ← throw_if (rate_limit_window_secs =? 0)
    (InvalidValue "LLMSMARTGATE_RATE_LIMIT_WINDOW_SECS" "window_secs must be > 0");
  let log_level := optional source "RUST_LOG" DEFAULT_LOG_LEVEL in
  let otel_endpoint := source "OTEL_EXPORTER_OTLP_ENDPOINT" in
  let service_name := optional source "OTEL_SERVICE_NAME" DEFAULT_SERVICE_NAME in
  Ok (mkGatewayConfig
    (mkServerConfig host port)
    (mkDatabaseConfig (mkSecret database_url) pg_pool_size)
    (mkRedisConfig (mkSecret valkey_url) valkey_pool_size)
    (mkAuthConfig timestamp_skew_secs admin_key_cache_ttl_secs)
    (mkPolicyConfig policy_cache_ttl_secs)
    (mkRoutingConfig routing_cache_ttl_secs)
    (mkRateLimitConfig global_rpm rate_limit_window_secs)
    (mkProviderConfig provider_timeout_ms)
    (mkObservabilityConfig log_level otel_endpoint service_name)).

(** [RateLimitEvaluator::new] *)
Definition evaluator_new (config : RateLimitConfig) : RateLimitEvaluator :=
  mkRateLimitEvaluator (rl_window_secs config) (rl_global_rpm config).

(** ** Specification *)

Section spec.
Variable source : ConfigSource.

(** A number: its text parses to it, or the text is absent and it is the default. *)
Definition setting (parse : string → result IntErrorKind Z) (name : string) (dflt v : Z) : Prop :=
  match source name with Some text => parse text = Ok v | None => v = dflt end.

(** The configuration a source describes, field by field. *)
Record loads (c : GatewayConfig) : Prop := mkLoads {
  ld_database : source "DATABASE_URL" = Some (expose (dc_url (gc_database c)));
  ld_valkey : source "VALKEY_URL" = Some (expose (rc_url (gc_redis c)));
  ld_host : Ip.parse (default "0.0.0.0" (source "LLMSMARTGATE_HOST")) = Some (sc_host (gc_server c));
  ld_port : setting parse_u16 "LLMSMARTGATE_PORT" 8080 (sc_port (gc_server c));
  ld_pg : setting parse_u32 "LLMSMARTGATE_PG_POOL_SIZE" 20 (dc_pool_size (gc_database c));
  ld_redis : setting parse_u32 "LLMSMARTGATE_VALKEY_POOL_SIZE" 10 (rc_pool_size (gc_redis c));
  ld_skew : setting parse_u64 "LLMSMARTGATE_TIMESTAMP_SKEW_SECS" 300
    (au_timestamp_skew_secs (gc_auth c));
  ld_admin : setting parse_u64 "LLMSMARTGATE_ADMIN_KEY_CACHE_TTL_SECS" 30
    (au_admin_key_cache_ttl_secs (gc_auth c));
  ld_policy : setting parse_u64 "LLMSMARTGATE_POLICY_CACHE_TTL_SECS" 30
    (pc_cache_ttl_secs (gc_policy c));
  ld_routing : setting parse_u64 "LLMSMARTGATE_ROUTING_CACHE_TTL_SECS" 60
    (roc_cache_ttl_secs (gc_routing c));
  ld_timeout : setting parse_u64 "LLMSMARTGATE_PROVIDER_TIMEOUT_MS" 30000
    (pr_timeout_ms (gc_provider c));
  ld_rpm : setting parse_u32 "LLMSMARTGATE_GLOBAL_RPM" 1000 (rl_global_rpm (gc_rate_limit c));
  ld_rpm_pos : rl_global_rpm (gc_rate_limit c) ≠ 0;
  ld_window : setting parse_u64 "LLMSMARTGATE_RATE_LIMIT_WINDOW_SECS" 60
    (rl_window_secs (gc_rate_limit c));
  ld_window_pos : rl_window_secs (gc_rate_limit c) ≠ 0;
  ld_log : ob_log_level (gc_observability c) = default "info" (source "RUST_LOG");
  ld_otel : ob_otel_endpoint (gc_observability c) = source "OTEL_EXPORTER_OTLP_ENDPOINT";
  ld_name : ob_service_name (gc_observability c) = default "llmsmartgate" (source "OTEL_SERVICE_NAME")
}.

(** The variables with a number, and how it is parsed. *)
Definition numeric : list (string * (string → result IntErrorKind Z)) :=
  [("LLMSMARTGATE_PORT", parse_u16); ("LLMSMARTGATE_PG_POOL_SIZE", parse_u32);
   ("LLMSMARTGATE_VALKEY_POOL_SIZE", parse_u32); ("LLMSMARTGATE_TIMESTAMP_SKEW_SECS", parse_u64);
   ("LLMSMARTGATE_PROVIDER_TIMEOUT_MS", parse_u64); ("LLMSMARTGATE_POLICY_CACHE_TTL_SECS", parse_u64);
   ("LLMSMARTGATE_ADMIN_KEY_CACHE_TTL_SECS", parse_u64);
   ("LLMSMARTGATE_ROUTING_CACHE_TTL_SECS", parse_u64); ("LLMSMARTGATE_GLOBAL_RPM", parse_u32);
   ("LLMSMARTGATE_RATE_LIMIT_WINDOW_SECS", parse_u64)].

(** An error names a variable that is at fault. *)
Definition at_fault (e : ConfigError) : Prop :=
  match e with
  | MissingRequired name => name ∈ ["DATABASE_URL"; "VALKEY_URL"] ∧ source name = None
  | InvalidValue name reason =>
    ∃ text, source name = Some text ∧
      ((name = "LLMSMARTGATE_HOST" ∧ Ip.parse text = None) ∨
       (∃ parse k, (name, parse) ∈ numeric ∧ parse text = Err k ∧ reason = int_error_display k) ∨
       (name = "LLMSMARTGATE_GLOBAL_RPM" ∧ parse_u32 text = Ok 0) ∨
       (name = "LLMSMARTGATE_RATE_LIMIT_WINDOW_SECS" ∧ parse_u64 text = Ok 0))
  end.
End spec.

(** ** Properties *)

Section loading.
Variable source : ConfigSource.

Lemma parse_val_ok parse name dflt v :
  parse_val parse source name dflt = Ok v ↔ setting source parse name dflt v.
Proof.
  unfold parse_val, setting. destruct (source name) as [text|]; [apply map_err_ok|].
  split; [by intros [= <-]|by intros ->].
Qed.
Lemma parse_val_err parse name dflt e :
  parse_val parse source name dflt = Err e → (name, parse) ∈ numeric → at_fault source e.
Proof.
  unfold parse_val. destruct (source name) as [text|] eqn:Hs; [|done].
  intros (k & Hk & ->)%map_err_err Hin. exists text. split; [done|]. right. left. eauto.
Qed.

Lemma load_from_ok c : load_from source = Ok c → loads source c.
Proof.
  unfold load_from, required, optional. intros Hload. inv_res.
  repeat match goal with H : parse_val _ _ _ _ = Ok _ |- _ => apply parse_val_ok in H end.
  repeat match goal with H : (_ =? 0) = false |- _ => apply Z.eqb_neq in H end.
  by split.
Qed.

Lemma loads_load_from c : loads source c → load_from source = Ok c.
Proof.
  intros [Hdb Hvk Hhost Hport Hpg Hrd Hsk Had Hpo Hro Hti Hrpm Hrpm0 Hwin Hwin0 Hlog Hotel Hname].
  apply parse_val_ok in Hport, Hpg, Hrd, Hsk, Had, Hpo, Hro, Hti, Hrpm, Hwin.
  apply Z.eqb_neq in Hrpm0, Hwin0.
  unfold load_from, required, optional, DEFAULT_HOST. rewrite Hdb, Hvk, Hhost. cbn [mbind result_bind ok_or].
  unfold DEFAULT_PORT, DEFAULT_PG_POOL_SIZE, DEFAULT_VALKEY_POOL_SIZE, DEFAULT_TIMESTAMP_SKEW_SECS,
    DEFAULT_PROVIDER_TIMEOUT_MS, DEFAULT_POLICY_CACHE_TTL_SECS, DEFAULT_ADMIN_KEY_CACHE_TTL_SECS,
    DEFAULT_ROUTING_CACHE_TTL_SECS, DEFAULT_GLOBAL_RPM, DEFAULT_RATE_LIMIT_WINDOW_SECS,
    DEFAULT_LOG_LEVEL, DEFAULT_SERVICE_NAME.
  rewrite Hport, Hpg, Hrd, Hsk, Hti, Hpo, Had, Hro, Hrpm, Hwin. cbn [mbind result_bind].
  rewrite Hrpm0, Hwin0. cbn [mbind result_bind throw_if]. rewrite <-Hlog, <-Hotel, <-Hname.
  destruct c as [[] [[]] [[]] [] [] [] [] [] []]. reflexivity.
Qed.

Lemma load_from_err e : load_from source = Err e → at_fault source e.
Proof.
  unfold load_from, required, optional.
  repeat (intros [Herr|(? & ? & Hrest)]%result_bind_err; [|revert Hrest]); [..|by intros].
  all: try (eapply parse_val_err; [exact Herr|unfold numeric; set_solver]).
  - destruct (source "DATABASE_URL") eqn:Hs; [done|]. injection Herr as <-. split; [set_solver|done].
  - destruct (source "VALKEY_URL") eqn:Hs; [done|]. injection Herr as <-. split; [set_solver|done].
  - destruct (source "LLMSMARTGATE_HOST") as [text|] eqn:Hs; [|vm_compute in Herr; done].
    cbn in Herr. destruct (Ip.parse text) eqn:Hip; [done|]. injection Herr as <-.
    exists text. split; [done|]. by left.
  - apply throw_if_err in Herr as [->%Z.eqb_eq ->].
    match goal with H : parse_val parse_u32 _ "LLMSMARTGATE_GLOBAL_RPM" _ = _ |- _ =>
      rename H into Hz end.
    apply parse_val_ok in Hz. unfold setting in Hz.
    destruct (source "LLMSMARTGATE_GLOBAL_RPM") as [text|] eqn:Hs; [|done].
    exists text. split; [done|]. right. right. left. done.
  - apply throw_if_err in Herr as [->%Z.eqb_eq ->].
    match goal with H : parse_val parse_u64 _ "LLMSMARTGATE_RATE_LIMIT_WINDOW_SECS" _ = _ |- _ =>
      rename H into Hz end.
    apply parse_val_ok in Hz. unfold setting in Hz.
    destruct (source "LLMSMARTGATE_RATE_LIMIT_WINDOW_SECS") as [text|] eqn:Hs; [|done].
    exists text. split; [done|]. right. right. right. done.
Qed.

(** What loads is within the ranges of its types. *)
Lemma setting_range lo hi name dflt v :
  lo ≤ 0 ≤ hi → lo ≤ dflt ≤ hi → setting source (from_str lo hi) name dflt v → lo ≤ v ≤ hi.
Proof.
  intros Hlh Hd. unfold setting. destruct (source name); [|by intros ->].
  intros Hp. by eapply from_str_bounds.
Qed.
End loading.

(** C37: loading succeeds exactly for the sources that describe a
    configuration: both URLs present, the host an IP address, every number that is given
    within the range of its type, the global rate and the window not zero; each field is
    the value given or the documented default. Otherwise the error names a variable whose
    absence or text is at fault, and why. A configuration that loads gives the rate
    limiter a window and a limit it can divide by and count to. *)
Theorem config_load_exact source :
  (∀ c, load_from source = Ok c ↔ loads source c) ∧
  (∀ e, load_from source = Err e → at_fault source e) ∧
  (∀ c, load_from source = Ok c →
     0 ≤ sc_port (gc_server c) ≤ U16_MAX ∧
     0 < window_secs (evaluator_new (gc_rate_limit c)) ≤ U64_MAX ∧
     0 < global_rpm (evaluator_new (gc_rate_limit c)) ≤ U32_MAX).
Proof.
  split_and!.
  - intros c. split; [apply load_from_ok|apply loads_load_from].
  - apply load_from_err.
  - intros c [? ? ? Hport ? ? ? ? ? ? ? Hrpm Hrpm0 Hwin Hwin0 ? ? ?]%load_from_ok. cbn.
    apply setting_range in Hport, Hrpm, Hwin; [|by (unfold U16_MAX, U32_MAX, U64_MAX; lia)..].
    lia.
Qed.

(** ** Concrete runs *)

Definition of_list (vars : list (string * string)) : ConfigSource :=
  λ name, (list_to_map vars : gmap string string) !! name.
Definition urls : list (string * string) :=
  [("DATABASE_URL", "postgres://db/gate"); ("VALKEY_URL", "redis://cache:6379")].

Example load_defaults :
  load_from (of_list urls) = Ok (mkGatewayConfig
    (mkServerConfig (V4 [0; 0; 0; 0]) 8080)
    (mkDatabaseConfig (mkSecret "postgres://db/gate") 20)
    (mkRedisConfig (mkSecret "redis://cache:6379") 10)
    (mkAuthConfig 300 30) (mkPolicyConfig 30) (mkRoutingConfig 60) (mkRateLimitConfig 1000 60)
    (mkProviderConfig 30000) (mkObservabilityConfig "info" None "llmsmartgate")).
Proof. vm_compute. reflexivity. Qed.

Example load_ipv6_host :
  (sc_host ∘ gc_server) <$> load_from (of_list (("LLMSMARTGATE_HOST", "::ffff:10.0.0.1") :: urls))
  = Ok (V6 [0; 0; 0; 0; 0; 65535; 2560; 1]).
Proof. vm_compute. reflexivity. Qed.

Example load_failures :
  load_from (of_list []) = Err (MissingRequired "DATABASE_URL") ∧
  load_from (of_list (("LLMSMARTGATE_HOST", "10.0.0.01") :: urls)) =
    Err (InvalidValue "LLMSMARTGATE_HOST" "invalid IP address syntax") ∧
  load_from (of_list (("LLMSMARTGATE_PORT", "65536") :: urls)) =
    Err (InvalidValue "LLMSMARTGATE_PORT" "number too large to fit in target type") ∧
  load_from (of_list (("LLMSMARTGATE_GLOBAL_RPM", "0") :: urls)) =
    Err (InvalidValue "LLMSMARTGATE_GLOBAL_RPM" "global_rpm must be > 0").
Proof. vm_compute. auto. Qed.
