(* ===== verification/Http.v ===== *)
(** * The HTTP surface (src/gateway/crates/gateway/src/server.rs [build_router],
      api/health.rs)

    The routing table of the process, path pattern by path pattern, and the stack every
    request goes through: request id, body limit, then the group of the matched route
    with its own layers: permissive CORS for the health endpoints, authentication and rate
    limiting for the data plane, administrator authentication for the admin API. *)

From Stdlib Require Import Ascii.
From stdpp Require Import options.
From S2P Require Import Prelude Rust Types Errors Json Models PolicyMerge Backends Db World.
From S2P Require Import Repositories RateLimit Signing AppState KeyStore Auth.
From S2P Require Import PolicyEngine PolicyMiddleware Server AdminAuth Admin.

(** ** Extractors

    [Path], [Query] and [Json] belong to axum and serde: an indexed family names the
    types the handlers extract. A request an extractor cannot read is answered by the
    extractor, with an error status. *)

Inductive QueryShape : Type → Type :=
  | QTenants : QueryShape ListTenantsQuery
  | QScoped : QueryShape ListScopedQuery
  | QTenantId : QueryShape Uuid
  | QKeys : QueryShape ListKeysQuery
  | QRoutes : QueryShape ListRoutesQuery.
Inductive BodyShape : Type → Type :=
  | BCreateTenant : BodyShape CreateTenantRequest
  | BUpdateTenant : BodyShape UpdateTenantRequest
  | BCreateAccount : BodyShape CreateServiceAccountRequest
  | BUpdateAccount : BodyShape UpdateServiceAccountRequest
  | BRegisterKey : BodyShape RegisterKeyRequest
  | BCreatePolicy : BodyShape CreatePolicyRequest
  | BUpdatePolicy : BodyShape UpdatePolicy
  | BCreateBinding : BodyShape Uuid
  | BCreateRoute : BodyShape CreateRouteRequest
  | BUpdateRoute : BodyShape UpdateRoute.

Class HttpStack : Type := {
  path_uuid : string → result Response Uuid;
  path_uuids : string → string → result Response (Uuid * Uuid);
  query_params {T} : QueryShape T → Request → result Response T;
  json_body {T} : BodyShape T → Request → result Response T;
  (** the reply of an admin handler, serialised *)
  render_reply : AdminReply → Response;
  (** [CorsLayer::permissive()] around a service *)
  permissive_cors : (Request → Response) → Request → Response;
  (** [RequestBodyLimitLayer]: the request with its body capped, or an answer *)
  limit_body : Z → Request → result Response Request
}.

Definition reply_status (r : AdminReply) : StatusCode :=
  match r with
  | TenantReply s _ | AccountReply s _ | KeyRegistered s _ | KeyReply s _ | PolicyReply s _
  | BindingReply s _ | RouteReply s _ => s
  | TenantPage _ | AccountPage _ | KeyPage _ | PolicyPage _ | RoutePage _ => OK
  | NoContent => 204
  end.

(** The request a layer passes on differs from the one it got in its body only, which may
    turn out unreadable. *)
Definition passes_on (req req' : Request) : Prop :=
  req_method req' = req_method req ∧ req_path req' = req_path req ∧
  req_path_and_query req' = req_path_and_query req ∧ req_headers req' = req_headers req ∧
  (req_body req' = req_body req ∨ is_ok (req_body req') = false).

Class HttpStackLaws `{!HttpStack} : Prop := {
  path_uuid_rejects s r : path_uuid s = Err r → 400 ≤ resp_status r;
  path_uuids_rejects s t r : path_uuids s t = Err r → 400 ≤ resp_status r;
  query_rejects T (q : QueryShape T) req r : query_params q req = Err r → 400 ≤ resp_status r;
  json_rejects T (b : BodyShape T) req r : json_body b req = Err r → 400 ≤ resp_status r;
  render_status r : resp_status (render_reply r) = reply_status r;
  (** a preflight is answered by the layer; other requests keep the service's answer and
      gain headers *)
  cors_preflight svc req :
    req_method req = "OPTIONS" → resp_status (permissive_cors svc req) = 200;
  cors_passes svc req : req_method req ≠ "OPTIONS" →
    resp_status (permissive_cors svc req) = resp_status (svc req) ∧
    resp_body (permissive_cors svc req) = resp_body (svc req);
  limit_body_passes max req req' : limit_body max req = Ok req' →
    passes_on req req' ∧ ∀ b, req_body req' = Ok b → str_len b ≤ max;
  limit_body_rejects max req r : limit_body max req = Err r → resp_status r = 413
}.

(** ** Health (api/health.rs) *)

Inductive HealthCheck : Type := Healthz | Readyz | Metrics.
Definition healthz : Response := mkResponse 200 {["content-type" := "text/plain; charset=utf-8"]} "ok".
Definition readyz : Response := mkResponse 200 {["content-type" := "text/plain; charset=utf-8"]} "ok".
Definition metrics_handler : Response := mkResponse 200 ∅ "".
Definition health_handler (h : HealthCheck) : Response :=
  match h with Healthz => healthz | Readyz => readyz | Metrics => metrics_handler end.

(** ** Paths *)

(** A path as its segments between slashes. *)
Fixpoint split_slash (s : string) : list string :=
  match s with
  | "" => [""]
  | String c s =>
    if Ascii.eqb c "/"%char then "" :: split_slash s
    else match split_slash s with
         | seg :: segs => String c seg :: segs
         | [] => [String c ""]
         end
  end.

(** A pattern segment: literal, or a parameter, which takes one segment that is not
    empty. *)
Inductive Segment : Type := Lit (s : string) | Param.
Fixpoint match_segments (pat : list Segment) (segs : list string) : option (list string) :=
  match pat, segs with
  | [], [] => Some []
  | Lit l :: pat, s :: segs => if String.eqb l s then match_segments pat segs else None
  | Param :: pat, s :: segs =>
    if String.eqb s "" then None else (λ ps, s :: ps) <$> match_segments pat segs
  | _, _ => None
  end.
(** A pattern of the table is written without its leading slash. *)
Definition match_path (pat : list Segment) (path : string) : option (list string) :=
  match split_slash path with
  | "" :: segs => match_segments pat segs
  | _ => None
  end.

(** ** The routing table *)

Section table.
Context `{!HttpStack}.

(** How a handler's arguments are extracted, from the path parameters and the request. *)
Definition Extraction : Type := list string → Request → result Response AdminRequest.
Definition of_body {T} (b : BodyShape T) (mk : T → AdminRequest) : Extraction := λ _ req,
  mk <$> json_body b req.
Definition of_query {T} (q : QueryShape T) (mk : T → AdminRequest) : Extraction := λ _ req,
  mk <$> query_params q req.
(** A path with one parameter: the identifier first, then the rest of the arguments. *)
Definition with_id (k : Uuid → Request → result Response AdminRequest) : Extraction := λ ps req,
  id ← path_uuid (default "" (head ps)); k id req.
Definition with_ids (mk : Uuid → Uuid → AdminRequest) : Extraction := λ ps _,
  '(a, b) ← path_uuids (default "" (ps !! 0%nat)) (default "" (ps !! 1%nat));
  mret (mk a b).

Inductive Endpoints : Type :=
  | HealthRoute (methods : list (string * HealthCheck))
  | DataRoute (methods : list (string * Endpoint))
  | AdminRoute (methods : list (string * Extraction)).
Record Route : Type := mkRoute { rt_pattern : list Segment; rt_endpoints : Endpoints }.

Definition admin_path (segs : list Segment) : list Segment := Lit "admin" :: Lit "v1" :: segs.

Definition health_routes : list Route :=
  [mkRoute [Lit "healthz"] (HealthRoute [("GET", Healthz)]);
   mkRoute [Lit "readyz"] (HealthRoute [("GET", Readyz)]);
   mkRoute [Lit "metrics"] (HealthRoute [("GET", Metrics)])].
Definition data_plane_routes : list Route :=
  [mkRoute [Lit "v1"; Lit "chat"; Lit "completions"] (DataRoute [("POST", ChatCompletions)]);
   mkRoute [Lit "v1"; Lit "responses"] (DataRoute [("POST", Responses)]);
   mkRoute [Lit "v1"; Lit "embeddings"] (DataRoute [("POST", Embeddings)]);
   mkRoute [Lit "v1"; Lit "models"] (DataRoute [("GET", ListModels)])].
Definition admin_routes : list Route :=
  [mkRoute (admin_path [Lit "tenants"]) (AdminRoute
     [("GET", of_query QTenants GetTenants); ("POST", of_body BCreateTenant PostTenant)]);
   mkRoute (admin_path [Lit "tenants"; Param]) (AdminRoute
     [("GET", with_id (λ id _, mret (GetTenant id)));
      ("PATCH", with_id (λ id req, PatchTenant id <$> json_body BUpdateTenant req));
      ("DELETE", with_id (λ id _, mret (DeleteTenant id)))]);
   mkRoute (admin_path [Lit "service-accounts"]) (AdminRoute
     [("GET", of_query QScoped GetAccounts); ("POST", of_body BCreateAccount PostAccount)]);
   mkRoute (admin_path [Lit "service-accounts"; Param]) (AdminRoute
     [("GET", with_id (λ id req, GetAccount id <$> query_params QTenantId req));
      ("PATCH", with_id (λ id req,
         tenant ← query_params QTenantId req;
         PatchAccount id tenant <$> json_body BUpdateAccount req))]);
   mkRoute (admin_path [Lit "service-accounts"; Param; Lit "suspend"]) (AdminRoute
     [("POST", with_id (λ id req, PostSuspend id <$> query_params QTenantId req))]);
   mkRoute (admin_path [Lit "service-accounts"; Param; Lit "activate"]) (AdminRoute
     [("POST", with_id (λ id req, PostActivate id <$> query_params QTenantId req))]);
   mkRoute (admin_path [Lit "service-accounts"; Param; Lit "keys"]) (AdminRoute
     [("GET", with_id (λ id req, GetKeys id <$> query_params QKeys req));
      ("POST", with_id (λ id req, PostKey id <$> json_body BRegisterKey req))]);
   mkRoute (admin_path [Lit "service-accounts"; Param; Lit "keys"; Param]) (AdminRoute
     [("DELETE", with_ids DeleteKey)]);
   mkRoute (admin_path [Lit "policies"]) (AdminRoute
     [("GET", of_query QScoped GetPolicies); ("POST", of_body BCreatePolicy PostPolicy)]);
   mkRoute (admin_path [Lit "policies"; Param]) (AdminRoute
     [("GET", with_id (λ id req, GetPolicy id <$> query_params QTenantId req));
      ("PATCH", with_id (λ id req,
         tenant ← query_params QTenantId req;
         PatchPolicy id tenant <$> json_body BUpdatePolicy req));
      ("DELETE", with_id (λ id req, DeletePolicy id <$> query_params QTenantId req))]);
   mkRoute (admin_path [Lit "service-accounts"; Param; Lit "policy-bindings"]) (AdminRoute
     [("POST", with_id (λ id req, PostBinding id <$> json_body BCreateBinding req))]);
   mkRoute (admin_path [Lit "service-accounts"; Param; Lit "policy-bindings"; Param])
     (AdminRoute [("DELETE", with_ids DeleteBinding)]);
   mkRoute (admin_path [Lit "routes"]) (AdminRoute
     [("GET", of_query QRoutes GetRoutes); ("POST", of_body BCreateRoute PostRoute)]);
   mkRoute (admin_path [Lit "routes"; Param]) (AdminRoute
     [("GET", with_id (λ id _, mret (GetRoute id)));
      ("PATCH", with_id (λ id req, PatchRoute id <$> json_body BUpdateRoute req));
      ("DELETE", with_id (λ id _, mret (DeleteRoute id)))])].
(** [.merge(health_routes).merge(data_plane).merge(admin)] *)
Definition all_routes : list Route := health_routes ++ data_plane_routes ++ admin_routes.

(** The first route whose pattern the path matches, with its parameters. *)
Fixpoint find_route (routes : list Route) (path : string) : option (Route * list string) :=
  match routes with
  | [] => None
  | r :: routes =>
    match match_path (rt_pattern r) path with
    | Some ps => Some (r, ps)
    | None => find_route routes path
    end
  end.

(** A method router: [HEAD] is served by the [GET] handler. *)
Definition method_key (method : string) : string :=
  if String.eqb method "HEAD" then "GET" else method.
Fixpoint find_method {A} (methods : list (string * A)) (method : string) : option A :=
  match methods with
  | [] => None
  | (m, a) :: methods =>
    if String.eqb m (method_key method) then Some a else find_method methods method
  end.
End table.

(** ** Serving a request *)

Definition not_found_404 : Response := mkResponse 404 ∅ "".
Definition method_not_allowed : Response := mkResponse 405 ∅ "".
Definition MAX_BODY_SIZE : Z := 10 * 1024 * 1024.
Definition REQUEST_ID_HEADER : string := "x-request-id".
Definition drop_body (r : Response) : Response := mkResponse (resp_status r) (resp_headers r) "".

Section serve.
Context `{!Backends, !UuidLib, !HashOrder, !KeyCodec, !Crypto, !Web, !CursorCodec, !Bcrypt,
  !JoinOrder, !HttpStack}.
Implicit Types (w : World).

Definition health_service (methods : list (string * HealthCheck)) (req : Request) : Response :=
  match find_method methods (req_method req) with
  | Some h => health_handler h
  | None => method_not_allowed
  end.

(** The two layers of the data plane around a method router. *)
Definition data_plane_service (state : AppState) (methods : list (string * Endpoint))
    (req : Request) : World → option Response * World :=
  let handler req : Handler := λ ev w,
    match find_method methods (req_method req) with
    | Some ep => endpoint_handler ep req ev w
    | None => (method_not_allowed, w)
    end in
  respond (auth_middleware state (λ ctx req w,
    let '(r, w') := respond (rate_limit_middleware state (Some ctx) (handler req)) w in
    (Ok r, w')) req).

Definition admin_service (state : AppState) (methods : list (string * Extraction))
    (params : list string) (req : Request) : World → option Response * World :=
  respond (
    ctx ← admin_authenticate state (req_headers req !! "authorization");
    match find_method methods (req_method req) with
    | None => mret (Some method_not_allowed)
    | Some extract =>
      match extract params req with
      | Err rejection => mret (Some rejection)
      | Ok areq =>
        reply ← handle state ctx areq;
        mret (Some (render_reply reply))
      end
    end).

(** The merged router; [None] stands for a handler that panicked. *)
Definition route_request (state : AppState) (req : Request) (w : World) : option Response * World :=
  match find_route all_routes (req_path req) with
  | None => (Some not_found_404, w)
  | Some (route, params) =>
    let '(r, w') :=
      match rt_endpoints route with
      | HealthRoute ms => (Some (permissive_cors (health_service ms) req), w)
      | DataRoute ms => data_plane_service state ms req w
      | AdminRoute ms => admin_service state ms params req w
      end in
    ((if String.eqb (req_method req) "HEAD" then drop_body <$> r else r), w')
  end.

(** [SetRequestIdLayer]: the client's id, or a fresh one. *)
Definition set_request_id (req : Request) : IO World Empty_set (string * Request) :=
  match req_headers req !! REQUEST_ID_HEADER with
  | Some id => mret (id, req)
  | None =>
    u ← new_uuid;
    let id := uuid_to_string u in
    mret (id, mkRequest (req_method req) (req_path req) (req_path_and_query req)
                (<[REQUEST_ID_HEADER := id]> (req_headers req)) (req_body req))
  end.
(** [PropagateRequestIdLayer]: the id on the response, unless it has one. *)
Definition propagate_request_id (id : string) (r : Response) : Response :=
  if bool_decide (is_Some (resp_headers r !! REQUEST_ID_HEADER)) then r
  else insert_header REQUEST_ID_HEADER id r.

Definition propagate (id : string) (service : World → option Response * World)
    : IO World Empty_set (option Response) := λ w,
  let '(r, w') := service w in (Ok (propagate_request_id id <$> r), w').

(** The layer added last runs first: request id, body limit, (tracing,) propagation. No
    error leaves the stack. *)
Definition serve (state : AppState) (req : Request) : IO World Empty_set (option Response) :=
  '(id, req) ← set_request_id req;
  match limit_body MAX_BODY_SIZE req with
  | Err answer => mret (Some answer)
  | Ok req => propagate id (route_request state req)
  end.
End serve.
