(* ===== verification/HttpProps.v ===== *)
(** * Properties of the HTTP surface

    The routing table is unambiguous and reaches every handler; no request is answered
    with success past a protected route without its authentication; requests that reach
    no protected route touch nothing; responses carry the request id. *)

From Stdlib Require Import Ascii.
From stdpp Require Import options.
From S2P Require Import Prelude Rust Types Errors Json Models PolicyMerge Backends Db World.
From S2P Require Import Repositories RateLimit Listing Signing AppState KeyStore Auth.
From S2P Require Import PolicyEngine PolicyMiddleware Server AdminAuth Admin Http.
#[local] Set Default Proof Using "Type*".

(** ** Paths *)

Definition slash_free (s : string) : bool := str_free "/"%char s.

(** The path with the given segments. *)
Fixpoint path_of (segs : list string) : string :=
  match segs with [] => "" | s :: segs => "/" +:+ s +:+ path_of segs end.

Lemma split_slash_cons c s :
  split_slash (String c s) =
  if Ascii.eqb c "/"%char then "" :: split_slash s
  else match split_slash s with seg :: segs => String c seg :: segs | [] => [String c ""] end.
Proof. done. Qed.
Lemma split_slash_app s rest :
  slash_free s = true → (rest = "" ∨ ∃ r, rest = "/" +:+ r) →
  split_slash (s +:+ rest) =
  match split_slash rest with "" :: segs => s :: segs | _ => [s] end.
Proof.
  induction s as [|c s IH]; intros Hs Hrest.
  - destruct Hrest as [->|[r ->]]; done.
  - apply andb_true_iff in Hs as [Hc%negb_true_iff Hs].
    change (String c s +:+ rest) with (String c (s +:+ rest)).
    rewrite split_slash_cons, Hc, IH by done.
    destruct Hrest as [->|[r ->]]; done.
Qed.
Lemma split_slash_path segs :
  Forall (λ s, slash_free s = true) segs → split_slash (path_of segs) = "" :: segs.
Proof.
  induction 1 as [|s segs Hs _ IH]; [done|]. cbn [path_of].
  change ("/" +:+ s +:+ path_of segs) with (String "/" (s +:+ path_of segs)).
  rewrite split_slash_cons, Ascii.eqb_refl, split_slash_app; [by rewrite IH|done|].
  destruct segs; [by left|right; by eexists].
Qed.
Lemma split_slash_inv s segs : split_slash s = "" :: segs → s = path_of segs.
Proof.
  assert (∀ s, match split_slash s with seg :: segs => s = seg +:+ path_of segs | [] => False end)
    as Hall.
  { clear. induction s as [|c s IH]; [done|]. rewrite split_slash_cons.
    destruct (Ascii.eqb_spec c "/"%char) as [->|_].
    - destruct (split_slash s) as [|seg segs]; [done|]. by rewrite IH.
    - destruct (split_slash s) as [|seg segs]; [done|]. by rewrite IH. }
  intros Hs. specialize (Hall s). rewrite Hs in Hall. done.
Qed.

(** A pattern with its parameters filled in. *)
Fixpoint fill (pat : list Segment) (ps : list string) : list string :=
  match pat, ps with
  | Lit l :: pat, ps => l :: fill pat ps
  | Param :: pat, p :: ps => p :: fill pat ps
  | Param :: _, [] => []
  | [], _ => []
  end.
Definition is_param (s : Segment) : Prop := s = Param.
#[global] Instance is_param_dec s : Decision (is_param s).
Proof. unfold is_param. destruct s; [right|left]; done. Defined.
Definition arity (pat : list Segment) : nat := length (filter is_param pat).
Definition param_ok (p : string) : Prop := p ≠ "" ∧ slash_free p = true.

Lemma match_segments_fill pat ps :
  length ps = arity pat → Forall param_ok ps → match_segments pat (fill pat ps) = Some ps.
Proof.
  unfold arity. revert ps. induction pat as [|[l|] pat IH]; intros ps; cbn.
  - by destruct ps.
  - intros Hlen Hps. rewrite String.eqb_refl. by apply IH.
  - destruct ps as [|p ps]; [done|]. cbn. intros [= Hlen] [[Hp _] Hps]%Forall_cons.
    destruct (String.eqb_spec p "") as [->|_]; [done|]. by rewrite IH.
Qed.
Lemma match_segments_inv pat segs ps :
  match_segments pat segs = Some ps →
  segs = fill pat ps ∧ length ps = arity pat ∧ Forall (λ p, p ≠ "") ps.
Proof.
  unfold arity. revert segs ps. induction pat as [|[l|] pat IH]; intros [|s segs] ps; cbn; try done.
  - intros [= <-]. done.
  - destruct (String.eqb_spec l s) as [->|_]; [|done]. intros (-> & ? & ?)%IH. done.
  - destruct (String.eqb_spec s "") as [->|Hs]; [done|].
    intros (ps' & (-> & Hl & Hf)%IH & ->)%fmap_Some. cbn. rewrite Hl. auto.
Qed.

(** ** The table is unambiguous *)

(** Some path could match both patterns. *)
Fixpoint overlap (p q : list Segment) : bool :=
  match p, q with
  | [], [] => true
  | Lit a :: p, Lit b :: q => String.eqb a b && overlap p q
  | Param :: p, Param :: q => overlap p q
  | Lit a :: p, Param :: q | Param :: p, Lit a :: q => negb (String.eqb a "") && overlap p q
  | _, _ => false
  end.
Lemma match_overlap p q segs ps qs :
  match_segments p segs = Some ps → match_segments q segs = Some qs → overlap p q = true.
Proof.
  revert q segs ps qs. induction p as [|[a|] p IH]; intros [|[b|] q] [|s segs] ps qs; cbn; try done.
  - destruct (String.eqb_spec a s) as [->|_]; [|done].
    destruct (String.eqb_spec b s) as [->|_]; [|done]. rewrite String.eqb_refl. apply IH.
  - destruct (String.eqb_spec a s) as [->|_]; [|done]. destruct (String.eqb s ""); [done|].
    intros Hp (qs' & Hq & _)%fmap_Some. by eapply IH.
  - destruct (String.eqb_spec b s) as [->|_]; [|by destruct (String.eqb s "")].
    destruct (String.eqb s ""); [done|].
    intros (ps' & Hp & _)%fmap_Some Hq. by eapply IH.
  - destruct (String.eqb s ""); [done|].
    intros (ps' & Hp & _)%fmap_Some (qs' & Hq & _)%fmap_Some. by eapply IH.
Qed.

Fixpoint disjoint_patterns (pats : list (list Segment)) : bool :=
  match pats with
  | [] => true
  | p :: pats => forallb (λ q, negb (overlap p q)) pats && disjoint_patterns pats
  end.

Section table.
Context `{!HttpStack}.

Lemma table_disjoint : disjoint_patterns (rt_pattern <$> all_routes) = true.
Proof. vm_compute. reflexivity. Qed.

Lemma find_route_unique routes path route ps :
  disjoint_patterns (rt_pattern <$> routes) = true → route ∈ routes →
  match_path (rt_pattern route) path = Some ps → find_route routes path = Some (route, ps).
Proof.
  induction routes as [|r routes IH]; intros Hdis Hin Hm; [by apply elem_of_nil in Hin|].
  cbn in Hdis |- *. apply andb_true_iff in Hdis as [Hr Hdis].
  apply elem_of_cons in Hin as [->|Hin]; [by rewrite Hm|].
  destruct (match_path (rt_pattern r) path) as [ps'|] eqn:Hr'; [|by apply IH].
  exfalso. apply (proj1 (forallb_forall _ _)) with (x := rt_pattern route) in Hr.
  2: { apply list_elem_of_In, list_elem_of_fmap. by exists route. }
  unfold match_path in *. destruct (split_slash path) as [|[] segs]; try done.
  by rewrite (match_overlap _ _ _ _ _ Hr' Hm) in Hr.
Qed.

Lemma find_route_inv routes path route ps :
  find_route routes path = Some (route, ps) →
  route ∈ routes ∧ match_path (rt_pattern route) path = Some ps.
Proof.
  induction routes as [|r routes IH]; cbn; [done|].
  destruct (match_path (rt_pattern r) path) as [ps'|] eqn:Hr.
  - intros [= <- <-]. split; [apply list_elem_of_here|done].
  - intros [? ?]%IH. split; [by apply list_elem_of_further|done].
Qed.

Lemma patterns_slash_free :
  Forall (λ r, Forall (λ s, match s with Lit l => slash_free l = true | Param => True end)
    (rt_pattern r)) all_routes.
Proof. unfold all_routes. repeat constructor. Qed.

Lemma fill_slash_free pat ps :
  Forall (λ s, match s with Lit l => slash_free l = true | Param => True end) pat →
  Forall (λ p, slash_free p = true) ps → Forall (λ s, slash_free s = true) (fill pat ps).
Proof.
  intros Hpat. revert ps. induction Hpat as [|[l|] pat Hl _ IH]; intros ps Hps; cbn; [constructor|..].
  - constructor; auto.
  - destruct Hps; constructor; auto.
Qed.

End table.

(** ** Refusals are not successes *)

Definition refusal (e : GatewayError) : Prop := 400 ≤ status_code e.

(** Peel the source of a pure error and check it with [fin]. *)
Ltac solve_error fin He :=
  lazymatch type of He with
  | (_ ≫= _) = Err _ =>
    apply result_bind_err in He as [He|(? & _ & He)];
    [solve_error fin He|cbn beta in He; solve_error fin He]
  | throw_if _ _ = Err _ => apply throw_if_err in He as [_ ->]; fin
  | map_err _ _ = Err _ => apply map_err_err in He as (? & _ & ->); fin
  | ok_or _ ?o = Err _ => destruct o; [discriminate He|injection He as <-; fin]
  | mret _ = Err _ => discriminate He
  | Ok _ = Err _ => discriminate He
  | Err _ = Err _ => injection He as <-; fin
  | (if ?b then _ else _) = Err _ => destruct b; solve_error fin He
  end.
Ltac solve_errors fin :=
  repeat match goal with
  | |- fails_with _ (_ ≫= _) => apply fails_with_bind; [|intros]
  | |- fails_with _ (lift _) =>
    apply fails_with_lift; let e := fresh in let He := fresh "He" in intros e He; solve_error fin He
  | |- fails_with _ (io_map_err _ _) => apply fails_with_map_err; intros; fin
  | |- _ => solve [eauto with gate]
  end.
Ltac solve_refusals := solve_errors ltac:(unfold refusal; cbn; lia).

Section refusals.
Context `{!Backends, !UuidLib, !KeyCodec, !Crypto, !Bcrypt, !JoinOrder}.

Lemma authenticate_refuses state req : fails_with refusal (authenticate state req).
Proof.
  unfold authenticate, extract_auth_headers, extract_header, verify_body_hash, validate_timestamp,
    now_secs, validate_timestamp_at, validate_nonce_length, require_key_store, verify_key,
    require_db, verify_service_account, parse_public_key, verify_signature, require_redis,
    check_nonce, denied, unavailable.
  solve_refusals.
Qed.

Lemma pick_key_refuses keys token e : pick_key keys token = Err e → refusal e.
Proof.
  intros He. pose proof (pick_key_spec keys token) as Hs. rewrite He in Hs.
  destruct Hs as [[-> _]|[-> _]]; unfold refusal; cbn; lia.
Qed.

Lemma admin_authenticate_refuses state authorization :
  fails_with refusal (admin_authenticate state authorization).
Proof.
  unfold admin_authenticate. apply fails_with_bind; [unfold extract_bearer_token; solve_refusals|intros].
  apply fails_with_bind; [unfold require_db, unavailable; solve_refusals|intros].
  apply fails_with_bind; [|unfold role_from_db_str; intros; solve_refusals].
  - unfold load_admin_keys, load_failed. destruct (has_admin_key_cache state); [|solve_refusals].
    apply fails_with_bind.
    { intros w e w'. unfold admin_cache_get. by destruct (moka_get _ _ _). }
    intros [keys|]; [solve_refusals|]. solve_refusals.
    by intros w e w'.
  - apply fails_with_lift. apply pick_key_refuses.
Qed.
End refusals.

(** ** Every request is answered *)

Section answers.
Context `{!Backends, !UuidLib, !HashOrder, !KeyCodec, !Crypto, !Web, !CursorCodec, !Bcrypt,
  !JoinOrder, !HttpStack}.
Implicit Types (w : World).

(** A service without panics. *)
Definition answers (service : World → option Response * World) : Prop :=
  ∀ w, is_Some (service w).1.

Lemma respond_answers (m : IO World GatewayError (option Response)) :
  (∀ w r w', m w = (Ok r, w') → is_Some r) → answers (respond m).
Proof.
  intros Hm w. unfold respond. destruct (m w) as [[r|e] w'] eqn:Hrun; [by eapply Hm|by eexists].
Qed.

Lemma data_plane_answers state methods req : answers (data_plane_service state methods req).
Proof.
  apply respond_answers. intros w r w' (ctx & w1 & _ & Hnext)%io_bind_ok.
  set (service := respond _) in Hnext.
  assert (answers service) as Hans.
  { apply respond_answers. intros w2 x w3 Hrun. unfold rate_limit_middleware in Hrun.
    repeat (apply io_bind_ok in Hrun as (? & ? & _ & Hrun)).
    injection Hrun as <- _. by edestruct rate_limit_headers_total as (y & -> & _). }
  specialize (Hans w1). destruct (service w1) as [x w2]. by injection Hnext as <- _.
Qed.

Lemma admin_answers state methods params req : answers (admin_service state methods params req).
Proof.
  apply respond_answers. intros w r w' (ctx & w1 & _ & Hrun)%io_bind_ok.
  destruct (find_method _ _) as [extract|]; [|by injection Hrun as <- _].
  destruct (extract params req) as [areq|rejection]; [|by injection Hrun as <- _].
  apply io_bind_ok in Hrun as (reply & w2 & _ & Hrun). by injection Hrun as <- _.
Qed.

Lemma route_request_answers state req : answers (route_request state req).
Proof.
  intros w. unfold route_request. destruct (find_route _ _) as [[route params]|]; [|done].
  set (service := match rt_endpoints route with HealthRoute _ => _ | _ => _ end).
  assert (is_Some service.1) as [r Hr].
  { subst service. destruct (rt_endpoints route);
      [done|apply data_plane_answers|apply admin_answers]. }
  destruct service as [x w']. cbn in Hr |- *. subst x. by destruct (String.eqb _ _).
Qed.

End answers.

(** ** Mediation *)

Section mediation.
Context `{!Backends, !UuidLib, !HashOrder, !KeyCodec, !Crypto, !Web, !WebLaws, !CursorCodec,
  !Bcrypt, !JoinOrder, !HttpStack, !HttpStackLaws}.
Implicit Types (w : World).

Lemma into_response_status e :
  refusal e → 400 ≤ resp_status (into_response json_to_vec e).
Proof.
  intros He. unfold into_response. destruct (json_to_vec _); [|cbn; lia].
  by destruct (match e with ERateLimit _ _ r => r | _ => None end) as [s|]; [destruct (header_value_ok _)|].
Qed.

(** The request and world the router sees. *)
Definition arrives (req : Request) w (id : string) (req' : Request) w1 : Prop :=
  req_headers req' !! REQUEST_ID_HEADER = Some id ∧
  req_method req' = req_method req ∧ req_path req' = req_path req ∧
  req_path_and_query req' = req_path_and_query req ∧
  (∀ h, h ≠ REQUEST_ID_HEADER → req_headers req' !! h = req_headers req !! h) ∧
  (∀ id0, req_headers req !! REQUEST_ID_HEADER = Some id0 → id = id0) ∧
  (req_body req' = req_body req ∨ is_ok (req_body req') = false) ∧
  (∀ b, req_body req' = Ok b → str_len b ≤ MAX_BODY_SIZE) ∧
  (w1 = w ∨ w1 = ((new_uuid : IO World Empty_set _) w).2).

Lemma serve_arrives state req w answer w' :
  serve state req w = (Ok answer, w') →
  ∃ id req' w1, (w1 = w ∨ w1 = ((new_uuid : IO World Empty_set _) w).2) ∧
    ((∃ r, answer = Some r ∧ resp_status r = 413 ∧ w' = w1) ∨
     (arrives req w id req' w1 ∧
      ∃ r, route_request state req' w1 = (r, w') ∧ answer = propagate_request_id id <$> r)).
Proof.
  unfold serve. intros ([id req1] & w1 & Hset & Hrest)%io_bind_ok.
  assert ((w1 = w ∨ w1 = ((new_uuid : IO World Empty_set _) w).2) ∧
    req_headers req1 !! REQUEST_ID_HEADER = Some id ∧
    (∀ h, h ≠ REQUEST_ID_HEADER → req_headers req1 !! h = req_headers req !! h) ∧
    (∀ id0, req_headers req !! REQUEST_ID_HEADER = Some id0 → id = id0) ∧
    req_method req1 = req_method req ∧ req_path req1 = req_path req ∧
    req_path_and_query req1 = req_path_and_query req ∧ req_body req1 = req_body req)
    as (Hw & Hid & Hh & Hgiven & Hm & Hp & Hq & Hb).
  { unfold set_request_id in Hset. destruct (req_headers req !! REQUEST_ID_HEADER) as [id0|] eqn:E.
    - injection Hset as <- <- <-. split_and!; try done; [by left|by intros ? [= ->]].
    - apply io_bind_ok in Hset as (u & w2 & [= <- <-] & [= <- <- <-]). cbn [req_headers req_method
        req_path req_path_and_query req_body].
      split_and!; try done; [by right|by rewrite lookup_insert_eq|].
      intros h Hne. by rewrite lookup_insert_ne. }
  exists id. destruct (limit_body MAX_BODY_SIZE req1) as [req2|answer0] eqn:Hlim.
  - apply limit_body_passes in Hlim as [(E1 & E2 & E3 & E4 & E5) Hmax]. exists req2, w1.
    split; [done|]. right. split.
    + unfold arrives. rewrite E1, E2, E3, E4. rewrite Hb in E5. auto 10.
    + unfold propagate in Hrest. destruct (route_request state req2 w1) as [r w2].
      injection Hrest as <- <-. by exists r.
  - exists req1, w1. split; [done|]. left. injection Hrest as <- <-.
    exists answer0. split; [done|]. split; [by eapply limit_body_rejects|done].
Qed.

(** What a request that was not let in leaves behind: the tables, the policy and route
    caches and every quota counter are as they were. *)
Definition kept w w' : Prop :=
  db w' = db w ∧ policy_l1 w' = policy_l1 w ∧ route_l1 w' = route_l1 w ∧
  ∀ k, limiter_key k = true → peek (clock w') (redis w') k = peek (clock w') (redis w) k.

Lemma kept_same w w' :
  redis w' = redis w → db w' = db w → policy_l1 w' = policy_l1 w → route_l1 w' = route_l1 w →
  kept w w'.
Proof. intros Hr Hd Hp Ht. split_and!; try done. intros k _. by rewrite Hr. Qed.

(** The part of the world administrator authentication reads but does not change. *)
Definition outside_admin w :=
  (redis w, db w, policy_l1 w, route_l1 w).
Lemma select_outside {A} (q : Z → Db → result SqlxError A) :
  preserves outside_admin (query (λ t d, (q t d, d))).
Proof.
  apply preserves_map_err. intros w. unfold db_call.
  pose proof (tick_frame outside_admin w ltac:(done)) as Ht.
  destruct (tick w) as [flt w']. cbn in Ht. rewrite <-Ht. by destruct flt as [[]|].
Qed.
Lemma load_admin_keys_outside state : preserves outside_admin (load_admin_keys state).
Proof.
  unfold load_admin_keys, AdminApiKeyRepo.list_active.
  destruct (has_admin_key_cache state); [|apply preserves_map_err, select_outside].
  apply preserves_bind.
  { intros w. unfold admin_cache_get. by destruct (moka_get _ _ _). }
  intros [keys|]; [done|]. apply preserves_bind; [apply preserves_map_err, select_outside|].
  intros keys. by apply preserves_bind.
Qed.
Lemma admin_refused_kept state authorization w e w' :
  admin_authenticate state authorization w = (Err e, w') → kept w w'.
Proof.
  assert (∀ {A B} (m : IO World GatewayError A) (f : A → IO World GatewayError B),
    preserves outside_admin m →
    (∀ a w e w', f a w = (Err e, w') → outside_admin w' = outside_admin w) →
    ∀ w e w', (m ≫= f) w = (Err e, w') → outside_admin w' = outside_admin w) as Hbind.
  { intros A B m f Hm Hf w0 e0 w0' [Hrun|(a & w1 & Hrun & Hrest)]%io_bind_err;
      specialize (Hm w0); rewrite Hrun in Hm; cbn [snd] in Hm; [done|].
    rewrite <-Hm. by eapply Hf. }
  intros Hrun. assert (outside_admin w' = outside_admin w) as Heq.
  { revert w e w' Hrun. unfold admin_authenticate.
    repeat (apply Hbind; [first [apply load_admin_keys_outside|done]|intros ?]).
    intros w e w'. unfold mbind, io_bind, io_try. by destruct (AdminApiKeyRepo.touch_last_used _ w). }
  injection Heq as Hr Hd Hp Ht. by apply kept_same.
Qed.

(** The request passed the authentication of its route. *)
Definition let_in (state : AppState) (route : Route) (req : Request) w : Prop :=
  match rt_endpoints route with
  | HealthRoute _ => False
  | DataRoute _ => ∃ ctx w', authenticate state req w = (Ok ctx, w')
  | AdminRoute _ =>
    ∃ ctx w', admin_authenticate state (req_headers req !! "authorization") w = (Ok ctx, w')
  end.
Definition is_health (route : Route) : Prop :=
  match rt_endpoints route with HealthRoute _ => True | _ => False end.

Lemma route_request_mediated `{!BackendsLaws} state req w r w' :
  0 < timestamp_skew_secs state → route_request state req w = (r, w') →
  (∃ route ps, find_route all_routes (req_path req) = Some (route, ps) ∧ let_in state route req w) ∨
  (kept w w' ∧ ∃ resp, r = Some resp ∧
     (400 ≤ resp_status resp ∨
      ∃ route ps, find_route all_routes (req_path req) = Some (route, ps) ∧ is_health route)).
Proof.
  intros Hskew. unfold route_request.
  destruct (find_route all_routes (req_path req)) as [[[pat eps] ps]|].
  2: { intros [= <- <-]. right. split; [by apply kept_same|]. eexists. split; [done|]. left. cbn; lia. }
  assert (∀ (b : bool) (resp : Response), 400 ≤ resp_status resp →
    ∃ resp', (if b then drop_body <$> Some resp else Some resp) = Some resp' ∧
      400 ≤ resp_status resp') as Hhead.
  { intros [] resp Hs; by eexists. }
  destruct eps as [ms|ms|ms]; cbn [rt_endpoints].
  - intros [= <- <-]. right. split; [by apply kept_same|].
    destruct (String.eqb _ _); (eexists; split; [done|]); right; by eexists _, _.
  - destruct (data_plane_service state ms req w) as [r1 w1] eqn:Hrun. intros [= <- <-].
    unfold data_plane_service, respond, auth_middleware, mbind, io_bind in Hrun.
    destruct (authenticate state req w) as [[ctx|e] w2] eqn:Hauth.
    { left. do 2 eexists. split; [done|]. by exists ctx, w2. }
    right. injection Hrun as <- <-. split.
    + destruct (authenticate_leaves_failing state req Hskew w e w2 Hauth) as [Hc Hd Hp Ht _ Hk].
      split_and!; try done. intros k Hlk. rewrite Hk by done. symmetry. by apply peek_later.
    + destruct (Hhead (String.eqb (req_method req) "HEAD") (into_response json_to_vec e))
        as (resp & Hresp & Hs); [by eapply into_response_status, authenticate_refuses|].
      exists resp. split; [exact Hresp|by left].
  - destruct (admin_service state ms ps req w) as [r1 w1] eqn:Hrun. intros [= <- <-].
    unfold admin_service, respond, mbind, io_bind in Hrun.
    destruct (admin_authenticate state _ w) as [[ctx|e] w2] eqn:Hauth.
    { left. do 2 eexists. split; [done|]. by exists ctx, w2. }
    right. injection Hrun as <- <-. split; [by eapply admin_refused_kept|].
    destruct (Hhead (String.eqb (req_method req) "HEAD") (into_response json_to_vec e))
      as (resp & Hresp & Hs); [by eapply into_response_status, admin_authenticate_refuses|].
    exists resp. split; [exact Hresp|by left].
Qed.

(** C10: nothing is reached without authentication. Every request the
    process answers either passed the authentication of the protected route its path
    selects (signature for the data plane, bearer token for the admin API), on the request
    as it arrived with its body capped at 10 MiB, or it left the database, the caches and
    every quota counter as they were and was answered with an error or by a health
    endpoint. *)
Theorem complete_mediation `{!BackendsLaws} state req w answer w' :
  0 < timestamp_skew_secs state → serve state req w = (Ok answer, w') →
  (∃ id req' w1 route ps, arrives req w id req' w1 ∧
     find_route all_routes (req_path req) = Some (route, ps) ∧ let_in state route req' w1) ∨
  (kept w w' ∧ ∃ resp, answer = Some resp ∧
     (400 ≤ resp_status resp ∨
      ∃ route ps, find_route all_routes (req_path req) = Some (route, ps) ∧ is_health route)).
Proof.
  intros Hskew (id & req' & w1 & Hw & Hcases)%serve_arrives.
  assert (∀ w2, kept w1 w2 → kept w w2) as Hk by (by destruct Hw as [->| ->]).
  destruct Hcases as [(r & -> & Hs & ->)|(Harr & r & Hrun & ->)].
  - right. split; [by apply Hk, kept_same|]. exists r. split; [done|]. left. lia.
  - pose proof Harr as (_ & _ & Hp & _). rewrite <-Hp.
    destruct (route_request_mediated _ _ _ _ _ Hskew Hrun)
      as [(route & ps & Hf & Hin)|(Hkept & resp & -> & Hresp)]; [left; eauto 10|].
    right. split; [by apply Hk|]. exists (propagate_request_id id resp). split; [done|].
    assert (resp_status (propagate_request_id id resp) = resp_status resp) as ->; [|done].
    unfold propagate_request_id. by case_bool_decide.
Qed.

(** The readiness probe checks nothing. [GET /readyz]
    answers 200 [ok] whatever backends the process has and whatever state they are in:
    it makes no round trip to the database or to Redis. (Unless the body limit layer
    answers the request first.) *)
Lemma readiness_ignores_backends state req w answer w' :
  req_path req = "/readyz" → req_method req = "GET" →
  serve state req w = (Ok answer, w') →
  script w' = script w ∧
  ∃ resp, answer = Some resp ∧
    ((resp_status resp = 200 ∧ resp_body resp = "ok") ∨ resp_status resp = 413).
Proof.
  intros Hpath Hmeth (id & req' & w1 & Hw & Hcases)%serve_arrives.
  assert (script w1 = script w) as Hs by (by destruct Hw as [->| ->]).
  destruct Hcases as [(r & -> & Hst & ->)|(Harr & r & Hrun & ->)]; [eauto 6|].
  destruct Harr as (_ & Hm & Hp & _). rewrite Hmeth in Hm. rewrite Hpath in Hp.
  assert (route_request state req' w1
    = (Some (permissive_cors (health_service [("GET", Readyz)]) req'), w1)) as Heq.
  { unfold route_request. rewrite Hp, Hm. reflexivity. }
  rewrite Heq in Hrun. injection Hrun as <- <-. split; [done|]. eexists. split; [reflexivity|]. left.
  destruct (cors_passes (health_service [("GET", Readyz)]) req') as [Hcs Hcb]; [by rewrite Hm|].
  assert (health_service [("GET", Readyz)] req' = readyz) as Hh.
  { unfold health_service. rewrite Hm. reflexivity. }
  rewrite Hh in Hcs, Hcb. unfold propagate_request_id. by case_bool_decide.
Qed.
End mediation.

(** ** Concrete runs *)

Definition bad_request : Response := mkResponse 400 ∅ "".
Definition plain_stack : HttpStack := {|
  path_uuid s := map_err (λ _, bad_request) (parse_u64 s);
  path_uuids s t :=
    a ← map_err (λ _, bad_request) (parse_u64 s);
    b ← map_err (λ _, bad_request) (parse_u64 t);
    mret (a, b);
  query_params T q req :=
    match q in QueryShape T return result Response T with
    | QTenants => Ok (mkListTenantsQuery None None None)
    | _ => Err bad_request
    end;
  json_body T b req := Err (mkResponse 422 ∅ "");
  render_reply r := mkResponse (reply_status r) ∅ "";
  permissive_cors svc req :=
    insert_header "access-control-allow-origin" "*"
      (if String.eqb (req_method req) "OPTIONS" then mkResponse 200 ∅ "" else svc req);
  limit_body max req :=
    match req_body req with
    | Ok b => if max <? str_len b then Err (mkResponse 413 ∅ "") else Ok req
    | Err _ => Ok req
    end
|}.
Lemma plain_stack_laws : @HttpStackLaws plain_stack.
Proof.
  split; cbn.
  - intros s r (e & _ & ->)%map_err_err. cbn. lia.
  - intros s t r [(e & _ & ->)%map_err_err|(a & _ & [(e & _ & ->)%map_err_err|(b & _ & ?)]
      %result_bind_err)]%result_bind_err; done.
  - intros T [] req r [= <-]; done.
  - intros T b req r [= <-]. done.
  - done.
  - intros svc req ->. done.
  - intros svc req Hm. by destruct (String.eqb_spec (req_method req) "OPTIONS").
  - intros max req req'. destruct (req_body req) as [b|] eqn:Hb.
    + destruct (Z.ltb_spec max (str_len b)); [done|]. intros [= <-].
      split; [by split_and!; [..|left]|]. intros b' Hb'. congruence.
    + intros [= <-]. split; [by split_and!; [..|left]|]. intros b' Hb'. congruence.
  - intros max req r. destruct (req_body req); [|done]. destruct (_ <? _); [|done]. by intros [= <-].
Qed.

Section runs.
#[local] Existing Instances mem_backends decimal_uuid sorted_hash_order sample_codec toy_crypto
  plain_web toy_bcrypt last_first plain_stack bits_codec.

(** A signed request is served; one the admin token of which is wrong is not. *)
Definition is_status (n : Z) (a : result Empty_set (option Response)) : bool :=
  match a with Ok (Some r) => bool_decide (resp_status r = n) | _ => false end.

Lemma complete_mediation_witness :
  let req := sample_request "1000" in
  let w := mem_world 1000000 [mkStep 7 None] ∅ served_db in
  is_status 200 (serve limited_state req w).1 = true ∧
  ∃ req' w1 ctx w2, req_path req' = "/v1/chat/completions" ∧
    authenticate limited_state req' w1 = (Ok ctx, w2).
Proof.
  intros req w. pose proof mem_backends_laws. pose proof plain_stack_laws. pose proof plain_web_laws.
  assert (is_status 200 (serve limited_state req w).1 = true) as Hs by (vm_compute; reflexivity).
  split; [exact Hs|].
  destruct ((serve limited_state req w).1) as [answer|[]] eqn:Hans.
  destruct (complete_mediation limited_state req w answer (serve limited_state req w).2)
    as [(id & req' & w1 & route & ps & Harr & Hf & Hin)|(_ & resp & -> & Hor)].
  - reflexivity.
  - exact (run_answer _ _ Hans).
  - exists req', w1. destruct Harr as (_ & _ & Hp & _).
    assert (route = mkRoute [Lit "v1"; Lit "chat"; Lit "completions"]
      (DataRoute [("POST", ChatCompletions)])) as ->.
    { assert (find_route all_routes (req_path req) = Some (mkRoute [Lit "v1"; Lit "chat";
        Lit "completions"] (DataRoute [("POST", ChatCompletions)]), [])) as Hr by reflexivity.
      rewrite Hr in Hf. by injection Hf. }
    destruct Hin as (ctx & w2 & Hrun). exists ctx, w2. split; [exact Hp|exact Hrun].
  - exfalso. cbn in Hs. apply bool_decide_eq_true in Hs.
    destruct Hor as [Hge|(route & ps & Hf & Hh)]; [lia|].
    assert (find_route all_routes (req_path req) = Some (mkRoute [Lit "v1"; Lit "chat";
      Lit "completions"] (DataRoute [("POST", ChatCompletions)]), [])) as Hr by reflexivity.
    rewrite Hr in Hf. injection Hf as <- _. exact Hh.
Defined.
End runs.
