(* ===== verification/GatewayRuns.v ===== *)
(** * Serving a request is a run of the whole
      (src/gateway/crates/gateway/src/server.rs [build_router], auth/middleware.rs,
       policy/middleware.rs, api/admin/auth.rs, api/admin)

    The steps of Gateway.v are what the program does: whatever a request makes the
    gateway do, from the outermost layer to the answer, is a sequence of them. A small
    program logic carries the proof along the code: [stands] for code that leaves no trace
    in the components' books, [flows] for code that does. *)

From stdpp Require Import options.
From S2P Require Import Prelude Rust Types Errors Json Models PolicyMerge Backends Db World.
From S2P Require Import Repositories DbInvariant RateLimit Concurrency Recovery Signing AppState KeyStore Auth.
From S2P Require Import PolicyEngine Ages Staleness PolicyMiddleware Router AdminAuth CacheRaces.
From S2P Require Import Admin AdminProps Nonces Server Pipeline PipelineProps Gateway Http HttpProps.
#[local] Set Default Proof Using "Type*".

(** ** Time passes, the script is used up *)

Section moves.
Context `{!Backends}.
Implicit Types (w : World).

Record moves w w' : Prop := mkMoves {
  mv_clock : clock w ≤ clock w';
  mv_script : script w' `suffix_of` script w
}.
#[global] Instance moves_preorder : PreOrder moves.
Proof.
  split; [by intros w; split|]. intros w1 w2 w3 [] []. split; [lia|by etrans].
Qed.
Lemma tick_moves w : moves w (tick w).2.
Proof.
  split; [apply tick_clock|]. unfold tick. destruct (script w) as [|s rest] eqn:Hs; cbn; [by rewrite Hs|].
  by exists [s].
Qed.
Lemma prompt_moves win w w' : moves w w' → prompt win w → prompt win w'.
Proof. intros [_ [l Hs]]. unfold prompt. rewrite Hs. by intros [_ ?]%Forall_app. Qed.
Lemma db_call_moves {A} (stmt : Stmt A) w : moves w (db_call stmt w).2.
Proof.
  unfold db_call. pose proof (tick_moves w) as Ht. destruct (tick w) as [flt w1].
  destruct (stmt (clock w1) (db w1)) as [r d]. cbn [snd] in *.
  destruct flt as [[]|]; cbn [snd]; [done|..]; (etrans; [exact Ht|by split]).
Qed.
Lemma redis_call_moves {A} (f : Z → Redis → A * Redis) w : moves w (redis_call f w).2.
Proof.
  unfold redis_call. pose proof (tick_moves w) as Ht. destruct (tick w) as [flt w1].
  destruct (f (clock w1) (redis w1)) as [r d]. cbn [snd] in *.
  destruct flt as [[]|]; cbn [snd]; [done|..]; (etrans; [exact Ht|by split]).
Qed.
End moves.

(** [m] only moves on. *)
Definition paces `{!Backends} {E A} (m : IO World E A) : Prop := ∀ w, moves w (m w).2.

Section paces.
Context `{!Backends}.
Lemma paces_bind {E A B} (m : IO World E A) (k : A → IO World E B) :
  paces m → (∀ a, paces (k a)) → paces (m ≫= k).
Proof.
  intros Hm Hk w. unfold mbind, io_bind. specialize (Hm w).
  destruct (m w) as [[a|e] w']; cbn in *; [|done]. etrans; [exact Hm|apply Hk].
Qed.
Lemma paces_map_err {E F A} (g : E → F) (m : IO World E A) : paces m → paces (io_map_err g m).
Proof. intros Hm w. specialize (Hm w). unfold io_map_err. by destruct (m w). Qed.
Lemma paces_try {E F A} (m : IO World E A) : paces m → paces (io_try m : IO World F _).
Proof. intros Hm w. specialize (Hm w). unfold io_try. by destruct (m w). Qed.
Lemma paces_ret {E A} (a : A) : paces (mret a : IO World E A).
Proof. by intros w. Qed.
Lemma paces_lift {E A} (r : result E A) : paces (lift r).
Proof. by intros w. Qed.
Lemma paces_reads {E A} (f : World → A) : paces (io_reads f : IO World E A).
Proof. by intros w. Qed.
Lemma paces_call {A} (stmt : Stmt A) : paces (db_call stmt).
Proof. intros w. apply db_call_moves. Qed.
Lemma paces_query {A} (stmt : Stmt A) : paces (query stmt).
Proof. apply paces_map_err, paces_call. Qed.
Lemma paces_redis {A} (f : Z → Redis → A * Redis) : paces (redis_call f).
Proof. intros w. apply redis_call_moves. Qed.
End paces.
#[export] Hint Resolve paces_ret paces_lift paces_reads paces_call paces_query paces_redis : gate.
Ltac solve_paces :=
  repeat match goal with
  | |- paces (_ ≫= _) => apply paces_bind; [|intros]
  | |- paces (io_map_err _ _) => apply paces_map_err
  | |- paces (io_try _) => apply paces_try
  | |- paces (match ?x with _ => _ end) => destruct x
  | |- paces _ => solve [eauto with gate]
  end.

(** ** The logic *)

Section logic.
Context `{!Backends, !BackendsLaws, !UuidLib, !HashOrder, !KeyCodec}.
Context (ev : RateLimitEvaluator) (D skew : Z).
Implicit Types (w : World) (s : Gateway).

Abbreviation step := (gstep ev D skew).

Definition with_world w s : Gateway :=
  mkGateway w (g_flights s) (g_keys s) (g_policies s) (g_routes s) (g_admins s) (g_nonces s).

(** [m] is a run in which nothing is written down. *)
Definition stands {E A} (m : IO World E A) : Prop := ∀ s,
  moves (g_world s) (m (g_world s)).2 ∧ rtc step s (with_world (m (g_world s)).2 s).

(** From a state that satisfies [Pre], [m] is a run to a state that satisfies [Post], if
    it is over by [T]. *)
Definition flows {E A} (T : Z) (Pre : Gateway → Prop) (m : IO World E A)
    (Post : result E A → Gateway → Prop) : Prop :=
  (∀ w, moves w (m w).2) ∧
  ∀ s, Pre s → clock (m (g_world s)).2 ≤ T →
    ∃ s', g_world s' = (m (g_world s)).2 ∧ rtc step s s' ∧ Post (m (g_world s)).1 s'.

Lemma with_world_id s : with_world (g_world s) s = s.
Proof. by destruct s. Qed.

Lemma stands_bind {E A B} (m : IO World E A) (k : A → IO World E B) :
  stands m → (∀ a, stands (k a)) → stands (m ≫= k).
Proof.
  intros Hm Hk s. unfold mbind, io_bind. destruct (Hm s) as [Hv Hr].
  destruct (m (g_world s)) as [[a|e] w']; cbn in *; [|done].
  destruct (Hk a (with_world w' s)) as [Hv' Hr']. cbn in *. split; by etrans.
Qed.
Lemma stands_map_err {E F A} (g : E → F) (m : IO World E A) : stands m → stands (io_map_err g m).
Proof. intros Hm s. specialize (Hm s). unfold io_map_err. by destruct (m (g_world s)). Qed.
Lemma stands_try {E F A} (m : IO World E A) : stands m → stands (io_try m : IO World F _).
Proof. intros Hm s. specialize (Hm s). unfold io_try. by destruct (m (g_world s)). Qed.
Lemma stands_still {E A} (m : IO World E A) : (∀ w, (m w).2 = w) → stands m.
Proof. intros Hm s. rewrite Hm, with_world_id. split; reflexivity. Qed.
Lemma stands_ret {E A} (a : A) : stands (mret a : IO World E A).
Proof. by apply stands_still. Qed.
Lemma stands_lift {E A} (r : result E A) : stands (lift r).
Proof. by apply stands_still. Qed.
Lemma stands_reads {E A} (f : World → A) : stands (io_reads f : IO World E A).
Proof. by apply stands_still. Qed.

(** Code that calls nothing but the database. *)
Definition uses_up {E A} (m : IO World E A) : Prop := ∀ w, script (m w).2 `suffix_of` script w.
Lemma stands_elsewhere {E A} (m : IO World E A) : calls_db m → uses_up m → stands m.
Proof.
  intros Hm Hu s. specialize (Hm (g_world s)). specialize (Hu (g_world s)).
  split; [split; [apply Hm|done]|]. apply rtc_once. destruct s. by constructor.
Qed.
Lemma stands_call {A} (stmt : Stmt A) : stands (db_call stmt).
Proof. apply stands_elsewhere; [apply calls_db_call|]. intros w. apply db_call_moves. Qed.
Lemma stands_query {A} (stmt : Stmt A) : stands (query stmt).
Proof. apply stands_map_err, stands_call. Qed.
Lemma stands_uuid {E} : stands (new_uuid : IO World E Uuid).
Proof. apply stands_elsewhere; [apply calls_db_uuid|by intros w]. Qed.
Lemma elsewhere_step w w' s : elsewhere w w' → g_world s = w → step s (with_world w' s).
Proof. intros He <-. destruct s. by constructor. Qed.
Lemma stands_transaction {E A} (from : SqlxError → E) (body : IO World E A) :
  stands body → stands (transaction from body).
Proof.
  intros Hb s. unfold transaction.
  pose proof (stands_map_err from _ (stands_call (λ _ d, (Ok tt, d))) s) as [Hv1 Hr1].
  destruct (io_map_err from _ (g_world s)) as [[u|e] w1]; cbn [snd] in *; [|done].
  destruct (Hb (with_world w1 s)) as [Hv2 Hr2]. cbn [g_world with_world] in Hv2, Hr2.
  assert (∀ d w, moves w (set_db d w) ∧ step (with_world w s) (with_world (set_db d w) s)) as Hset.
  { intros d w. split; [by split|]. by apply (elsewhere_step w _ (with_world w s)); [apply set_db_elsewhere|]. }
  destruct (body w1) as [[a|e] w2]; cbn [snd] in *.
  2:{ split; [do 2 (etrans; [eassumption|]); apply Hset|].
      do 2 (etrans; [eassumption|]). apply rtc_once, Hset. }
  pose proof (tick_elsewhere w2) as Ht. pose proof (tick_moves w2) as Hv3.
  destruct (tick w2) as [flt w3]. cbn [snd] in *.
  assert (step (with_world w2 s) (with_world w3 s)) as Hr3 by by apply (elsewhere_step w2 w3 (with_world w2 s)).
  destruct flt as [[]|]; cbn [snd].
  1:{ split; [do 3 (etrans; [eassumption|]); apply Hset|].
      do 2 (etrans; [eassumption|]). eapply rtc_l; [exact Hr3|]. apply rtc_once, Hset. }
  all: split; do 2 (etrans; [eassumption|]); [done|by apply rtc_once].
Qed.

(** ** Triples *)

Lemma stands_moves {E A} (m : IO World E A) w : stands m → moves w (m w).2.
Proof. intros Hm. apply (Hm (opening w)). Qed.
Lemma flows_stands {E A} T (Pre : Gateway → Prop) (m : IO World E A) Post :
  stands m →
  (∀ s r w', Pre s → m (g_world s) = (r, w') → moves (g_world s) w' → Post r (with_world w' s)) →
  flows T Pre m Post.
Proof.
  intros Hm Hp. split; [intros w; by apply stands_moves|]. intros s Hs _. destruct (Hm s) as [Hv Hr].
  eexists. split; [|split; [exact Hr|]]; [done|]. apply Hp; [done| |done].
  by destruct (m (g_world s)).
Qed.
Lemma flows_bind {E A B} T Pre (m : IO World E A) (k : A → IO World E B) Mid Post :
  flows T Pre m (λ r s, match r with Ok a => Mid a s | Err e => Post (Err e) s end) →
  (∀ a, flows T (Mid a) (k a) Post) → flows T Pre (m ≫= k) Post.
Proof.
  intros [Hv Hm] Hk. unfold mbind, io_bind. split.
  - intros w. specialize (Hv w). destruct (m w) as [[a|e] w1]; cbn in *; [|done].
    etrans; [exact Hv|]. by apply Hk.
  - intros s Hs. specialize (Hm s Hs). destruct (m (g_world s)) as [[a|e] w1]; cbn in *; [|done].
    destruct (Hk a) as [Hkv Hkr]. specialize (Hkv w1). intros HT.
    destruct Hm as (s1 & <- & Hrun & Hmid); [destruct Hkv; lia|].
    destruct (Hkr s1 Hmid HT) as (s2 & Hw2 & Hrun2 & Hpost).
    exists s2. split_and!; [done|by etrans|done].
Qed.
Lemma flows_map_err {E F A} T Pre (g : E → F) (m : IO World E A) (Post : result F A → Gateway → Prop) :
  flows T Pre m (λ r, Post (map_err g r)) → flows T Pre (io_map_err g m) Post.
Proof.
  intros [Hv Hm]. unfold io_map_err. split.
  - intros w. specialize (Hv w). by destruct (m w).
  - intros s Hs. specialize (Hm s Hs). by destruct (m (g_world s)).
Qed.
Lemma flows_weaken {E A} T (Pre Pre' : Gateway → Prop) (m : IO World E A) (Post Post' : result E A → Gateway → Prop) :
  (∀ s, Pre s → Pre' s) → (∀ r s, Post' r s → Post r s) → flows T Pre' m Post' → flows T Pre m Post.
Proof.
  intros Hpre Hpost [Hv Hm]. split; [done|]. intros s Hs%Hpre HT.
  destruct (Hm s Hs HT) as (s' & ? & ? & ?). eauto.
Qed.
(** A step after which the same is true; its failure ends the run. *)
Lemma flows_skip {E A B} T (Q : Gateway → Prop) (m : IO World E A) (k : A → IO World E B) Post :
  flows T Q m (λ _, Q) → (∀ e s, Q s → Post (Err e) s) → (∀ a, flows T Q (k a) Post) →
  flows T Q (m ≫= k) Post.
Proof.
  intros Hm Herr. apply flows_bind. eapply flows_weaken; [| |exact Hm]; [done|].
  intros [a|e] s; [done|apply Herr].
Qed.
Lemma flows_ok {E A B} T Pre (a : A) (k : A → IO World E B) Post :
  flows T Pre (k a) Post → flows T Pre (lift (Ok a) ≫= k) Post.
Proof. done. Qed.
Lemma flows_exists {E A X} T (Pre : X → Gateway → Prop) (m : IO World E A) Post :
  paces m → (∀ x, flows T (Pre x) m Post) → flows T (λ s, ∃ x, Pre x s) m Post.
Proof. intros Hm Hx. split; [done|]. intros s [x Hs]. by apply (Hx x). Qed.
Lemma flows_pure {E A} T (Q : Prop) Pre (m : IO World E A) Post :
  paces m → (Q → flows T Pre m Post) → flows T (λ s, Pre s ∧ Q) m Post.
Proof. intros Hm Hq. split; [done|]. intros s [Hs HQ]. by apply Hq. Qed.
(** What holds of the world, whatever is written down. *)
Lemma flows_world {E A} T (Q : World → Prop) Pre (m : IO World E A) Post :
  (∀ w, Q w → Q (m w).2) → flows T Pre m Post →
  flows T (λ s, Pre s ∧ Q (g_world s)) m (λ r s, Post r s ∧ Q (g_world s)).
Proof.
  intros HQ [Hv Hm]. split; [done|]. intros s [Hs Hq] HT.
  destruct (Hm s Hs HT) as (s' & Hw & Hr & Hp). exists s'. split_and!; [done..|].
  rewrite Hw. by apply HQ.
Qed.
Lemma flows_fails {E A} T (Q : E → Prop) Pre (m : IO World E A) Post :
  fails_with Q m → flows T Pre m Post → flows T Pre m (λ r s, Post r s ∧ ∀ e, r = Err e → Q e).
Proof.
  intros HQ [Hv Hm]. split; [done|]. intros s Hs HT. destruct (Hm s Hs HT) as (s' & Hw & Hr & Hp).
  exists s'. split_and!; [done..|]. intros e He. eapply HQ. by apply run_answer.
Qed.
(** The same is true all along. *)
Lemma flows_seq {E A B} T (Q : Gateway → Prop) (m : IO World E A) (k : A → IO World E B) :
  flows T Q m (λ _, Q) → (∀ a, flows T Q (k a) (λ _, Q)) → flows T Q (m ≫= k) (λ _, Q).
Proof.
  intros Hm Hk. by apply flows_skip.
Qed.

(** A request that arrived at [t]; the flights, and the nonces accepted so far. *)
Definition along (t : Z) (F : gmap nat Flight) (N : list Accepted) s : Prop :=
  t ≤ clock (g_world s) ∧ g_flights s = F ∧ g_nonces s = N.
Lemma along_moves t F N w' s : along t F N s → moves (g_world s) w' → along t F N (with_world w' s).
Proof. intros (? & ? & ?) []. split_and!; cbn; [lia|done..]. Qed.
Lemma flows_along {E A} T t F N (m : IO World E A) :
  stands m → flows T (along t F N) m (λ _, along t F N).
Proof. intros Hm. apply flows_stands; [done|]. intros. by apply along_moves. Qed.
End logic.

#[export] Hint Resolve stands_ret stands_lift stands_reads stands_call stands_query stands_uuid : gate.
Ltac solve_stands :=
  repeat match goal with
  | |- stands _ _ _ (_ ≫= _) => apply stands_bind; [|intros]
  | |- stands _ _ _ (io_map_err _ _) => apply stands_map_err
  | |- stands _ _ _ (io_try _) => apply stands_try
  | |- stands _ _ _ (transaction _ _) => apply stands_transaction
  | |- stands _ _ _ (match ?x with _ => _ end) => destruct x
  | |- stands _ _ _ _ => solve [eauto with gate]
  end.

(** ** Administrators *)

Section admin.
Context `{!Backends, !BackendsLaws, !UuidLib, !HashOrder, !KeyCodec, !Crypto, !CursorCodec, !Bcrypt,
  !JoinOrder}.
Context (ev : RateLimitEvaluator) (D skew : Z).
Implicit Types (w : World) (s : Gateway).

Abbreviation step := (gstep ev D skew).

Lemma invalidate_stands b key_id : stands ev D skew (invalidate b key_id).
Proof.
  intros s. set (m := invalidate b key_id). split.
  - unfold m, invalidate, io_modify, mbind, io_bind, io_try. destruct b; [|by split].
    set (w := set_key_l1 _ (g_world s)). pose proof (redis_call_moves
      (λ t st, (tt, cmd_del t (redis_key key_id) st)) w) as Hv.
    unfold redis_del. destruct (redis_call _ w). by destruct Hv.
  - apply rtc_once. destruct s. apply gw_key. eapply kr_invalidate, surjective_pairing.
Qed.
Lemma invalidate_policy_stands {E} sa : stands ev D skew (invalidate_policy sa : IO World E unit).
Proof.
  intros s. split; [by split|]. apply rtc_once. destruct s. eapply gw_policy; [|done].
  by eapply (rc_invalidate _ sa).
Qed.
Lemma invalidate_all_policies_stands {E} : stands ev D skew (invalidate_all_policies : IO World E unit).
Proof.
  intros s. split; [by split|]. apply rtc_once. destruct s. eapply gw_policy; [|done].
  by eapply rc_invalidate_all.
Qed.
Lemma invalidate_all_routes_stands {E} : stands ev D skew (invalidate_all_routes : IO World E unit).
Proof.
  intros s. split; [by split|]. apply rtc_once. destruct s. by eapply gw_routes_clear.
Qed.
#[local] Hint Resolve invalidate_stands : gate.
#[local] Hint Extern 1 (stands _ _ _ (io_modify _)) =>
  first [apply invalidate_policy_stands|apply invalidate_all_policies_stands
    |apply invalidate_all_routes_stands] : gate.

Lemma handle_stands state ctx req : stands ev D skew (handle state ctx req).
Proof.
  destruct req; unfold_handler; unfold_repo; unfold list_query; solve_stands.
Qed.

(** The admin keys are written down when they are read, and cached soon after. *)
Lemma admin_hit_stands : stands ev D skew admin_cache_get.
Proof.
  intros s. split; [unfold admin_cache_get; destruct (moka_get _ _ _); by split|].
  apply rtc_once. destruct s. eapply gw_admins_hit, surjective_pairing.
Qed.
Lemma list_admins_flows t F N T : flows ev D skew T (along t F N) AdminApiKeyRepo.list_active
  (λ r s, along t F N s ∧ ∀ keys, r = Ok keys → ∃ t', t ≤ t' ∧ (tt, keys, t') ∈ bk_held (g_admins s)).
Proof.
  assert (stands ev D skew AdminApiKeyRepo.list_active) as Hst
    by (unfold AdminApiKeyRepo.list_active; solve_stands).
  split; [intros w; by eapply stands_moves|]. intros [w F0 K P R A N0] (Ht & HF & HN) _. cbn in *.
  pose proof (stands_moves ev D skew _ w Hst) as [Hc _].
  destruct (AdminApiKeyRepo.list_active w) as [[keys|e] w'] eqn:Hrun; cbn in *.
  - eexists. split; [|split; [by apply rtc_once, gw_admins_read|]]; [done|].
    split; [split_and!; cbn; [lia|done..]|]. intros ? [= <-]. exists (clock w). split; [done|].
    cbn. apply elem_of_cons. by left.
  - destruct (Hst (mkGateway w F0 K P R A N0)) as [_ Hr]. cbn in Hr. rewrite Hrun in Hr.
    eexists. split; [|split; [exact Hr|]]; [done|]. split; [split_and!; cbn; [lia|done..]|done].
Qed.
Lemma fill_admins_flows keys t F N T : T ≤ t + D →
  flows ev D skew T
    (λ s, along t F N s ∧ ∃ t', t ≤ t' ∧ (tt, keys, t') ∈ bk_held (g_admins s))
    (admin_cache_insert keys) (λ _, along t F N).
Proof.
  intros HT. split; [by intros w; split|]. intros s [Hs (t' & Ht' & Hin)] Hc. cbn in Hc.
  eexists (with_world _ s). split; [done|]. split; [|by eapply along_moves; [|split]].
  destruct s. eapply rtc_once, gw_admins_fill; [exact Hin| |done]. cbn in *. lia.
Qed.

Lemma load_admin_keys_flows state t F N T :
  T ≤ t + D → flows ev D skew T (along t F N) (load_admin_keys state) (λ _, along t F N).
Proof.
  intros HT. unfold load_admin_keys. destruct (has_admin_key_cache state).
  2:{ apply flows_along. unfold AdminApiKeyRepo.list_active. solve_stands. }
  apply flows_seq; [apply flows_along, admin_hit_stands|].
  intros [keys|]; [apply flows_along; solve_stands|].
  apply (flows_bind _ _ _ _ _ _ _ (λ keys s, along t F N s ∧
    ∃ t', t ≤ t' ∧ (tt, keys, t') ∈ bk_held (g_admins s))).
  { apply flows_map_err. eapply flows_weaken; [| |apply list_admins_flows]; [done|].
    intros [keys|e] s [Hs Hk]; cbn; [|done]. split; [done|by apply Hk]. }
  intros keys. apply (flows_bind _ _ _ _ _ _ _ (λ _, along t F N)).
  { eapply flows_weaken; [| |by apply fill_admins_flows]; [intros s Hs; exact Hs|by intros [] s]. }
  intros u. apply flows_along. solve_stands.
Qed.

Lemma admin_authenticate_flows state authorization t F N T :
  T ≤ t + D →
  flows ev D skew T (along t F N) (admin_authenticate state authorization) (λ _, along t F N).
Proof.
  intros HT. unfold admin_authenticate, AdminApiKeyRepo.touch_last_used.
  repeat first [apply flows_along; solve [solve_stands]|apply flows_seq; [|intros]].
  by apply load_admin_keys_flows.
Qed.
End admin.

(** ** Authentication *)

Section auth.
Context `{!Backends, !BackendsLaws, !UuidLib, !HashOrder, !KeyCodec, !KeyCodecLaws, !Crypto}.
Context (ev : RateLimitEvaluator) (D skew : Z) (HD : 0 ≤ D).
Implicit Types (w : World) (s : Gateway).

Abbreviation step := (gstep ev D skew).

Lemma lookup_paces b key_id : paces (get_by_key_id b key_id).
Proof.
  unfold get_by_key_id, populate, get_from_redis, set_in_redis, redis_get, redis_set_ex,
    KeyRepo.get_by_key_id, l1_insert.
  apply paces_bind; [intros w; unfold l1_get; destruct (moka_get _ _ _); by split|].
  intros o. solve_paces; by intros w.
Qed.

(** Operations of the key store, among everything else. *)
Lemma key_ops_step x y F P R A N :
  rtc (key_op D) x y →
  rtc step (mkGateway (gate x) F (mkKeyBook (fetched x) (copied x) (seen x)) P R A N)
    (mkGateway (gate y) F (mkKeyBook (fetched y) (copied y) (seen y)) P R A N).
Proof.
  induction 1 as [|x y z Hop _ IH]; [done|]. eapply rtc_l; [|exact IH].
  apply gw_key. unfold key_view. by destruct x, y.
Qed.

Lemma lookup_flows b key_id t F N T :
  T ≤ t + D → flows ev D skew T (along t F N) (get_by_key_id b key_id) (λ _, along t F N).
Proof.
  intros HT. split; [apply lookup_paces|]. intros [w F0 [fs cs ds] P R A N0] (Ht & HF & HN) Hle.
  cbn in *. pose proof (lookup_paces b key_id w) as [Hc _].
  destruct (get_by_key_id b key_id w) as [r w'] eqn:Hrun. cbn in *.
  destruct (lookup_races D HD b key_id w r w' fs cs ds Hrun) as (fs' & cs' & ds' & Hops); [lia|].
  eexists. split; [|split; [exact (key_ops_step _ _ F0 P R A N0 Hops)|]]; [done|].
  split_and!; cbn; [lia|done..].
Qed.

(** Between the key lookup and the account, the database is as it was at arrival. *)
Definition before t F N s : Prop := along t F N s ∧ keyed sa_id (service_accounts (db (g_world s))).

Lemma before_stands {E A} t F N T (m : IO World E A) :
  stands ev D skew m → preserves db m → flows ev D skew T (before t F N) m (λ _, before t F N).
Proof.
  intros Hm Hdb. apply (flows_world _ _ _ _ (λ w, keyed sa_id (service_accounts (db w)))); [|by apply flows_along].
  intros w. by rewrite Hdb.
Qed.
Lemma verify_key_flows b key_id t F N T :
  T ≤ t + D → flows ev D skew T (before t F N) (verify_key b key_id) (λ _, before t F N).
Proof.
  intros HT. apply (flows_world _ _ _ _ (λ w, keyed sa_id (service_accounts (db w)))).
  { intros w. by rewrite (verify_key_db b key_id w). }
  unfold verify_key. repeat first [apply flows_along; solve [solve_stands]|apply flows_seq; [|intros]].
  apply flows_map_err. by apply lookup_flows.
Qed.

(** The account was read from the database since [t]. *)
Definition account_read t (sa : ServiceAccount) s : Prop := ∃ t0 d0,
  t ≤ t0 ≤ clock (g_world s) ∧ (t0, d0) ∈ pb_reads (g_policies s) ∧
  service_accounts d0 !! sa_id sa = Some sa.
Lemma account_read_moves t sa w' s :
  account_read t sa s → moves (g_world s) w' → account_read t sa (with_world w' s).
Proof. intros (t0 & d0 & Ht & ? & ?) []. exists t0, d0. split_and!; cbn; [lia..|done|done]. Qed.

Lemma verify_sa_flows key t F N T :
  flows ev D skew T (before t F N) (verify_service_account key) (λ r s, along t F N s ∧
    ∀ found, r = Ok found → account_read t (ServiceAccountRepo.swt_account found) s).
Proof.
  assert (stands ev D skew (verify_service_account key)) as Hst.
  { unfold verify_service_account, ServiceAccountRepo.get_with_tenant_status. solve_stands. }
  split; [intros w; by eapply stands_moves|]. intros s [Hal Hwf] _.
  pose proof (stands_moves ev D skew _ (g_world s) Hst) as Hv.
  set (s1 := mkGateway (g_world s) (g_flights s) (g_keys s)
    (mkPolicyBook (pb_loads (g_policies s)) ((clock (g_world s), db (g_world s)) :: pb_reads (g_policies s))
       (pb_answers (g_policies s))) (g_routes s) (g_admins s) (g_nonces s)).
  assert (step s s1) as Hctx by (destruct s; eapply gw_policy; [apply rc_context|done]).
  destruct (Hst s1) as [_ Hr]. cbn [g_world s1] in Hr.
  eexists. split; [|split; [eapply rtc_l; [exact Hctx|exact Hr]|]]; [done|].
  split; [by apply (along_moves t F N _ s1)|]. intros found Hok.
  destruct (verify_service_account key (g_world s)) as [r w'] eqn:Hrun. cbn in *. subst r.
  destruct (verify_sa_ok _ _ _ _ Hrun) as (sa & tenant & -> & Hsa & _). cbn in *.
  exists (clock (g_world s)), (db (g_world s)). destruct Hal as [Ht _], Hv as [Hc _]. split_and!; [done..| |].
  - cbn. apply elem_of_cons. by left.
  - by rewrite (Hwf _ _ Hsa).
Qed.

Lemma check_nonce_flows (Q : Gateway → Prop) sa n t F N T :
  (∀ s w' F K P R A N', s = mkGateway (g_world s) F K P R A N → Q s → moves (g_world s) w' →
     Q (mkGateway w' F K P R A N')) →
  flows ev D skew T (λ s, along t F N s ∧ Q s) (check_nonce sa n skew)
    (λ r s, match r with
            | Ok _ => ∃ t', along t F (mkAccepted sa n t' :: N) s ∧ Q s
            | Err _ => along t F N s
            end).
Proof.
  intros HQ. assert (paces (check_nonce sa n skew)) as Hp
    by (unfold check_nonce, redis_set_nx_ex; solve_paces).
  split; [done|]. intros [w F0 K P R A N0] [(Ht & HF & HN) Hq] _. cbn in *. specialize (Hp w) as Hv.
  destruct (check_nonce sa n skew w) as [r w'] eqn:Hrun. cbn in *. subst F0 N0.
  eexists. split; [|split; [apply rtc_once; by apply (gw_nonce _ _ _ sa n w r)|]]; [done|].
  unfold note. destruct r as [u|e]; cbn.
  - exists (clock w'). destruct Hv as [Hc Hs]. split; [split_and!; cbn; [lia|done..]|].
    by apply (HQ (mkGateway w F K P R A N)).
  - destruct Hv. split_and!; cbn; [lia|done..].
Qed.

(** The context of an accepted request was read since it arrived. *)
Definition context_read t (ctx : AuthContext) s : Prop := ∃ t0 d0,
  t ≤ t0 ≤ clock (g_world s) ∧ (t0, d0) ∈ pb_reads (g_policies s) ∧ context_current ctx d0.

Definition accepted_as t F N (r : result GatewayError AuthContext) s : Prop :=
  match r with
  | Ok ctx => ∃ n t', along t F (mkAccepted (id_display (ac_service_account_id ctx)) n t' :: N) s ∧
      context_read t ctx s
  | Err _ => along t F N s
  end.

Lemma authenticate_flows state req t F N T :
  timestamp_skew_secs state = skew → T ≤ t + D →
  flows ev D skew T (before t F N) (authenticate state req) (accepted_as t F N).
Proof.
  intros Hskew HT. unfold authenticate. rewrite Hskew.
  assert (∀ e s, before t F N s → accepted_as t F N (Err e) s) as Herr by by intros e s [? _].
  do 6 (apply flows_skip; [apply before_stands; [|done]|done|intros];
    [unfold validate_timestamp, now_secs; solve_stands|]).
  apply flows_skip; [by apply verify_key_flows|done|intros key].
  apply flows_skip; [apply before_stands; [solve_stands|done]|done|intros _].
  apply (flows_bind _ _ _ _ _ _ _ (λ found s,
    along t F N s ∧ account_read t (ServiceAccountRepo.swt_account found) s)).
  { eapply flows_weaken; [| |apply verify_sa_flows]; [done|].
    intros [found|e] s [Hs Hr]; [|done]. split; [done|by apply Hr]. }
  intros found. set (sa := ServiceAccountRepo.swt_account found).
  assert (∀ {A} (m : IO World GatewayError A) T, stands ev D skew m →
    flows ev D skew T (λ s, along t F N s ∧ account_read t sa s) m
      (λ _ s, along t F N s ∧ account_read t sa s)) as Hkeep.
  { intros A m T' Hm. apply flows_stands; [done|]. intros s r w' [Ha Hr] _ Hv.
    split; [by apply along_moves|by apply account_read_moves]. }
  do 4 (apply flows_skip; [apply Hkeep; solve_stands|by intros e s [? _]|intros]).
  apply (flows_bind _ _ _ _ _ _ _ (λ _ s, ∃ n t',
    along t F (mkAccepted (id_display (sa_id sa)) n t' :: N) s ∧ account_read t sa s)).
  { eapply flows_weaken; [| |apply (check_nonce_flows (account_read t sa) _ _ t F N)]; [done| |].
    - intros [u|e] s; [|done]. intros (t' & ? & ?). eauto.
    - intros s w' F' K P R A N' -> Hr Hv. exact (account_read_moves t sa w' _ Hr Hv). }
  intros u. apply flows_stands.
  { unfold KeyRepo.update_last_used. solve_stands. }
  intros s r w' (n & t' & Hal & Hread) Hrun Hv.
  assert (r = Ok (mkAuthContext (sa_tenant_id sa) (sa_id sa) (h_key_id a) (sa_name sa)
    (sa_environment sa) (sa_default_policy_id sa))) as ->.
  { unfold mbind, io_bind, io_try in Hrun. destruct (KeyRepo.update_last_used _ _).
    by injection Hrun. }
  exists n, t'. split; [by apply along_moves|].
  destruct (account_read_moves t sa w' s Hread Hv) as (t0 & d0 & ? & ? & Hrow).
  exists t0, d0. split; [done|]. split; [done|]. by exists sa.
Qed.
End auth.

(** ** The rate limit middleware *)

Section limits.
Context `{!Backends, !BackendsLaws, !UuidLib, !HashOrder, !KeyCodec}.
Context (ev : RateLimitEvaluator) (D skew : Z) (Hwin : 0 < window_secs ev ≤ U32_MAX).
Implicit Types (w : World) (s : Gateway).

Abbreviation step := (gstep ev D skew).

Lemma context_read_moves t ctx w' s :
  context_read t ctx s → moves (g_world s) w' → context_read t ctx (with_world w' s).
Proof. intros (t0 & d0 & Ht & ? & ?) []. exists t0, d0. split; [cbn; lia|done]. Qed.

(** A request that was given its policy. *)
Definition given t F N (sa : ServiceAccountId) (r : result GatewayError EvaluatedPolicy) s : Prop :=
  along t F N s ∧ ∀ e, r = Ok e → answered (g_policies s) sa e.

Lemma cache_get_flows sa ctx t F N T :
  flows ev D skew T (λ s, along t F N s ∧ context_read t ctx s) (policy_cache_get sa)
    (λ r s, along t F N s ∧ context_read t ctx s ∧
       ∀ e, r = Ok (Some e) → answered (g_policies s) sa e).
Proof.
  split; [intros w; unfold policy_cache_get; destruct (moka_get _ _ _); by split|].
  intros [w F0 K P R A N0] [(Ht & HF & HN) (t0 & d0 & Ht0 & Hin & Hctx)] _. cbn in *.
  assert (clock (policy_cache_get sa w).2 = clock w) as Hc
    by (unfold policy_cache_get; by destruct (moka_get _ _ _)).
  destruct (policy_cache_get sa w) as [r w'] eqn:Hrun. cbn [fst snd] in *.
  assert (∃ o, r = Ok o) as [o ->]
    by (unfold policy_cache_get in Hrun; destruct (moka_get _ _ _); injection Hrun as <- _; eauto).
  destruct o as [e|]; eexists.
  - split; [|split; [by apply rtc_once, (gw_cached _ _ _ sa e w)|]]; [done|].
    split; [split_and!; cbn; [lia|done..]|]. split; [exists t0, d0; split; [cbn; lia|done]|].
    intros ? [= <-]. left. apply elem_of_cons. by left.
  - split; [|split; [apply rtc_once, (gw_policy _ _ _ w w' F0 K P P); [by eapply rc_hit|done]|]]; [done|].
    split; [split_and!; cbn; [lia|done..]|]. split; [exists t0, d0; split; [cbn; lia|done]|done].
Qed.

(** Loaded, merged, cached. *)
Lemma reload_flows ctx t F N T :
  T ≤ t + D →
  flows ev D skew T (λ s, along t F N s ∧ context_read t ctx s)
    (policies ← load_policies ctx;
     evaluated ← lift (merge_policies policies);
     _ ← policy_cache_insert (ac_service_account_id ctx) evaluated;
     mret evaluated)
    (given t F N (ac_service_account_id ctx)).
Proof.
  intros HT. set (sa := ac_service_account_id ctx).
  assert (stands ev D skew (load_policies ctx)) as Hst.
  { unfold load_policies, PolicyRepo.list_policies_for_service_account. solve_stands. }
  apply (flows_bind _ _ _ _ _ _ _ (λ policies s, along t F N s ∧ ∀ e, merge_policies policies = Ok e →
    ∃ t0, t ≤ t0 ∧ mkLoad sa e t0 ∈ pb_loads (g_policies s))).
  - split; [intros w; by eapply stands_moves|]. intros s [Hal (t0 & d0 & Ht0 & Hin & Hctx)] _.
    pose proof (stands_moves ev D skew _ (g_world s) Hst) as Hv. destruct (Hst s) as [_ Hr].
    destruct (load_policies ctx (g_world s)) as [[ps|err] w'] eqn:Hrun; cbn [fst snd] in *.
    2:{ eexists. split; [|split; [exact Hr|]]; [done|]. split; [by apply along_moves|done]. }
    destruct (merge_policies ps) as [e|err] eqn:Hm.
    2:{ eexists. split; [|split; [exact Hr|]]; [done|]. split; [by apply along_moves|done]. }
    clear Hr. destruct s as [w F0 K P R A N0]. cbn in *.
    eexists (mkGateway w' F0 K (mkPolicyBook (mkLoad sa e t0 :: pb_loads P) ((clock w, db w) :: pb_reads P)
      (pb_answers P)) R A N0).
    split; [done|]. split.
    { apply rtc_once. eapply gw_policy; [|done]. eapply (rc_load _ ctx d0 t0); [done|lia|done..]. }
    split; [exact (along_moves t F N w' _ Hal Hv)|]. intros ? [= <-]. exists t0. split; [lia|].
    cbn. apply elem_of_cons. by left.
  - intros ps. destruct (merge_policies ps) as [e|err]; cbn.
    2:{ apply flows_stands; [by apply stands_still|].
        intros s r w' [Hal _] [= <- <-] Hv. split; [by apply along_moves|done]. }
    split; [by intros w; split|]. intros s [Hal Hload] Hc. change (clock (g_world s) ≤ T) in Hc.
    destruct (Hload e eq_refl) as (t0 & Ht0 & Hin). destruct s as [w F0 K P R A N0]. cbn in *.
    eexists (mkGateway _ F0 K P R A N0). split; [done|]. split.
    { apply rtc_once. eapply gw_policy; [|done]. eapply (rc_fill _ (mkLoad sa e t0)); [done| |done].
      cbn. lia. }
    split; [exact Hal|]. intros ? [= <-]. right. by exists (mkLoad sa e t0).
Qed.

Lemma evaluation_flows ctx t F N T :
  T ≤ t + D →
  flows ev D skew T (λ s, along t F N s ∧ context_read t ctx s) (get_or_evaluate ctx)
    (given t F N (ac_service_account_id ctx)).
Proof.
  intros HT. unfold get_or_evaluate.
  apply (flows_bind _ _ _ _ _ _ _ (λ o s, (along t F N s ∧ context_read t ctx s) ∧
    ∀ e, o = Some e → answered (g_policies s) (ac_service_account_id ctx) e)).
  { eapply flows_weaken; [| |apply (cache_get_flows _ ctx t F N)]; [done|].
    intros [o|err] s (Hal & Hctx & Ha); [|by split]. split; [by split|]. intros e ->. by apply Ha. }
  intros [e|].
  - apply flows_stands; [solve_stands|]. intros s r w' [[Hal _] Ha] [= <- <-] Hv.
    split; [by apply along_moves|]. intros ? [= <-]. by apply Ha.
  - apply flows_map_err. eapply flows_weaken; [| |by apply reload_flows]; [by intros s [? _]|].
    intros [e|err] s [Hal Ha]; (split; [done|]); [|done]. intros ? [= <-]. by apply Ha.
Qed.

(** Steps of the flights, among everything else. *)
Lemma flight_steps P x y K R A N :
  rtc (flight_step ev (answered P)) x y →
  rtc step (mkGateway (world x) (flights x) K P R A N) (mkGateway (world y) (flights y) K P R A N).
Proof.
  induction 1 as [|[w F] [w' F'] z Hop _ IH]; [done|]. eapply rtc_l; [|exact IH]. by apply gw_flight.
Qed.

Lemma now_paces : paces now_unix_secs.
Proof. intros w. unfold now_unix_secs. by destruct (0 <=? clock w). Qed.
#[local] Hint Resolve now_paces : gate.
Lemma limits_paces sa pol : paces (evaluate_limits ev sa pol).
Proof.
  unfold evaluate_limits, check_and_increment, window_script, rollback_sa_counter, reject. solve_paces.
Qed.
Lemma permit_paces state sa pol : paces (take_permit state sa pol).
Proof. unfold take_permit, acquire. solve_paces. Qed.
Lemma give_back_paces permit : paces (give_back permit).
Proof. unfold give_back, release_inner. solve_paces. Qed.

(** The request takes off and meets its limits. *)
Lemma limits_flows i sa pol t F N T :
  F !! i = None →
  flows ev D skew T (λ s, (along t F N s ∧ answered (g_policies s) sa pol) ∧
      prompt (window_secs ev) (g_world s) ∧ 0 ≤ clock (g_world s))
    (evaluate_limits ev sa pol)
    (λ r s, ∃ p, along t (<[i := mkFlight sa pol p]> F) N s ∧
       match r with Ok _ => ∃ c g, p = Granted c g | Err _ => ∀ c g, p ≠ Finished c g end).
Proof.
  intros Hi. split; [apply limits_paces|].
  intros [w F0 K P R A N0] [[(Ht & HF & HN) Hans] [Hp Hc]] _. cbn in *. subst F0 N0.
  destruct (limits_paces sa pol w) as [Hc' _].
  destruct (evaluate_limits ev sa pol w) as [r w'] eqn:Hrun. cbn in *.
  destruct (limits_flies ev (answered P) Hwin i sa pol w r w' F Hp Hc Hrun) as (p & Hfly & Hr).
  eexists. split; [|split].
  2:{ eapply rtc_l; [apply gw_flight; by apply (fly_arrive _ _ i sa pol)|].
      exact (flight_steps P _ _ K R A N Hfly). }
  { done. }
  exists p. split; [split_and!; cbn; [lia|done..]|]. destruct r; [done|]. naive_solver.
Qed.

Lemma permit_flows i state sa pol c g t F N T :
  flows ev D skew T (along t (<[i := mkFlight sa pol (Granted c g)]> F) N) (take_permit state sa pol)
    (λ r s, ∃ p, along t (<[i := mkFlight sa pol p]> F) N s ∧
       match r with
       | Ok permit => p = Running c g (bool_decide (is_Some permit)) ∧
           ∀ pm, permit = Some pm → pm = mkPermit (concurrency_key sa) false
       | Err _ => ∀ c g, p ≠ Finished c g
       end).
Proof.
  split; [apply permit_paces|]. intros [w F0 K P R A N0] (Ht & HF & HN) _. cbn in *. subst F0 N0.
  destruct (permit_paces state sa pol w) as [Hc' _].
  destruct (take_permit state sa pol w) as [r w'] eqn:Hrun. cbn in *.
  destruct (permit_flies ev (answered P) Hwin i state sa pol c g w r w' F Hrun) as (p & Hfly & Hr).
  eexists. split; [|split; [exact (flight_steps P _ _ K R A N Hfly)|]]; [done|].
  exists p. split; [split_and!; cbn; [lia|done..]|done].
Qed.
Lemma give_back_flows i sa pol c g (permit : option ConcurrencyPermit) t F N T :
  (∀ pm, permit = Some pm → pm = mkPermit (concurrency_key sa) false) →
  flows ev D skew T
    (along t (<[i := mkFlight sa pol (Running c g (bool_decide (is_Some permit)))]> F) N)
    (give_back permit)
    (λ r s, is_ok r = true ∧ along t (<[i := mkFlight sa pol (Finished c g)]> F) N s).
Proof.
  intros Hpm. split; [apply give_back_paces|]. intros [w F0 K P R A N0] (Ht & HF & HN) _. cbn in *. subst F0 N0.
  destruct (give_back_paces permit w) as [Hc' _].
  destruct (give_back_ok ev (answered P) Hwin permit w) as [w' Hrun]. rewrite Hrun in *. cbn in *.
  pose proof (release_flies ev (answered P) Hwin i sa pol c g permit w w' F Hpm Hrun) as Hfly.
  eexists. split; [|split; [exact (flight_steps P _ _ K R A N Hfly)|]]; [done|].
  split; [done|]. split_and!; cbn; [lia|done..].
Qed.

(** The middleware, with a handler that writes nothing down. *)
Lemma middleware_flows i state ctx next t F N T :
  rate_limit_evaluator state = Some ev → F !! i = None → T ≤ t + D →
  (∀ e, stands ev D skew (run_handler next e)) →
  flows ev D skew T (λ s, (along t F N s ∧ context_read t ctx s) ∧
      prompt (window_secs ev) (g_world s) ∧ 0 ≤ clock (g_world s))
    (rate_limit_middleware state (Some ctx) next)
    (λ r s, ∃ F', along t F' N s ∧ landed i (ac_service_account_id ctx) F (is_ok r) F').
Proof.
  intros Hst Hi HT Hnext. unfold rate_limit_middleware, require_rate_limit_evaluator. rewrite Hst.
  set (sa := ac_service_account_id ctx). set (Q w := prompt (window_secs ev) w ∧ 0 ≤ clock w).
  assert (∀ w w', moves w w' → Q w → Q w') as HQ.
  { intros w w' Hv [Hp Hc]. split; [by eapply prompt_moves|]. destruct Hv. lia. }
  assert (∀ s, along t F N s → ∃ F', along t F' N s ∧ landed i sa F false F') as Hgone.
  { intros s Hal. exists F. split; [done|by left]. }
  cbn [ok_or]. repeat first [apply flows_ok|apply flows_skip;
    [apply flows_stands; [solve [eauto with gate]|]|by intros e s [[? _] _]; apply Hgone|intros _];
    [intros s r w' [[Hal Hctx] Hq] _ Hv; split; [split; [by apply along_moves|by apply context_read_moves]
       |by eapply HQ]|]].
  apply (flows_bind _ _ _ _ _ _ _ (λ e s, (along t F N s ∧ answered (g_policies s) sa e) ∧ Q (g_world s))).
  { eapply flows_weaken; [| |apply (flows_world _ _ _ _ Q); [|by apply (evaluation_flows ctx t F N)]]; [done|..].
    - intros [e|err] s [[Hal Ha] Hq]; [|by apply Hgone]. split; [split; [done|by apply Ha]|done].
    - intros w. apply HQ. exact (proj1 (evaluation_flows ctx t F N T HT) w). }
  intros e. apply (flows_bind _ _ _ _ _ _ _ (λ _ s, ∃ c g,
    along t (<[i := mkFlight sa e (Granted c g)]> F) N s)).
  { eapply flows_weaken; [| |by apply (limits_flows i sa e t F N)]; [done|].
    intros [o|err] s (p & Hal & Hp); [destruct Hp as (c & g & ->); eauto|].
    eexists. split; [exact Hal|]. right. by exists e, p. }
  intros outcome. apply (flows_bind _ _ _ _ _ _ _ (λ permit s, ∃ c g,
    along t (<[i := mkFlight sa e (Running c g (bool_decide (is_Some permit)))]> F) N s ∧
    ∀ pm, permit = Some pm → pm = mkPermit (concurrency_key sa) false)).
  { apply flows_exists; [apply permit_paces|intros c]. apply flows_exists; [apply permit_paces|intros g].
    eapply flows_weaken; [| |by apply (permit_flows i state sa e c g t F N)]; [done|].
    intros [pm|err] s (p & Hal & Hp); [destruct Hp as [-> Hpm]; eauto|].
    eexists. split; [exact Hal|]. right. by exists e, p. }
  intros permit.
  assert (paces (response ← run_handler next e; _ ← give_back permit;
    mret (inject_rate_limit_headers response outcome))) as Hrest.
  { apply paces_bind; [intros w; by eapply stands_moves|intros response].
    apply paces_bind; [apply give_back_paces|intros; apply paces_ret]. }
  apply flows_exists; [done|intros c]. apply flows_exists; [done|intros g].
  apply flows_pure; [done|]. intros Hpm.
  apply (flows_bind _ _ _ _ _ _ _ (λ _,
    along t (<[i := mkFlight sa e (Running c g (bool_decide (is_Some permit)))]> F) N)).
  { apply flows_stands; [apply Hnext|]. intros s r w' Hal Hrun Hv.
    unfold run_handler in Hrun. destruct (next e (g_world s)). injection Hrun as <- <-.
    by apply along_moves. }
  intros response. apply (flows_bind _ _ _ _ _ _ _ (λ _,
    along t (<[i := mkFlight sa e (Finished c g)]> F) N)).
  { eapply flows_weaken; [| |by apply (give_back_flows i sa e c g permit t F N)]; [done|].
    intros [u|err] s [Hok Hal]; done. }
  intros u. apply flows_stands; [solve_stands|]. intros s r w' Hal [= <- <-] Hv.
  eexists. split; [by apply along_moves|]. by exists e, c, g.
Qed.
End limits.

(** ** The stack *)

Section stack.
Context `{!Backends, !BackendsLaws, !UuidLib, !HashOrder, !KeyCodec, !KeyCodecLaws, !Crypto, !Web,
  !WebLaws, !CursorCodec, !Bcrypt, !JoinOrder, !HttpStack}.
Context (ev : RateLimitEvaluator) (D skew : Z).
Context (HD : 0 ≤ D) (Hwin : 0 < window_secs ev ≤ U32_MAX).
Implicit Types (w : World) (s : Gateway).

Abbreviation step := (gstep ev D skew).

(** A service as a computation that cannot fail. *)
Definition as_io (service : World → option Response * World) : IO World Empty_set (option Response) :=
  λ w, let '(r, w') := service w in (Ok r, w').
Definition serves T (Pre : Gateway → Prop) (service : World → option Response * World)
    (Post : option Response → Gateway → Prop) : Prop :=
  flows ev D skew T Pre (as_io service) (λ r s, ∀ a, r = Ok a → Post a s).

Lemma serves_respond T Pre (m : IO World GatewayError (option Response)) Post :
  flows ev D skew T Pre m (λ r s, Post (match r with
    | Ok a => a | Err e => Some (into_response json_to_vec e) end) s) →
  serves T Pre (respond m) Post.
Proof.
  intros [Hv Hm]. unfold serves, as_io, respond. split.
  - intros w. specialize (Hv w). by destruct (m w) as [[]].
  - intros s Hs. specialize (Hm s Hs). destruct (m (g_world s)) as [[a|e] w']; cbn in *;
      intros (s' & ? & ? & ?)%Hm; exists s'; (split_and!; [done..|]); by intros ? [= <-].
Qed.

(** The request went all the way: its nonce was accepted and its flight is finished. *)
Definition went_through (i : nat) (F : gmap nat Flight) (N : list Accepted) s : Prop :=
  ∃ sa n t pol c g, g_nonces s = mkAccepted (id_display sa) n t :: N ∧
    g_flights s = <[i := mkFlight sa pol (Finished c g)]> F.
Definition succeeds (r : option Response) : Prop := ∃ resp, r = Some resp ∧ resp_status resp < 400.

Lemma refused_fails e : refusal e → ¬ succeeds (Some (into_response json_to_vec e)).
Proof. intros He%into_response_status (resp & [= <-] & Hlt). lia. Qed.

Ltac solve_refusal_branches :=
  repeat (solve_refusals;
    try match goal with |- fails_with _ (match ?x with _ => _ end) => destruct x end).
Lemma reject_refuses {A} msg res : fails_with refusal (reject (A:=A) msg res).
Proof. unfold reject. solve_refusals. Qed.
Lemma limits_refuse evaluator sa pol : fails_with refusal (evaluate_limits evaluator sa pol).
Proof.
  unfold evaluate_limits. apply fails_with_bind.
  { destruct (rpm_limit pol); solve_refusal_branches. apply reject_refuses. }
  intros sa_result. apply fails_with_bind; [apply fails_with_map_err; intros; unfold refusal; cbn; lia|].
  intros global. destruct (negb _); [|solve_refusals]. apply fails_with_bind; [|intros; apply reject_refuses].
  destruct (bool_decide _); [|solve_refusals]. intros w e w'. by destruct (rollback_ok evaluator sa w) as [? ->].
Qed.
Lemma permit_refuses state sa pol : fails_with refusal (take_permit state sa pol).
Proof.
  unfold take_permit, require_concurrency_limiter, unavailable, acquire.
  destruct (concurrency_limit pol); solve_refusal_branches.
Qed.
Lemma middleware_refuses state auth next : fails_with refusal (rate_limit_middleware state auth next).
Proof.
  unfold rate_limit_middleware, require_redis, require_policy_cache, require_rate_limit_evaluator,
    require_db, unavailable.
  do 5 (apply fails_with_bind; [solve_refusals|intros ?]).
  apply fails_with_bind.
  { unfold get_or_evaluate. apply fails_with_bind.
    - intros w e w'. unfold policy_cache_get. by destruct (moka_get _ _ _).
    - intros [e|]; solve_refusals. }
  intros pol. apply fails_with_bind; [apply limits_refuse|intros outcome].
  apply fails_with_bind; [apply permit_refuses|intros permit].
  apply fails_with_bind; [|intros response; apply fails_with_bind; [|intros; apply fails_with_ret]].
  - intros w e w'. unfold run_handler. by destruct (next _ w).
  - unfold give_back, release_inner. solve_refusal_branches.
Qed.

(** The data plane behind its two layers. *)
Lemma data_plane_serves i state methods req t F N T :
  rate_limit_evaluator state = Some ev → timestamp_skew_secs state = skew → F !! i = None → T ≤ t + D →
  serves T (λ s, before t F N s ∧ prompt (window_secs ev) (g_world s) ∧ 0 ≤ clock (g_world s))
    (data_plane_service state methods req)
    (λ r s, succeeds r → went_through i F N s).
Proof.
  intros Hev Hskew Hi HT. unfold data_plane_service. apply serves_respond. unfold auth_middleware.
  set (Q w := prompt (window_secs ev) w ∧ 0 ≤ clock w).
  assert (∀ w w', moves w w' → Q w → Q w') as HQ.
  { intros w w' Hv [Hp Hc]. split; [by eapply prompt_moves|]. destruct Hv. lia. }
  pose proof (authenticate_flows ev D skew HD state req t F N T Hskew HT) as Hauth.
  apply (flows_bind _ _ _ _ _ _ _ (λ ctx s, (∃ n t',
    along t F (mkAccepted (id_display (ac_service_account_id ctx)) n t' :: N) s ∧ context_read t ctx s) ∧
    Q (g_world s))).
  { eapply flows_weaken; [| |apply (flows_world _ _ _ _ Q);
      [|apply flows_fails; [apply authenticate_refuses|exact Hauth]]]; [done|..].
    - intros [ctx|e] s [[Ha He] Hq]; [by split|]. intros []%refused_fails. by apply He.
    - intros w. apply HQ, Hauth. }
  intros ctx. set (sa := ac_service_account_id ctx).
  match goal with |- context [rate_limit_middleware state (Some ctx) ?h] => set (next := h) end.
  pose proof (λ N', middleware_flows ev D skew Hwin i state ctx next t F N' T Hev Hi HT) as Hmid.
  assert (∀ e, stands ev D skew (run_handler next e)) as Hstands.
  { intros e. apply stands_still. intros w. unfold run_handler, next.
    destruct (find_method _ _) as [[]|]; done. }
  split.
  { intros w. pose proof (proj1 (Hmid [] Hstands) w) as Hv. unfold respond.
    by destruct (rate_limit_middleware _ _ _ w) as [[]]. }
  intros s [(n & t' & Hal & Hctx) Hq].
  assert (Hrun := Hmid (mkAccepted (id_display sa) n t' :: N) Hstands).
  eapply flows_fails in Hrun; [|apply (middleware_refuses state (Some ctx) next)].
  destruct Hrun as [_ Hrun]. specialize (Hrun s (conj (conj Hal Hctx) Hq)). unfold respond.
  destruct (rate_limit_middleware _ _ _ _) as [[r|e] w']; cbn [fst snd] in *;
    intros (s' & Hw & Hr & (F' & (_ & HF & HN) & Hland) & He)%Hrun; exists s'; (split_and!; [done..|]).
  - intros _. destruct Hland as (pol & c & g & ->). exists sa, n, t', pol, c, g. by split.
  - intros []%refused_fails. by apply He.
Qed.

Lemma admin_serves state methods params req t F N T (Post : option Response → Gateway → Prop) :
  T ≤ t + D → (∀ r s, Post r s) →
  serves T (along t F N) (admin_service state methods params req) Post.
Proof.
  intros HT HPost. apply serves_respond.
  eapply flows_weaken; [| |apply (flows_seq _ _ _ _ (along t F N))]; [done|by intros|..].
  - by apply admin_authenticate_flows.
  - intros ctx. apply flows_along. destruct (find_method _ _) as [extract|]; [|solve_stands].
    destruct (extract params req); [|solve_stands].
    apply stands_bind; [apply handle_stands|intros; solve_stands].
Qed.

Lemma serves_still T Pre (service : World → option Response * World) (Post : option Response → Gateway → Prop) :
  (∀ w, (service w).2 = w) → (∀ s r, Pre s → (service (g_world s)).1 = r → Post r s) →
  serves T Pre service Post.
Proof.
  intros Hw Hp. apply flows_stands.
  - apply stands_still. intros w. unfold as_io. specialize (Hw w). by destruct (service w).
  - intros s r w' Hs Hrun _ a ->. unfold as_io in Hrun. specialize (Hw (g_world s)).
    specialize (Hp s _ Hs eq_refl). destruct (service (g_world s)) as [r w]. injection Hrun as <- <-.
    cbn in *. subst w. by rewrite with_world_id.
Qed.
Lemma serves_map T Pre (service : World → option Response * World) (f : option Response → option Response)
    (Post : option Response → Gateway → Prop) :
  serves T Pre service (λ r, Post (f r)) →
  serves T Pre (λ w, let '(r, w') := service w in (f r, w')) Post.
Proof.
  unfold serves, as_io. intros [Hv Hm]. split.
  - intros w. specialize (Hv w). by destruct (service w).
  - intros s Hs. specialize (Hm s Hs). destruct (service (g_world s)) as [r w']; cbn in *.
    intros (s' & ? & ? & Hp)%Hm. exists s'. split_and!; [done..|]. intros a [= <-]. by apply Hp.
Qed.

(** A request for the data plane. *)
Definition data_request (req : Request) : Prop := ∃ route params methods,
  find_route all_routes (req_path req) = Some (route, params) ∧ rt_endpoints route = DataRoute methods.

Lemma drop_body_succeeds b r : succeeds (if b : bool then drop_body <$> r else r) → succeeds r.
Proof.
  destruct b; [|done]. intros (resp & (r0 & -> & ->)%fmap_Some & Hlt). by exists r0.
Qed.

Lemma route_request_serves i state req t F N T :
  rate_limit_evaluator state = Some ev → timestamp_skew_secs state = skew → F !! i = None → T ≤ t + D →
  serves T (λ s, before t F N s ∧ prompt (window_secs ev) (g_world s) ∧ 0 ≤ clock (g_world s))
    (route_request state req)
    (λ r s, data_request req → succeeds r → went_through i F N s).
Proof.
  intros Hev Hskew Hi HT. unfold route_request.
  destruct (find_route all_routes (req_path req)) as [[route params]|] eqn:Hroute.
  2:{ apply serves_still; [done|]. intros s r _ <- (? & ? & ? & Hd & _). by rewrite Hroute in Hd. }
  set (f (r : option Response) := if String.eqb (req_method req) "HEAD" then drop_body <$> r else r).
  destruct (rt_endpoints route) as [ms|ms|ms] eqn:Hep.
  - apply serves_still; [done|]. intros s r _ <- (? & ? & ? & Hd & Hdata). rewrite Hroute in Hd.
    injection Hd as <- <-. by rewrite Hep in Hdata.
  - apply (serves_map _ _ _ f). eapply flows_weaken; [| |by apply (data_plane_serves i state ms req t F N T)];
      [done|]. intros r s Hp a -> _ Hs. by apply (Hp a), (drop_body_succeeds (String.eqb (req_method req) "HEAD")).
  - apply (serves_map _ _ _ f). eapply flows_weaken;
      [| |by apply (admin_serves state ms params req t F N T (λ _ _, True))]; [by intros s [[? _] _]|].
    intros r s _ a -> (? & ? & ? & Hd & Hdata). rewrite Hroute in Hd.
    injection Hd as <- <-. by rewrite Hep in Hdata.
Qed.

Lemma propagate_succeeds id r : succeeds (propagate_request_id id <$> r) → succeeds r.
Proof.
  intros (resp & (r0 & -> & ->)%fmap_Some & Hlt). exists r0. split; [done|].
  unfold propagate_request_id in Hlt. by destruct (bool_decide _).
Qed.
Lemma serves_propagate T Pre id (service : World → option Response * World)
    (Post : option Response → Gateway → Prop) :
  serves T Pre service (λ r, Post (propagate_request_id id <$> r)) →
  flows ev D skew T Pre (propagate id service) (λ r s, ∀ a, r = Ok a → Post a s).
Proof.
  unfold serves, as_io, propagate. intros [Hv Hm]. split.
  - intros w. specialize (Hv w). by destruct (service w).
  - intros s Hs. specialize (Hm s Hs). destruct (service (g_world s)) as [r w']; cbn in *.
    intros (s' & ? & ? & Hp)%Hm. exists s'. split_and!; [done..|]. intros a [= <-]. by apply Hp.
Qed.

(** The whole stack. *)
Lemma serve_flows `{!HttpStackLaws} i state req t F N T :
  rate_limit_evaluator state = Some ev → timestamp_skew_secs state = skew → F !! i = None → T ≤ t + D →
  flows ev D skew T (λ s, before t F N s ∧ prompt (window_secs ev) (g_world s) ∧ 0 ≤ clock (g_world s))
    (serve state req)
    (λ r s, ∀ a, r = Ok a → data_request req → succeeds a → went_through i F N s).
Proof.
  intros Hev Hskew Hi HT. unfold serve.
  set (Pre s := before t F N s ∧ prompt (window_secs ev) (g_world s) ∧ 0 ≤ clock (g_world s)).
  assert (stands ev D skew (set_request_id req)) as Hset by (unfold set_request_id; solve_stands).
  apply (flows_bind _ _ _ _ _ _ _ (λ '(id, req') s, Pre s ∧ req_path req' = req_path req)).
  { apply flows_stands; [done|]. intros s r w' [[Hal Hk] [Hp Hc]] Hrun Hv.
    destruct r as [[id req']|[]]. split.
    - split; [split; [by apply along_moves|]|split; [by eapply prompt_moves|cbn; destruct Hv; lia]].
      unfold set_request_id in Hrun. cbn. destruct (req_headers req !! _); [by injection Hrun as _ _ <-|].
      apply io_bind_ok in Hrun as (u & w2 & [= _ <-] & [= _ _ <-]). exact Hk.
    - unfold set_request_id in Hrun. destruct (req_headers req !! _); [by injection Hrun as _ <- _|].
      apply io_bind_ok in Hrun as (u & w2 & _ & [= _ <- _]). done. }
  intros [id req']. destruct (limit_body MAX_BODY_SIZE req') as [req2|answer] eqn:Hlim.
  - apply limit_body_passes in Hlim as [(_ & Hpath & _) _].
    apply flows_pure.
    { intros w. unfold propagate.
      pose proof (proj1 (route_request_serves i state req2 t F N T Hev Hskew Hi HT) w) as Hv.
      unfold as_io in Hv. by destruct (route_request state req2 w). }
    intros Hreq.
    apply (serves_propagate _ _ _ _ (λ a s, data_request req → succeeds a → went_through i F N s)).
    eapply flows_weaken; [| |by apply (route_request_serves i state req2 t F N T)]; [done|].
    intros r s Hpost a -> Hdata Hs%propagate_succeeds. apply (Hpost a eq_refl); [|done].
    unfold data_request in *. by rewrite Hpath, Hreq.
  - apply flows_stands; [solve_stands|]. intros s r w' _ [= <- <-] _ a [= <-] _ (resp & [= <-] & Hlt).
    apply limit_body_rejects in Hlim. lia.
Qed.
End stack.
