(* ===== verification/GatewayProps.v ===== *)
(** * What the gateway as a whole promises
      (src/gateway/crates/gateway/src/server.rs [build_router])

    Whatever is served is a run of the system of Gateway.v; a run of the system is a run
    of each component's own system; so the limits an account's policies set in the
    database and the uniqueness of nonces hold of the whole, under every interleaving. *)

From stdpp Require Import options.
From S2P Require Import Prelude Rust Types Errors Json Models PolicyMerge Backends Db World.
From S2P Require Import Repositories DbInvariant Listing RateLimit Concurrency Recovery Signing AppState KeyStore Auth.
From S2P Require Import PolicyEngine Ages Staleness PolicyMiddleware Router AdminAuth CacheRaces.
From S2P Require Import Admin AdminProps Nonces Server Pipeline PipelineProps Gateway Http HttpProps GatewayRuns.
#[local] Set Default Proof Using "Type*".

(** ** Every admitted request is counted *)

(** A flight past the account's level carries a window exactly if its policy has a limit;
    one in the handler holds a permit exactly if its policy limits concurrency. *)
Definition metered (x : Flight) : Prop :=
  match fl_phase x with
  | Counted c | GlobalTimed c _ | Granted c _ | Finished c _ =>
    is_Some c ↔ is_Some (rpm_limit (fl_policy x))
  | Running c _ b =>
    (is_Some c ↔ is_Some (rpm_limit (fl_policy x))) ∧
    (b = true ↔ is_Some (concurrency_limit (fl_policy x)))
  | _ => True
  end.
(** A request of the account for which the handler is running. *)
Definition in_handler (sa : ServiceAccountId) (x : Flight) : Z :=
  if fl_phase x is Running _ _ _ then ind (fl_account x = sa) else 0.

Section windows.
Context `{!Backends, !UuidLib}.
Context (ev : RateLimitEvaluator) (in_force : ServiceAccountId → EvaluatedPolicy → Prop).

Lemma advance_metered sa pol w p w' q :
  advance ev sa pol w p w' q → metered (mkFlight sa pol p) → metered (mkFlight sa pol q).
Proof.
  destruct 1 as [w Hn|w Hn|w t rpm r w' Hrpm Hrun Hc|c w|c w t r w' Hrun Hc|c w
    |c w t r w' Hcall|c g w Hn|c g w limit r w' Hl Hacq|c g w|c g w pm w' Hrel];
    unfold metered; cbn; try done.
  - by rewrite Hn.
  - rewrite Hrpm. by destruct (passes r).
  - by destruct (passes r); [|destruct r, c].
  - rewrite Hn. intros Hc. split; [done|]. split; [done|by intros []].
  - rewrite Hl. intros Hc. destruct (is_ok r); [|done]. split; [done|]. by split; [eexists|].
  - by intros [? _].
  - by intros [? _].
Qed.
Lemma pstep_metered s s' : pstep ev in_force s s' →
  (∀ i x, flights s !! i = Some x → metered x) → ∀ i x, flights s' !! i = Some x → metered x.
Proof.
  intros [s1 s2 [i sa pol w fs Hi Hpol|i sa pol p q w w' fs Hi Ha]|w w' fs Hc Hk] Hwf j x; cbn.
  - intros [[<- <-]|[_ Hj]]%lookup_insert_Some; [done|by eapply Hwf].
  - intros [[<- <-]|[_ Hj]]%lookup_insert_Some; [|by eapply Hwf].
    eapply advance_metered; [done|]. by eapply Hwf.
  - apply Hwf.
Qed.
Lemma nsteps_metered k w0 s :
  nsteps (pstep ev in_force) k (mkPipeline w0 ∅) s → ∀ i x, flights s !! i = Some x → metered x.
Proof.
  intros Hsteps.
  assert (∀ i x, flights (mkPipeline w0 ∅) !! i = Some x → metered x) as Hstart
    by (intros i x; cbn; by rewrite lookup_empty).
  revert Hstart. induction Hsteps; eauto using pstep_metered.
Qed.
End windows.

(** ** Limits in the database *)

(** A policy bound to the account sets [f] to [n] or less; the columns hold 32-bit
    numbers. *)
Definition capped (f : Policy → option Z) (sa : ServiceAccountId) (n : Z) (d : Db) : Prop :=
  (∀ id p, policies d !! id = Some p → policy_i32 p) ∧
  ∃ p l, p ∈ PolicyRepo.select_bound sa d ∧ f p = Some l ∧ l ≤ n.

Section caps.
Context `{!HashOrder}.

Lemma capped_merge f sa def n d pol :
  capped f sa n d → merge_policies (applicable sa def d) = Ok pol →
  merge_spec (applicable sa def d) pol ∧ ∃ l, min_limit f (applicable sa def d) = Some l ∧ l ≤ n.
Proof.
  intros (Hi32 & p & l & Hin & Hl & Hle) Hm.
  assert (p ∈ applicable sa def d) as Hp by (apply elem_of_app; by left).
  split.
  - apply merge_policies_meets; [|intros Heq; rewrite Heq in Hp; by apply elem_of_nil in Hp|done].
    apply Forall_forall. intros q [id Hq]%applicable_stored. by eapply Hi32.
  - destruct (min_limit_lower f _ p l Hp Hl) as (m & Hmin & ?). exists m. split; [done|lia].
Qed.

Context (ps : list (Z * Db)) (sa : ServiceAccountId) (n : Z) (pol : EvaluatedPolicy).

Lemma capped_rpm : (∀ t d, (t, d) ∈ ps → capped policy_rpm_limit sa n d) → issued ps sa pol →
  ∃ l, rpm_limit pol = Some l ∧ l ≤ n.
Proof.
  intros Hcap (t & d0 & t1 & d1 & _ & Hin & _ & Hm).
  destruct (capped_merge _ _ _ _ _ _ (Hcap _ _ Hin) Hm) as [Hspec Hmin]. by rewrite (spec_rpm _ _ Hspec).
Qed.
Lemma capped_concurrency :
  (∀ t d, (t, d) ∈ ps → capped policy_concurrency_limit sa n d) → issued ps sa pol →
  ∃ l, concurrency_limit pol = Some l ∧ l ≤ n.
Proof.
  intros Hcap (t & d0 & t1 & d1 & _ & Hin & _ & Hm).
  destruct (capped_merge _ _ _ _ _ _ (Hcap _ _ Hin) Hm) as [Hspec Hmin].
  by rewrite (spec_concurrency _ _ Hspec).
Qed.
End caps.

(** A step during which no permit of the account outlives its counter. *)
Definition timely_gstep `{!Backends, !UuidLib, !HashOrder, !KeyCodec, !Crypto} (ev : RateLimitEvaluator)
    (D skew : Z) (sa : ServiceAccountId) (s s' : Gateway) : Prop :=
  gstep ev D skew s s' ∧ in_time sa (g_world s) (slots sa (pipeline_view s)) (g_world s').

(** ** Properties *)

(** C3: the steps of the whole are the program's. Whatever request
    comes in, in whatever state the rest of the gateway is, everything the process does to
    answer it, from the request id to the last layer, whatever fails on the way, is a
    sequence of operations of the components on the world they share, in the order of the
    code. A success of the data plane means that the request's nonce was accepted and that
    it flew through the rate limit middleware to the end. *)
Theorem served_requests_run `{!Backends, !BackendsLaws, !UuidLib, !HashOrder, !KeyCodec, !KeyCodecLaws,
    !Crypto, !Web, !WebLaws, !CursorCodec, !Bcrypt, !JoinOrder, !HttpStack, !HttpStackLaws}
    ev D state req i s r w' :
  0 < window_secs ev ≤ U32_MAX → rate_limit_evaluator state = Some ev → 0 ≤ D →
  keyed sa_id (service_accounts (db (g_world s))) →
  0 ≤ clock (g_world s) → prompt (window_secs ev) (g_world s) → g_flights s !! i = None →
  serve state req (g_world s) = (Ok r, w') → clock w' ≤ clock (g_world s) + D →
  ∃ s', g_world s' = w' ∧ rtc (gstep ev D (timestamp_skew_secs state)) s s' ∧
    (data_request req → succeeds r → went_through i (g_flights s) (g_nonces s) s').
Proof.
  intros Hwin Hev HD Hkeyed Hc Hp Hi Hrun Hdur. set (skew := timestamp_skew_secs state) in *.
  pose proof (serve_flows ev D skew HD Hwin i state req (clock (g_world s)) (g_flights s) (g_nonces s)
    (clock (g_world s) + D) Hev eq_refl Hi ltac:(lia)) as [_ Hflow].
  specialize (Hflow s). rewrite Hrun in Hflow. cbn [fst snd] in Hflow.
  destruct Hflow as (s' & Hw & Hr & Hpost); [|done|].
  - split; [|by split]. split; [by split_and!|done].
  - exists s'. split_and!; [done..|]. by apply Hpost.
Qed.

(** C5: the components do not interfere. Whatever happens in the gateway,
    in any order, each component sees a run of its own system, in which the others' steps
    are things that leave it alone: the requests in the middleware, with policies that
    were merged from databases that requests have read; the key store; the policy, route
    and admin key caches; the nonces. What is proved of each component's runs holds of
    the whole. *)
Theorem gateway_projects `{!Backends, !BackendsLaws, !UuidLib, !UuidLaws, !HashOrder, !KeyCodec, !Crypto}
    ev D skew k w0 s :
  0 < window_secs ev ≤ U32_MAX → 0 < skew → (∀ sa, latest (policy_l1 w0) sa = None) →
  nsteps (gstep ev D skew) k (opening w0) s →
  nsteps (pstep ev (issued (pb_reads (g_policies s)))) k (mkPipeline w0 ∅) (pipeline_view s) ∧
  rtc (key_step D) (mkKeyRaces _ w0 [] [] []) (key_view (g_world s) (g_keys s)) ∧
  rtc (race_step D) (mkRaces _ w0 [] []) (policy_view (g_world s) (g_policies s)) ∧
  rtc (fill_step route_l1 routes_of D) (mkFilling w0 [] []) (book_view (g_world s) (g_routes s)) ∧
  rtc (fill_step admin_l1 admins_of D) (mkFilling w0 [] []) (book_view (g_world s) (g_admins s)) ∧
  rtc (nonce_step skew) (mkNonces _ w0 []) (nonce_view s).
Proof.
  intros Hwin Hskew He Hsteps. pose proof (rtc_nsteps_2 _ _ _ Hsteps) as Hrtc.
  split_and!.
  - by apply (runs_fly ev D skew).
  - exact (runs_project ev D skew Hwin Hskew (λ s, key_view (g_world s) (g_keys s)) _ _ _
      (step_keys ev D skew Hwin Hskew) Hrtc).
  - exact (runs_project ev D skew Hwin Hskew (λ s, policy_view (g_world s) (g_policies s)) _ _ _
      (step_policies ev D skew Hwin Hskew) Hrtc).
  - exact (runs_project ev D skew Hwin Hskew (λ s, book_view (g_world s) (g_routes s)) _ _ _
      (step_routes ev D skew Hwin Hskew) Hrtc).
  - exact (runs_project ev D skew Hwin Hskew (λ s, book_view (g_world s) (g_admins s)) _ _ _
      (step_admins ev D skew Hwin Hskew) Hrtc).
  - exact (runs_project ev D skew Hwin Hskew nonce_view _ _ _ (step_nonces ev D skew Hwin Hskew) Hrtc).
Qed.

(** C2: from the tables to the traffic. Let some policy bound to
    an account limit it to [rpm] requests a window in every database any request reads its
    policies from; the other policies, the caches, the administrators' work and the
    interleaving may be anything. Then every request of the account that is admitted is
    counted in a window of the account, at most [rpm] of them in each, plus one for each
    rollback that came after the window it was counted in; at most [global_rpm] of all
    accounts are admitted in a window; and no nonce of any account is accepted twice
    within the skew. *)
Theorem gateway_enforces_policies `{!Backends, !BackendsLaws, !UuidLib, !UuidLaws, !HashOrder, !KeyCodec,
    !Crypto} ev D skew sa rpm W k w0 s :
  0 < window_secs ev ≤ U32_MAX → 0 ≤ global_rpm ev < U32_MAX → 0 ≤ rpm < U32_MAX → 0 < skew →
  0 ≤ clock w0 → (∀ a, latest (policy_l1 w0) a = None) →
  (∀ key, limiter_key key = true → peek (clock w0) (redis w0) key = None) →
  nsteps (gstep ev D skew) k (opening w0) s → Z.of_nat k < 2 ^ 52 →
  (∀ t d, (t, d) ∈ pb_reads (g_policies s) → capped policy_rpm_limit sa rpm d) →
  (∀ i pol p, g_flights s !! i = Some (mkFlight sa pol p) →
     is_Some (global_grant p) → is_Some (account_grant p)) ∧
  tally (granted_to sa W) (g_flights s) ≤ rpm + tally (taken_back sa W) (g_flights s) ∧
  tally (global_net W) (g_flights s) ≤ global_rpm ev ∧
  ForallOrdPairs (spaced skew) (g_nonces s).
Proof.
  intros Hwin Hglob Hrpm Hskew Hc He Hclean Hsteps Hk Hcap.
  pose proof (runs_fly ev D skew Hwin Hskew k w0 s He Hsteps) as Hfly.
  assert (∀ pol l, issued (pb_reads (g_policies s)) sa pol → rpm_limit pol = Some l → l ≤ rpm) as Hlim.
  { intros pol l Hi Hl. destruct (capped_rpm _ sa rpm pol Hcap Hi) as (l' & Hl' & Hle). congruence. }
  split_and!.
  - intros i pol p Hi [g Hg].
    pose proof (nsteps_metered ev _ k w0 _ Hfly i _ Hi) as Hwd.
    assert (is_Some (rpm_limit pol)) as Hs.
    { destruct (nsteps_flights_wf ev _ Hwin k w0 _ Hfly i _ Hi) as [Hiss _].
      destruct (capped_rpm _ sa rpm pol Hcap Hiss) as (l & -> & _). by eexists. }
    destruct p; cbn in *; try done; first [by apply Hwd|by apply (proj1 Hwd)].
  - apply (pipeline_account ev (issued (pb_reads (g_policies s))) Hwin sa rpm W k w0 (pipeline_view s));
      try done. apply Hclean, window_limiter_key, sa_prefix_rl.
  - apply (pipeline_global ev (issued (pb_reads (g_policies s))) Hwin W k w0 (pipeline_view s)); try done.
    by apply Hclean, window_limiter_key.
  - apply (nonce_steps_inv skew Hskew w0 (nonce_view s)).
    exact (runs_project ev D skew Hwin Hskew nonce_view _ _ _ (step_nonces ev D skew Hwin Hskew)
      (rtc_nsteps_2 _ _ _ Hsteps)).
Qed.

(** C9: from the tables to the handlers. Let some policy bound to an
    account limit it to [limit] concurrent requests in every database any request reads its
    policies from. As long as no permit outlives the account's counter in Redis, the gateway
    as a whole does to the account's slots what the concurrency limiter does, and the handler
    is running for at most [limit] requests of the account at any time, whatever else the
    gateway is doing. *)
Theorem gateway_slots_bounded `{!Backends, !BackendsLaws, !UuidLib, !UuidLaws, !HashOrder, !KeyCodec,
    !Crypto} ev D skew sa limit w0 s :
  0 < window_secs ev ≤ U32_MAX → 0 < skew → 0 ≤ limit ≤ U32_MAX →
  (∀ a, latest (policy_l1 w0) a = None) →
  peek (clock w0) (redis w0) (concurrency_key sa) = None →
  rtc (timely_gstep ev D skew sa) (opening w0) s →
  (∀ t d, (t, d) ∈ pb_reads (g_policies s) → capped policy_concurrency_limit sa limit d) →
  rtc (cstep sa limit) (w0, O) (g_world s, slots sa (pipeline_view s)) ∧
  tally (in_handler sa) (g_flights s) ≤ limit.
Proof.
  intros Hwin Hskew Hl He Hnone [k Hsteps]%rtc_nsteps_1 Hcap.
  pose proof (runs_flights ev D skew Hwin Hskew
    (λ x y, in_time sa (world x) (slots sa x) (world y)) k w0 s He Hsteps) as Htimely.
  assert (nsteps (pstep ev (issued (pb_reads (g_policies s)))) k (mkPipeline w0 ∅) (pipeline_view s)) as Hfly
    by (revert Htimely; apply (nsteps_congruence id); by intros x y [? _]).
  destruct (pipeline_slots_bounded ev (issued (pb_reads (g_policies s))) Hwin sa limit w0 (pipeline_view s))
    as [Hc Hr]; [|done..|by eapply rtc_nsteps_2|].
  - intros pol l Hi Hlim. destruct (capped_concurrency _ sa limit pol Hcap Hi) as (l' & Hl' & Hle). congruence.
  - split; [done|]. etrans; [|exact Hr]. apply tally_le_on. intros i [a pol p] Hi.
    pose proof (nsteps_metered ev _ k w0 _ Hfly i _ Hi) as Hm.
    destruct (nsteps_flights_wf ev _ Hwin k w0 _ Hfly i _ Hi) as [Hiss _].
    unfold in_handler, running, ind. cbn [fl_phase fl_account fl_policy] in *.
    destruct p; try (by repeat case_decide). case_decide as Ha; [|by repeat case_decide].
    subst a. destruct (capped_concurrency _ sa limit pol Hcap Hiss) as (l' & Hl' & _).
    destruct Hm as [_ Hm]. rewrite decide_True; [done|]. split; [done|]. apply Hm. cbn. by eexists.
Qed.

(** ** Concrete runs *)

Section runs.
#[local] Existing Instances mem_backends mem_backends_laws decimal_uuid decimal_uuid_laws sorted_hash_order
  sample_codec sample_codec_laws toy_crypto plain_web plain_web_laws toy_bcrypt last_first plain_stack
  plain_stack_laws bits_codec.

(** A signed request is served, while nothing else happens. *)
Definition served_start : World := mem_world 1000000 [mkStep 7 None] ∅ served_db.

Lemma served_keyed : keyed sa_id (service_accounts served_db).
Proof. exact (wf_sas _ sample_db_wf). Qed.

Lemma served_requests_run_witness :
  let req := sample_request "1000" in
  is_status 200 (serve limited_state req served_start).1 = true ∧
  ∃ s', rtc (gstep (mkRateLimitEvaluator 60 100) 1000 300) (opening served_start) s' ∧
    went_through 0 ∅ [] s'.
Proof.
  intros req.
  assert (is_status 200 (serve limited_state req served_start).1 = true) as Hs by (vm_compute; reflexivity).
  split; [exact Hs|].
  destruct ((serve limited_state req served_start).1) as [answer|[]] eqn:Hans.
  destruct (served_requests_run (mkRateLimitEvaluator 60 100) 1000 limited_state req 0%nat
    (opening served_start) answer (serve limited_state req served_start).2)
    as (s' & _ & Hr & Hthrough).
  - cbn. unfold U32_MAX. lia.
  - done.
  - lia.
  - exact served_keyed.
  - cbn. lia.
  - cbn. unfold prompt. cbn. by repeat constructor.
  - apply lookup_empty.
  - exact (run_answer _ _ Hans).
  - apply Z.leb_le. vm_compute. reflexivity.
  - exists s'. split; [exact Hr|]. apply Hthrough.
    + eexists _, _, _. split; reflexivity.
    + destruct answer as [resp|]; [|done]. exists resp. split; [done|]. cbn in Hs.
      apply bool_decide_eq_true in Hs. lia.
Defined.

(** A nonce is accepted, the account and its policies are read, a request with the merged
    policy meets both levels of the rate limit. *)
Definition hundred_a_minute : RateLimitEvaluator := mkRateLimitEvaluator 60 100.
Definition limited_account : ServiceAccountId := from_uuid 7.
Definition limited_merge : EvaluatedPolicy := rpm_policy (Some 5) (Some 2).
Definition dawn : World := mem_world 120000 [] ∅ limited_db.
Definition nonce_taken : World := (check_nonce "7" "nonce-0123456789" 300 dawn).2.
Definition policies_loaded : World := (load_policies sample_context nonce_taken).2.
Definition account_counted : World :=
  (window_script 60 (sa_prefix limited_account) 5 120 policies_loaded).2.
Definition all_counted : World := (window_script 60 "rl:global" 100 120 account_counted).2.

Definition read_once : PolicyBook := mkPolicyBook [] [(clock nonce_taken, db nonce_taken)] [].
Definition loaded_once : PolicyBook :=
  mkPolicyBook [mkLoad limited_account limited_merge 120000]
    [(clock nonce_taken, db nonce_taken); (clock nonce_taken, db nonce_taken)] [].
(** A state of that run. *)
Definition day (w : World) (F : gmap nat Flight) (P : PolicyBook) : Gateway :=
  mkGateway w F (mkKeyBook [] [] []) P (mkBook [] []) (mkBook [] [])
    [mkAccepted "7" "nonce-0123456789" (clock nonce_taken)].
Definition flying (p : Phase) : gmap nat Flight := {[0%nat := mkFlight limited_account limited_merge p]}.

Lemma timely_on s s' :
  gstep hundred_a_minute 1000 300 s s' → slots limited_account (pipeline_view s) = O →
  timely_gstep hundred_a_minute 1000 300 limited_account s s'.
Proof. intros Hs Ho. split; [done|by left]. Qed.

Lemma flying_on w w' p q :
  advance hundred_a_minute limited_account limited_merge w p w' q →
  slots limited_account (mkPipeline w (flying p)) = O →
  timely_gstep hundred_a_minute 1000 300 limited_account
    (day w (flying p) loaded_once) (day w' (flying q) loaded_once).
Proof.
  intros Ha Hs. apply timely_on; [|done]. apply gw_flight. unfold flying. rewrite <-(insert_singleton_eq 0%nat
    (mkFlight limited_account limited_merge q) (mkFlight limited_account limited_merge p)).
  eapply fly_advance; [apply lookup_singleton_eq|done].
Qed.

Lemma account_level : advance hundred_a_minute limited_account limited_merge policies_loaded
  (AccountTimed 120000) account_counted (Counted (Some 2)).
Proof.
  set (m := window_script 60 (sa_prefix limited_account) 5 120).
  assert (passes (m policies_loaded).1 = true) as Hp by by vm_compute.
  pose proof (ad_account hundred_a_minute limited_account limited_merge policies_loaded 120000 5
    _ _ eq_refl (surjective_pairing (m policies_loaded)) ltac:(by vm_compute)) as Ha.
  by rewrite Hp in Ha.
Qed.
Lemma global_level : advance hundred_a_minute limited_account limited_merge account_counted
  (GlobalTimed (Some 2) 120000) all_counted (Granted (Some 2) 2).
Proof.
  set (m := window_script 60 "rl:global" 100 120).
  assert (passes (m account_counted).1 = true) as Hp by by vm_compute.
  pose proof (ad_global hundred_a_minute limited_account limited_merge (Some 2) account_counted 120000
    _ _ (surjective_pairing (m account_counted)) ltac:(by vm_compute)) as Ha.
  by rewrite Hp in Ha.
Qed.

Lemma day_run :
  nsteps (timely_gstep hundred_a_minute 1000 300 limited_account) 8 (opening dawn)
    (day all_counted (flying (Granted (Some 2) 2)) loaded_once).
Proof.
  assert ((check_nonce "7" "nonce-0123456789" 300 dawn).1 = Ok tt) as Hn by by vm_compute.
  assert ((load_policies sample_context nonce_taken).1 = Ok [limited_policy]) as Hl by by vm_compute.
  assert (merge_policies [limited_policy] = Ok limited_merge) as Hm by by vm_compute.
  assert (∀ w, slots limited_account (mkPipeline w ∅) = O) as Hidle by by intros w.
  eapply nsteps_l; [apply timely_on; [|by apply Hidle]; apply (gw_nonce _ _ _ "7" "nonce-0123456789" dawn (Ok tt)
    nonce_taken), (run_answer _ _ Hn)|].
  apply (nsteps_l _ _ _ (day nonce_taken ∅ read_once)).
  { apply timely_on; [|by apply Hidle]. eapply gw_policy; [apply rc_context|done]. }
  apply (nsteps_l _ _ _ (day policies_loaded ∅ loaded_once)).
  { apply timely_on; [|by apply Hidle]. eapply gw_policy; [|done].
    eapply (rc_load _ sample_context (db nonce_taken) (clock nonce_taken) nonce_taken [limited_policy]);
      [apply elem_of_cons; by left|done|by exists sample_account|exact (run_answer _ _ Hl)|exact Hm]. }
  apply (nsteps_l _ _ _ (day policies_loaded (flying Arrived) loaded_once)).
  { apply timely_on; [|by apply Hidle]. apply gw_flight.
    apply (fly_arrive _ _ 0%nat limited_account limited_merge); [apply lookup_empty|].
    right. eexists. split; [apply elem_of_cons; by left|done]. }
  eapply nsteps_l; [apply flying_on; [by eapply ad_account_time|done]|].
  replace (clock policies_loaded) with 120000 by by vm_compute.
  eapply nsteps_l; [apply (flying_on _ _ _ _ account_level); done|].
  eapply nsteps_l; [apply flying_on; [eapply ad_global_time|done]|].
  replace (clock account_counted) with 120000 by by vm_compute.
  eapply nsteps_l; [apply (flying_on _ _ _ _ global_level); done|constructor].
Qed.
(** Timely or not. *)
Lemma day_steps :
  nsteps (gstep hundred_a_minute 1000 300) 8 (opening dawn)
    (day all_counted (flying (Granted (Some 2) 2)) loaded_once).
Proof. eapply (nsteps_congruence id); [|exact day_run]. by intros x y [? _]. Qed.

(** The request's permit. *)
Definition slot_taken : World := (acquire limited_account 2 all_counted).2.
Lemma slot_level : advance hundred_a_minute limited_account limited_merge all_counted
  (Granted (Some 2) 2) slot_taken (Running (Some 2) 2 true).
Proof.
  assert (is_ok (acquire limited_account 2 all_counted).1 = true) as Hok by by vm_compute.
  pose proof (ad_acquire hundred_a_minute limited_account limited_merge (Some 2) 2 all_counted 2
    _ _ eq_refl (surjective_pairing (acquire limited_account 2 all_counted))) as Ha.
  by rewrite Hok in Ha.
Qed.
Lemma handler_run :
  rtc (timely_gstep hundred_a_minute 1000 300 limited_account) (opening dawn)
    (day slot_taken (flying (Running (Some 2) 2 true)) loaded_once).
Proof. eapply rtc_r; [eapply rtc_nsteps_2, day_run|]. by apply (flying_on _ _ _ _ slot_level). Qed.

Lemma limited_policy_i32 : policy_i32 limited_policy.
Proof.
  intros l Hl v ->. cbn in Hl. unfold in_i32, I32_MIN, I32_MAX.
  repeat (apply elem_of_cons in Hl as [Hv|Hl]; [simplify_eq; lia|]). by apply elem_of_nil in Hl.
Qed.
Lemma limited_capped t d : (t, d) ∈ pb_reads loaded_once →
  capped policy_rpm_limit limited_account 5 d ∧ capped policy_concurrency_limit limited_account 2 d.
Proof.
  intros Hin. assert (d = limited_db) as ->.
  { assert (db nonce_taken = limited_db) as Hdb by by vm_compute.
    cbn [pb_reads loaded_once] in Hin. rewrite Hdb in Hin.
    by repeat (apply elem_of_cons in Hin as [[= _ ->]|Hin]; [done|]); apply elem_of_nil in Hin. }
  assert (PolicyRepo.select_bound limited_account limited_db = [limited_policy]) as Hbound by by vm_compute.
  assert (∀ id p, policies limited_db !! id = Some p → policy_i32 p) as Hi32.
  { intros id p Hp. unfold limited_db in Hp. cbn [policies] in Hp.
    apply lookup_singleton_Some in Hp as [_ <-]. exact limited_policy_i32. }
  split; (split; [exact Hi32|]); exists limited_policy; rewrite Hbound; eexists;
    (split; [apply elem_of_cons; by left|done]).
Qed.

Lemma dawn_clean key : limiter_key key = true → peek (clock dawn) (redis dawn) key = None.
Proof. done. Qed.

Lemma gateway_enforces_policies_witness :
  let F := flying (Granted (Some 2) 2) in
  tally (granted_to limited_account 2) F = 1 ∧ tally (global_net 2) F = 1 ∧
  (tally (granted_to limited_account 2) F ≤ 5 + tally (taken_back limited_account 2) F ∧
   tally (global_net 2) F ≤ 100).
Proof.
  intros F. split; [by vm_compute|]. split; [by vm_compute|].
  destruct (gateway_enforces_policies hundred_a_minute 1000 300 limited_account 5 2 8 dawn
    (day all_counted F loaded_once)) as (_ & Ha & Hg & _).
  - cbn. unfold U32_MAX. lia.
  - cbn. unfold U32_MAX. lia.
  - unfold U32_MAX. lia.
  - lia.
  - cbn. lia.
  - intros a. apply lookup_empty.
  - exact dawn_clean.
  - exact day_steps.
  - lia.
  - intros t d Hin. exact (proj1 (limited_capped t d Hin)).
  - exact (conj Ha Hg).
Defined.

Lemma gateway_slots_bounded_witness :
  let F := flying (Running (Some 2) 2 true) in
  tally (in_handler limited_account) F = 1 ∧
  (rtc (cstep limited_account 2) (dawn, O) (slot_taken, slots limited_account (mkPipeline slot_taken F)) ∧
   tally (in_handler limited_account) F ≤ 2).
Proof.
  intros F. split; [by vm_compute|].
  apply (gateway_slots_bounded hundred_a_minute 1000 300 limited_account 2 dawn (day slot_taken F loaded_once)).
  - cbn. unfold U32_MAX. lia.
  - lia.
  - unfold U32_MAX. lia.
  - intros a. apply lookup_empty.
  - done.
  - exact handler_run.
  - intros t d Hin. exact (proj2 (limited_capped t d Hin)).
Defined.

Lemma gateway_projects_witness :
  let s := day all_counted (flying (Granted (Some 2) 2)) loaded_once in
  nsteps (pstep hundred_a_minute (issued (pb_reads loaded_once))) 8 (mkPipeline dawn ∅) (pipeline_view s) ∧
  rtc (nonce_step 300) (mkNonces _ dawn []) (nonce_view s).
Proof.
  intros s.
  destruct (gateway_projects hundred_a_minute 1000 300 8 dawn s) as (Hf & _ & _ & _ & _ & Hn).
  - cbn. unfold U32_MAX. lia.
  - lia.
  - intros sa. apply lookup_empty.
  - exact day_steps.
  - exact (conj Hf Hn).
Defined.
End runs.
