(* ===== verification/Startup.v ===== *)
(** * Start-up and the storage clients
      (src/gateway/crates/gateway/src/main.rs, storage/postgres.rs, storage/redis.rs)

    [main] up to the call of the server: the configuration, the two pools, the caches and
    the application state it assembles, or the error the process stops with; the health
    checks of the pools; the commands of [RedisClient] the other components do not use. *)

From stdpp Require Import options.
From S2P Require Import Prelude Rust Types Errors Json Models PolicyMerge Backends Db World.
From S2P Require Import Repositories RateLimit Signing AppState KeyStore Auth.
From S2P Require Import Router PolicyEngine AdminAuth Server HttpProps Config.
#[local] Set Default Proof Using "Type*".

(** ** Pools *)

Record PgPoolOptions : Type := mkPgPoolOptions {
  po_max_connections : Z;
  po_min_connections : Z;
  po_acquire_timeout_secs : Z;
  po_idle_timeout_secs : Z;
  po_max_lifetime_secs : Z
}.

(** What [sqlx] and [deadpool] make of the options: a connection or its error; a builder
    for the URL or its error; a pool of the size or its error. *)
Class PoolLib : Type := {
  pg_connect : PgPoolOptions → string → result SqlxError unit;
  redis_builder : string → result string unit;
  redis_build : string → Z → result string unit
}.

Inductive StartError : Type :=
  | StartConfig (e : ConfigError)
  | StartStorage (e : StorageError).

Section startup.
Context `{!Backends, !PoolLib}.
Implicit Types (w : World).

(** [create_pg_pool]: [connect] opens a connection before it returns. *)
Definition pg_options (config : DatabaseConfig) : PgPoolOptions :=
  mkPgPoolOptions (dc_pool_size config) (dc_pool_size config / 4) 5 300 1800.
Definition create_pg_pool (config : DatabaseConfig) : IO World StorageError unit :=
  query (λ _ d, (pg_connect (pg_options config) (expose (dc_url config)), d)).

Definition create_redis_pool_from_url (url : string) (pool_size : Z) : result StorageError unit :=
  _ ← map_err SRedis (redis_builder url);
  map_err SRedis (redis_build url pool_size).
Definition create_redis_pool (config : RedisConfig) : result StorageError unit :=
  create_redis_pool_from_url (expose (rc_url config)) (rc_pool_size config).

(** The caches of the process, empty, with their times to live. *)
Definition fresh_caches (config : GatewayConfig) w : World :=
  mkWorld _ (clock w) (script w) (uuids w) (redis w) (db w)
    key_store_new (policy_cache_new (pc_cache_ttl_secs (gc_policy config)))
    (route_cache_new (roc_cache_ttl_secs (gc_routing config)))
    (moka_new (au_admin_key_cache_ttl_secs (gc_auth config))).

(** The [AppState] literal of [main]. *)
Definition app_state (config : GatewayConfig) : AppState :=
  mkAppState (au_timestamp_skew_secs (gc_auth config)) true true (Some true) true true
    (Some (evaluator_new (gc_rate_limit config))) true true.

(** [main], up to the bind of the listener. *)
Definition start (source : ConfigSource) : IO World StartError AppState :=
  config ← lift (map_err StartConfig (load_from source));
  _ ← io_map_err StartStorage (create_pg_pool (gc_database config));
  _ ← lift (map_err StartStorage (create_redis_pool (gc_redis config)));
  _ ← io_modify (fresh_caches config);
  mret (app_state config).

(** ** Health checks of the pools *)

(** [SELECT 1] *)
Definition pg_health_check : IO World StorageError unit := query (λ _ d, (Ok tt, d)).
(** [PING] *)
Definition redis_health_check : IO World StorageError unit := redis_call (λ _ st, (tt, st)).

(** ** The commands of [RedisClient] *)

Definition redis_set (key value : string) : IO World StorageError unit :=
  redis_call (λ t st, (tt, cmd_set t key value st)).
Definition not_an_integer : StorageError :=
  SRedis "ERR value is not an integer or out of range".
Definition redis_incr (key : string) : IO World StorageError Z :=
  n ← redis_call (λ t, cmd_incrby t key 1);
  lift (ok_or not_an_integer n).
(** [DECRBY key 1] *)
Definition redis_decr (key : string) : IO World StorageError Z :=
  n ← redis_call (λ t, cmd_incrby t key (-1));
  lift (ok_or not_an_integer n).
Definition redis_exists (key : string) : IO World StorageError bool :=
  redis_call (λ t st, (cmd_exists t key st, st)).
End startup.

(** ** Counters *)

Section counters.
Context `{!Backends, !BackendsLaws}.
Implicit Types (w : World).

Lemma incrby_call d key w n w' v :
  (n ← redis_call (λ t, cmd_incrby t key d); lift (ok_or not_an_integer n)) w = (Ok n, w') →
  peek (clock w) (redis w) key = Some (v, None) →
  ∃ old, parse_i64 v = Ok old ∧ n = old + d ∧ in_i64 n ∧
    peek (clock w') (redis w') key = Some (pretty n, None).
Proof.
  intros (o & w1 & (Hc & Ho & Hr & _)%redis_call_ok & [Hok%ok_or_ok <-]%lift_eq)%io_bind_ok Hv.
  rewrite Ho, incrby_result, (peek_later (clock w)), Hv in Hok by done.
  rewrite Hr, peek_incrby, decide_True, (peek_later (clock w)), Hv by done.
  cbn in *. destruct (parse_i64 v) as [old|] eqn:Hp; [|done]. exists old.
  destruct ((I64_MIN <=? old + d) && (old + d <=? I64_MAX)) eqn:Hrange; [|done].
  injection Hok as <-. apply andb_true_iff in Hrange as [Hlo%Z.leb_le Hhi%Z.leb_le].
  done.
Qed.

(** An increment and a decrement of a counter without expiry cancel, whatever time passes
    between them. *)
Lemma incr_decr_cancel key w n w1 m w2 v :
  peek (clock w) (redis w) key = Some (v, None) →
  redis_incr key w = (Ok n, w1) → redis_decr key w1 = (Ok m, w2) →
  parse_i64 v = Ok m ∧ peek (clock w2) (redis w2) key = Some (pretty m, None).
Proof.
  intros Hv Hi Hd.
  destruct (incrby_call 1 _ _ _ _ _ Hi Hv) as (old & Hold & -> & Hr & Hp).
  destruct (incrby_call (-1) _ _ _ _ _ Hd Hp) as (old' & Hold' & -> & _ & Hp').
  rewrite parse_i64_pretty in Hold' by done. injection Hold' as <-.
  replace (old + 1 + -1) with old in * by lia. done.
Qed.
End counters.

(** ** What a started process has *)

Definition no_config_error (e : GatewayError) : Prop :=
  match e with EConfig _ _ => False | _ => True end.

Section started.
Context `{!Backends, !UuidLib, !KeyCodec, !Crypto, !Bcrypt, !JoinOrder}.

Lemma authenticate_started config req :
  fails_with no_config_error (authenticate (app_state config) req).
Proof.
  unfold authenticate.
  change (require_key_store (app_state config)) with (Ok true : result GatewayError bool).
  change (require_db (app_state config)) with (Ok tt : result GatewayError unit).
  change (require_redis (app_state config)) with (Ok tt : result GatewayError unit).
  unfold extract_auth_headers, extract_header, verify_body_hash, validate_timestamp,
    now_secs, validate_timestamp_at, validate_nonce_length, verify_key, verify_service_account,
    parse_public_key, verify_signature, check_nonce, denied.
  solve_errors ltac:(exact I).
Qed.
Lemma admin_authenticate_started config authorization :
  fails_with no_config_error (admin_authenticate (app_state config) authorization).
Proof.
  unfold admin_authenticate.
  change (require_db (app_state config)) with (Ok tt : result GatewayError unit).
  unfold extract_bearer_token, role_from_db_str, load_admin_keys, load_failed. cbn [has_admin_key_cache app_state].
  solve_errors ltac:(exact I).
  - intros w e w'. unfold admin_cache_get. by destruct (moka_get _ _ _).
  - case_match; solve_errors ltac:(exact I). by intros w e w'.
  - apply fails_with_lift. intros e He. pose proof (pick_key_spec a1 a) as Hs. rewrite He in Hs.
    by destruct Hs as [[-> _]|[-> _]].
Qed.
End started.

Section properties.
Context `{!Backends, !BackendsLaws, !UuidLib, !KeyCodec, !Crypto, !Bcrypt, !JoinOrder, !PoolLib}.
Implicit Types (w : World).

(** Every backend is there, set up as the configuration says. *)
Record complete (config : GatewayConfig) (state : AppState) : Prop := mkComplete {
  co_db : require_db state = Ok tt;
  co_redis : require_redis state = Ok tt;
  co_keys : require_key_store state = Ok true;
  co_policies : require_policy_cache state = Ok tt;
  co_rates : require_rate_limit_evaluator state = Ok (evaluator_new (gc_rate_limit config));
  co_slots : require_concurrency_limiter state = Ok tt;
  co_routes : require_route_cache state = Ok tt;
  co_admins : has_admin_key_cache state = true;
  co_skew : timestamp_skew_secs state = au_timestamp_skew_secs (gc_auth config);
  co_auth req : fails_with no_config_error (authenticate state req);
  co_admin_auth authorization : fails_with no_config_error (admin_authenticate state authorization)
}.
(** The caches are empty and expire as the configuration says. *)
Record fresh (config : GatewayConfig) w : Prop := mkFresh {
  fr_keys k : latest (key_l1 w) k = None;
  fr_policies k : latest (policy_l1 w) k = None;
  fr_routes k : latest (route_l1 w) k = None;
  fr_admins k : latest (admin_l1 w) k = None;
  fr_policy_ttl : time_to_live (policy_l1 w) = pc_cache_ttl_secs (gc_policy config);
  fr_route_ttl : time_to_live (route_l1 w) = roc_cache_ttl_secs (gc_routing config);
  fr_admin_ttl : time_to_live (admin_l1 w) = au_admin_key_cache_ttl_secs (gc_auth config)
}.

Lemma app_state_complete config : complete config (app_state config).
Proof.
  split; try reflexivity; [apply authenticate_started|apply admin_authenticate_started].
Qed.
Lemma fresh_caches_fresh config w : fresh config (fresh_caches config w).
Proof.
  split; cbn; intros; unfold key_store_new, policy_cache_new, route_cache_new;
    rewrite ?ttl_new; auto; apply latest_new.
Qed.

Lemma create_pg_pool_frame config w r w' :
  create_pg_pool config w = (r, w') →
  db w' = db w ∧ redis w' = redis w ∧ ∀ msg, r ≠ Err (SRedis msg).
Proof.
  unfold create_pg_pool, query. 
  set (q := λ (_ : Z) (_ : Db), pg_connect (pg_options config) (expose (dc_url config))).
  pose proof (db_call_select q w) as Hd. pose proof (db_call_redis (λ t d, (q t d, d)) w) as Hr.
  unfold io_map_err. change (λ (_ : Z) d, (pg_connect (pg_options config) (expose (dc_url config)), d))
    with (λ t d, (q t d, d)).
  destruct (db_call _ w) as [[[]|e] w1]; intros [= <- <-]; cbn in *; split_and!; try done.
  intros msg [= Hs]. unfold storage_from_sqlx in Hs. repeat case_match; done.
Qed.
Lemma create_redis_pool_err config e : create_redis_pool config = Err e → ∃ m, e = SRedis m.
Proof.
  unfold create_redis_pool, create_redis_pool_from_url.
  intros [(m & _ & ->)%map_err_err|(? & _ & (m & _ & ->)%map_err_err)]%result_bind_err; eauto.
Qed.

(** The state of the process in terms of the environment it was started in. *)
Lemma start_ok source w state w' :
  start source w = (Ok state, w') →
  ∃ config, load_from source = Ok config ∧
    pg_connect (pg_options (gc_database config)) (expose (dc_url (gc_database config))) = Ok tt ∧
    create_redis_pool (gc_redis config) = Ok tt ∧
    state = app_state config ∧ fresh config w' ∧ db w' = db w ∧ redis w' = redis w.
Proof.
  unfold start, create_pg_pool, query.
  intros (config & w1 & [Hc%map_err_ok <-]%lift_eq & ([] & w2 & Hpg & ([] & w3
    & [Hr%map_err_ok <-]%lift_eq & ([] & w4 & [= <-] & [= <- <-])%io_bind_ok)%io_bind_ok)
    %io_bind_ok)%io_bind_ok.
  apply io_map_err_ok, io_map_err_ok, db_call_ok in Hpg as (_ & [= Hpg Hd] & Hrd & _).
  exists config. split_and!; try done. apply fresh_caches_fresh.
Qed.

End properties.

(** ** Concrete runs *)

Section runs.
#[local] Existing Instances mem_backends decimal_uuid sample_codec toy_crypto toy_bcrypt last_first.

(** Pools that accept any URL with a scheme. *)
Definition scheme_pools : PoolLib := {|
  pg_connect opts url :=
    if starts_with url "postgres://" then Ok tt else Err (SqlxOther "invalid URL");
  redis_builder url := if starts_with url "redis://" then Ok tt else Err "invalid URL";
  redis_build url n := Ok tt
|}.
#[local] Existing Instance scheme_pools.

End runs.
