(* ===== verification/Conformance.v ===== *)
(** * Running the repository's unit tests on the model

    The unit tests of the gateway ([#[cfg(test)]] in its source files) are programs over the
    code that the development models. The files ConfPolicy.v, ConfRouting.v, ConfAuth.v,
    ConfCore.v, ConfAdmin.v and ConfStorage.v restate them over the model, a Module per
    source file and a [bool] per test, and run them in the kernel: a definition that
    strayed from the source would fail one. This file holds the assertions. *)

From Stdlib Require Import Ascii.
From stdpp Require Import options.
From S2P Require Import Prelude Rust Types Errors.

(** ** Assertions *)

(** [assert_eq!] *)
Definition assert_eq {A} `{!EqDecision A} (a b : A) : bool := bool_decide (a = b).
(** The assertions of a test, in order. *)
Definition all (asserts : list bool) : bool := forallb id asserts.

(** [result.unwrap()], [unwrap_err()], [option.unwrap()]: a panic fails the test. *)
Definition unwrap {E A} (r : result E A) (k : A → bool) : bool :=
  match r with Ok a => k a | Err _ => false end.
Definition unwrap_err {E A} (r : result E A) (k : E → bool) : bool :=
  match r with Err e => k e | Ok _ => false end.
Definition expect {A} (o : option A) (k : A → bool) : bool :=
  match o with Some a => k a | None => false end.
Definition is_some {A} (o : option A) : bool := match o with Some _ => true | None => false end.
Definition is_none {A} (o : option A) : bool := negb (is_some o).
Definition is_err {E A} (r : result E A) : bool := negb (is_ok r).

(** [str::contains] with a string pattern *)
Fixpoint contains (s sub : string) : bool :=
  starts_with s sub || match s with EmptyString => false | String _ s => contains s sub end.

(** [match err { GatewayError::Policy { code, .. } => assert_eq!(code, ..), .. }] and its
    like for the other variants *)
Definition policy_code (code : string) (e : GatewayError) : bool :=
  match e with EPolicy c _ => assert_eq c code | _ => false end.
Definition auth_code (code : string) (e : GatewayError) : bool :=
  match e with EAuth c _ => assert_eq c code | _ => false end.
Definition routing_code (code : string) (e : GatewayError) : bool :=
  match e with ERouting c _ => assert_eq c code | _ => false end.
Definition config_code (code : string) (e : GatewayError) : bool :=
  match e with EConfig c _ => assert_eq c code | _ => false end.

(** The names of the tests that fail. *)
Definition failed (suite : list (string * bool)) : list string :=
  (filter (λ t, t.2 = false) suite).*1.

(** ** Worlds to run in *)

(** The hyphenated form of the [uuid] crate. *)
Definition hex_digit (n : Z) : ascii :=
  ascii_of_N (Z.to_N (if n <? 10 then 48 + n else 87 + n)).
Fixpoint hyphenated_from (digits : nat) (u : Z) : string :=
  match digits with
  | O => EmptyString
  | S i =>
    let rest := String (hex_digit (Z.land (Z.shiftr u (4 * Z.of_nat i)) 15)) (hyphenated_from i u) in
    if bool_decide (digits = 24%nat ∨ digits = 20%nat ∨ digits = 16%nat ∨ digits = 12%nat)
    then String "-" rest else rest
  end.
Definition hyphenated : UuidLib := {| uuid_to_string := hyphenated_from 32 |}.

(** Every step of an [async] test, in order; an error fails it. *)
Definition test_run {W E} (test : IO W E bool) (w : W) : bool := unwrap (test w).1 id.
