(* ===== verification/TestCrypto.v ===== *)
(** * SHA-256 and base64, for the unit tests of the signing modules

    A concrete instance of [Crypto]: the digest of FIPS 180-4 and the standard base64
    alphabet as the crates [sha2] and [base64] compute them, and in place of Ed25519 a
    keyed digest, enough to tell a signature of a message from one that is not. *)

From Stdlib Require Import Ascii.
From stdpp Require Import options.
From S2P Require Import Prelude Rust Errors Signing.

Definition of_bytes (bs : list Z) : string :=
  foldr (λ b s, String (ascii_of_N (Z.to_N b)) s) "" bs.

(** ** SHA-256 *)

Definition w32 (x : Z) : Z := Z.land x 4294967295.
Definition rotr (x n : Z) : Z := Z.lor (Z.shiftr x n) (w32 (Z.shiftl x (32 - n))).
Definition K256 : list Z :=
  [1116352408; 1899447441; 3049323471; 3921009573; 961987163; 1508970993; 2453635748; 2870763221;
   3624381080; 310598401; 607225278; 1426881987; 1925078388; 2162078206; 2614888103; 3248222580;
   3835390401; 4022224774; 264347078; 604807628; 770255983; 1249150122; 1555081692; 1996064986;
   2554220882; 2821834349; 2952996808; 3210313671; 3336571891; 3584528711; 113926993; 338241895;
   666307205; 773529912; 1294757372; 1396182291; 1695183700; 1986661051; 2177026350; 2456956037;
   2730485921; 2820302411; 3259730800; 3345764771; 3516065817; 3600352804; 4094571909; 275423344;
   430227734; 506948616; 659060556; 883997877; 958139571; 1322822218; 1537002063; 1747873779;
   1955562222; 2024104815; 2227730452; 2361852424; 2428436474; 2756734187; 3204031479; 3329325298].
Record Hash : Type := mkHash { h0 : Z; h1 : Z; h2 : Z; h3 : Z; h4 : Z; h5 : Z; h6 : Z; h7 : Z }.
Definition IV : Hash :=
  mkHash 1779033703 3144134277 1013904242 2773480762 1359893119 2600822924 528734635 1541459225.

(** The words of a block, the last one first. *)
Fixpoint schedule (n : nat) (ws : list Z) : list Z :=
  match n with
  | O => ws
  | S n =>
    let w i := nth i ws 0 in
    let s0 := Z.lxor (Z.lxor (rotr (w 14%nat) 7) (rotr (w 14%nat) 18)) (Z.shiftr (w 14%nat) 3) in
    let s1 := Z.lxor (Z.lxor (rotr (w 1%nat) 17) (rotr (w 1%nat) 19)) (Z.shiftr (w 1%nat) 10) in
    schedule n (w32 (w 15%nat + s0 + w 6%nat + s1) :: ws)
  end.
Definition round (h : Hash) (kw : Z * Z) : Hash :=
  let '(mkHash a b c d e f g i) := h in
  let S1 := Z.lxor (Z.lxor (rotr e 6) (rotr e 11)) (rotr e 25) in
  let ch := Z.lxor (Z.land e f) (Z.land (4294967295 - e) g) in
  let temp1 := i + S1 + ch + kw.1 + kw.2 in
  let S0 := Z.lxor (Z.lxor (rotr a 2) (rotr a 13)) (rotr a 22) in
  let maj := Z.lxor (Z.lxor (Z.land a b) (Z.land a c)) (Z.land b c) in
  mkHash (w32 (temp1 + S0 + maj)) a b c (w32 (d + temp1)) e f g.
Definition compress (h : Hash) (block : list Z) : Hash :=
  let ws := reverse (schedule 48 (reverse block)) in
  let '(mkHash a b c d e f g i) := foldl round h (zip K256 ws) in
  mkHash (w32 (h0 h + a)) (w32 (h1 h + b)) (w32 (h2 h + c)) (w32 (h3 h + d))
    (w32 (h4 h + e)) (w32 (h5 h + f)) (w32 (h6 h + g)) (w32 (h7 h + i)).

Definition be_bytes (n : nat) (x : Z) : list Z :=
  reverse ((λ i, Z.land (Z.shiftr x (8 * Z.of_nat i)) 255) <$> seq 0 n).
Fixpoint words (bs : list Z) : list Z :=
  match bs with
  | a :: b :: c :: d :: rest => a * 16777216 + b * 65536 + c * 256 + d :: words rest
  | _ => []
  end.
(** A one bit, zeros, and the length in bits. *)
Definition pad (bs : list Z) : list Z :=
  let zeros := Z.to_nat ((55 - Z.of_nat (length bs)) mod 64) in
  bs ++ 128 :: replicate zeros 0 ++ be_bytes 8 (8 * Z.of_nat (length bs)).
Fixpoint blocks (fuel : nat) (ws : list Z) : list (list Z) :=
  match fuel, ws with
  | O, _ | _, [] => []
  | S fuel, _ => take 16 ws :: blocks fuel (drop 16 ws)
  end.
Definition hash_bytes (h : Hash) : list Z :=
  be_bytes 4 (h0 h) ++ be_bytes 4 (h1 h) ++ be_bytes 4 (h2 h) ++ be_bytes 4 (h3 h) ++
  be_bytes 4 (h4 h) ++ be_bytes 4 (h5 h) ++ be_bytes 4 (h6 h) ++ be_bytes 4 (h7 h).
Definition digest (bs : list Z) : list Z :=
  let ws := words (pad bs) in hash_bytes (foldl compress IV (blocks (length ws) ws)).

(** ** base64 *)

Definition b64_value (c : ascii) : option Z :=
  let n := byte_of c in
  if is_ascii_uppercase c then Some (n - 65) else
  if is_ascii_lowercase c then Some (n - 71) else
  if is_ascii_digit c then Some (n + 4) else
  if Ascii.eqb c "+" then Some 62 else if Ascii.eqb c "/" then Some 63 else None.
Definition b64_char (n : Z) : ascii :=
  ascii_of_N (Z.to_N (if n <? 26 then n + 65 else if n <? 52 then n + 71 else
    if n <? 62 then n - 4 else if n =? 62 then 43 else 47)).

Fixpoint b64_encode (bs : list Z) : string :=
  match bs with
  | [] => ""
  | [a] => let n := a * 16 in
    String (b64_char (Z.shiftr n 6)) (String (b64_char (Z.land n 63)) "==")
  | [a; b] => let n := (a * 256 + b) * 4 in
    String (b64_char (Z.shiftr n 12)) (String (b64_char (Z.land (Z.shiftr n 6) 63))
      (String (b64_char (Z.land n 63)) "="))
  | a :: b :: c :: rest => let n := a * 65536 + b * 256 + c in
    String (b64_char (Z.shiftr n 18)) (String (b64_char (Z.land (Z.shiftr n 12) 63))
      (String (b64_char (Z.land (Z.shiftr n 6) 63)) (String (b64_char (Z.land n 63))
        (b64_encode rest))))
  end.
(** Groups of four; padding only at the end, its spare bits zero. *)
Fixpoint b64_bytes (s : string) : option (list Z) :=
  match s with
  | EmptyString => Some []
  | String a (String b (String c (String d rest))) =>
    x ← b64_value a; y ← b64_value b;
    if Ascii.eqb c "=" then
      if Ascii.eqb d "=" && String.eqb rest "" && (Z.land y 15 =? 0)
      then Some [Z.shiftr (x * 64 + y) 4] else None
    else
      z ← b64_value c;
      if Ascii.eqb d "=" then
        if String.eqb rest "" && (Z.land z 3 =? 0)
        then let n := x * 4096 + y * 64 + z in Some [Z.shiftr n 10; Z.land (Z.shiftr n 2) 255]
        else None
      else
        u ← b64_value d; tail ← b64_bytes rest;
        let n := x * 262144 + y * 4096 + z * 64 + u in
        Some (Z.shiftr n 16 :: Z.land (Z.shiftr n 8) 255 :: Z.land n 255 :: tail)
  | _ => None
  end.

(** ** The instance *)

(** The keyed digest: 64 bytes. *)
Definition keyed (key message : string) : string :=
  of_bytes (digest (as_bytes (key +:+ message)) ++ digest (as_bytes (message +:+ key))).

Definition test_crypto : Crypto := {|
  sha256 body := digest (as_bytes body);
  b64_decode s := ok_or "invalid base64" (of_bytes <$> b64_bytes s);
  VerifyingKey := string;
  Signature := string;
  key_from_bytes bs := if str_len bs =? 32 then Ok bs else Err "wrong length";
  key_as_bytes k := k;
  signature_from_slice bs := if str_len bs =? 64 then Ok bs else Err "signature error";
  ed25519_verify key message signature := String.eqb signature (keyed key message)
|}.

Lemma be_bytes_length n x : length (be_bytes n x) = n.
Proof. unfold be_bytes. by rewrite length_reverse, length_fmap, length_seq. Qed.
Lemma be_bytes_range n x : Forall (λ b, 0 ≤ b < 256) (be_bytes n x).
Proof.
  unfold be_bytes. apply Forall_reverse, Forall_fmap, Forall_true. intros i. cbn.
  change 255 with (Z.ones 8). rewrite Z.land_ones by lia. apply Z.mod_pos_bound. lia.
Qed.
Lemma test_crypto_laws : @CryptoLaws test_crypto.
Proof.
  split; intros body; cbn [sha256 test_crypto]; unfold digest, hash_bytes.
  - by rewrite !length_app, !be_bytes_length.
  - rewrite !Forall_app. split_and!; apply be_bytes_range.
Qed.
