(* ===== verification/ConfPolicy.v ===== *)
(** * The unit tests of the policy modules
      (src/gateway/crates/gateway/src/policy/)

    model_access.rs, features.rs, quotas.rs, headers.rs, rate_limit.rs, concurrency.rs,
    engine.rs. *)

From stdpp Require Import options.
From Stdlib Require Import SpecFloat.
From S2P Require Import Prelude Rust Types Errors Json Models PolicyChecks PolicyMerge.
From S2P Require Import Backends Db World Float64 RateLimit Concurrency PolicyEngine Conformance.
Import ModelAccess Features Quotas.

Module ModelAccessTests.
Definition glob_exact_match : bool := all
  [matches_glob "gpt-4" "gpt-4"; negb (matches_glob "gpt-4" "gpt-4-turbo")].
Definition glob_trailing_wildcard : bool := all
  [matches_glob "gpt-4*" "gpt-4"; matches_glob "gpt-4*" "gpt-4-turbo";
   matches_glob "gpt-4*" "gpt-4o"; negb (matches_glob "gpt-4*" "gpt-3.5-turbo")].
Definition glob_lone_wildcard_matches_everything : bool := all
  [matches_glob "*" "gpt-4"; matches_glob "*" "claude-3-sonnet"; matches_glob "*" ""].
Definition glob_empty_pattern_matches_only_empty : bool := all
  [matches_glob "" ""; negb (matches_glob "" "gpt-4")].
Definition empty_rules_allow_everything : bool :=
  let rules := ModelAccessRules_default in all
  [is_ok (check_model_access rules "gpt-4"); is_ok (check_model_access rules "claude-3-opus")].
Definition allowlist_permits_matching_model : bool :=
  let rules := mkModelAccessRules ["gpt-4*"; "claude-3-sonnet"] [] in all
  [is_ok (check_model_access rules "gpt-4"); is_ok (check_model_access rules "gpt-4-turbo");
   is_ok (check_model_access rules "claude-3-sonnet")].
Definition allowlist_denies_non_matching_model : bool :=
  let rules := mkModelAccessRules ["gpt-4*"] [] in
  unwrap_err (check_model_access rules "claude-3-opus") (λ err,
    contains (error_display err) "not allowed").
Definition denylist_blocks_matching_model : bool :=
  let rules := mkModelAccessRules [] ["gpt-4*"] in
  unwrap_err (check_model_access rules "gpt-4-turbo") (λ err,
    contains (error_display err) "denied").
Definition denylist_allows_non_matching_model : bool :=
  let rules := mkModelAccessRules [] ["gpt-4*"] in
  is_ok (check_model_access rules "claude-3-opus").
Definition deny_takes_precedence_over_allow : bool :=
  let rules := mkModelAccessRules ["gpt-4*"] ["gpt-4-turbo"] in all
  [is_ok (check_model_access rules "gpt-4");
   unwrap_err (check_model_access rules "gpt-4-turbo") (λ err,
     contains (error_display err) "denied")].
Definition deny_glob_overrides_allow_glob : bool :=
  let rules := mkModelAccessRules ["*"] ["gpt-4*"] in all
  [is_ok (check_model_access rules "claude-3-opus");
   is_err (check_model_access rules "gpt-4-turbo")].
Definition error_code_is_model_not_allowed : bool :=
  let rules := mkModelAccessRules ["gpt-4"] [] in
  unwrap_err (check_model_access rules "claude-3-opus") (policy_code "model_not_allowed").

Definition suite : list (string * bool) :=
  [("glob_exact_match", glob_exact_match); ("glob_trailing_wildcard", glob_trailing_wildcard);
   ("glob_lone_wildcard_matches_everything", glob_lone_wildcard_matches_everything);
   ("glob_empty_pattern_matches_only_empty", glob_empty_pattern_matches_only_empty);
   ("empty_rules_allow_everything", empty_rules_allow_everything);
   ("allowlist_permits_matching_model", allowlist_permits_matching_model);
   ("allowlist_denies_non_matching_model", allowlist_denies_non_matching_model);
   ("denylist_blocks_matching_model", denylist_blocks_matching_model);
   ("denylist_allows_non_matching_model", denylist_allows_non_matching_model);
   ("deny_takes_precedence_over_allow", deny_takes_precedence_over_allow);
   ("deny_glob_overrides_allow_glob", deny_glob_overrides_allow_glob);
   ("error_code_is_model_not_allowed", error_code_is_model_not_allowed)].
Lemma model_access_tests_pass : failed suite = [].
Proof. vm_compute. reflexivity. Qed.
End ModelAccessTests.

Module FeaturesTests.
Definition default_flags_allow_everything : bool :=
  is_ok (check_features FeatureFlags_default (mkRequestFeatures true true true)).
Definition no_features_always_passes : bool :=
  is_ok (check_features (mkFeatureFlags false false false) (mkRequestFeatures false false false)).
Definition streaming_denied : bool :=
  unwrap_err (check_features (mkFeatureFlags false true true) (mkRequestFeatures true false false))
    (policy_code "streaming_not_allowed").
Definition streaming_flag_false_but_not_streaming_passes : bool :=
  is_ok (check_features (mkFeatureFlags false true true) (mkRequestFeatures false false false)).
Definition tools_denied : bool :=
  unwrap_err (check_features (mkFeatureFlags true false true) (mkRequestFeatures false true false))
    (policy_code "tools_not_allowed").
Definition tools_flag_false_but_no_tools_passes : bool :=
  is_ok (check_features (mkFeatureFlags true false true) (mkRequestFeatures false false false)).
Definition files_denied : bool :=
  unwrap_err (check_features (mkFeatureFlags true true false) (mkRequestFeatures false false true))
    (policy_code "files_not_allowed").
Definition files_flag_false_but_no_files_passes : bool :=
  is_ok (check_features (mkFeatureFlags true true false) (mkRequestFeatures false false false)).
Definition first_violation_wins_streaming_before_tools : bool :=
  unwrap_err (check_features (mkFeatureFlags false false false) (mkRequestFeatures true true true))
    (policy_code "streaming_not_allowed").

Definition suite : list (string * bool) :=
  [("default_flags_allow_everything", default_flags_allow_everything);
   ("no_features_always_passes", no_features_always_passes);
   ("streaming_denied", streaming_denied);
   ("streaming_flag_false_but_not_streaming_passes", streaming_flag_false_but_not_streaming_passes);
   ("tools_denied", tools_denied);
   ("tools_flag_false_but_no_tools_passes", tools_flag_false_but_no_tools_passes);
   ("files_denied", files_denied);
   ("files_flag_false_but_no_files_passes", files_flag_false_but_no_files_passes);
   ("first_violation_wins_streaming_before_tools", first_violation_wins_streaming_before_tools)].
Lemma features_tests_pass : failed suite = [].
Proof. vm_compute. reflexivity. Qed.
End FeaturesTests.

Module QuotasTests.
Definition no_limits_passes_through : bool :=
  unwrap (check_token_limits TokenLimits_default (Some 1000) (Some 500)) (λ result, all
    [assert_eq (effective_max_output_tokens result) (Some 500);
     negb (output_tokens_clamped result)]).
Definition output_clamped_to_policy_limit : bool :=
  unwrap (check_token_limits (mkTokenLimits None (Some 100)) None (Some 500)) (λ result, all
    [assert_eq (effective_max_output_tokens result) (Some 100); output_tokens_clamped result]).
Definition output_within_limit_not_clamped : bool :=
  unwrap (check_token_limits (mkTokenLimits None (Some 500)) None (Some 100)) (λ result, all
    [assert_eq (effective_max_output_tokens result) (Some 100);
     negb (output_tokens_clamped result)]).
Definition output_equal_to_limit_not_clamped : bool :=
  unwrap (check_token_limits (mkTokenLimits None (Some 100)) None (Some 100)) (λ result, all
    [assert_eq (effective_max_output_tokens result) (Some 100);
     negb (output_tokens_clamped result)]).
Definition no_requested_output_gets_policy_limit : bool :=
  unwrap (check_token_limits (mkTokenLimits None (Some 200)) None None) (λ result, all
    [assert_eq (effective_max_output_tokens result) (Some 200);
     negb (output_tokens_clamped result)]).
Definition input_exceeds_limit_rejected : bool :=
  unwrap_err (check_token_limits (mkTokenLimits (Some 1000) None) (Some 1500) None) (λ err,
    match err with
    | EPolicy code message => all
      [assert_eq code "input_tokens_exceeded"; contains message "1500"; contains message "1000"]
    | _ => false
    end).
Definition input_within_limit_passes : bool :=
  unwrap (check_token_limits (mkTokenLimits (Some 1000) None) (Some 500) None) (λ result, all
    [assert_eq (effective_max_output_tokens result) None; negb (output_tokens_clamped result)]).
Definition input_equal_to_limit_passes : bool :=
  is_ok (check_token_limits (mkTokenLimits (Some 1000) None) (Some 1000) None).
Definition no_estimated_input_with_limit_passes : bool :=
  is_ok (check_token_limits (mkTokenLimits (Some 1000) None) None None).

Definition message (role content : string) : Value :=
  JObject [("role", JString role); ("content", JString content)].
Definition estimate_from_string_content : bool :=
  expect (estimate_input_tokens (JArray [message "user" "Hello, world!"])) (λ estimate,
    assert_eq estimate 3).
Definition estimate_from_multiple_messages : bool :=
  expect (estimate_input_tokens
    (JArray [message "system" "You are helpful."; message "user" "Tell me a joke."])) (λ estimate,
    assert_eq estimate 7).
Definition estimate_from_content_parts : bool :=
  expect (estimate_input_tokens (JArray [JObject [("role", JString "user"); ("content", JArray
      [JObject [("type", JString "text"); ("text", JString "What is in this image?")];
       JObject [("type", JString "image_url");
         ("image_url", JObject [("url", JString "https://example.com/img.png")])]])]]))
    (λ estimate, assert_eq estimate 5).
Definition estimate_minimum_is_one : bool :=
  expect (estimate_input_tokens (JArray [message "user" "Hi"])) (λ estimate, assert_eq estimate 1).
Definition estimate_returns_none_for_non_array : bool :=
  is_none (estimate_input_tokens (JString "not an array")).
Definition estimate_returns_none_for_empty_array : bool :=
  is_none (estimate_input_tokens (JArray [])).

Definition suite : list (string * bool) :=
  [("no_limits_passes_through", no_limits_passes_through);
   ("output_clamped_to_policy_limit", output_clamped_to_policy_limit);
   ("output_within_limit_not_clamped", output_within_limit_not_clamped);
   ("output_equal_to_limit_not_clamped", output_equal_to_limit_not_clamped);
   ("no_requested_output_gets_policy_limit", no_requested_output_gets_policy_limit);
   ("input_exceeds_limit_rejected", input_exceeds_limit_rejected);
   ("input_within_limit_passes", input_within_limit_passes);
   ("input_equal_to_limit_passes", input_equal_to_limit_passes);
   ("no_estimated_input_with_limit_passes", no_estimated_input_with_limit_passes);
   ("estimate_from_string_content", estimate_from_string_content);
   ("estimate_from_multiple_messages", estimate_from_multiple_messages);
   ("estimate_from_content_parts", estimate_from_content_parts);
   ("estimate_minimum_is_one", estimate_minimum_is_one);
   ("estimate_returns_none_for_non_array", estimate_returns_none_for_non_array);
   ("estimate_returns_none_for_empty_array", estimate_returns_none_for_empty_array)].
Lemma quotas_tests_pass : failed suite = [].
Proof. vm_compute. reflexivity. Qed.
End QuotasTests.

Module HeadersTests.
Definition make_response : Response := mkResponse 200 ∅ "".
Definition injects_all_rate_limit_headers : bool :=
  expect (inject_rate_limit_headers make_response (mkRateLimitOutcome 1000 999 1700000000))
    (λ response, all
      [assert_eq (resp_headers response !! "x-ratelimit-limit") (Some "1000");
       assert_eq (resp_headers response !! "x-ratelimit-remaining") (Some "999");
       assert_eq (resp_headers response !! "x-ratelimit-reset") (Some "1700000000")]).
Definition headers_with_zero_remaining : bool :=
  expect (inject_rate_limit_headers make_response (mkRateLimitOutcome 100 0 1700000060))
    (λ response, assert_eq (resp_headers response !! "x-ratelimit-remaining") (Some "0")).

Definition suite : list (string * bool) :=
  [("injects_all_rate_limit_headers", injects_all_rate_limit_headers);
   ("headers_with_zero_remaining", headers_with_zero_remaining)].
Lemma headers_tests_pass : failed suite = [].
Proof. vm_compute. reflexivity. Qed.
End HeadersTests.

Module RateLimitTests.
(** [(a - b).abs() < eps] *)
Definition close (a b eps : f64) : bool := SFltb (SFabs (f64_sub a b)) eps.
(** [f64::EPSILON] and [0.001] *)
Definition EPSILON : f64 := f64_div (f64_of_u64 1) (f64_of_u64 4503599627370496).
Definition thousandth : f64 := f64_div (f64_of_u64 1) (f64_of_u64 1000).

Definition weighted_count_start_of_window : bool :=
  close (weighted_count 1 10 0 60) (f64_of_u64 11) EPSILON.
Definition weighted_count_mid_window : bool :=
  close (weighted_count 5 10 30 60) (f64_of_u64 10) EPSILON.
Definition weighted_count_end_of_window : bool :=
  let expected := f64_add (f64_mul (f64_of_u64 10) (f64_div (f64_of_u64 1) (f64_of_u64 60)))
                    (f64_of_u64 5) in
  close (weighted_count 5 10 59 60) expected thousandth.
Definition weighted_count_no_previous : bool :=
  close (weighted_count 5 0 30 60) (f64_of_u64 5) EPSILON.
Definition weighted_count_zero_window_returns_current : bool :=
  close (weighted_count 5 10 0 0) (f64_of_u64 5) EPSILON.
Definition check_result_allowed_when_under_limit : bool :=
  let result := build_check_result 5 0 1000 60 100 in all
  [wc_allowed result; assert_eq (wc_limit result) 100; assert_eq (wc_remaining result) 95].
Definition check_result_rejected_when_over_limit : bool :=
  let result := build_check_result 101 0 1000 60 100 in all
  [negb (wc_allowed result); assert_eq (wc_remaining result) 0].
Definition check_result_reset_at_is_next_window_boundary : bool :=
  assert_eq (wc_reset_at (build_check_result 1 0 1000 60 100)) 1020.
Definition check_result_weighted_count_causes_rejection : bool :=
  let now := 60 * 100 + 10 in
  let result := build_check_result 20 90 now 60 100 in all
  [wc_allowed result; assert_eq (wc_remaining result) 5].
Definition most_restrictive_picks_lower_remaining : bool :=
  let result := most_restrictive (mkRateLimitOutcome 1000 500 2000)
                  (mkWindowCheckResult true 100 50 1500) in all
  [assert_eq (ro_limit result) 100; assert_eq (ro_remaining result) 50;
   assert_eq (ro_reset_at result) 1500].
Definition most_restrictive_keeps_current_when_less_restrictive : bool :=
  let result := most_restrictive (mkRateLimitOutcome 100 10 1500)
                  (mkWindowCheckResult true 1000 500 2000) in all
  [assert_eq (ro_limit result) 100; assert_eq (ro_remaining result) 10].

Definition suite : list (string * bool) :=
  [("weighted_count_start_of_window", weighted_count_start_of_window);
   ("weighted_count_mid_window", weighted_count_mid_window);
   ("weighted_count_end_of_window", weighted_count_end_of_window);
   ("weighted_count_no_previous", weighted_count_no_previous);
   ("weighted_count_zero_window_returns_current", weighted_count_zero_window_returns_current);
   ("check_result_allowed_when_under_limit", check_result_allowed_when_under_limit);
   ("check_result_rejected_when_over_limit", check_result_rejected_when_over_limit);
   ("check_result_reset_at_is_next_window_boundary", check_result_reset_at_is_next_window_boundary);
   ("check_result_weighted_count_causes_rejection", check_result_weighted_count_causes_rejection);
   ("most_restrictive_picks_lower_remaining", most_restrictive_picks_lower_remaining);
   ("most_restrictive_keeps_current_when_less_restrictive", most_restrictive_keeps_current_when_less_restrictive)].
Lemma rate_limit_tests_pass : failed suite = [].
Proof. vm_compute. reflexivity. Qed.
End RateLimitTests.

Module ConcurrencyTests.
#[local] Existing Instances mem_backends hyphenated.
(** The flag of a permit: the first release sets it, a second one makes no round trip. *)
Definition atomic_bool_prevents_double_release_in_drop : bool :=
  let permit := mkPermit "k" false in
  let w := mem_world 0 [] {["k" := ("2", None)]} empty_db in
  let '(r1, w1) := release_inner (E:=GatewayError) permit w in
  unwrap r1 (λ permit',
    let '(r2, w2) := release_inner (E:=GatewayError) permit' w1 in all
    [negb (released permit); released permit';
     unwrap r2 released; assert_eq (peek 0 (redis w2) "k") (peek 0 (redis w1) "k")]).
Definition concurrency_key_format : bool :=
  assert_eq (concurrency_key (from_uuid 0)) "concurrency:00000000-0000-0000-0000-000000000000".

Definition suite : list (string * bool) :=
  [("atomic_bool_prevents_double_release_in_drop", atomic_bool_prevents_double_release_in_drop);
   ("concurrency_key_format", concurrency_key_format)].
Lemma concurrency_tests_pass : failed suite = [].
Proof. vm_compute. reflexivity. Qed.
End ConcurrencyTests.

Module EngineTests.
#[local] Existing Instances mem_backends decimal_uuid sorted_hash_order.

(** [make_policy]: the fields its closure overrides, the rest as there. *)
Definition make_policy (allowed denied : Value) (max_input max_output : option Z)
    (streaming tools files : bool) (rpm concurrency : option Z) : Policy :=
  mkPolicy (from_uuid 1) (from_uuid 2) "test-policy" None allowed denied max_input max_output
    streaming tools files rpm concurrency 0 0.
Definition models (ms : list string) : Value := JArray (JString <$> ms).
Definition with_models (allowed denied : list string) : Policy :=
  make_policy (models allowed) (models denied) None None true true true None None.
Definition with_tokens (max_input max_output : option Z) : Policy :=
  make_policy (models []) (models []) max_input max_output true true true None None.
Definition with_rates (rpm concurrency : option Z) : Policy :=
  make_policy (models []) (models []) None None true true true rpm concurrency.

Definition merge_no_policies_returns_defaults : bool :=
  unwrap (merge_policies []) (λ result, all
    [assert_eq (allowed_models (model_access result)) [];
     assert_eq (denied_models (model_access result)) [];
     is_none (max_input_tokens (token_limits result));
     is_none (max_output_tokens (token_limits result));
     allow_streaming (feature_flags result); negb (allow_tools (feature_flags result));
     negb (allow_files (feature_flags result))]).
Definition merge_single_policy_passes_through : bool :=
  let p := make_policy (models ["gpt-4*"]) (models ["gpt-4-32k"]) (Some 1000) (Some 500)
             false true false None None in
  unwrap (merge_policies [p]) (λ result, all
    [assert_eq (allowed_models (model_access result)) ["gpt-4*"];
     assert_eq (denied_models (model_access result)) ["gpt-4-32k"];
     assert_eq (max_input_tokens (token_limits result)) (Some 1000);
     assert_eq (max_output_tokens (token_limits result)) (Some 500);
     negb (allow_streaming (feature_flags result)); allow_tools (feature_flags result);
     negb (allow_files (feature_flags result))]).
Definition merge_two_policies_most_restrictive : bool :=
  let p1 := make_policy (models ["gpt-4*"; "claude-3*"]) (models ["gpt-4-32k"])
              (Some 2000) (Some 1000) true true true None None in
  let p2 := make_policy (models ["gpt-4*"]) (models ["gpt-4-turbo"])
              (Some 1000) (Some 500) false true false None None in
  unwrap (merge_policies [p1; p2]) (λ result, all
    [assert_eq (allowed_models (model_access result)) ["gpt-4*"];
     bool_decide ("gpt-4-32k" ∈ denied_models (model_access result));
     bool_decide ("gpt-4-turbo" ∈ denied_models (model_access result));
     assert_eq (max_input_tokens (token_limits result)) (Some 1000);
     assert_eq (max_output_tokens (token_limits result)) (Some 500);
     negb (allow_streaming (feature_flags result)); allow_tools (feature_flags result);
     negb (allow_files (feature_flags result))]).
Definition merge_allowed_models_empty_means_no_constraint : bool :=
  let p1 := with_models ["gpt-4*"; "claude-3*"] [] in
  let p2 := with_models [] [] in
  unwrap (merge_policies [p1; p2]) (λ result,
    assert_eq (allowed_models (model_access result)) ["gpt-4*"; "claude-3*"]).
Definition merge_denied_models_union : bool :=
  let p1 := with_models [] ["gpt-4-32k"] in
  let p2 := with_models [] ["gpt-4-32k"; "claude-3-opus"] in
  unwrap (merge_policies [p1; p2]) (λ result, all
    [assert_eq (length (denied_models (model_access result))) 2%nat;
     bool_decide ("gpt-4-32k" ∈ denied_models (model_access result));
     bool_decide ("claude-3-opus" ∈ denied_models (model_access result))]).
Definition merge_token_limits_one_none : bool :=
  unwrap (merge_policies [with_tokens (Some 2000) None; with_tokens None (Some 500)]) (λ result, all
    [assert_eq (max_input_tokens (token_limits result)) (Some 2000);
     assert_eq (max_output_tokens (token_limits result)) (Some 500)]).
Definition merge_feature_flags_and_logic : bool :=
  let p1 := make_policy (models []) (models []) None None true false true None None in
  let p2 := make_policy (models []) (models []) None None true true false None None in
  unwrap (merge_policies [p1; p2]) (λ result, all
    [allow_streaming (feature_flags result); negb (allow_tools (feature_flags result));
     negb (allow_files (feature_flags result))]).

(** [PolicyCache::new(30)] in a process with nothing else. *)
Definition fresh : World := mem_world 0 [] ∅ empty_db.
Definition sa1 : ServiceAccountId := from_uuid 1.
Definition sa2 : ServiceAccountId := from_uuid 2.
Definition cache_new_creates_instance : bool :=
  test_run (got ← policy_cache_get sa1; mret (is_none got)) fresh.
Definition cache_insert_and_get : bool :=
  test_run (_ ← policy_cache_insert sa1 EvaluatedPolicy_default;
            cached ← policy_cache_get sa1; mret (is_some cached)) fresh.
Definition cache_invalidate_removes_entry : bool :=
  test_run (_ ← policy_cache_insert sa1 EvaluatedPolicy_default;
            before ← policy_cache_get sa1; _ ← invalidate_policy sa1;
            after ← policy_cache_get sa1; mret (is_some before && is_none after)) fresh.
Definition cache_invalidate_all_clears_everything : bool :=
  test_run (_ ← policy_cache_insert sa1 EvaluatedPolicy_default;
            _ ← policy_cache_insert sa2 EvaluatedPolicy_default; _ ← invalidate_all_policies;
            got1 ← policy_cache_get sa1; got2 ← policy_cache_get sa2;
            mret (is_none got1 && is_none got2)) fresh.
Definition merge_rpm_limit_most_restrictive : bool :=
  unwrap (merge_policies [with_rates (Some 1000) None; with_rates (Some 500) None]) (λ result,
    assert_eq (rpm_limit result) (Some 500)).
Definition merge_concurrency_limit_most_restrictive : bool :=
  unwrap (merge_policies [with_rates None (Some 10); with_rates None (Some 5)]) (λ result,
    assert_eq (concurrency_limit result) (Some 5)).
Definition merge_rpm_limit_none_means_no_constraint : bool :=
  unwrap (merge_policies [with_rates (Some 1000) None; with_rates None None]) (λ result,
    assert_eq (rpm_limit result) (Some 1000)).
Definition merge_all_none_rate_limits : bool :=
  unwrap (merge_policies [with_rates None None]) (λ result,
    is_none (rpm_limit result) && is_none (concurrency_limit result)).
Definition merge_rejects_zero_rpm_limit : bool :=
  unwrap_err (merge_policies [with_rates (Some 0) None]) (policy_code "policy_config_invalid").
Definition merge_rejects_negative_concurrency_limit : bool :=
  unwrap_err (merge_policies [with_rates None (Some (-1))]) (policy_code "policy_config_invalid").
Definition merge_rejects_negative_token_limits : bool :=
  unwrap_err (merge_policies [with_tokens (Some (-1)) None]) (policy_code "policy_config_invalid").
Definition merge_rejects_zero_token_limits : bool :=
  unwrap_err (merge_policies [with_tokens None (Some 0)]) (policy_code "policy_config_invalid").
Definition merge_rejects_malformed_allowed_models_json : bool :=
  unwrap_err (merge_policies
    [make_policy (JString "not-an-array") (models []) None None true true true None None])
    (policy_code "policy_config_invalid").
Definition merge_rejects_malformed_denied_models_json : bool :=
  unwrap_err (merge_policies [make_policy (models []) (JObject [("not", JString "an-array")])
    None None true true true None None]) (policy_code "policy_config_invalid").
Definition cache_invalidate_one_preserves_others : bool :=
  test_run (_ ← policy_cache_insert sa1 EvaluatedPolicy_default;
            _ ← policy_cache_insert sa2 EvaluatedPolicy_default; _ ← invalidate_policy sa1;
            got1 ← policy_cache_get sa1; got2 ← policy_cache_get sa2;
            mret (is_none got1 && is_some got2)) fresh.

Definition suite : list (string * bool) :=
  [("merge_no_policies_returns_defaults", merge_no_policies_returns_defaults);
   ("merge_single_policy_passes_through", merge_single_policy_passes_through);
   ("merge_two_policies_most_restrictive", merge_two_policies_most_restrictive);
   ("merge_allowed_models_empty_means_no_constraint", merge_allowed_models_empty_means_no_constraint);
   ("merge_denied_models_union", merge_denied_models_union);
   ("merge_token_limits_one_none", merge_token_limits_one_none);
   ("merge_feature_flags_and_logic", merge_feature_flags_and_logic);
   ("cache_new_creates_instance", cache_new_creates_instance);
   ("cache_insert_and_get", cache_insert_and_get);
   ("cache_invalidate_removes_entry", cache_invalidate_removes_entry);
   ("cache_invalidate_all_clears_everything", cache_invalidate_all_clears_everything);
   ("merge_rpm_limit_most_restrictive", merge_rpm_limit_most_restrictive);
   ("merge_concurrency_limit_most_restrictive", merge_concurrency_limit_most_restrictive);
   ("merge_rpm_limit_none_means_no_constraint", merge_rpm_limit_none_means_no_constraint);
   ("merge_all_none_rate_limits", merge_all_none_rate_limits);
   ("merge_rejects_zero_rpm_limit", merge_rejects_zero_rpm_limit);
   ("merge_rejects_negative_concurrency_limit", merge_rejects_negative_concurrency_limit);
   ("merge_rejects_negative_token_limits", merge_rejects_negative_token_limits);
   ("merge_rejects_zero_token_limits", merge_rejects_zero_token_limits);
   ("merge_rejects_malformed_allowed_models_json", merge_rejects_malformed_allowed_models_json);
   ("merge_rejects_malformed_denied_models_json", merge_rejects_malformed_denied_models_json);
   ("cache_invalidate_one_preserves_others", cache_invalidate_one_preserves_others)].
Lemma engine_tests_pass : failed suite = [].
Proof. vm_compute. reflexivity. Qed.
End EngineTests.
