(* ===== verification/ConfRouting.v ===== *)
(** * The unit tests of the routing modules
      (src/gateway/crates/gateway/src/routing/)

    router.rs, retry.rs, fallback.rs. The stampede test of the route cache is left out: it
    is about tasks of one process racing for one entry, which moka serialises. *)

From stdpp Require Import options.
From S2P Require Import Prelude Rust Types Errors Json Models PolicyMerge.
From S2P Require Import Backends Db World RateLimit Router Retry Conformance.

Module RouterTests.
#[local] Existing Instances mem_backends decimal_uuid.

Definition make_route (name : string) (priority timeout_ms max_retries retry_backoff_ms : Z)
    : ProviderRoute :=
  mkProviderRoute (from_uuid 1) None "test-model" Openai name priority true timeout_ms max_retries
    retry_backoff_ms (JObject []) 0 0.
Definition default_route : ProviderRoute := make_route "gpt-4" 100 30000 1 250.
Definition fresh : World := mem_world 0 [] ∅ empty_db.
Definition tenant_id : TenantId := from_uuid 9.

Definition cache_new_is_empty : bool :=
  test_run (got ← route_cache_get (cache_key tenant_id "gpt-4"); mret (is_none got)) fresh.
Definition cache_get_or_load_populates_on_miss : bool :=
  test_run (result ← get_or_load tenant_id "gpt-4" (mret [default_route]);
            again ← route_cache_get (cache_key tenant_id "gpt-4");
            mret (all [assert_eq (length result) 1%nat;
                       assert_eq (route_id <$> head result) (Some (route_id default_route));
                       is_some again])) fresh.
Definition cache_invalidate_all_clears_entries : bool :=
  test_run (_ ← get_or_load tenant_id "gpt-4" (mret []);
            _ ← get_or_load tenant_id "claude-3" (mret []); _ ← invalidate_all_routes;
            got1 ← route_cache_get (cache_key tenant_id "gpt-4");
            got2 ← route_cache_get (cache_key tenant_id "claude-3");
            mret (is_none got1 && is_none got2)) fresh.
Definition cache_propagates_loader_error : bool :=
  is_err (get_or_load tenant_id "gpt-4"
    (lift (Err (ERouting "db_error" "connection lost"))) fresh).1.

Definition execution_plan_from_routes : bool :=
  let routes := [make_route "fast" 10 30000 1 250; make_route "medium" 50 30000 1 250;
                 make_route "slow" 200 30000 1 250] in
  unwrap (build_plan "test-model" routes) (λ plan, all
    [assert_eq (plan_model_alias plan) "test-model";
     assert_eq (length (plan_attempts plan)) 3%nat;
     assert_eq ((route_provider_model_name ∘ ra_route) <$> plan_attempts plan)
       ["fast"; "medium"; "slow"]]).
Definition execution_plan_empty_routes_errors : bool :=
  unwrap_err (build_plan "test-model" []) (routing_code "no_healthy_route").
Definition execution_plan_maps_fields_correctly : bool :=
  unwrap (build_plan "test-model" [make_route "gpt-4" 100 15000 3 500]) (λ plan,
    expect (head (plan_attempts plan)) (λ attempt, all
      [assert_eq (ra_max_retries attempt) 3; assert_eq (ra_timeout attempt) 15000;
       assert_eq (ra_backoff_base attempt) 500;
       assert_eq (ra_backoff_cap attempt) DEFAULT_BACKOFF_CAP])).
Definition execution_plan_negative_retries_fails : bool :=
  unwrap_err (build_plan "test-model" [make_route "gpt-4" 100 30000 (-1) 250])
    (routing_code "invalid_route_config").
Definition execution_plan_negative_timeout_fails : bool :=
  is_err (build_plan "test-model" [make_route "gpt-4" 100 (-1) 1 250]).
Definition execution_plan_negative_backoff_fails : bool :=
  is_err (build_plan "test-model" [make_route "gpt-4" 100 30000 1 (-1)]).

Definition suite : list (string * bool) :=
  [("cache_new_is_empty", cache_new_is_empty);
   ("cache_get_or_load_populates_on_miss", cache_get_or_load_populates_on_miss);
   ("cache_invalidate_all_clears_entries", cache_invalidate_all_clears_entries);
   ("cache_propagates_loader_error", cache_propagates_loader_error);
   ("execution_plan_from_routes", execution_plan_from_routes);
   ("execution_plan_empty_routes_errors", execution_plan_empty_routes_errors);
   ("execution_plan_maps_fields_correctly", execution_plan_maps_fields_correctly);
   ("execution_plan_negative_retries_fails", execution_plan_negative_retries_fails);
   ("execution_plan_negative_timeout_fails", execution_plan_negative_timeout_fails);
   ("execution_plan_negative_backoff_fails", execution_plan_negative_backoff_fails)].
Lemma router_tests_pass : failed suite = [].
Proof. vm_compute. reflexivity. Qed.
End RouterTests.

(** A generator with a seed, for the jitter. *)
Definition lcg : Rng := {|
  RngState := Z;
  gen_range bound seed :=
    let next := (seed * 6364136223846793005 + 1442695040888963407) mod 18446744073709551616 in
    (Z.shiftr next 33 mod (bound + 1), next)
|}.

Module RetryTests.
#[local] Existing Instance lcg.

Definition make_attempt (max_retries : Z) : RouteAttempt :=
  mkRouteAttempt (mkProviderRoute (from_uuid 1) None "test-model" Openai "gpt-4" 100 true 30000
    max_retries 250 (JObject []) 0 0) max_retries 30000 250 10000.
Definition seeded_rng : RngState := 42.
(** [call_count] is the provider's state. *)
Definition start {T} : Exec T Z := mkExec 0 seeded_rng [].

Definition backoff_attempt_zero : bool := (compute_backoff 250 10000 0 seeded_rng).1 <=? 250.
Definition backoff_grows_exponentially : bool :=
  (foldl (λ '(ok, rng) attempt,
     let '(backoff, rng) := compute_backoff 250 10000 attempt rng in
     (ok && (backoff <=? 250 * Z.shiftl 1 attempt), rng)) (true, seeded_rng) [0; 1; 2]).1.
Definition backoff_is_not_always_zero : bool :=
  existsb (λ seed, 0 <? (compute_backoff 250 10000 2 (Z.of_nat seed)).1) (seq 0 20).
Definition backoff_respects_cap : bool := (compute_backoff 250 10000 30 seeded_rng).1 <=? 10000.
Definition backoff_zero_base_returns_zero : bool :=
  assert_eq (compute_backoff 0 10000 5 seeded_rng).1 0.
Definition backoff_zero_cap_returns_zero : bool :=
  assert_eq (compute_backoff 250 0 0 seeded_rng).1 0.

Definition retry_succeeds_on_first_attempt : bool :=
  let '(r, s) := retry_with_backoff (λ _ count, (Success "ok", count + 1)) (make_attempt 2) start in
  unwrap r (λ '(result, attempts_used), all
    [assert_eq result "ok"; assert_eq attempts_used 1; assert_eq (provider s) 1]).
Definition retry_succeeds_after_retryable_failure : bool :=
  let '(r, s) := retry_with_backoff (λ _ count,
    (if count =? 0 then Retryable (ERouting "timeout" "timed out") else Success "recovered",
     count + 1)) (make_attempt 2) start in
  unwrap r (λ '(result, attempts_used), all
    [assert_eq result "recovered"; assert_eq attempts_used 2; assert_eq (provider s) 2]).
Definition retry_stops_on_fatal_error : bool :=
  let '(r, s) := retry_with_backoff (T:=unit) (λ _ count,
    (Fatal (ERouting "bad_request" "400"), count + 1)) (make_attempt 3) start in
  unwrap_err r (λ '(_, attempts_used), all [assert_eq attempts_used 1; assert_eq (provider s) 1]).
Definition retry_exhausts_all_attempts : bool :=
  let '(r, s) := retry_with_backoff (T:=unit) (λ _ count,
    (Retryable (ERouting "server_error" "500"), count + 1)) (make_attempt 2) start in
  unwrap_err r (λ '(_, attempts_used), all [assert_eq attempts_used 3; assert_eq (provider s) 3]).
Definition retry_zero_retries_calls_once : bool :=
  let '(r, s) := retry_with_backoff (T:=unit) (λ _ count,
    (Retryable (ERouting "err" "fail"), count + 1)) (make_attempt 0) start in
  unwrap_err r (λ '(_, attempts_used), all [assert_eq attempts_used 1; assert_eq (provider s) 1]).

Definition suite : list (string * bool) :=
  [("backoff_attempt_zero", backoff_attempt_zero);
   ("backoff_grows_exponentially", backoff_grows_exponentially);
   ("backoff_is_not_always_zero", backoff_is_not_always_zero);
   ("backoff_respects_cap", backoff_respects_cap);
   ("backoff_zero_base_returns_zero", backoff_zero_base_returns_zero);
   ("backoff_zero_cap_returns_zero", backoff_zero_cap_returns_zero);
   ("retry_succeeds_on_first_attempt", retry_succeeds_on_first_attempt);
   ("retry_succeeds_after_retryable_failure", retry_succeeds_after_retryable_failure);
   ("retry_stops_on_fatal_error", retry_stops_on_fatal_error);
   ("retry_exhausts_all_attempts", retry_exhausts_all_attempts);
   ("retry_zero_retries_calls_once", retry_zero_retries_calls_once)].
Lemma retry_tests_pass : failed suite = [].
Proof. vm_compute. reflexivity. Qed.
End RetryTests.

Module FallbackTests.
#[local] Existing Instance lcg.

Definition make_attempt (provider_model : string) (max_retries : Z) : RouteAttempt :=
  mkRouteAttempt (mkProviderRoute (from_uuid 1) None "test-model" Openai provider_model 100 true
    30000 max_retries 1 (JObject []) 0 0) max_retries 30000 1 10.
Definition make_plan (attempts : list RouteAttempt) : ExecutionPlan :=
  mkExecutionPlan "test-model" attempts.
(** [call_count] is the provider's state. *)
Definition run {T} (plan : ExecutionPlan) (call : ProviderRoute → AttemptOutcome T)
    : result GatewayError RoutingOutcome * Z :=
  let '(r, s) := execute_with_fallback (λ route count, (call route, count + 1)) plan
                   (mkExec 0 42 []) in
  (r, provider s).
Definition model_of {T} (outcome : RoutingOutcome (T:=T)) : string :=
  route_provider_model_name (out_route outcome).

Definition fallback_succeeds_on_first_route : bool :=
  let plan := make_plan [make_attempt "primary" 1; make_attempt "secondary" 1] in
  unwrap (run plan (λ _, Success "ok")).1 (λ outcome, all
    [assert_eq (out_result outcome) "ok"; assert_eq (out_routes_tried outcome) 1;
     assert_eq (model_of outcome) "primary"]).
Definition fallback_to_second_route : bool :=
  let plan := make_plan [make_attempt "primary" 0; make_attempt "secondary" 0] in
  let '(r, count) := run plan (λ route,
    if String.eqb (route_provider_model_name route) "primary"
    then Retryable (ERouting "error" "fail") else Success "recovered") in
  unwrap r (λ outcome, all
    [assert_eq (out_result outcome) "recovered"; assert_eq (out_routes_tried outcome) 2;
     assert_eq (model_of outcome) "secondary"; assert_eq count 2]).
Definition fallback_all_routes_exhausted : bool :=
  let plan := make_plan [make_attempt "primary" 0; make_attempt "secondary" 0] in
  unwrap_err (run (T:=unit) plan (λ _, Retryable (ERouting "error" "fail"))).1 (λ err,
    routing_code "error" err || routing_code "all_routes_exhausted" err).
Definition fallback_fatal_error_skips_retries_tries_next_route : bool :=
  let plan := make_plan [make_attempt "primary" 3; make_attempt "secondary" 0] in
  let '(r, count) := run plan (λ route,
    if String.eqb (route_provider_model_name route) "primary"
    then Fatal (ERouting "bad_request" "400") else Success "ok") in
  unwrap r (λ outcome, all
    [assert_eq (out_result outcome) "ok"; assert_eq (out_routes_tried outcome) 2;
     assert_eq count 2; assert_eq (out_total_attempts outcome) 2]).
Definition fallback_fatal_total_attempts_counts_one_per_fatal : bool :=
  let plan := make_plan [make_attempt "primary" 3; make_attempt "fallback" 3;
                         make_attempt "secondary" 0] in
  let '(r, count) := run plan (λ route,
    if String.eqb (route_provider_model_name route) "secondary"
    then Success "ok" else Fatal (ERouting "bad_request" "400")) in
  unwrap r (λ outcome, all
    [assert_eq (out_result outcome) "ok"; assert_eq (out_routes_tried outcome) 3;
     assert_eq count 3; assert_eq (out_total_attempts outcome) 3]).
Definition fallback_counts_total_attempts_across_routes : bool :=
  let plan := make_plan [make_attempt "primary" 2; make_attempt "secondary" 0] in
  let '(r, count) := run plan (λ route,
    if String.eqb (route_provider_model_name route) "primary"
    then Retryable (ERouting "error" "fail") else Success "ok") in
  unwrap r (λ outcome, all
    [assert_eq (out_result outcome) "ok"; assert_eq (out_routes_tried outcome) 2;
     assert_eq (out_total_attempts outcome) 4]).
Definition fallback_empty_plan_errors : bool :=
  is_err (run (make_plan []) (λ _, Success tt)).1.

Definition suite : list (string * bool) :=
  [("fallback_succeeds_on_first_route", fallback_succeeds_on_first_route);
   ("fallback_to_second_route", fallback_to_second_route);
   ("fallback_all_routes_exhausted", fallback_all_routes_exhausted);
   ("fallback_fatal_error_skips_retries_tries_next_route", fallback_fatal_error_skips_retries_tries_next_route);
   ("fallback_fatal_total_attempts_counts_one_per_fatal", fallback_fatal_total_attempts_counts_one_per_fatal);
   ("fallback_counts_total_attempts_across_routes", fallback_counts_total_attempts_across_routes);
   ("fallback_empty_plan_errors", fallback_empty_plan_errors)].
Lemma fallback_tests_pass : failed suite = [].
Proof. vm_compute. reflexivity. Qed.
End FallbackTests.
