(* ===== verification/ConfAuth.v ===== *)
(** * The unit tests of the authentication modules
      (src/gateway/crates/gateway/src/auth/)

    nonce.rs, context.rs, verifier.rs, middleware.rs, key_store.rs, canonical.rs. Key pairs
    are those of TestCrypto.v: a verifying key is any 32 bytes, and signs. The test of the
    JSON form of a key is left out: it is about [serde_json]. *)

From Stdlib Require Import Ascii.
From stdpp Require Import options.
From S2P Require Import Prelude Rust Types Errors Json Models PolicyMerge Backends Db World.
From S2P Require Import RateLimit Signing KeyStore Auth TestCrypto Conformance.
#[local] Existing Instances mem_backends decimal_uuid sample_codec test_crypto.

(** [s.repeat(n)] *)
Fixpoint repeat_str (n : nat) (s : string) : string :=
  match n with O => "" | S n => s +:+ repeat_str n s end.
(** A string literal with its double quotes. *)
Fixpoint dq (s : string) : string :=
  match s with
  | EmptyString => ""
  | String c s => String (if Ascii.eqb c "'" then "034"%char else c) (dq s)
  end.

Module NonceTests.
(** [Utc::now().timestamp()] *)
Definition now : Z := 1700000000.
Definition fresh : World := mem_world (now * 1000) [] ∅ empty_db.
Definition stamp (offset skew : Z) : result GatewayError unit :=
  (validate_timestamp (pretty (now + offset)) skew fresh).1.

Definition valid_timestamp_within_window : bool := is_ok (stamp 0 300).
Definition timestamp_slightly_in_past : bool := is_ok (stamp (-100) 300).
Definition timestamp_slightly_in_future : bool := is_ok (stamp 100 300).
Definition timestamp_too_old : bool := is_err (stamp (-600) 300).
Definition timestamp_too_far_future : bool := is_err (stamp 600 300).
Definition timestamp_not_a_number : bool :=
  is_err (validate_timestamp "not-a-number" 300 fresh).1.
Definition timestamp_at_exact_boundary_is_ok : bool := is_ok (stamp (-300) 300).
Definition timestamp_one_past_boundary_is_rejected : bool := is_err (stamp (-301) 300).
Definition nonce_valid_length : bool := all
  [is_ok (validate_nonce_length "abcdef1234567890");
   is_ok (validate_nonce_length (repeat_str 64 "a"))].
Definition nonce_valid_length_middle : bool := is_ok (validate_nonce_length (repeat_str 32 "b")).
Definition nonce_too_short : bool := all
  [is_err (validate_nonce_length "short"); is_err (validate_nonce_length (repeat_str 15 "a"))].
Definition nonce_too_long : bool := is_err (validate_nonce_length (repeat_str 65 "a")).
Definition nonce_empty_is_rejected : bool := is_err (validate_nonce_length "").

Definition nonce : string := "test-nonce-7f".
Definition nonce_first_use_succeeds : bool := is_ok (check_nonce "sa-test" nonce 10 fresh).1.
Definition nonce_replay_rejected : bool :=
  test_run (_ ← check_nonce "sa-test" nonce 10;
            result ← io_try (check_nonce "sa-test" nonce 10); mret (is_err result)) fresh.
Definition nonce_different_service_accounts_are_independent : bool :=
  test_run (_ ← check_nonce "sa-alice" nonce 10;
            result ← io_try (check_nonce "sa-bob" nonce 10); mret (is_ok result)) fresh.

Definition suite : list (string * bool) :=
  [("valid_timestamp_within_window", valid_timestamp_within_window);
   ("timestamp_slightly_in_past", timestamp_slightly_in_past);
   ("timestamp_slightly_in_future", timestamp_slightly_in_future);
   ("timestamp_too_old", timestamp_too_old);
   ("timestamp_too_far_future", timestamp_too_far_future);
   ("timestamp_not_a_number", timestamp_not_a_number);
   ("timestamp_at_exact_boundary_is_ok", timestamp_at_exact_boundary_is_ok);
   ("timestamp_one_past_boundary_is_rejected", timestamp_one_past_boundary_is_rejected);
   ("nonce_valid_length", nonce_valid_length);
   ("nonce_valid_length_middle", nonce_valid_length_middle);
   ("nonce_too_short", nonce_too_short); ("nonce_too_long", nonce_too_long);
   ("nonce_empty_is_rejected", nonce_empty_is_rejected);
   ("nonce_first_use_succeeds", nonce_first_use_succeeds);
   ("nonce_replay_rejected", nonce_replay_rejected);
   ("nonce_different_service_accounts_are_independent", nonce_different_service_accounts_are_independent)].
Lemma nonce_tests_pass : failed suite = [].
Proof. vm_compute. reflexivity. Qed.
End NonceTests.

Module ContextTests.
Definition auth_context_is_clone_and_debug : bool :=
  let ctx := mkAuthContext (from_uuid 1) (from_uuid 2) "test-key-id" "test-sa" Dev
               (Some (from_uuid 3)) in
  let cloned := ctx in all
  [assert_eq (ac_tenant_id cloned) (ac_tenant_id ctx);
   assert_eq (ac_service_account_id cloned) (ac_service_account_id ctx);
   assert_eq (ac_key_id cloned) (ac_key_id ctx);
   assert_eq (ac_service_account_name cloned) (ac_service_account_name ctx);
   assert_eq (ac_environment cloned) (ac_environment ctx);
   is_some (ac_default_policy_id cloned)].

Definition suite : list (string * bool) :=
  [("auth_context_is_clone_and_debug", auth_context_is_clone_and_debug)].
Lemma context_tests_pass : failed suite = [].
Proof. vm_compute. reflexivity. Qed.
End ContextTests.

Module VerifierTests.
Definition vk : string := of_bytes (Z.of_nat <$> seq 100 32).
Definition other_vk : string := of_bytes (Z.of_nat <$> seq 101 32).
Definition sign (sk canonical : string) : string := b64_encode (as_bytes (keyed sk canonical)).
Definition pkcs8_header : list Z := [48; 42; 48; 5; 6; 3; 43; 101; 112; 3; 33; 0].
Definition armour (lines : list string) : string :=
  "-----BEGIN PUBLIC KEY-----" +:+ LF_str +:+
  str_join ((λ line, line +:+ LF_str) <$> lines) +:+ "-----END PUBLIC KEY-----".
Definition to_pem_pkcs8 (vk : string) : string := armour [b64_encode (pkcs8_header ++ as_bytes vk)].
Definition to_pem_raw (vk : string) : string := armour [b64_encode (as_bytes vk)].
Definition canonical : string :=
  build_canonical_string "POST" "/v1/chat/completions" "1700000000" "nonce123" "hash123".

Definition parse_pkcs8_pem : bool :=
  unwrap (parse_public_key (to_pem_pkcs8 vk)) (λ parsed, assert_eq (key_as_bytes parsed) vk).
Definition parse_raw_pem : bool :=
  unwrap (parse_public_key (to_pem_raw vk)) (λ parsed, assert_eq (key_as_bytes parsed) vk).
Definition parse_invalid_pem_returns_error : bool := is_err (parse_public_key "not a pem").
Definition parse_wrong_length_pem_returns_error : bool :=
  is_err (parse_public_key (armour [b64_encode (replicate 48 0)])).
Definition parse_pem_with_multiline_base64 : bool :=
  let b64 := b64_encode (pkcs8_header ++ as_bytes vk) in
  let mid := Nat.div (String.length b64) 2 in
  unwrap (parse_public_key (armour [String.substring 0 mid b64; str_drop mid b64])) (λ parsed,
    assert_eq (key_as_bytes parsed) vk).
Definition verify_valid_signature : bool := is_ok (verify_signature vk canonical (sign vk canonical)).
Definition verify_invalid_signature_returns_error : bool :=
  is_err (verify_signature vk canonical (b64_encode (replicate 64 0))).
Definition verify_tampered_canonical_returns_error : bool :=
  let tampered :=
    build_canonical_string "POST" "/v1/chat/completions" "1700000001" "nonce123" "hash123" in
  is_err (verify_signature vk tampered (sign vk canonical)).
Definition verify_bad_base64_signature_returns_error : bool :=
  is_err (verify_signature vk "canonical" "!!!not-base64!!!").
Definition verify_wrong_length_signature_returns_error : bool :=
  is_err (verify_signature vk "canonical" (b64_encode (replicate 32 0))).
Definition verify_with_wrong_key_returns_error : bool :=
  is_err (verify_signature other_vk canonical (sign vk canonical)).

Definition suite : list (string * bool) :=
  [("parse_pkcs8_pem", parse_pkcs8_pem); ("parse_raw_pem", parse_raw_pem);
   ("parse_invalid_pem_returns_error", parse_invalid_pem_returns_error);
   ("parse_wrong_length_pem_returns_error", parse_wrong_length_pem_returns_error);
   ("parse_pem_with_multiline_base64", parse_pem_with_multiline_base64);
   ("verify_valid_signature", verify_valid_signature);
   ("verify_invalid_signature_returns_error", verify_invalid_signature_returns_error);
   ("verify_tampered_canonical_returns_error", verify_tampered_canonical_returns_error);
   ("verify_bad_base64_signature_returns_error", verify_bad_base64_signature_returns_error);
   ("verify_wrong_length_signature_returns_error", verify_wrong_length_signature_returns_error);
   ("verify_with_wrong_key_returns_error", verify_with_wrong_key_returns_error)].
Lemma verifier_tests_pass : failed suite = [].
Proof. vm_compute. reflexivity. Qed.
End VerifierTests.

Module MiddlewareTests.
Definition extract_header_present : bool :=
  unwrap (extract_header {["x-key-id" := "my-key"]} "x-key-id") (λ v, assert_eq v "my-key").
Definition extract_header_missing : bool :=
  unwrap_err (extract_header ∅ "x-key-id") (λ err, all
    [assert_eq (status_code err) 401; contains (error_display err) "x-key-id"]).
Definition extract_header_non_ascii : bool :=
  is_err (extract_header {["x-key-id" := "value" +:+ String "255" ""]} "x-key-id").
Definition extract_header_empty_value : bool :=
  is_ok (extract_header {["x-key-id" := ""]} "x-key-id").
Definition extract_all_headers_succeeds : bool :=
  let headers := list_to_map [("x-service-account-id", "sa-1"); ("x-key-id", "key-1");
    ("x-timestamp", "123"); ("x-nonce", "nonce-1234567890"); ("x-body-sha256", "hash");
    ("x-signature", "sig")] in
  unwrap (extract_auth_headers headers) (λ ah, all
    [assert_eq (sa_id_str ah) "sa-1"; assert_eq (h_key_id ah) "key-1"]).
Definition extract_all_headers_missing_one_fails : bool :=
  is_err (extract_auth_headers {["x-service-account-id" := "sa-1"]}).

Definition suite : list (string * bool) :=
  [("extract_header_present", extract_header_present);
   ("extract_header_missing", extract_header_missing);
   ("extract_header_non_ascii", extract_header_non_ascii);
   ("extract_header_empty_value", extract_header_empty_value);
   ("extract_all_headers_succeeds", extract_all_headers_succeeds);
   ("extract_all_headers_missing_one_fails", extract_all_headers_missing_one_fails)].
Lemma middleware_tests_pass : failed suite = [].
Proof. vm_compute. reflexivity. Qed.
End MiddlewareTests.

Module KeyStoreTests.
Definition fresh : World := mem_world 0 [] ∅ empty_db.
Definition test_key : ServiceAccountKey :=
  mkServiceAccountKey (from_uuid 1) (from_uuid 2) "test-key" "ed25519" "pem-data" "fp" KeyActive
    None 0 None None.
Definition l1_cache_returns_none_on_miss : bool :=
  test_run (result ← l1_get "nonexistent"; mret (is_none result)) fresh.
Definition l1_cache_hit_after_insert : bool :=
  test_run (_ ← l1_insert "test-key" test_key; result ← l1_get "test-key";
            mret (expect result (λ key, assert_eq (key_key_id key) "test-key"))) fresh.

Definition suite : list (string * bool) :=
  [("l1_cache_returns_none_on_miss", l1_cache_returns_none_on_miss);
   ("l1_cache_hit_after_insert", l1_cache_hit_after_insert)].
Lemma key_store_tests_pass : failed suite = [].
Proof. vm_compute. reflexivity. Qed.
End KeyStoreTests.

Module CanonicalTests.
Definition empty_hash : string :=
  "e3b0c44298fc1c149afbf4c8996fb92427ae41e4649b934ca495991b7852b855".
Definition canonical_string_format : bool :=
  assert_eq
    (build_canonical_string "POST" "/v1/chat/completions" "1700000000" "abc123def456" empty_hash)
    ("POST" +:+ LF_str +:+ "/v1/chat/completions" +:+ LF_str +:+ "1700000000" +:+ LF_str +:+
     "abc123def456" +:+ LF_str +:+ empty_hash).
Definition canonical_string_with_query_params : bool :=
  contains (build_canonical_string "GET" "/v1/models?limit=10" "123" "nonce1" "hash1")
    "/v1/models?limit=10".
Definition canonical_string_get_request : bool :=
  starts_with (build_canonical_string "GET" "/v1/models" "123" "nonce1" "hash1") ("GET" +:+ LF_str).
Definition canonical_string_has_five_lines : bool :=
  assert_eq (str_lines (build_canonical_string "DELETE" "/v1/keys/k1" "999" "n1" "h1"))
    ["DELETE"; "/v1/keys/k1"; "999"; "n1"; "h1"].
Definition compute_hash_of_empty_body : bool := assert_eq (compute_body_hash "") empty_hash.
Definition compute_hash_of_json_body : bool :=
  let body := dq "{'model':'gpt-4','messages':[{'role':'user','content':'hello'}]}" in
  let hash := compute_body_hash body in all
  [assert_eq (str_len hash) 64; assert_eq hash (compute_body_hash body)].
Definition compute_hash_is_lowercase_hex : bool :=
  str_all is_lower_hex (compute_body_hash "test").
Definition verify_body_hash_matching : bool :=
  is_ok (verify_body_hash "test body" (compute_body_hash "test body")).
Definition verify_body_hash_mismatching : bool :=
  is_err (verify_body_hash "test body" (repeat_str 64 "0")).
Definition verify_body_hash_mismatch_error_code : bool :=
  unwrap_err (verify_body_hash "test body" "wrong_hash") (auth_code "body_hash_mismatch").
Definition verify_body_hash_empty_body : bool := is_ok (verify_body_hash "" empty_hash).
Definition different_bodies_produce_different_hashes : bool :=
  negb (assert_eq (compute_body_hash "body one") (compute_body_hash "body two")).

Definition suite : list (string * bool) :=
  [("canonical_string_format", canonical_string_format);
   ("canonical_string_with_query_params", canonical_string_with_query_params);
   ("canonical_string_get_request", canonical_string_get_request);
   ("canonical_string_has_five_lines", canonical_string_has_five_lines);
   ("compute_hash_of_empty_body", compute_hash_of_empty_body);
   ("compute_hash_of_json_body", compute_hash_of_json_body);
   ("compute_hash_is_lowercase_hex", compute_hash_is_lowercase_hex);
   ("verify_body_hash_matching", verify_body_hash_matching);
   ("verify_body_hash_mismatching", verify_body_hash_mismatching);
   ("verify_body_hash_mismatch_error_code", verify_body_hash_mismatch_error_code);
   ("verify_body_hash_empty_body", verify_body_hash_empty_body);
   ("different_bodies_produce_different_hashes", different_bodies_produce_different_hashes)].
Lemma canonical_tests_pass : failed suite = [].
Proof. vm_compute. reflexivity. Qed.
End CanonicalTests.
