(* ===== verification/ConfAdmin.v ===== *)
(** * The unit tests of the admin API
      (src/gateway/crates/gateway/src/api/admin/)

    mod.rs, tenants.rs, service_accounts.rs, routes.rs, auth.rs. The tests that check what
    [serde_json] accepts as a request body or prints as a reply are left out; bcrypt is the
    prefixing of AdminAuth.v. *)

From Stdlib Require Import Ascii.
From stdpp Require Import options.
From S2P Require Import Prelude Rust Types Errors Json Models PolicyMerge Backends Db World.
From S2P Require Import RateLimit Signing AppState KeyStore Auth AdminValidation AdminAuth Admin.
From S2P Require Import TestCrypto Conformance ConfAuth.

Module AdminModTests.
Definition with_char (n : N) (before after : string) : string :=
  before +:+ String (ascii_of_N n) after.
Definition validate_name_accepts_valid : bool := all
  [is_ok (validate_name "Acme Corp"); is_ok (validate_name "a");
   is_ok (validate_name (repeat_str 128 "x"))].
Definition validate_name_rejects_empty : bool := is_err (validate_name "").
Definition validate_name_rejects_too_long : bool := is_err (validate_name (repeat_str 129 "x")).
Definition validate_name_rejects_control_characters : bool := all
  [is_err (validate_name (with_char 0 "name" "with_null"));
   is_err (validate_name (with_char 10 "name" "with_newline"));
   is_err (validate_name (with_char 9 "name" "with_tab"))].
Definition validate_model_identifier_accepts_valid : bool := all
  [is_ok (validate_model_identifier "gpt-4-turbo" "model_alias");
   is_ok (validate_model_identifier "claude-3.5-sonnet" "model_alias");
   is_ok (validate_model_identifier "meta/llama-3:8b" "model_alias");
   is_ok (validate_model_identifier "gpt_4" "model_alias");
   is_ok (validate_model_identifier (repeat_str 128 "m") "model_alias")].
Definition validate_model_identifier_rejects_empty : bool :=
  is_err (validate_model_identifier "" "model_alias").
Definition validate_model_identifier_rejects_too_long : bool :=
  is_err (validate_model_identifier (repeat_str 129 "m") "model_alias").
Definition validate_model_identifier_rejects_spaces : bool :=
  is_err (validate_model_identifier "gpt 4 turbo" "model_alias").
Definition validate_model_identifier_rejects_special_chars : bool := all
  [is_err (validate_model_identifier "gpt-4@turbo" "model_alias");
   is_err (validate_model_identifier "model#1" "model_alias");
   is_err (validate_model_identifier (with_char 10 "model" "newline") "model_alias")].
Definition validate_key_id_accepts_valid : bool := all
  [is_ok (validate_key_id "key-123"); is_ok (validate_key_id "my_key_id");
   is_ok (validate_key_id "abc123"); is_ok (validate_key_id (repeat_str 128 "k"))].
Definition validate_key_id_rejects_empty : bool := is_err (validate_key_id "").
Definition validate_key_id_rejects_too_long : bool := is_err (validate_key_id (repeat_str 129 "k")).
Definition validate_key_id_rejects_special_chars : bool := all
  [is_err (validate_key_id "key id"); is_err (validate_key_id "key.id");
   is_err (validate_key_id "key/id")].
Definition validate_limit_defaults_to_50 : bool :=
  unwrap (validate_limit None) (λ limit, assert_eq limit 50).
Definition validate_limit_accepts_valid_values : bool := all
  [unwrap (validate_limit (Some 1)) (λ limit, assert_eq limit 1);
   unwrap (validate_limit (Some 25)) (λ limit, assert_eq limit 25);
   unwrap (validate_limit (Some 200)) (λ limit, assert_eq limit 200)].
Definition validate_limit_rejects_zero : bool := is_err (validate_limit (Some 0)).
Definition validate_limit_rejects_negative : bool := is_err (validate_limit (Some (-1))).
Definition validate_limit_rejects_too_high : bool := is_err (validate_limit (Some 201)).
Definition json (ms : list string) : Value := JArray (JString <$> ms).
Definition validate_models_json_accepts_valid : bool := all
  [is_ok (validate_models_json (json []) "test");
   is_ok (validate_models_json (json ["gpt-4"; "claude-3*"]) "test");
   is_ok (validate_models_json (json ["*"]) "test");
   is_ok (validate_models_json (json ["meta/llama-3:8b*"]) "test")].
Definition validate_models_json_rejects_non_array : bool := all
  [is_err (validate_models_json (JString "not-array") "test");
   is_err (validate_models_json JNull "test"); is_err (validate_models_json (JObject []) "test")].
Definition validate_models_json_rejects_non_string_elements : bool := all
  [is_err (validate_models_json (JArray [JNumber "1"; JNumber "2"]) "test");
   is_err (validate_models_json (JArray [JString "ok"; JNull]) "test")].
Definition validate_models_json_rejects_invalid_model_content : bool := all
  [is_err (validate_models_json (json ["gpt 4"]) "test");
   is_err (validate_models_json (json [with_char 0 "gpt-4" "bad"]) "test");
   is_err (validate_models_json (json ["model@evil"]) "test");
   is_err (validate_models_json (json ["**"]) "test");
   is_err (validate_models_json (json ["gpt-4*-turbo"]) "test")].
Definition validate_token_limit_accepts_positive : bool := all
  [is_ok (validate_token_limit 1 "test"); is_ok (validate_token_limit 4096 "test");
   is_ok (validate_token_limit 1000000 "test")].
Definition validate_token_limit_rejects_zero_and_negative : bool := all
  [is_err (validate_token_limit 0 "test"); is_err (validate_token_limit (-1) "test");
   is_err (validate_token_limit I32_MIN "test")].
Definition validate_token_limit_rejects_exceeding_max : bool := all
  [is_err (validate_token_limit 1000001 "test"); is_err (validate_token_limit I32_MAX "test")].
Definition validate_positive_limit_accepts_valid_rpm : bool := all
  [is_ok (validate_positive_limit 1 "rpm_limit"); is_ok (validate_positive_limit 60 "rpm_limit");
   is_ok (validate_positive_limit 100000 "rpm_limit")].
Definition validate_positive_limit_accepts_valid_concurrency : bool := all
  [is_ok (validate_positive_limit 1 "concurrency_limit");
   is_ok (validate_positive_limit 10000 "concurrency_limit")].
Definition validate_positive_limit_rejects_zero_and_negative : bool := all
  [is_err (validate_positive_limit 0 "rpm_limit"); is_err (validate_positive_limit (-1) "rpm_limit");
   is_err (validate_positive_limit I32_MIN "concurrency_limit")].
Definition validate_positive_limit_rejects_exceeding_max : bool := all
  [is_err (validate_positive_limit 100001 "rpm_limit");
   is_err (validate_positive_limit 10001 "concurrency_limit");
   is_err (validate_positive_limit I32_MAX "rpm_limit")].

Definition suite : list (string * bool) :=
  [("validate_name_accepts_valid", validate_name_accepts_valid);
   ("validate_name_rejects_empty", validate_name_rejects_empty);
   ("validate_name_rejects_too_long", validate_name_rejects_too_long);
   ("validate_name_rejects_control_characters", validate_name_rejects_control_characters);
   ("validate_model_identifier_accepts_valid", validate_model_identifier_accepts_valid);
   ("validate_model_identifier_rejects_empty", validate_model_identifier_rejects_empty);
   ("validate_model_identifier_rejects_too_long", validate_model_identifier_rejects_too_long);
   ("validate_model_identifier_rejects_spaces", validate_model_identifier_rejects_spaces);
   ("validate_model_identifier_rejects_special_chars", validate_model_identifier_rejects_special_chars);
   ("validate_key_id_accepts_valid", validate_key_id_accepts_valid);
   ("validate_key_id_rejects_empty", validate_key_id_rejects_empty);
   ("validate_key_id_rejects_too_long", validate_key_id_rejects_too_long);
   ("validate_key_id_rejects_special_chars", validate_key_id_rejects_special_chars);
   ("validate_limit_defaults_to_50", validate_limit_defaults_to_50);
   ("validate_limit_accepts_valid_values", validate_limit_accepts_valid_values);
   ("validate_limit_rejects_zero", validate_limit_rejects_zero);
   ("validate_limit_rejects_negative", validate_limit_rejects_negative);
   ("validate_limit_rejects_too_high", validate_limit_rejects_too_high);
   ("validate_models_json_accepts_valid", validate_models_json_accepts_valid);
   ("validate_models_json_rejects_non_array", validate_models_json_rejects_non_array);
   ("validate_models_json_rejects_non_string_elements", validate_models_json_rejects_non_string_elements);
   ("validate_models_json_rejects_invalid_model_content", validate_models_json_rejects_invalid_model_content);
   ("validate_token_limit_accepts_positive", validate_token_limit_accepts_positive);
   ("validate_token_limit_rejects_zero_and_negative", validate_token_limit_rejects_zero_and_negative);
   ("validate_token_limit_rejects_exceeding_max", validate_token_limit_rejects_exceeding_max);
   ("validate_positive_limit_accepts_valid_rpm", validate_positive_limit_accepts_valid_rpm);
   ("validate_positive_limit_accepts_valid_concurrency", validate_positive_limit_accepts_valid_concurrency);
   ("validate_positive_limit_rejects_zero_and_negative", validate_positive_limit_rejects_zero_and_negative);
   ("validate_positive_limit_rejects_exceeding_max", validate_positive_limit_rejects_exceeding_max)].
Lemma admin_mod_tests_pass : failed suite = [].
Proof. vm_compute. reflexivity. Qed.
End AdminModTests.

Module TenantsTests.
Definition valid_slugs : bool := all
  [is_ok (validate_slug "my-tenant"); is_ok (validate_slug "abc");
   is_ok (validate_slug "tenant-123"); is_ok (validate_slug "a1b")].
Definition valid_slug_max_length : bool := is_ok (validate_slug (repeat_str 63 "a")).
Definition valid_slug_min_length : bool := is_ok (validate_slug "abc").
Definition invalid_slug_too_short : bool := all
  [is_err (validate_slug "ab"); is_err (validate_slug "a"); is_err (validate_slug "")].
Definition invalid_slug_too_long : bool := is_err (validate_slug (repeat_str 64 "a")).
Definition invalid_slug_uppercase : bool := all
  [is_err (validate_slug "MyTenant"); is_err (validate_slug "ABC")].
Definition invalid_slug_special_chars : bool := all
  [is_err (validate_slug "my_tenant"); is_err (validate_slug "my.tenant");
   is_err (validate_slug "my tenant")].
Definition invalid_slug_starts_with_hyphen : bool := is_err (validate_slug "-slug").
Definition invalid_slug_ends_with_hyphen : bool := is_err (validate_slug "slug-").
Definition invalid_slug_starts_and_ends_with_hyphen : bool := is_err (validate_slug "-slug-").
Definition map_not_found_to_404 : bool :=
  match map_storage_error (SNotFound "tenant" "id" "abc") with
  | ENotFound code message => all [assert_eq code "not_found"; contains message "tenant"]
  | _ => false
  end.
Definition map_conflict_to_409 : bool :=
  match map_storage_error (SConflict "tenants" "slug already exists") with
  | EConflict code message => all [assert_eq code "conflict"; contains message "duplicate"]
  | _ => false
  end.
Definition map_invalid_cursor_to_validation : bool :=
  match map_storage_error (SInvalidCursor "bad") with
  | EValidation code _ => assert_eq code "invalid_cursor"
  | _ => false
  end.

Definition suite : list (string * bool) :=
  [("valid_slugs", valid_slugs); ("valid_slug_max_length", valid_slug_max_length);
   ("valid_slug_min_length", valid_slug_min_length);
   ("invalid_slug_too_short", invalid_slug_too_short);
   ("invalid_slug_too_long", invalid_slug_too_long);
   ("invalid_slug_uppercase", invalid_slug_uppercase);
   ("invalid_slug_special_chars", invalid_slug_special_chars);
   ("invalid_slug_starts_with_hyphen", invalid_slug_starts_with_hyphen);
   ("invalid_slug_ends_with_hyphen", invalid_slug_ends_with_hyphen);
   ("invalid_slug_starts_and_ends_with_hyphen", invalid_slug_starts_and_ends_with_hyphen);
   ("map_not_found_to_404", map_not_found_to_404); ("map_conflict_to_409", map_conflict_to_409);
   ("map_invalid_cursor_to_validation", map_invalid_cursor_to_validation)].
Lemma tenants_tests_pass : failed suite = [].
Proof. vm_compute. reflexivity. Qed.
End TenantsTests.

Module ServiceAccountsTests.
#[local] Existing Instance test_crypto.
Definition valid_slugs : bool := all
  [is_ok (validate_slug "abc"); is_ok (validate_slug "my-service-account");
   is_ok (validate_slug "sa-123"); is_ok (validate_slug (repeat_str 63 "a"))].
Definition slug_too_short : bool := is_err (validate_slug "ab").
Definition slug_too_long : bool := is_err (validate_slug (repeat_str 64 "a")).
Definition slug_must_start_with_letter : bool := all
  [is_err (validate_slug "1-abc"); is_err (validate_slug "-abc")].
Definition slug_no_uppercase : bool := is_err (validate_slug "My-Slug").
Definition slug_no_special_chars : bool := all
  [is_err (validate_slug "my_slug"); is_err (validate_slug "my.slug")].
Definition parse_valid_environments : bool := all
  [unwrap (parse_environment "dev") (λ e, assert_eq e Dev);
   unwrap (parse_environment "staging") (λ e, assert_eq e Staging);
   unwrap (parse_environment "prod") (λ e, assert_eq e Prod)].
Definition parse_invalid_environment : bool := all
  [is_err (parse_environment "production"); is_err (parse_environment "DEV");
   is_err (parse_environment "")].
(** [[0u8; 32]], with the first byte set *)
Definition key_starting (b : Z) : string := of_bytes (b :: replicate 31 0).
Definition fingerprint_is_consistent : bool :=
  let fp1 := compute_key_fingerprint (key_starting 0) in
  let fp2 := compute_key_fingerprint (key_starting 0) in
  all [assert_eq fp1 fp2; assert_eq (String.length fp1) 64%nat].
Definition fingerprint_differs_for_different_keys : bool :=
  negb (assert_eq (compute_key_fingerprint (key_starting 0))
          (compute_key_fingerprint (key_starting 1))).

Definition suite : list (string * bool) :=
  [("valid_slugs", valid_slugs); ("slug_too_short", slug_too_short);
   ("slug_too_long", slug_too_long);
   ("slug_must_start_with_letter", slug_must_start_with_letter);
   ("slug_no_uppercase", slug_no_uppercase); ("slug_no_special_chars", slug_no_special_chars);
   ("parse_valid_environments", parse_valid_environments);
   ("parse_invalid_environment", parse_invalid_environment);
   ("fingerprint_is_consistent", fingerprint_is_consistent);
   ("fingerprint_differs_for_different_keys", fingerprint_differs_for_different_keys)].
Lemma service_accounts_tests_pass : failed suite = [].
Proof. vm_compute. reflexivity. Qed.
End ServiceAccountsTests.

Module AdminRoutesTests.
Definition valid_providers : bool := all
  [is_ok (validate_provider "openai"); is_ok (validate_provider "anthropic");
   is_ok (validate_provider "gemini"); is_ok (validate_provider "azure_openai");
   is_ok (validate_provider "vllm")].
Definition invalid_providers : bool := all
  [is_err (validate_provider "unknown"); is_err (validate_provider "OpenAI");
   is_err (validate_provider "")].

Definition suite : list (string * bool) :=
  [("valid_providers", valid_providers); ("invalid_providers", invalid_providers)].
Lemma admin_routes_tests_pass : failed suite = [].
Proof. vm_compute. reflexivity. Qed.
End AdminRoutesTests.

Module AdminAuthTests.
#[local] Existing Instances mem_backends toy_bcrypt last_first.
Definition admin_role_from_db_str_valid : bool := all
  [unwrap (role_from_db_str "admin") (λ r, assert_eq r RoleAdmin);
   unwrap (role_from_db_str "viewer") (λ r, assert_eq r RoleViewer)].
Definition admin_role_from_db_str_unknown : bool :=
  unwrap_err (role_from_db_str "superadmin") (λ err, assert_eq (status_code err) 401).
Definition require_admin_role_allows_admin : bool :=
  is_ok (require_admin_role (mkAdminContext 1 "test-admin" RoleAdmin)).
Definition require_admin_role_rejects_viewer : bool :=
  unwrap_err (require_admin_role (mkAdminContext 1 "test-viewer" RoleViewer))
    (λ err, assert_eq (status_code err) 403).
Definition extract_bearer_token_valid : bool :=
  unwrap (extract_bearer_token (Some "Bearer my-secret-key"))
    (λ token, assert_eq token "my-secret-key").
Definition extract_bearer_token_missing : bool :=
  unwrap_err (extract_bearer_token None) (λ err, assert_eq (status_code err) 401).
Definition extract_bearer_token_wrong_scheme : bool :=
  unwrap_err (extract_bearer_token (Some "Basic dXNlcjpwYXNz"))
    (λ err, assert_eq (status_code err) 401).
Definition extract_bearer_token_empty_token : bool :=
  unwrap_err (extract_bearer_token (Some "Bearer ")) (λ err, assert_eq (status_code err) 401).

(** The state of the integration tests, with a database and nothing else; a request that
    goes through the middleware to a handler of the test's own, in a database with the
    keys the test inserted. *)
Definition state : AppState := mkAppState 300 true false None false false None false false.
Definition hash (test_key : string) : string := "$2b$" +:+ test_key.
Definition oneshot (keys : list AdminApiKey) (authorization : option string)
    (handler : AdminContext → StatusCode) : StatusCode :=
  let table := list_to_map ((λ k, (ak_id k, k)) <$> keys) in
  match (admin_authenticate state authorization
           (mem_world 1000 [] ∅ (mkDb ∅ ∅ ∅ ∅ ∅ ∅ table ∅ ∅ ∅))).1 with
  | Ok ctx => handler ctx
  | Err err => status_code err
  end.
Definition ok_handler (_ : AdminContext) : StatusCode := 200.
Definition check_context (c : AdminContext) : StatusCode :=
  if bool_decide (role c = RoleViewer) && String.eqb (admin_name c) "context-test"
  then 200 else 500.

Definition admin_auth_valid_key : bool :=
  assert_eq 200 (oneshot [mkAdminApiKey 1 "test-key" (hash "test-admin-key-12345") "admin" true 0 None]
    (Some "Bearer test-admin-key-12345") ok_handler).
Definition admin_auth_invalid_key : bool :=
  assert_eq 401 (oneshot [mkAdminApiKey 1 "test-key" (hash "test-admin-key-12345") "admin" true 0 None]
    (Some "Bearer wrong-key") ok_handler).
Definition admin_auth_missing_header : bool := assert_eq 401 (oneshot [] None ok_handler).
Definition admin_auth_inactive_key_rejected : bool :=
  assert_eq 401 (oneshot [mkAdminApiKey 1 "inactive-key" (hash "test-inactive-key") "admin" false 0 None]
    (Some "Bearer test-inactive-key") ok_handler).
Definition admin_auth_injects_context : bool :=
  assert_eq 200 (oneshot [mkAdminApiKey 1 "context-test" (hash "test-context-key") "viewer" true 0 None]
    (Some "Bearer test-context-key") check_context).

Definition suite : list (string * bool) :=
  [("admin_role_from_db_str_valid", admin_role_from_db_str_valid);
   ("admin_role_from_db_str_unknown", admin_role_from_db_str_unknown);
   ("require_admin_role_allows_admin", require_admin_role_allows_admin);
   ("require_admin_role_rejects_viewer", require_admin_role_rejects_viewer);
   ("extract_bearer_token_valid", extract_bearer_token_valid);
   ("extract_bearer_token_missing", extract_bearer_token_missing);
   ("extract_bearer_token_wrong_scheme", extract_bearer_token_wrong_scheme);
   ("extract_bearer_token_empty_token", extract_bearer_token_empty_token);
   ("admin_auth_valid_key", admin_auth_valid_key);
   ("admin_auth_invalid_key", admin_auth_invalid_key);
   ("admin_auth_missing_header", admin_auth_missing_header);
   ("admin_auth_inactive_key_rejected", admin_auth_inactive_key_rejected);
   ("admin_auth_injects_context", admin_auth_injects_context)].
Lemma admin_auth_tests_pass : failed suite = [].
Proof. vm_compute. reflexivity. Qed.
End AdminAuthTests.
