(* ===== verification/ConfStorage.v ===== *)
(** * The database tests of the repositories
      (src/gateway/crates/gateway/src/storage/repositories/) and of routing/resolver.rs

    tenants.rs, service_accounts.rs, keys.rs, policies.rs, routes.rs, audit.rs, usage.rs.
    Each test starts from the empty tables of [#[sqlx::test]], on a day the partitions of
    the usage events cover, with a millisecond between two statements. The seeding
    statements of the tests are the repositories' own with the columns' defaults. The
    tests of postgres.rs ask PostgreSQL about itself and are left out. *)

From Stdlib Require Import SpecFloat.
From stdpp Require Import options.
From S2P Require Import Prelude Rust Types Errors Json Models PolicyMerge Backends Db World.
From S2P Require Import Float64 RateLimit Repositories Metering MeteringProps PricingProps Listing.
From S2P Require Import Router.
From S2P Require Import Conformance.
#[local] Existing Instances mem_backends hyphenated bits_codec exact_pg code_collation.

(** ** The fixture *)

Definition pool : World :=
  with_supply ((λ n, Z.of_nat n * 2 ^ 96 + 162846547351857217832374013157) <$> seq 1 60)
    (mem_world april (replicate 60 (mkStep 1 None)) ∅ empty_db).
Definition sqlx_test (test : IO World StorageError bool) : bool := test_run test pool.

Definition not_found_err {A} (r : result StorageError A) : bool :=
  match r with Err (SNotFound _ _ _) => true | _ => false end.
Definition conflict_err {A} (r : result StorageError A) : bool :=
  match r with Err (SConflict _ _) => true | _ => false end.
(** [v[key] == text], [v[key] == true] *)
Definition field_is_str (v : Value) (key text : string) : bool :=
  match json_get key v with Some (JString s) => String.eqb s text | _ => false end.
Definition field_is_true (v : Value) (key : string) : bool :=
  match json_get key v with Some (JBool b) => b | _ => false end.

(** [format!("{prefix}{}", Uuid::new_v4())] *)
Definition fresh_name (prefix : string) : IO World StorageError string :=
  id ← new_uuid; mret (prefix +:+ uuid_to_string id).
Definition create_test_tenant : IO World StorageError Tenant :=
  id ← new_uuid; name ← fresh_name "Test "; slug ← fresh_name "test-";
  TenantRepo.create (mkCreateTenant (from_uuid id) name slug TenantActive (JObject [])).
Definition create_test_service_account (tenant : TenantId) (description : option string)
    : IO World StorageError ServiceAccount :=
  id ← new_uuid; name ← fresh_name "SA "; slug ← fresh_name "sa-";
  ServiceAccountRepo.create
    (mkCreateServiceAccount (from_uuid id) tenant name slug Dev description SaActive None).
(** A loop that awaits each iteration. *)
Fixpoint for_in {A B} (l : list A) (body : A → IO World StorageError B)
    : IO World StorageError (list B) :=
  match l with
  | [] => mret []
  | a :: l => b ← body a; bs ← for_in l body; mret (b :: bs)
  end.
Definition disjoint {A} `{!EqDecision A} (l k : list A) : bool :=
  forallb (λ x, negb (bool_decide (x ∈ l))) k.

Module TenantRepoTests.
Definition create_and_get : bool := sqlx_test (
  id ← new_uuid;
  created ← TenantRepo.create (mkCreateTenant (from_uuid id) "Acme Corp" "acme-corp" TenantActive
              (JObject [("tier", JString "enterprise")]));
  fetched ← TenantRepo.get_by_id (tenant_id created);
  mret (all
    [assert_eq (tenant_name created) "Acme Corp"; assert_eq (tenant_slug created) "acme-corp";
     assert_eq (tenant_status created) TenantActive;
     field_is_str (tenant_metadata created) "tier" "enterprise";
     assert_eq (tenant_id fetched) (tenant_id created);
     assert_eq (tenant_name fetched) (tenant_name created)])).
Definition get_by_slug : bool := sqlx_test (
  slug ← fresh_name "slug-"; id ← new_uuid;
  created ← TenantRepo.create
              (mkCreateTenant (from_uuid id) "By Slug" slug TenantActive (JObject []));
  fetched ← TenantRepo.get_by_slug slug;
  mret (assert_eq (tenant_id fetched) (tenant_id created))).
Definition duplicate_slug_conflict : bool := sqlx_test (
  slug ← fresh_name "dup-"; id ← new_uuid; id2 ← new_uuid;
  _ ← TenantRepo.create (mkCreateTenant (from_uuid id) "First" slug TenantActive (JObject []));
  result ← io_try
    (TenantRepo.create (mkCreateTenant (from_uuid id2) "Second" slug TenantActive (JObject [])));
  mret (conflict_err result)).
Definition list_with_pagination : bool := sqlx_test (
  _ ← for_in ["0"; "1"; "2"; "3"; "4"] (λ i,
        id ← new_uuid; slug ← fresh_name ("tenant-" +:+ i +:+ "-");
        TenantRepo.create
          (mkCreateTenant (from_uuid id) ("Tenant " +:+ i) slug TenantActive (JObject [])));
  page1 ← TenantRepo.list None 3 None;
  page2 ← TenantRepo.list (next_cursor page1) 3 None;
  mret (all
    [assert_eq (length (items page1)) 3%nat; has_more page1; is_some (next_cursor page1);
     assert_eq (length (items page2)) 2%nat; negb (has_more page2); is_none (next_cursor page2);
     disjoint (tenant_id <$> items page1) (tenant_id <$> items page2)])).
Definition update : bool := sqlx_test (
  tenant ← create_test_tenant;
  updated ← TenantRepo.update (tenant_id tenant)
    (mkUpdateTenant (Some "New Name") None None (Some (JObject [("updated", JBool true)])));
  mret (all
    [assert_eq (tenant_name updated) "New Name"; field_is_true (tenant_metadata updated) "updated";
     assert_eq (tenant_slug updated) (tenant_slug tenant)])).
Definition soft_delete : bool := sqlx_test (
  tenant ← create_test_tenant;
  deleted ← TenantRepo.soft_delete (tenant_id tenant);
  fetched ← TenantRepo.get_by_id (tenant_id tenant);
  mret (all
    [assert_eq (tenant_status tenant) TenantActive; assert_eq (tenant_status deleted) TenantDeleted;
     assert_eq (tenant_status fetched) TenantDeleted])).
Definition soft_delete_cascades_service_account_suspension : bool := sqlx_test (
  tenant ← create_test_tenant;
  let account name prefix :=
    id ← new_uuid; slug ← fresh_name prefix;
    ServiceAccountRepo.create
      (mkCreateServiceAccount (from_uuid id) (tenant_id tenant) name slug Dev None SaActive None) in
  active_sa ← account "Active SA" "active-sa-";
  suspended_sa ← account "Suspended SA" "suspended-sa-";
  _ ← ServiceAccountRepo.suspend (tenant_id tenant) (sa_id suspended_sa);
  deleted ← TenantRepo.soft_delete (tenant_id tenant);
  fetched_active ← ServiceAccountRepo.get_by_id (tenant_id tenant) (sa_id active_sa);
  fetched_suspended ← ServiceAccountRepo.get_by_id (tenant_id tenant) (sa_id suspended_sa);
  mret (all
    [assert_eq (tenant_status deleted) TenantDeleted;
     assert_eq (sa_status fetched_active) SaSuspended;
     assert_eq (sa_status fetched_suspended) SaSuspended])).
Definition get_nonexistent_not_found : bool := sqlx_test (
  id ← new_uuid; result ← io_try (TenantRepo.get_by_id (from_uuid id));
  mret (not_found_err result)).

Definition suite : list (string * bool) :=
  [("create_and_get", create_and_get); ("get_by_slug", get_by_slug);
   ("duplicate_slug_conflict", duplicate_slug_conflict);
   ("list_with_pagination", list_with_pagination); ("update", update);
   ("soft_delete", soft_delete);
   ("soft_delete_cascades_service_account_suspension", soft_delete_cascades_service_account_suspension);
   ("get_nonexistent_not_found", get_nonexistent_not_found)].
Lemma tenant_repo_tests_pass : failed suite = [].
Proof. vm_compute. reflexivity. Qed.
End TenantRepoTests.

Module ServiceAccountRepoTests.
(** The description its fixture gives every account. *)
Definition create_account (tenant : TenantId) : IO World StorageError ServiceAccount :=
  create_test_service_account tenant (Some "test service account").

Definition create_and_get : bool := sqlx_test (
  tenant ← create_test_tenant; id ← new_uuid;
  created ← ServiceAccountRepo.create
    (mkCreateServiceAccount (from_uuid id) (tenant_id tenant) "My SA" "my-sa" Prod
       (Some "production account") SaActive None);
  fetched ← ServiceAccountRepo.get_by_id (tenant_id tenant) (sa_id created);
  mret (all
    [assert_eq (sa_name created) "My SA"; assert_eq (sa_tenant_id created) (tenant_id tenant);
     assert_eq (sa_environment created) Prod; assert_eq (sa_status created) SaActive;
     assert_eq (sa_description created) (Some "production account");
     assert_eq (sa_id fetched) (sa_id created)])).
Definition list_by_tenant : bool := sqlx_test (
  tenant ← create_test_tenant;
  _ ← for_in (seq 0 4) (λ _, create_account (tenant_id tenant));
  page1 ← ServiceAccountRepo.list_by_tenant (tenant_id tenant) None 2;
  page2 ← ServiceAccountRepo.list_by_tenant (tenant_id tenant) (next_cursor page1) 2;
  mret (all
    [assert_eq (length (items page1)) 2%nat; has_more page1;
     assert_eq (length (items page2)) 2%nat; negb (has_more page2)])).
Definition suspend_and_activate : bool := sqlx_test (
  tenant ← create_test_tenant; sa ← create_account (tenant_id tenant);
  suspended ← ServiceAccountRepo.suspend (tenant_id tenant) (sa_id sa);
  activated ← ServiceAccountRepo.activate (tenant_id tenant) (sa_id sa);
  mret (all
    [assert_eq (sa_status sa) SaActive; assert_eq (sa_status suspended) SaSuspended;
     assert_eq (sa_status activated) SaActive])).
Definition cross_tenant_isolation : bool := sqlx_test (
  tenant_a ← create_test_tenant; tenant_b ← create_test_tenant;
  sa ← create_account (tenant_id tenant_a);
  result ← io_try (ServiceAccountRepo.get_by_id (tenant_id tenant_b) (sa_id sa));
  page ← ServiceAccountRepo.list_by_tenant (tenant_id tenant_b) None 100;
  mret (all [not_found_err result; assert_eq (length (items page)) 0%nat])).
Definition get_with_tenant_status_active : bool := sqlx_test (
  tenant ← create_test_tenant; sa ← create_account (tenant_id tenant);
  result ← ServiceAccountRepo.get_with_tenant_status (sa_id sa);
  let account := ServiceAccountRepo.swt_account result in
  mret (all
    [assert_eq (sa_id account) (sa_id sa); assert_eq (sa_tenant_id account) (tenant_id tenant);
     assert_eq (sa_status account) SaActive;
     assert_eq (ServiceAccountRepo.swt_tenant_status result) TenantActive])).
Definition get_with_tenant_status_deleted_tenant : bool := sqlx_test (
  tenant ← create_test_tenant; sa ← create_account (tenant_id tenant);
  _ ← TenantRepo.soft_delete (tenant_id tenant);
  result ← ServiceAccountRepo.get_with_tenant_status (sa_id sa);
  mret (all
    [assert_eq (ServiceAccountRepo.swt_tenant_status result) TenantDeleted;
     assert_eq (sa_status (ServiceAccountRepo.swt_account result)) SaSuspended])).
Definition get_with_tenant_status_not_found : bool := sqlx_test (
  id ← new_uuid;
  result ← io_try (ServiceAccountRepo.get_with_tenant_status (from_uuid id));
  mret (not_found_err result)).

Definition suite : list (string * bool) :=
  [("create_and_get", create_and_get); ("list_by_tenant", list_by_tenant);
   ("suspend_and_activate", suspend_and_activate);
   ("cross_tenant_isolation", cross_tenant_isolation);
   ("get_with_tenant_status_active", get_with_tenant_status_active);
   ("get_with_tenant_status_deleted_tenant", get_with_tenant_status_deleted_tenant);
   ("get_with_tenant_status_not_found", get_with_tenant_status_not_found)].
Lemma service_account_repo_tests_pass : failed suite = [].
Proof. vm_compute. reflexivity. Qed.
End ServiceAccountRepoTests.

Module KeyRepoTests.
(** The text of the key, on one line. *)
Definition make_register_key (sa : ServiceAccountId) : IO World StorageError RegisterKey :=
  key_id ← fresh_name "key-"; fingerprint ← fresh_name "fp-";
  mret (mkRegisterKey sa key_id "ed25519"
          "-----BEGIN PUBLIC KEY-----MCowBQYDK2VwAyEA...-----END PUBLIC KEY-----" fingerprint None).
Definition setup : IO World StorageError (ServiceAccount * RegisterKey) :=
  tenant ← create_test_tenant; sa ← create_test_service_account (tenant_id tenant) None;
  input ← make_register_key (sa_id sa); mret (sa, input).

Definition register_and_get : bool := sqlx_test (
  '(sa, input) ← setup;
  created ← KeyRepo.register_key input;
  fetched ← KeyRepo.get_by_key_id (rk_key_id input);
  mret (all
    [assert_eq (key_key_id created) (rk_key_id input);
     assert_eq (key_service_account_id created) (sa_id sa); assert_eq (key_status created) KeyActive;
     is_none (key_revoked_at created); is_none (key_last_used_at created);
     assert_eq (key_uuid fetched) (key_uuid created)])).
Definition list_by_service_account : bool := sqlx_test (
  tenant ← create_test_tenant; sa ← create_test_service_account (tenant_id tenant) None;
  _ ← for_in (seq 0 3) (λ _, input ← make_register_key (sa_id sa); KeyRepo.register_key input);
  page ← KeyRepo.list_by_service_account (sa_id sa) None 50;
  mret (all
    [assert_eq (length (items page)) 3%nat; negb (has_more page);
     forallb (λ key, assert_eq (key_service_account_id key) (sa_id sa)) (items page)])).
Definition revoke_key : bool := sqlx_test (
  '(_, input) ← setup;
  created ← KeyRepo.register_key input;
  revoked ← KeyRepo.revoke (key_uuid created);
  fetched ← KeyRepo.get_by_key_id (key_key_id created);
  mret (all
    [assert_eq (key_status created) KeyActive; assert_eq (key_status revoked) KeyRevoked;
     is_some (key_revoked_at revoked); assert_eq (key_status fetched) KeyRevoked])).
Definition update_last_used : bool := sqlx_test (
  '(_, input) ← setup;
  created ← KeyRepo.register_key input;
  _ ← KeyRepo.update_last_used (key_uuid created);
  fetched ← KeyRepo.get_by_key_id (key_key_id created);
  mret (all [is_none (key_last_used_at created); is_some (key_last_used_at fetched)])).

Definition suite : list (string * bool) :=
  [("register_and_get", register_and_get); ("list_by_service_account", list_by_service_account);
   ("revoke_key", revoke_key); ("update_last_used", update_last_used)].
Lemma key_repo_tests_pass : failed suite = [].
Proof. vm_compute. reflexivity. Qed.
End KeyRepoTests.

Module PolicyRepoTests.
Definition create_test_sa (tenant : TenantId) : IO World StorageError ServiceAccount :=
  create_test_service_account tenant None.
Definition test_create_input (tenant : TenantId) : IO World StorageError CreatePolicy :=
  id ← new_uuid; name ← fresh_name "policy-";
  mret (mkCreatePolicy (from_uuid id) tenant name (Some "test policy")
          (JArray [JString "gpt-4"]) (JArray []) (Some 4096) (Some 2048) true false false
          (Some 100) (Some 10)).
Definition create_policy (tenant : TenantId) : IO World StorageError Policy :=
  input ← test_create_input tenant; PolicyRepo.create input.

Definition create_and_get : bool := sqlx_test (
  tenant ← create_test_tenant; input ← test_create_input (tenant_id tenant);
  created ← PolicyRepo.create input;
  fetched ← PolicyRepo.get_by_id (tenant_id tenant) (policy_id created);
  mret (all
    [assert_eq (policy_name created) (cp_name input);
     assert_eq (policy_tenant_id created) (tenant_id tenant);
     assert_eq (policy_max_input_tokens created) (Some 4096); policy_allow_streaming created;
     assert_eq (policy_id fetched) (policy_id created);
     assert_eq (policy_name fetched) (policy_name created)])).
Definition list_by_tenant : bool := sqlx_test (
  tenant ← create_test_tenant;
  _ ← for_in (seq 0 3) (λ _, create_policy (tenant_id tenant));
  page1 ← PolicyRepo.list_by_tenant (tenant_id tenant) None 2;
  page2 ← PolicyRepo.list_by_tenant (tenant_id tenant) (next_cursor page1) 2;
  mret (all
    [assert_eq (length (items page1)) 2%nat; is_some (next_cursor page1);
     assert_eq (length (items page2)) 1%nat; is_none (next_cursor page2);
     disjoint (policy_id <$> items page1) (policy_id <$> items page2)])).
Definition update_policy : bool := sqlx_test (
  tenant ← create_test_tenant; created ← create_policy (tenant_id tenant);
  updated ← PolicyRepo.update (tenant_id tenant) (policy_id created)
    (mkUpdatePolicy (Some "updated-name") None None None (Some 8192) None None (Some true) None
       None None);
  mret (all
    [assert_eq (policy_name updated) "updated-name";
     assert_eq (policy_max_input_tokens updated) (Some 8192); policy_allow_tools updated;
     policy_allow_streaming updated; assert_eq (policy_max_output_tokens updated) (Some 2048)])).
Definition delete_policy : bool := sqlx_test (
  tenant ← create_test_tenant; created ← create_policy (tenant_id tenant);
  _ ← PolicyRepo.delete_policy (tenant_id tenant) (policy_id created);
  err ← io_try (PolicyRepo.get_by_id (tenant_id tenant) (policy_id created));
  mret (not_found_err err)).
Definition create_and_delete_binding : bool := sqlx_test (
  tenant ← create_test_tenant; sa ← create_test_sa (tenant_id tenant);
  policy ← create_policy (tenant_id tenant);
  binding ← PolicyRepo.create_binding (sa_id sa) (policy_id policy);
  dup ← io_try (PolicyRepo.create_binding (sa_id sa) (policy_id policy));
  _ ← PolicyRepo.delete_binding (sa_id sa) (policy_id policy);
  err ← io_try (PolicyRepo.delete_binding (sa_id sa) (policy_id policy));
  mret (all
    [assert_eq (binding_service_account_id binding) (sa_id sa);
     assert_eq (binding_policy_id binding) (policy_id policy);
     conflict_err dup; not_found_err err])).
Definition list_policies_for_service_account_with_default : bool := sqlx_test (
  tenant ← create_test_tenant; sa ← create_test_sa (tenant_id tenant);
  bound_policy ← create_policy (tenant_id tenant);
  default_policy ← create_policy (tenant_id tenant);
  _ ← PolicyRepo.create_binding (sa_id sa) (policy_id bound_policy);
  policies ← PolicyRepo.list_policies_for_service_account (sa_id sa) (Some (policy_id default_policy));
  policies_no_default ← PolicyRepo.list_policies_for_service_account (sa_id sa) None;
  _ ← PolicyRepo.create_binding (sa_id sa) (policy_id default_policy);
  policies_both ←
    PolicyRepo.list_policies_for_service_account (sa_id sa) (Some (policy_id default_policy));
  let ids := policy_id <$> policies in
  mret (all
    [assert_eq (length policies) 2%nat; bool_decide (policy_id bound_policy ∈ ids);
     bool_decide (policy_id default_policy ∈ ids);
     assert_eq (policy_id <$> policies_no_default) [policy_id bound_policy];
     assert_eq (length policies_both) 2%nat])).

Definition suite : list (string * bool) :=
  [("create_and_get", create_and_get); ("list_by_tenant", list_by_tenant);
   ("update_policy", update_policy); ("delete_policy", delete_policy);
   ("create_and_delete_binding", create_and_delete_binding);
   ("list_policies_for_service_account_with_default", list_policies_for_service_account_with_default)].
Lemma policy_repo_tests_pass : failed suite = [].
Proof. vm_compute. reflexivity. Qed.
End PolicyRepoTests.

Module RouteRepoTests.
(** The input, with the fields the tests change. *)
Definition test_route_input (tenant : option TenantId) (model : string) (priority : Z)
    (enabled : bool) : CreateRoute :=
  mkCreateRoute tenant "gpt-4" "openai" model (Some priority) (Some enabled) (Some 30000) (Some 2)
    (Some 500) (Some (JObject [("api_version", JString "2024-01")])).
(** The inputs inserted in order, then the resolution of the alias. *)
Definition resolved (inputs : TenantId → list CreateRoute) : bool * list string :=
  let test :=
    tenant ← create_test_tenant;
    _ ← for_in (inputs (tenant_id tenant)) RouteRepo.create;
    routes ← RouteRepo.resolve_routes (tenant_id tenant) "gpt-4";
    mret (route_provider_model_name <$> routes) in
  match (test pool).1 with Ok names => (true, names) | Err _ => (false, []) end.

Definition create_and_get : bool := sqlx_test (
  tenant ← create_test_tenant;
  created ← RouteRepo.create (test_route_input (Some (tenant_id tenant)) "gpt-4-turbo" 100 true);
  fetched ← RouteRepo.get_by_id (route_id created);
  mret (all
    [assert_eq (route_model_alias created) "gpt-4"; assert_eq (route_provider created) Openai;
     assert_eq (route_tenant_id created) (Some (tenant_id tenant));
     assert_eq (route_priority created) 100; route_enabled created;
     assert_eq (route_id fetched) (route_id created);
     assert_eq (route_model_alias fetched) (route_model_alias created)])).
Definition resolve_routes_priority_order : bool :=
  assert_eq (resolved (λ tenant,
      [test_route_input (Some tenant) "gpt-4-low" 200 true;
       test_route_input (Some tenant) "gpt-4-high" 10 true;
       test_route_input (Some tenant) "gpt-4-mid" 50 true]))
    (true, ["gpt-4-high"; "gpt-4-mid"; "gpt-4-low"]).
Definition resolve_routes_tenant_before_global : bool :=
  assert_eq (resolved (λ tenant,
      [test_route_input None "gpt-4-global" 10 true;
       test_route_input (Some tenant) "gpt-4-scoped" 50 true]))
    (true, ["gpt-4-scoped"; "gpt-4-global"]).
Definition resolve_routes_excludes_disabled : bool :=
  assert_eq (resolved (λ tenant,
      [test_route_input (Some tenant) "gpt-4-enabled" 100 true;
       test_route_input (Some tenant) "gpt-4-disabled" 100 false]))
    (true, ["gpt-4-enabled"]).
Definition update_route : bool := sqlx_test (
  tenant ← create_test_tenant;
  created ← RouteRepo.create (test_route_input (Some (tenant_id tenant)) "gpt-4-turbo" 100 true);
  updated ← RouteRepo.update (route_id created)
    (mkUpdateRoute None None (Some "gpt-4o") (Some 50) None None None None None);
  mret (all
    [assert_eq (route_provider_model_name updated) "gpt-4o"; assert_eq (route_priority updated) 50;
     assert_eq (route_provider updated) Openai; route_enabled updated])).
Definition delete_route : bool := sqlx_test (
  tenant ← create_test_tenant;
  created ← RouteRepo.create (test_route_input (Some (tenant_id tenant)) "gpt-4-turbo" 100 true);
  _ ← RouteRepo.delete_route (route_id created);
  err ← io_try (RouteRepo.get_by_id (route_id created));
  mret (not_found_err err)).

Definition suite : list (string * bool) :=
  [("create_and_get", create_and_get);
   ("resolve_routes_priority_order", resolve_routes_priority_order);
   ("resolve_routes_tenant_before_global", resolve_routes_tenant_before_global);
   ("resolve_routes_excludes_disabled", resolve_routes_excludes_disabled);
   ("update_route", update_route); ("delete_route", delete_route)].
Lemma route_repo_tests_pass : failed suite = [].
Proof. vm_compute. reflexivity. Qed.
End RouteRepoTests.

Module ResolverTests.
(** A new cache with a time to live of 60 seconds is part of [pool]; seeding stops the
    test when it fails. *)
Definition seeded {A} (m : IO World StorageError A) : IO World GatewayError A :=
  io_map_err (λ _, EStorage "seed" "insert failed") m.
Definition test_route_input (tenant : option TenantId) (alias provider_model : string)
    (priority : Z) : CreateRoute :=
  mkCreateRoute tenant alias "openai" provider_model (Some priority) (Some true) (Some 30000)
    (Some 1) (Some 250) (Some (JObject [])).
Definition models (routes : list ProviderRoute) : list string :=
  route_provider_model_name <$> routes.

Definition resolve_returns_routes_in_priority_order : bool := test_run (
  tenant ← seeded create_test_tenant;
  let input := test_route_input (Some (tenant_id tenant)) "gpt-4" in
  _ ← seeded (RouteRepo.create (input "gpt-4-low" 200));
  _ ← seeded (RouteRepo.create (input "gpt-4-high" 10));
  _ ← seeded (RouteRepo.create (input "gpt-4-mid" 50));
  routes ← resolve (tenant_id tenant) "gpt-4";
  mret (assert_eq (models routes) ["gpt-4-high"; "gpt-4-mid"; "gpt-4-low"])) pool.
Definition resolve_returns_error_when_no_routes : bool := test_run (
  tenant ← seeded create_test_tenant;
  result ← io_try (resolve (tenant_id tenant) "nonexistent");
  mret (unwrap_err result (routing_code "no_route"))) pool.
Definition resolve_includes_global_and_tenant_routes : bool := test_run (
  tenant ← seeded create_test_tenant;
  _ ← seeded (RouteRepo.create (test_route_input None "gpt-4" "gpt-4-global" 10));
  _ ← seeded (RouteRepo.create
        (test_route_input (Some (tenant_id tenant)) "gpt-4" "gpt-4-scoped" 50));
  routes ← resolve (tenant_id tenant) "gpt-4";
  mret (assert_eq (models routes) ["gpt-4-scoped"; "gpt-4-global"])) pool.
(** One [Arc] for both: no round trip was made in between. *)
Definition resolve_uses_cache_on_second_call : bool := test_run (
  tenant ← seeded create_test_tenant;
  _ ← seeded (RouteRepo.create
        (test_route_input (Some (tenant_id tenant)) "gpt-4" "gpt-4-turbo" 100));
  routes1 ← resolve (tenant_id tenant) "gpt-4";
  trips1 ← io_reads (λ w, length (script w));
  routes2 ← resolve (tenant_id tenant) "gpt-4";
  trips2 ← io_reads (λ w, length (script w));
  mret (all
    [assert_eq (length routes1) 1%nat; assert_eq (models routes1) (models routes2);
     assert_eq trips1 trips2])) pool.

Definition suite : list (string * bool) :=
  [("resolve_returns_routes_in_priority_order", resolve_returns_routes_in_priority_order);
   ("resolve_returns_error_when_no_routes", resolve_returns_error_when_no_routes);
   ("resolve_includes_global_and_tenant_routes", resolve_includes_global_and_tenant_routes);
   ("resolve_uses_cache_on_second_call", resolve_uses_cache_on_second_call)].
Lemma resolver_tests_pass : failed suite = [].
Proof. vm_compute. reflexivity. Qed.
End ResolverTests.

(** [dec!(n / 1000)] *)
Definition thousandths (n : Z) : Decimal := n * 10 ^ 25.
(** [seed_tenant], [seed_service_account] *)
Definition seed_tenant : IO World StorageError TenantId :=
  id ← new_uuid;
  tenant ← TenantRepo.create (mkCreateTenant (from_uuid id) "Test Tenant"
    ("test-tenant-" +:+ String.substring 0 8 (uuid_to_string id)) TenantActive (JObject []));
  mret (tenant_id tenant).
Definition seed_service_account (tenant : TenantId) : IO World StorageError ServiceAccountId :=
  id ← new_uuid;
  sa ← ServiceAccountRepo.create (mkCreateServiceAccount (from_uuid id) tenant "Test SA"
    ("test-sa-" +:+ String.substring 0 8 (uuid_to_string id)) Dev None SaActive None);
  mret (sa_id sa).

Module AuditRepoTests.
Import AuditRepo.
Definition make_audit (tenant : option TenantId) (action target_type : string)
    : IO World StorageError CreateAuditEvent :=
  actor ← fresh_name "user-"; target ← fresh_name "";
  mret (mkCreateAuditEvent tenant "admin_user" actor action target_type target (JObject [])).
Definition insert_made (tenant : TenantId) (kind : string * string)
    : IO World StorageError AuditEvent :=
  e ← make_audit (Some tenant) kind.1 kind.2; AuditRepo.insert_event e.
Definition any : AuditFilter := mkAuditFilter None None None None None None.

Definition insert_audit_event : bool := sqlx_test (
  tenant ← seed_tenant;
  event ← AuditRepo.insert_event (mkCreateAuditEvent (Some tenant) "admin_user" "user-123"
    "service_account.created" "service_account" "sa-456" (JObject [("name", JString "test-sa")]));
  mret (all
    [assert_eq (ae_tenant_id event) (Some tenant); assert_eq (ae_actor_type event) "admin_user";
     assert_eq (ae_actor_id event) "user-123"; assert_eq (ae_action event) "service_account.created";
     assert_eq (ae_target_type event) "service_account"; assert_eq (ae_target_id event) "sa-456";
     field_is_str (ae_metadata_json event) "name" "test-sa"])).
Definition insert_audit_event_system_no_tenant : bool := sqlx_test (
  event ← AuditRepo.insert_event
    (mkCreateAuditEvent None "system" "system" "startup" "gateway" "self" (JObject []));
  mret (is_none (ae_tenant_id event))).
Definition list_audit_with_filters : bool := sqlx_test (
  tenant ← seed_tenant;
  _ ← for_in [("service_account.created", "service_account"); ("key.revoked", "key");
              ("policy.updated", "policy")] (insert_made tenant);
  by_action ← AuditRepo.list_events (mkAuditFilter None (Some "key.revoked") None None None None) None 10;
  by_target ← AuditRepo.list_events (mkAuditFilter None None (Some "policy") None None None) None 10;
  by_tenant ← AuditRepo.list_events (mkAuditFilter (Some tenant) None None None None None) None 10;
  mret (all
    [assert_eq (ae_action <$> items by_action) ["key.revoked"];
     assert_eq (ae_target_type <$> items by_target) ["policy"];
     assert_eq (length (items by_tenant)) 3%nat])).
Definition list_audit_reverse_chronological : bool := sqlx_test (
  tenant ← seed_tenant;
  _ ← for_in ["first"; "second"; "third"; "fourth"; "fifth"]
        (λ action, insert_made tenant (action, "test"));
  page ← AuditRepo.list_events any None 10;
  page1 ← AuditRepo.list_events any None 2;
  page2 ← AuditRepo.list_events any (next_cursor page1) 2;
  page3 ← AuditRepo.list_events any (next_cursor page2) 2;
  let created := ae_created_at <$> items page in
  let all_ids := ae_id <$> items page1 ++ items page2 ++ items page3 in
  let unique_ids : gset AuditEventId := list_to_set all_ids in
  mret (all
    [assert_eq (length (items page)) 5%nat; is_none (next_cursor page);
     forallb (λ window, window.2 <=? window.1) (zip created (tail created));
     assert_eq (ae_action <$> head (items page)) (Some "fifth");
     assert_eq (length (items page1)) 2%nat; is_some (next_cursor page1);
     assert_eq (length (items page2)) 2%nat; is_some (next_cursor page2);
     assert_eq (length (items page3)) 1%nat; is_none (next_cursor page3);
     assert_eq (length all_ids) (size unique_ids)])).

Import PricingRepo.
Definition gpt4 (effective_from : option DateTime) : CreatePricingRule :=
  mkCreatePricingRule "openai" "gpt-4" (thousandths 30) (thousandths 60) effective_from.
Definition claude3 (input output : Z) (effective_from : option DateTime) : CreatePricingRule :=
  mkCreatePricingRule "anthropic" "claude-3" (thousandths input) (thousandths output)
    effective_from.
(** [Utc::now() - Duration::days(n)] *)
Definition days_ago (n : Z) : DateTime := (april - n * 86400000) * 1000.

Definition create_pricing_rule : bool := sqlx_test (
  rule ← PricingRepo.create (gpt4 None);
  mret (all
    [assert_eq (pr_provider rule) "openai"; assert_eq (pr_model_name rule) "gpt-4";
     assert_eq (pr_input_price_per_1k rule) (thousandths 30);
     assert_eq (pr_output_price_per_1k rule) (thousandths 60)])).
Definition create_pricing_rule_conflict : bool := sqlx_test (
  _ ← PricingRepo.create (gpt4 (Some (days_ago 0)));
  result ← io_try (PricingRepo.create (gpt4 (Some (days_ago 0))));
  mret (conflict_err result)).
Definition get_pricing_by_provider_model : bool := sqlx_test (
  result ← PricingRepo.get_by_provider_model "openai" "gpt-4";
  _ ← PricingRepo.create (gpt4 None);
  found ← PricingRepo.get_by_provider_model "openai" "gpt-4";
  mret (all
    [is_none result;
     expect found (λ rule,
       all [assert_eq (pr_provider rule) "openai"; assert_eq (pr_model_name rule) "gpt-4"])])).
Definition get_pricing_returns_most_recent_effective : bool := sqlx_test (
  _ ← PricingRepo.create (claude3 10 20 (Some (days_ago 30)));
  _ ← PricingRepo.create (claude3 15 30 (Some (days_ago 1)));
  found ← PricingRepo.get_by_provider_model "anthropic" "claude-3";
  mret (expect found (λ rule,
    all [assert_eq (pr_input_price_per_1k rule) (thousandths 15);
         assert_eq (pr_output_price_per_1k rule) (thousandths 30)]))).
Definition list_all_pricing : bool := sqlx_test (
  _ ← for_in [gpt4 None; claude3 10 20 None] PricingRepo.create;
  rules ← PricingRepo.list_all;
  mret (assert_eq (length rules) 2%nat)).

Definition suite : list (string * bool) :=
  [("insert_audit_event", insert_audit_event);
   ("insert_audit_event_system_no_tenant", insert_audit_event_system_no_tenant);
   ("list_audit_with_filters", list_audit_with_filters);
   ("list_audit_reverse_chronological", list_audit_reverse_chronological);
   ("create_pricing_rule", create_pricing_rule);
   ("create_pricing_rule_conflict", create_pricing_rule_conflict);
   ("get_pricing_by_provider_model", get_pricing_by_provider_model);
   ("get_pricing_returns_most_recent_effective", get_pricing_returns_most_recent_effective);
   ("list_all_pricing", list_all_pricing)].
Lemma audit_repo_tests_pass : failed suite = [].
Proof. vm_compute. reflexivity. Qed.
End AuditRepoTests.

Module UsageRepoTests.
Import UsageRepo.
(** The request of an event: a fresh one each. *)
Definition make_event (tenant : TenantId) (sa : ServiceAccountId) (provider model : string)
    (prompt completion : Z) (cost : Decimal) (latency : Z) (status : string)
    : IO World StorageError CreateUsageEvent :=
  request ← fresh_name "req-";
  mret (mkCreateUsageEvent request tenant sa None provider model (provider +:+ "/" +:+ model)
          prompt completion (prompt + completion) cost "USD" latency 0 status false).
(** Binding more arguments than the protocol counts: no test gets there. *)
Definition batch (events : list CreateUsageEvent) : IO World StorageError Z :=
  UsageRepo.batch_insert (SqlxOther "too many arguments") events.
Definition no_filter : UsageFilter := mkUsageFilter None None None None None None.
(** [(x - y).abs() < 0.01] *)
Definition close (x y : f64) : bool :=
  SFltb (SFabs (f64_sub x y)) (f64_div (f64_of_u64 1) (f64_of_u64 100)).

Definition insert_one_and_query : bool := sqlx_test (
  tenant ← seed_tenant; sa ← seed_service_account tenant;
  input ← make_event tenant sa "openai" "gpt-4" 100 50 (thousandths 15) 200 "success";
  event ← UsageRepo.insert_one input;
  mret (all
    [assert_eq (ue_request_id event) (cue_request_id input); assert_eq (ue_tenant_id event) tenant;
     assert_eq (ue_service_account_id event) sa; assert_eq (ue_provider event) "openai";
     assert_eq (ue_model_alias event) "gpt-4"; assert_eq (ue_prompt_tokens event) 100;
     assert_eq (ue_completion_tokens event) 50; assert_eq (ue_total_tokens event) 150;
     assert_eq (ue_estimated_cost event) (thousandths 15); assert_eq (ue_latency_ms event) 200;
     assert_eq (ue_final_status event) "success"])).
Definition batch_insert : bool := sqlx_test (
  tenant ← seed_tenant; sa ← seed_service_account tenant;
  events ← for_in [0; 1; 2; 3; 4] (λ i,
    make_event tenant sa "anthropic" "claude-3" (100 + i * 10) (50 + i * 5) (thousandths 10)
      (100 + i * 20) "success");
  count ← batch events;
  mret (assert_eq count 5)).
Definition batch_insert_empty : bool := sqlx_test (count ← batch []; mret (assert_eq count 0)).
Definition query_summary_aggregation : bool := sqlx_test (
  tenant ← seed_tenant; sa ← seed_service_account tenant;
  e1 ← make_event tenant sa "openai" "gpt-4" 100 50 (thousandths 10) 200 "success";
  e2 ← make_event tenant sa "openai" "gpt-4" 200 100 (thousandths 20) 300 "success";
  e3 ← make_event tenant sa "openai" "gpt-4" 50 25 (thousandths 5) 100 "error";
  _ ← batch [e1; e2; e3];
  summary ← UsageRepo.query_summary no_filter;
  mret (all
    [assert_eq (us_total_requests summary) 3; assert_eq (us_total_prompt_tokens summary) 350;
     assert_eq (us_total_completion_tokens summary) 175; assert_eq (us_total_tokens summary) 525;
     assert_eq (us_total_cost summary) (thousandths 35); assert_eq (us_error_count summary) 1;
     close (us_avg_latency_ms summary) (f64_of_u64 200)])).
Definition query_summary_with_filters : bool := sqlx_test (
  tenant ← seed_tenant; sa ← seed_service_account tenant;
  tenant2 ← seed_tenant; sa2 ← seed_service_account tenant2;
  e1 ← make_event tenant sa "openai" "gpt-4" 100 50 (thousandths 10) 200 "success";
  e2 ← make_event tenant sa "anthropic" "claude-3" 200 100 (thousandths 20) 300 "success";
  e3 ← make_event tenant2 sa2 "openai" "gpt-4" 300 150 (thousandths 30) 400 "success";
  _ ← batch [e1; e2; e3];
  by_tenant ← UsageRepo.query_summary (mkUsageFilter (Some tenant) None None None None None);
  by_provider ← UsageRepo.query_summary (mkUsageFilter None None None (Some "openai") None None);
  by_model ← UsageRepo.query_summary (mkUsageFilter None None (Some "claude-3") None None None);
  by_both ← UsageRepo.query_summary
    (mkUsageFilter (Some tenant) None None (Some "openai") None None);
  mret (all
    [assert_eq (us_total_requests by_tenant) 2; assert_eq (us_total_requests by_provider) 2;
     assert_eq (us_total_requests by_model) 1; assert_eq (us_total_prompt_tokens by_model) 200;
     assert_eq (us_total_requests by_both) 1])).
Definition query_summary_empty : bool := sqlx_test (
  summary ← UsageRepo.query_summary no_filter;
  mret (all
    [assert_eq (us_total_requests summary) 0; assert_eq (us_total_prompt_tokens summary) 0;
     assert_eq (us_total_completion_tokens summary) 0; assert_eq (us_total_tokens summary) 0;
     assert_eq (us_total_cost summary) (thousandths 0);
     close (us_avg_latency_ms summary) (f64_of_u64 0); assert_eq (us_error_count summary) 0])).

Definition suite : list (string * bool) :=
  [("insert_one_and_query", insert_one_and_query); ("batch_insert", batch_insert);
   ("batch_insert_empty", batch_insert_empty);
   ("query_summary_aggregation", query_summary_aggregation);
   ("query_summary_with_filters", query_summary_with_filters);
   ("query_summary_empty", query_summary_empty)].
Lemma usage_repo_tests_pass : Conformance.failed suite = [].
Proof. vm_compute. reflexivity. Qed.
End UsageRepoTests.
